(** * Execution-engine core: IPC command surface, undo tokens, and
      materialized-view maintenance.

    A shallow embedding of
    - [src/ee/voltdbipc.cpp]                       (modules [VoltDBIPC]
      and [IPCServer]),
    - [src/ee/execution/VoltDBEngine.h]            (modules [VoltDBEngine]
      and [EngineStrings]),
    - [src/ee/storage/MaterializedViewHandler.cpp] (modules
      [MaterializedViewHandler], [ViewInstall], [ViewSetup], [ViewTrace]
      and [ViewUnregister]),
    followed by the properties established for them. *)

From Stdlib Require Import ZArith Lia Bool Sorted.
From stdpp Require Import base option list gmap.

Local Open Scope Z_scope.

(* ===================================================================== *)
(** * The IPC command surface ([voltdbipc.cpp])                           *)
(* ===================================================================== *)

Module VoltDBIPC.

(** Modelled from the spec: the status bytes of the protocol.  They are
    declared in [voltdbipc.h]; the values are the ones of the
    "Status codes" list of the external-interface section. *)
Definition kErrorCode_None : Z := 0.
Definition kErrorCode_Error : Z := 1.
Definition kErrorCode_Success : Z := 2.
Definition kErrorCode_DependencyNotFound : Z := 3.
Definition kErrorCode_DependencyFound : Z := 4.
Definition kErrorCode_RetrieveDependency : Z := 5.

(** ** Bytes and network byte order *)

(** A byte on the wire is a [Z] in [0, 256). *)
Definition byte : Type := Z.

(** Reading a byte into an [int8_t]. *)
Definition to_int8 (b : byte) : Z :=
  let u := b mod 256 in if u <? 128 then u else u - 256.

(** Reinterpreting an unsigned 32-bit value as [int32_t]. *)
Definition to_int32 (u : Z) : Z :=
  let w := u mod 2^32 in if w <? 2^31 then w else w - 2^32.

(** The four bytes of a 32-bit value in network (big-endian) order:
    what [htonl] leaves in memory. *)
Definition htonl (v : Z) : list byte :=
  let w := v mod 2^32 in
  [ Z.shiftr w 24 mod 256; Z.shiftr w 16 mod 256;
    Z.shiftr w 8 mod 256; w mod 256 ].

(** [ntohl] of four bytes read from the wire, as an unsigned value. *)
Definition ntohl (bs : list byte) : Z :=
  fold_left (fun acc b => Z.lor (Z.shiftl acc 8) (b mod 256)) bs 0.

(** ** The socket *)

(** What the peer delivers: each [read] consumes (part of) the first
    segment.  [Chunk bs] is a run of bytes that arrives together,
    [ReadError] makes the next [read] return -1, and the end of the
    list is end of file ([read] returns 0). *)
Inductive segment : Type :=
| Chunk (bs : list byte)
| ReadError.

(** The file descriptor [m_fd]: pending input, the bytes written so far,
    and the results the next [write] calls report (none left: the write
    is complete). *)
Record Fd : Type := mkFd {
  fd_in : list segment;
  fd_out : list byte;
  fd_wr : list Z
}.

(** [read(m_fd, buf, n)]: the count returned, the bytes stored, and the
    descriptor afterwards. *)
Definition read (n : nat) (fd : Fd) : Z * list byte * Fd :=
  match fd_in fd with
  | [] => (0, [], fd)
  | ReadError :: rest => (-1, [], mkFd rest (fd_out fd) (fd_wr fd))
  | Chunk bs :: rest =>
      if decide (length bs <= n)%nat
      then (Z.of_nat (length bs), bs, mkFd rest (fd_out fd) (fd_wr fd))
      else (Z.of_nat n, take n bs,
            mkFd (Chunk (drop n bs) :: rest) (fd_out fd) (fd_wr fd))
  end.

(** [write(m_fd, msg, sizeof msg)]: the count returned and the descriptor
    afterwards. *)
Definition write (msg : list byte) (fd : Fd) : Z * Fd :=
  match fd_wr fd with
  | [] => (Z.of_nat (length msg), mkFd (fd_in fd) (fd_out fd ++ msg) [])
  | r :: rs => (r, mkFd (fd_in fd) (fd_out fd ++ take (Z.to_nat r) msg) rs)
  end.

(** ** [VoltDBIPC::retrieveDependency] *)

(** How a call ends: it returns a pointer (NULL or a buffer), or the
    process exits ([exit(-1)] after a failed blocking read or write, an
    unexpected response code, or a buffer that cannot be allocated). *)
Inductive Returned : Type :=
| RetNull
| RetBuffer (dependencyData : list byte) (dependencySz : Z)
| ProcessExit.

(** The loop that accumulates the dependency:
<<
    while (bytes != dependencyLength) {
        ssize_t oldBytes = bytes;
        bytes += read(m_fd, dependencyData + bytes, dependencyLength - bytes);
        if (oldBytes == bytes) break;
        if (oldBytes > bytes) { bytes++; break; }
    }
>>
    [fuel] bounds the number of iterations; [None] is "out of fuel". *)
Fixpoint read_loop (fuel : nat) (dependencyLength : Z)
    (bytes : Z) (dependencyData : list byte) (fd : Fd)
    : option (Z * list byte * Fd) :=
  if decide (bytes = dependencyLength) then Some (bytes, dependencyData, fd)
  else match fuel with
  | O => None
  | S fuel' =>
      let oldBytes := bytes in
      let '(r, got, fd') := read (Z.to_nat (dependencyLength - bytes)) fd in
      let bytes := bytes + r in
      if decide (oldBytes = bytes) then Some (bytes, dependencyData, fd')
      else if decide (oldBytes > bytes) then Some (bytes + 1, dependencyData, fd')
      else read_loop fuel' dependencyLength bytes (dependencyData ++ got) fd'
  end.

Definition retrieveDependency (dependencyId : Z) (fd : Fd)
    : option (Returned * Fd) :=
  (* tell java to send the dependency over the socket *)
  let message := kErrorCode_RetrieveDependency :: htonl dependencyId in
  let '(bytes, fd1) := write message fd in
  if decide (bytes ≠ 1 + 4) then Some (ProcessExit, fd1) else
  (* read java's response code *)
  let '(bytes, got, fd2) := read 1 fd1 in
  if decide (bytes ≠ 1) then Some (ProcessExit, fd2) else
  let responseCode := to_int8 (default 0 (head got)) in
  (* deal with error response codes *)
  if decide (kErrorCode_DependencyNotFound = responseCode)
  then Some (RetNull, fd2)
  else if decide (kErrorCode_DependencyFound ≠ responseCode)
  then Some (ProcessExit, fd2) else
  (* start reading the dependency. its length is first *)
  let '(bytes, got, fd3) := read 4 fd2 in
  if decide (bytes ≠ 4) then Some (ProcessExit, fd3) else
  let dependencyLength := to_int32 (ntohl got) in
  (* new char[dependencyLength] cannot be allocated for a negative length *)
  if decide (dependencyLength < 0) then Some (ProcessExit, fd3) else
  match read_loop (S (Z.to_nat dependencyLength)) dependencyLength 0 [] fd3 with
  | None => None
  | Some (bytes, dependencyData, fd4) =>
      if decide (bytes ≠ dependencyLength) then Some (ProcessExit, fd4)
      else Some (RetBuffer dependencyData dependencyLength, fd4)
  end.

(** ** [VoltDBIPC::execute] and the catalog commands *)

(** [struct ipc_command]: the header fields as they arrive (network byte
    order) and the payload. *)
Record ipc_command : Type := mk_ipc_command {
  msgsize : list byte;
  command : list byte;
  data : list byte
}.

(** [std::string(cmd->data)]: the payload up to its first NUL. *)
Fixpoint c_string (bs : list byte) : list byte :=
  match bs with
  | [] => []
  | b :: rest => if decide (b = 0) then [] else b :: c_string rest
  end.

(** The two catalog entry points of the engine that this file calls. *)
Class EngineOps (Engine : Type) : Type := {
  engine_loadCatalog : list byte -> Engine -> bool * Engine;
  engine_updateCatalog : list byte -> Engine -> bool * Engine
}.

(** Commands whose handler returns a status byte for [execute] to write,
    and commands whose handler writes its own reply. *)
Inductive SimpleCommand : Type :=
| initialize | toggleProfiler | tick | loadTable | releaseUndoToken
| undoUndoToken | setLogLevels | quiesce | activateCopyOnWrite.

Inductive DirectCommand : Type :=
| getStats | executeQueryPlanFragmentsAndGetResults
| executePlanFragmentAndGetResults
| executeCustomPlanFragmentAndGetResults | cowSerializeMore.

(** What [execute] does to the process. *)
Inductive Executed (S : Type) : Type :=
| Continue (terminate : bool) (ipc : S)
| Exit.
Arguments Continue {S} terminate ipc.
Arguments Exit {S}.

Section Execute.
Context {Engine : Type} `{EngineOps Engine}.

Record IPC : Type := mkIPC {
  m_fd : Fd;
  m_engine : option Engine;
  m_terminate : bool
}.

(** The handlers that are not embedded here. *)
Variable simple_handler : SimpleCommand -> ipc_command -> IPC -> Z * IPC.
Variable direct_handler : DirectCommand -> ipc_command -> IPC -> IPC.

Definition stub (cmd : ipc_command) (ipc : IPC) : Z * IPC :=
  (kErrorCode_Error, ipc).

Definition loadCatalog (cmd : ipc_command) (ipc : IPC) : Z * IPC :=
  match m_engine ipc with
  | None => (kErrorCode_Error, ipc)
  | Some e =>
      let '(ok, e') := engine_loadCatalog (c_string (data cmd)) e in
      (if ok then kErrorCode_Success else kErrorCode_Error,
       mkIPC (m_fd ipc) (Some e') (m_terminate ipc))
  end.

Definition updateCatalog (cmd : ipc_command) (ipc : IPC) : Z * IPC :=
  match m_engine ipc with
  | None => (kErrorCode_Error, ipc)
  | Some e =>
      let '(ok, e') := engine_updateCatalog (c_string (data cmd)) e in
      (if ok then kErrorCode_Success else kErrorCode_Error,
       mkIPC (m_fd ipc) (Some e') (m_terminate ipc))
  end.

(** The [switch (ntohl(cmd->command))] of [execute]: the status byte
    left in [result] and the state after the handler ran. *)
Definition dispatch (cmd : ipc_command) (ipc : IPC) : Z * IPC :=
  match ntohl (command cmd) with
  | 0 => simple_handler initialize cmd ipc
  | 2 => loadCatalog cmd ipc
  | 3 => simple_handler toggleProfiler cmd ipc
  | 4 => simple_handler tick cmd ipc
  | 5 => (kErrorCode_None, direct_handler getStats cmd ipc)
  | 6 => (kErrorCode_None,
          direct_handler executeQueryPlanFragmentsAndGetResults cmd ipc)
  | 7 => (kErrorCode_None,
          direct_handler executePlanFragmentAndGetResults cmd ipc)
  | 9 => simple_handler loadTable cmd ipc
  | 10 => simple_handler releaseUndoToken cmd ipc
  | 11 => simple_handler undoUndoToken cmd ipc
  | 12 => (kErrorCode_None,
           direct_handler executeCustomPlanFragmentAndGetResults cmd ipc)
  | 13 => simple_handler setLogLevels cmd ipc
  | 16 => simple_handler quiesce cmd ipc
  | 17 => simple_handler activateCopyOnWrite cmd ipc
  | 18 => (kErrorCode_None, direct_handler cowSerializeMore cmd ipc)
  | 19 => loadCatalog cmd ipc
  | _ => stub cmd ipc
  end.

Definition execute (cmd : ipc_command) (ipc : IPC) : Executed IPC :=
  let '(result, ipc1) := dispatch cmd ipc in
  (* write results for the simple commands *)
  if decide (result ≠ kErrorCode_None) then
    let '(bytes, fd') :=
      if decide (result = kErrorCode_Error)
      then write [result; 0; 0] (m_fd ipc1)
      else write [result] (m_fd ipc1) in
    if decide (bytes ≠ 1) then Exit
    else Continue (m_terminate ipc1)
                  (mkIPC fd' (m_engine ipc1) (m_terminate ipc1))
  else Continue (m_terminate ipc1) ipc1.
End Execute.

Arguments IPC Engine : clear implicits.

(** An engine that only records which catalog entry point was called, and
    with which payload; every call succeeds. *)
Inductive EngineCall : Type :=
| CallLoadCatalog (payload : list byte)
| CallUpdateCatalog (payload : list byte).

#[export] Instance recording_engine : EngineOps (list EngineCall) := {|
  engine_loadCatalog p e := (true, e ++ [CallLoadCatalog p]);
  engine_updateCatalog p e := (true, e ++ [CallUpdateCatalog p])
|}.

End VoltDBIPC.

(* ===================================================================== *)
(** * Undo tokens ([VoltDBEngine.h])                                      *)
(* ===================================================================== *)

Module VoltDBEngine.

Definition INT64_MAX : Z := 2^63 - 1.

(** An undo quantum, as far as this header looks into it: its token. *)
Record UndoQuantum : Type := mkUndoQuantum { getUndoToken : Z }.

(** The engine state [setUndoToken] touches: the quanta of [m_undoLog],
    oldest first, and [m_currentUndoQuantum] ([None] is [nullptr]). *)
Record Engine : Type := mkEngine {
  m_undoLog : list UndoQuantum;
  m_currentUndoQuantum : option UndoQuantum
}.

(** Modelled from the spec: [UndoLog::generateUndoQuantum], defined in
    [UndoLog.h].  It "opens a new quantum": a quantum tagged with the
    token joins the log and is handed back. *)
Definition generateUndoQuantum (nextUndoToken : Z) (log : list UndoQuantum)
    : UndoQuantum * list UndoQuantum :=
  let q := mkUndoQuantum nextUndoToken in (q, log ++ [q]).

(** Modelled from the spec: [VoltDBEngine::setCurrentUndoQuantum], only
    declared in the header.  The quantum becomes the engine's current
    undo quantum. *)
Definition setCurrentUndoQuantum (q : UndoQuantum) (e : Engine) : Engine :=
  mkEngine (m_undoLog e) (Some q).

(** A call returns, or stops at a failed [vassert]. *)
Inductive Outcome : Type :=
| Returns (e : Engine)
| AssertionFailed.

Section SetUndoToken.
(** [NDEBUG = true] is the build in which [vassert] expands to nothing. *)
Variable NDEBUG : bool.

Definition setUndoToken (nextUndoToken : Z) (e : Engine) : Outcome :=
  let generate :=
    let '(q, log) := generateUndoQuantum nextUndoToken (m_undoLog e) in
    Returns (setCurrentUndoQuantum q (mkEngine log (m_currentUndoQuantum e)))
  in
  if decide (nextUndoToken = INT64_MAX) then Returns e
  else match m_currentUndoQuantum e with
  | Some cur =>
      if decide (getUndoToken cur = nextUndoToken) then Returns e
      else if NDEBUG || bool_decide (nextUndoToken > getUndoToken cur)
      then generate
      else AssertionFailed
  | None => generate
  end.

(** Successive calls, as a session issues them. *)
Fixpoint setUndoTokens (tokens : list Z) (e : Engine) : Outcome :=
  match tokens with
  | [] => Returns e
  | t :: rest =>
      match setUndoToken t e with
      | Returns e' => setUndoTokens rest e'
      | AssertionFailed => AssertionFailed
      end
  end.
End SetUndoToken.

(** The condition the [vassert] of [setUndoToken] states. *)
Definition asserted (nextUndoToken : Z) (e : Engine) : Prop :=
  forall cur, m_currentUndoQuantum e = Some cur ->
    nextUndoToken > getUndoToken cur.

(** The same along a session: every call meets the asserted condition in
    the state it is made in. *)
Fixpoint all_asserted (NDEBUG : bool) (tokens : list Z) (e : Engine) : Prop :=
  match tokens with
  | [] => True
  | t :: rest =>
      (t = INT64_MAX \/
       (exists cur, m_currentUndoQuantum e = Some cur /\ getUndoToken cur = t) \/
       asserted t e) /\
      forall e', setUndoToken NDEBUG t e = Returns e' ->
                 all_asserted NDEBUG rest e'
  end.

End VoltDBEngine.

(* ===================================================================== *)
(** * Materialized-view maintenance ([MaterializedViewHandler.cpp])       *)
(* ===================================================================== *)

Module MaterializedViewHandler.

(** The aggregate kinds a view column may have; every other expression
    type is [EXPRESSION_TYPE_OTHER]. *)
Inductive ExpressionType : Type :=
| EXPRESSION_TYPE_AGGREGATE_COUNT
| EXPRESSION_TYPE_AGGREGATE_COUNT_STAR
| EXPRESSION_TYPE_AGGREGATE_SUM
| EXPRESSION_TYPE_AGGREGATE_MIN
| EXPRESSION_TYPE_AGGREGATE_MAX
| EXPRESSION_TYPE_OTHER (code : Z).

(** Column types of a schema, by their code. *)
Definition ValueType : Type := Z.

(** The operations of [NValue] (declared in [common/NValue.hpp]) that the
    handler uses.  The value type itself is a parameter. *)
Class NValueOps (NValue : Type) : Type := {
  nvalue_default : NValue;                 (* NValue() *)
  isNull : NValue -> bool;
  isZero : NValue -> bool;
  op_add : NValue -> NValue -> NValue;
  op_subtract : NValue -> NValue -> NValue;
  compare : NValue -> NValue -> Z;
  getBigIntValue : Z -> NValue;            (* ValueFactory::getBigIntValue *)
  getNullValue : ValueType -> NValue       (* NValue::getNullValue *)
}.

(** A row of values: the contents of a [TableTuple]. *)
Abbreviation Row NValue := (list NValue).

(** The configuration a handler gets at construction and keeps. *)
Record Handler : Type := mkHandler {
  m_groupByColumnCount : nat;
  m_aggColumnCount : nat;
  m_aggTypes : list ExpressionType;
  m_countStarColumnIndex : nat;
  m_createQueryExecutorVector : nat;
  m_minMaxExecutorVectors : list nat;
  schema : list ValueType                  (* m_destTable->schema() *)
}.

(** What a handler call can observe and change.  [m_existingTuple] is a
    tuple that points into the view table: it is the position of a row of
    [m_destTable], or [None] for the null tuple.  [deltaTableActive] holds
    the source tables that are in delta mode, and [trace] the calls made
    to the executors and to the view table so far, oldest first. *)
Inductive Event (NValue : Type) : Type :=
| EvCreateQuery (deltaTables : gset nat)
| EvFallbackQuery (columnIndex minMaxColumnIndex : nat) (deltaTables : gset nat)
| EvInsertTuple (tuple : Row NValue)
| EvUpdateTuple (target : nat) (tuple : Row NValue)
| EvDeleteTuple (target : nat).
Arguments EvCreateQuery {NValue} deltaTables.
Arguments EvFallbackQuery {NValue} columnIndex minMaxColumnIndex deltaTables.
Arguments EvInsertTuple {NValue} tuple.
Arguments EvUpdateTuple {NValue} target tuple.
Arguments EvDeleteTuple {NValue} target.

Record State (NValue : Type) : Type := mkState {
  m_destTable : list (Row NValue);
  m_existingTuple : option nat;
  m_updatedTuple : Row NValue;
  params : list NValue;      (* ec->getParameterContainer() *)
  deltaTableActive : gset nat;
  trace : list (Event NValue)
}.
Arguments mkState {NValue}.
Arguments m_destTable {NValue}.
Arguments m_existingTuple {NValue}.
Arguments m_updatedTuple {NValue}.
Arguments params {NValue}.
Arguments deltaTableActive {NValue}.
Arguments trace {NValue}.

(** How a call can end other than by returning. *)
Inductive Exn : Type :=
| FatalException        (* throwFatalException *)
| ExecutorException     (* thrown while a plan runs *)
| AssertionFailure      (* a failed assert *)
| OutOfBounds           (* an index outside its tuple, array or vector *)
| ConstraintViolation.  (* an insert that fails a uniqueness or NOT NULL check *)

(** The collaborators a handler calls but does not define: the build
    flag, the executors ([ExecutorContext::executeExecutors], which runs a
    plan against the engine state and yields a temp table, or throws), and
    the probe of the view's primary-key index
    ([moveToKeyByTuple] then [nextValueAtKey]) for a [groupBy]-column key,
    and the uniqueness and NOT NULL checks of the view table, which say
    whether a tuple may be inserted into the rows the table holds. *)
Class Collaborators (NValue : Type) : Type := {
  NDEBUG : bool;
  executeExecutors : nat -> State NValue -> option (list (Row NValue));
  nextValueAtKey : nat -> list (Row NValue) -> Row NValue -> option nat;
  violatesConstraint : list (Row NValue) -> Row NValue -> bool
}.

(** Calls thread the state and may throw. *)
Definition M (NValue : Type) (A : Type) : Type :=
  State NValue -> (Exn + A) * State NValue.

#[export] Instance M_ret {NValue} : MRet (M NValue) :=
  fun A a s => (inr a, s).
#[export] Instance M_bind {NValue} : MBind (M NValue) :=
  fun A B f m s =>
    match m s with
    | (inl e, s') => (inl e, s')
    | (inr a, s') => f a s'
    end.

Section Handler.
Context {NValue : Type} {ops : NValueOps NValue} {env : Collaborators NValue}.
Variable h : Handler.

Local Abbreviation M := (M NValue).
Local Abbreviation Row := (Row NValue).
Local Abbreviation State := (State NValue).

Definition throw {A} (e : Exn) : M A := fun s => (inl e, s).
Definition get : M State := fun s => (inr s, s).
Definition modify (f : State -> State) : M unit := fun s => (inr tt, f s).
Definition emit (ev : Event NValue) : M unit :=
  modify (fun s => mkState (m_destTable s) (m_existingTuple s)
                     (m_updatedTuple s) (params s) (deltaTableActive s)
                     (trace s ++ [ev])).

(** [assert(c)] *)
Definition assert (c : bool) : M unit :=
  if NDEBUG || c then mret tt else throw AssertionFailure.

(** [for (i = lo; i < lo + n; i++) acc = body(i, acc)] *)
Fixpoint for_range {B} (lo n : nat) (body : nat -> B -> M B) (acc : B) : M B :=
  match n with
  | O => mret acc
  | S n' => acc' ← body lo acc; for_range (S lo) n' body acc'
  end.

(** [while (ti->next(tuple)) body(tuple)] over the rows of a temp table. *)
Fixpoint for_each (rows : list Row) (body : Row -> M unit) : M unit :=
  match rows with
  | [] => mret tt
  | r :: rest => body r;; for_each rest body
  end.

(** *** Tuples, parameters and the view table *)

(** [tuple.getNValue(idx)] *)
Definition getNValue (tuple : Row) (idx : nat) : M NValue :=
  match tuple !! idx with
  | Some v => mret v
  | None => throw OutOfBounds
  end.

(** [m_existingTuple.getNValue(idx)] *)
Definition existingTuple_getNValue (idx : nat) : M NValue :=
  s ← get;
  match m_existingTuple s with
  | None => throw OutOfBounds
  | Some target =>
      match m_destTable s !! target with
      | Some tuple => getNValue tuple idx
      | None => throw OutOfBounds
      end
  end.

(** [m_updatedTuple.setNValue(idx, value)] *)
Definition updatedTuple_setNValue (idx : nat) (value : NValue) : M unit :=
  s ← get;
  if decide (idx < length (m_updatedTuple s))%nat
  then modify (fun s => mkState (m_destTable s) (m_existingTuple s)
                          (<[idx := value]> (m_updatedTuple s)) (params s)
                          (deltaTableActive s) (trace s))
  else throw OutOfBounds.

(** [params[i]] read and written *)
Definition params_get (i : nat) : M NValue :=
  s ← get;
  match params s !! i with
  | Some v => mret v
  | None => throw OutOfBounds
  end.

Definition params_set (i : nat) (value : NValue) : M unit :=
  s ← get;
  if decide (i < length (params s))%nat
  then modify (fun s => mkState (m_destTable s) (m_existingTuple s)
                          (m_updatedTuple s) (<[i := value]> (params s))
                          (deltaTableActive s) (trace s))
  else throw OutOfBounds.

Definition set_existingTuple (t : option nat) : M unit :=
  modify (fun s => mkState (m_destTable s) t (m_updatedTuple s) (params s)
                     (deltaTableActive s) (trace s)).

Definition set_destTable (rows : list Row) : M unit :=
  modify (fun s => mkState rows (m_existingTuple s) (m_updatedTuple s)
                     (params s) (deltaTableActive s) (trace s)).

Definition set_deltaTableActive (d : gset nat) : M unit :=
  modify (fun s => mkState (m_destTable s) (m_existingTuple s)
                     (m_updatedTuple s) (params s) d (trace s)).

(** Modelled from the spec: [ScopedDeltaTableContext], declared with the
    persistent table.  Constructing it puts the source table into delta
    mode, destroying it exits delta mode. *)
Definition ScopedDeltaTableContext_new (sourceTable : nat) : M unit :=
  s ← get; set_deltaTableActive ({[sourceTable]} ∪ deltaTableActive s).
Definition ScopedDeltaTableContext_delete (sourceTable : nat) : M unit :=
  s ← get; set_deltaTableActive (deltaTableActive s ∖ {[sourceTable]}).

(** Modelled from the spec: the [PersistentTable] operations on the view
    table, consumed through the storage interface.  Insert adds a row,
    update replaces the row the target tuple points to, delete removes
    it; each is recorded in the trace.  An insert that fails a
    uniqueness or NOT NULL check changes nothing: a fallible caller
    receives [ConstraintViolation] as an exception, for a caller that is
    not fallible the failure is fatal. *)
Definition insertPersistentTuple (tuple : Row) (fallible : bool) : M unit :=
  s ← get;
  if violatesConstraint (m_destTable s) tuple then
    if fallible then throw ConstraintViolation else throw FatalException
  else
    set_destTable (m_destTable s ++ [tuple]);;
    emit (EvInsertTuple tuple).

Definition updateTupleWithSpecificIndexes (fallible : bool) : M unit :=
  s ← get;
  match m_existingTuple s with
  | None => throw OutOfBounds
  | Some target =>
      if decide (target < length (m_destTable s))%nat then
        set_destTable (<[target := m_updatedTuple s]> (m_destTable s));;
        emit (EvUpdateTuple target (m_updatedTuple s))
      else throw OutOfBounds
  end.

Definition deleteTuple (fallible : bool) : M unit :=
  s ← get;
  match m_existingTuple s with
  | None => throw OutOfBounds
  | Some target =>
      if decide (target < length (m_destTable s))%nat then
        set_destTable (delete target (m_destTable s));;
        emit (EvDeleteTuple target)
      else throw OutOfBounds
  end.

(** [ec->executeExecutors(executorList)], recorded with the call site
    and the tables that are in delta mode while the plan runs. *)
Definition run_executors (site : gset nat -> Event NValue)
    (executorVector : nat) : M (list Row) :=
  s ← get;
  emit (site (deltaTableActive s));;
  s ← get;
  match executeExecutors executorVector s with
  | Some rows => mret rows
  | None => throw ExecutorException
  end.
(** [m_aggTypes[aggIndex]], [m_minMaxExecutorVectors[k]] and
    [schema()->columnType(idx)] *)
Definition aggTypes_at (aggIndex : nat) : M ExpressionType :=
  match m_aggTypes h !! aggIndex with
  | Some t => mret t
  | None => throw OutOfBounds
  end.

Definition minMaxExecutorVectors_at (k : nat) : M nat :=
  match m_minMaxExecutorVectors h !! k with
  | Some ev => mret ev
  | None => throw OutOfBounds
  end.

Definition columnType (idx : nat) : M ValueType :=
  match schema h !! idx with
  | Some t => mret t
  | None => throw OutOfBounds
  end.

Definition isNullTuple (t : option nat) : bool :=
  match t with None => true | Some _ => false end.

(** *** [findExistingTuple] *)

Definition findExistingTuple (deltaTuple : Row) : M bool :=
  (* For the case where there is no grouping column we directly return
     the only row in the view. *)
  if decide (m_groupByColumnCount h = 0)%nat then
    s ← get;
    (* iterator->next(m_existingTuple) *)
    match m_destTable s with
    | [] => mret tt
    | _ :: _ => set_existingTuple (Some 0%nat)
    end;;
    s ← get;
    assert (negb (isNullTuple (m_existingTuple s)));;
    mret true
  else
    s ← get;
    set_existingTuple
      (nextValueAtKey (m_groupByColumnCount h) (m_destTable s) deltaTuple);;
    s ← get;
    mret (negb (isNullTuple (m_existingTuple s))).

(** *** [mergeTupleForInsert] *)

(** The first loop of both merges: the group-by columns are pulled from
    the existing tuple. *)
Definition copy_groupBy_columns : M unit :=
  for_range 0 (m_groupByColumnCount h) (fun colindex _ =>
    value ← existingTuple_getNValue colindex;
    updatedTuple_setNValue colindex value) tt.

Definition mergeTupleForInsert (deltaTuple : Row) : M unit :=
  (* set up the group-by columns *)
  copy_groupBy_columns;;
  (* Aggregations *)
  let aggOffset := m_groupByColumnCount h in
  for_range 0 (m_aggColumnCount h) (fun aggIndex _ =>
    let columnIndex := (aggOffset + aggIndex)%nat in
    existingValue ← existingTuple_getNValue columnIndex;
    newValue ← getNValue deltaTuple columnIndex;
    newValue ←
      (if isNull newValue then mret existingValue
       else
         aggType ← aggTypes_at aggIndex;
         match aggType with
         | EXPRESSION_TYPE_AGGREGATE_SUM
         | EXPRESSION_TYPE_AGGREGATE_COUNT
         | EXPRESSION_TYPE_AGGREGATE_COUNT_STAR =>
             if negb (isNull existingValue)
             then mret (op_add existingValue newValue)
             else mret newValue
         | EXPRESSION_TYPE_AGGREGATE_MIN =>
             (* ignore any new value that is not strictly an improvement *)
             if negb (isNull existingValue)
                && bool_decide (compare newValue existingValue >= 0)
             then mret existingValue
             else mret newValue
         | EXPRESSION_TYPE_AGGREGATE_MAX =>
             if negb (isNull existingValue)
                && bool_decide (compare newValue existingValue <= 0)
             then mret existingValue
             else mret newValue
         | EXPRESSION_TYPE_OTHER _ =>
             assert false;; mret newValue
         end);
    updatedTuple_setNValue columnIndex newValue) tt.

(** *** [handleTupleInsert] *)

(** One turn of the [while (ti->next(deltaTuple))] loop of
    [handleTupleInsert]. *)
Definition handleTupleInsert_row (fallible : bool) (deltaTuple : Row) : M unit :=
  found ← findExistingTuple deltaTuple;
  if (found : bool) then
    mergeTupleForInsert deltaTuple;;
    updateTupleWithSpecificIndexes fallible
  else
    insertPersistentTuple deltaTuple fallible.

(** The source table is in delta mode for the lifespan of the scoped
    context: it leaves delta mode when the body returns and when it
    throws. *)
Definition handleTupleInsert (sourceTable : nat) (fallible : bool) : M unit :=
  fun s =>
    let body : M unit :=
      ScopedDeltaTableContext_new sourceTable;;
      delta ← run_executors EvCreateQuery (m_createQueryExecutorVector h);
      for_each delta (handleTupleInsert_row fallible) in
    let '(r, s') := body s in
    (r, (ScopedDeltaTableContext_delete sourceTable s').2).

(** *** [fallbackMinMaxColumn] *)

Definition fallbackMinMaxColumn (columnIndex minMaxColumnIndex : nat) : M NValue :=
  ty ← columnType columnIndex;
  let newValue := getNullValue ty in
  (* We first backup the params array and fill it with our parameters. *)
  let backups := replicate (m_groupByColumnCount h + 1) nvalue_default in
  backups ← for_range 0 (m_groupByColumnCount h) (fun i backups =>
    p ← params_get i;
    let backups := <[i := p]> backups in
    v ← existingTuple_getNValue i;
    params_set i v;;
    mret backups) backups;
  p ← params_get (m_groupByColumnCount h);
  let backups := <[m_groupByColumnCount h := p]> backups in
  v ← existingTuple_getNValue columnIndex;
  params_set (m_groupByColumnCount h) v;;
  (* Then we get the executor vectors we need to run: *)
  executorList ← minMaxExecutorVectors_at minMaxColumnIndex;
  resultTable ←
    run_executors (EvFallbackQuery columnIndex minMaxColumnIndex) executorList;
  newValue ←
    match resultTable with
    | resultTuple :: _ => getNValue resultTuple 0
    | [] => mret newValue
    end;
  (* Now put the original parameters back. *)
  for_range 0 (m_groupByColumnCount h + 1) (fun i _ =>
    match backups !! i with
    | Some b => params_set i b
    | None => throw OutOfBounds
    end) tt;;
  mret newValue.

(** *** [mergeTupleForDelete] *)

Definition mergeTupleForDelete (deltaTuple : Row) : M unit :=
  (* set up the group-by columns *)
  copy_groupBy_columns;;
  (* check new count of tuples *)
  existingCount ← existingTuple_getNValue (m_countStarColumnIndex h);
  deltaCount ← getNValue deltaTuple (m_countStarColumnIndex h);
  let newCount := op_subtract existingCount deltaCount in
  let aggOffset := m_groupByColumnCount h in
  if isZero newCount then
    (* no group by key, no rows, aggs will be null except for count(). *)
    for_range 0 (m_aggColumnCount h) (fun aggIndex _ =>
      let columnIndex := (aggOffset + aggIndex)%nat in
      aggType ← aggTypes_at aggIndex;
      newValue ←
        match aggType with
        | EXPRESSION_TYPE_AGGREGATE_COUNT
        | EXPRESSION_TYPE_AGGREGATE_COUNT_STAR => mret (getBigIntValue 0)
        | _ => ty ← columnType columnIndex; mret (getNullValue ty)
        end;
      updatedTuple_setNValue columnIndex newValue) tt
  else
    (* Aggregations *)
    for_range 0 (m_aggColumnCount h) (fun aggIndex minMaxColumnIndex =>
      let columnIndex := (aggOffset + aggIndex)%nat in
      existingValue ← existingTuple_getNValue columnIndex;
      deltaValue ← getNValue deltaTuple columnIndex;
      aggType ← aggTypes_at aggIndex;
      newValue ←
        (if negb (isNull deltaValue) then
           match aggType with
           | EXPRESSION_TYPE_AGGREGATE_COUNT_STAR
           | EXPRESSION_TYPE_AGGREGATE_SUM
           | EXPRESSION_TYPE_AGGREGATE_COUNT =>
               mret (op_subtract existingValue deltaValue)
           | EXPRESSION_TYPE_AGGREGATE_MIN
           | EXPRESSION_TYPE_AGGREGATE_MAX =>
               if decide (compare existingValue deltaValue = 0)
               then (* re-calculate MIN / MAX *)
                    fallbackMinMaxColumn columnIndex minMaxColumnIndex
               else mret existingValue
           | EXPRESSION_TYPE_OTHER _ =>
               assert false;; mret existingValue
           end
         else mret existingValue);
      let minMaxColumnIndex :=
        match aggType with
        | EXPRESSION_TYPE_AGGREGATE_MIN
        | EXPRESSION_TYPE_AGGREGATE_MAX => S minMaxColumnIndex
        | _ => minMaxColumnIndex
        end in
      updatedTuple_setNValue columnIndex newValue;;
      mret minMaxColumnIndex) 0%nat;;
    mret tt.

(** *** [handleTupleDelete] *)

(** One turn of the [while (ti->next(deltaTuple))] loop of
    [handleTupleDelete]. *)
Definition handleTupleDelete_row (fallible : bool) (deltaTuple : Row) : M unit :=
  found ← findExistingTuple deltaTuple;
  (if negb found then throw FatalException else mret tt);;
  existingCount ← existingTuple_getNValue (m_countStarColumnIndex h);
  deltaCount ← getNValue deltaTuple (m_countStarColumnIndex h);
  if bool_decide (compare existingCount deltaCount = 0)
     && bool_decide (0 < m_groupByColumnCount h)%nat
  then deleteTuple fallible
  else
    mergeTupleForDelete deltaTuple;;
    updateTupleWithSpecificIndexes fallible.

Definition handleTupleDelete (sourceTable : nat) (fallible : bool) : M unit :=
  ScopedDeltaTableContext_new sourceTable;;
  delta ← run_executors EvCreateQuery (m_createQueryExecutorVector h);
  (* The min/max value may need to be re-calculated, so we should
     terminate the delta table mode early in order to run other queries. *)
  ScopedDeltaTableContext_delete sourceTable;;
  for_each delta (handleTupleDelete_row fallible).
End Handler.

(** The row [m_existingTuple] points to, if it points to one. *)
Definition existingTuple_row {NValue : Type} (s : State NValue)
    : option (Row NValue) :=
  match m_existingTuple s with
  | Some target => m_destTable s !! target
  | None => None
  end.

(** Everything but the parameters and the trace is as in [s0]. *)
Definition same_view {NValue : Type} (s0 s : State NValue) : Prop :=
  m_destTable s = m_destTable s0 /\
  m_existingTuple s = m_existingTuple s0 /\
  m_updatedTuple s = m_updatedTuple s0 /\
  deltaTableActive s = deltaTableActive s0.

(** Only the scratch tuple [m_updatedTuple] may differ from [s0], and it
    keeps its width. *)
Definition scratch_only {NValue : Type} (s0 s : State NValue) : Prop :=
  m_destTable s = m_destTable s0 /\
  m_existingTuple s = m_existingTuple s0 /\
  params s = params s0 /\
  deltaTableActive s = deltaTableActive s0 /\
  trace s = trace s0 /\
  length (m_updatedTuple s) = length (m_updatedTuple s0).

(** The aggregate kinds a view may have: the ones that pass
    [setUpAggregateInfo]. *)
Definition supported (t : ExpressionType) : Prop :=
  match t with EXPRESSION_TYPE_OTHER _ => False | _ => True end.

(** The merged value of an aggregate column on insert, in the words of
    the specification: the existing value when the delta is null, the
    delta when the existing value is null, otherwise the sum for SUM,
    COUNT and COUNT_STAR, the smaller for MIN and the larger for MAX,
    the existing value being kept on ties. *)
Definition spec_merge_for_insert {NValue : Type} {ops : NValueOps NValue}
    (t : ExpressionType) (existing d : NValue) : NValue :=
  if isNull d then existing
  else if isNull existing then d
  else match t with
       | EXPRESSION_TYPE_AGGREGATE_SUM
       | EXPRESSION_TYPE_AGGREGATE_COUNT
       | EXPRESSION_TYPE_AGGREGATE_COUNT_STAR => op_add existing d
       | EXPRESSION_TYPE_AGGREGATE_MIN =>
           if bool_decide (compare existing d <= 0) then existing else d
       | EXPRESSION_TYPE_AGGREGATE_MAX =>
           if bool_decide (compare existing d >= 0) then existing else d
       | EXPRESSION_TYPE_OTHER _ => d
       end.

(** The view table, the existing tuple and the delta-mode flags are as
    in [s0], and the scratch tuple keeps its width. *)
Definition kept {NValue : Type} (s0 s : State NValue) : Prop :=
  m_destTable s = m_destTable s0 /\
  m_existingTuple s = m_existingTuple s0 /\
  deltaTableActive s = deltaTableActive s0 /\
  length (m_updatedTuple s) = length (m_updatedTuple s0).

(** A fallback query that ran with exactly the tables [D] in delta mode
    (every other kind of event passes). *)
Definition fallback_in {NValue : Type} (D : gset nat) (ev : Event NValue) : Prop :=
  match ev with
  | EvFallbackQuery _ _ D' => D' = D
  | _ => True
  end.

Definition is_fallback {NValue : Type} (ev : Event NValue) : Prop :=
  match ev with
  | EvFallbackQuery _ _ _ => True
  | _ => False
  end.

Definition is_min_max (t : ExpressionType) : bool :=
  match t with
  | EXPRESSION_TYPE_AGGREGATE_MIN | EXPRESSION_TYPE_AGGREGATE_MAX => true
  | _ => false
  end.

Definition is_count (t : ExpressionType) : bool :=
  match t with
  | EXPRESSION_TYPE_AGGREGATE_COUNT
  | EXPRESSION_TYPE_AGGREGATE_COUNT_STAR => true
  | _ => false
  end.

(** The position of aggregate [aggIndex] among the MIN and MAX
    aggregates of the view: the number of MIN and MAX aggregates before
    it. *)
Definition minMaxColumnIndex_of (h : Handler) (aggIndex : nat) : nat :=
  length (filter (fun t => is_min_max t = true) (take aggIndex (m_aggTypes h))).

(** Aggregate [aggIndex] is a MIN or MAX whose delta value is not null
    and compares equal to the existing value. *)
Definition extremum_removed {NValue : Type} {ops : NValueOps NValue}
    (h : Handler) (row deltaTuple : Row NValue) (aggIndex : nat) : Prop :=
  exists t e d,
    m_aggTypes h !! aggIndex = Some t /\ is_min_max t = true /\
    row !! (m_groupByColumnCount h + aggIndex)%nat = Some e /\
    deltaTuple !! (m_groupByColumnCount h + aggIndex)%nat = Some d /\
    isNull d = false /\ compare e d = 0.

(** The trace of [s] is the trace of [s0] followed by events that all
    satisfy [P]. *)
Definition extends_with {NValue : Type} (P : Event NValue -> Prop)
    (s0 s : State NValue) : Prop :=
  exists evs, trace s = trace s0 ++ evs /\ Forall P evs.

(** The events a call added to the trace. *)
Definition new_events {NValue : Type} (s0 s : State NValue)
    : list (Event NValue) :=
  drop (length (trace s0)) (trace s).

Definition fallback_ran_for {NValue : Type} (columnIndex : nat)
    (evs : list (Event NValue)) : Prop :=
  exists k D, EvFallbackQuery columnIndex k D ∈ evs.

Definition is_insert {NValue : Type} (ev : Event NValue) : Prop :=
  match ev with EvInsertTuple _ => True | _ => False end.

Definition is_delete {NValue : Type} (ev : Event NValue) : Prop :=
  match ev with EvDeleteTuple _ => True | _ => False end.

(** The specification's sentence on MIN and MAX in merge-for-delete, as
    it is written: for every MIN or MAX column, the fallback query is run
    exactly when the existing value equals the delta value, and otherwise
    the merged value is the existing one. *)
Definition recalculates_exactly_when_equal {NValue : Type}
    {ops : NValueOps NValue} {env : Collaborators NValue}
    (h : Handler) (deltaTuple : Row NValue) (s : State NValue) : Prop :=
  forall s' row,
    mergeTupleForDelete h deltaTuple s = (inr tt, s') ->
    existingTuple_row s = Some row ->
    forall aggIndex t e d,
      (aggIndex < m_aggColumnCount h)%nat ->
      m_aggTypes h !! aggIndex = Some t -> is_min_max t = true ->
      row !! (m_groupByColumnCount h + aggIndex)%nat = Some e ->
      deltaTuple !! (m_groupByColumnCount h + aggIndex)%nat = Some d ->
      (fallback_ran_for (m_groupByColumnCount h + aggIndex) (new_events s s')
       <-> compare e d = 0) /\
      (compare e d ≠ 0 ->
       m_updatedTuple s' !! (m_groupByColumnCount h + aggIndex)%nat = Some e).

(** The laws of [NValue] the properties below rely on: [compare] is a
    comparison (swapping the arguments swaps the sign), and two non-null
    values differ by zero exactly when they compare equal. *)
Class NValueLaws (NValue : Type) {ops : NValueOps NValue} : Prop := {
  compare_swap : forall a b : NValue, compare a b >= 0 <-> compare b a <= 0;
  subtract_isZero : forall a b : NValue,
    isNull a = false -> isNull b = false ->
    (isZero (op_subtract a b) = true <-> compare a b = 0)
}.

End MaterializedViewHandler.

(* ===================================================================== *)
(** * Installing and destroying handlers ([MaterializedViewHandler.cpp])  *)
(* ===================================================================== *)

Module ViewInstall.

(** Objects are named by their address, a [nat].  A pointer in a table's
    notify list is the handler itself or the
    [ReplicatedMaterializedViewHandler] that wraps it. *)
Inductive ViewHandlerRef : Type :=
| HandlerRef (handler : nat)
| ReplicatedWrapperRef (handler : nat).

#[export] Instance ViewHandlerRef_eq_dec : EqDecision ViewHandlerRef.
Proof. solve_decision. Defined.

Definition owner (r : ViewHandlerRef) : nat :=
  match r with HandlerRef x | ReplicatedWrapperRef x => x end.

(** The fields of a [PersistentTable] that matter here: the catalog flag,
    the handlers to notify when the table is a source ([m_viewHandlers]),
    and the handler installed on it when it is a view ([m_mvHandler]). *)
Record PersistentTable : Type := mkTable {
  isCatalogTableReplicated : bool;
  m_viewHandlers : list ViewHandlerRef;
  m_mvHandler : option nat
}.

(** A handler object: its view table, [m_sourceTables] (a [std::map] from
    table to relative index, kept in key order), whether
    [m_replicatedWrapper] has been created, and the flag [m_dirty], which
    has no value ([None]) until it is first assigned. *)
Record MaterializedViewHandler : Type := mkViewHandler {
  m_destTable : nat;
  m_sourceTables : list (nat * Z);
  m_replicatedWrapper : bool;
  m_dirty : option bool
}.

Record Heap : Type := mkHeap {
  tables : gmap nat PersistentTable;
  handlers : gmap nat MaterializedViewHandler
}.

(** Modelled from the spec: [PersistentTable::addViewHandler] and
    [PersistentTable::dropViewHandler], defined with the persistent
    table.  "The source keeps a list of handlers it must notify", and a
    handler that unregisters is removed from that list. *)
Definition addViewHandler (r : ViewHandlerRef) (t : PersistentTable)
    : PersistentTable :=
  mkTable (isCatalogTableReplicated t) (m_viewHandlers t ++ [r]) (m_mvHandler t).

Definition dropViewHandler (r : ViewHandlerRef) (t : PersistentTable)
    : PersistentTable :=
  mkTable (isCatalogTableReplicated t)
          (filter (fun r' => r' ≠ r) (m_viewHandlers t)) (m_mvHandler t).

(** [std::map::emplace]: the entry is added in key order unless the key is
    already there. *)
Fixpoint emplace (k : nat) (v : Z) (m : list (nat * Z)) : list (nat * Z) :=
  match m with
  | [] => [(k, v)]
  | (k', v') :: rest =>
      if decide (k < k')%nat then (k, v) :: m
      else if decide (k = k') then m
      else (k', v') :: emplace k v rest
  end.

Definition table_replicated (σ : Heap) (t : nat) : bool :=
  default false (isCatalogTableReplicated <$> tables σ !! t).

Definition sourceTables_of (σ : Heap) (hid : nat) : list (nat * Z) :=
  default [] (m_sourceTables <$> handlers σ !! hid).

Definition update_table (t : nat) (f : PersistentTable -> PersistentTable)
    (σ : Heap) : Heap :=
  mkHeap (alter f t (tables σ)) (handlers σ).

Definition update_handler (hid : nat)
    (f : MaterializedViewHandler -> MaterializedViewHandler) (σ : Heap) : Heap :=
  mkHeap (tables σ) (alter f hid (handlers σ)).

(** The embedding follows the build in which [assert] expands to nothing,
    and leaves out the replicated-resource lock, which has no effect on a
    single thread. *)

(** [MaterializedViewHandler::addSourceTable], called on handler [this]. *)
Definition addSourceTable (this : nat) (viewHandlerPartitioned : bool)
    (sourceTable : nat) (relativeTableIndex : Z) (σ : Heap) : Heap :=
  let σ :=
    if bool_decide (viewHandlerPartitioned = table_replicated σ sourceTable)
    then
      (* We are adding our (partitioned) ViewHandler to a Replicated Table *)
      let σ := update_handler this (fun H =>
                 mkViewHandler (m_destTable H) (m_sourceTables H) true
                               (m_dirty H)) σ in
      update_table sourceTable (addViewHandler (ReplicatedWrapperRef this)) σ
    else
      update_table sourceTable (addViewHandler (HandlerRef this)) σ in
  (* m_sourceTables.emplace(sourceTable, relativeTableIndex); m_dirty = true; *)
  update_handler this (fun H =>
    mkViewHandler (m_destTable H)
                  (emplace sourceTable relativeTableIndex (m_sourceTables H))
                  (m_replicatedWrapper H) (Some true)) σ.

(** [MaterializedViewHandler::dropSourceTable(bool, iterator)]; the
    iterator is given by the entry it points to. *)
Definition dropSourceTable (this : nat) (viewHandlerPartitioned : bool)
    (it : nat * Z) (σ : Heap) : Heap :=
  let sourceTable := it.1 in
  let σ :=
    if bool_decide (viewHandlerPartitioned = table_replicated σ sourceTable)
    then
      (* We are dropping our (partitioned) ViewHandler to a Replicated Table *)
      update_table sourceTable (dropViewHandler (ReplicatedWrapperRef this)) σ
    else
      update_table sourceTable (dropViewHandler (HandlerRef this)) σ in
  (* m_sourceTables.erase(it); m_dirty = true; *)
  update_handler this (fun H =>
    mkViewHandler (m_destTable H)
                  (filter (fun e => e.1 ≠ sourceTable) (m_sourceTables H))
                  (m_replicatedWrapper H) (Some true)) σ.

(** The [do { dropSourceTable(.., m_sourceTables.begin()); }
    while (!m_sourceTables.empty())] loop of the destructor, entered only
    with a non-empty map.  Every turn erases an entry, so [fuel] equal to
    the size of the map is enough. *)
Fixpoint drop_all_sourceTables (fuel : nat) (this : nat)
    (viewHandlerPartitioned : bool) (σ : Heap) : Heap :=
  match fuel with
  | O => σ
  | S fuel' =>
      match sourceTables_of σ this with
      | [] => σ
      | it :: _ =>
          drop_all_sourceTables fuel' this viewHandlerPartitioned
            (dropSourceTable this viewHandlerPartitioned it σ)
      end
  end.

(** [delete handler]: the destructor runs, then the object is gone.  (The
    wrapper, when there is one, is deleted with it; its own map of source
    tables is empty, so its destructor returns at once.) *)
Definition delete_handler (this : nat) (σ : Heap) : Heap :=
  match handlers σ !! this with
  | None => σ
  | Some H =>
      let σ :=
        if bool_decide (m_sourceTables H = []) then σ
        else
          let viewHandlerPartitioned :=
            negb (table_replicated σ (m_destTable H)) in
          drop_all_sourceTables (length (m_sourceTables H)) this
            viewHandlerPartitioned σ in
      mkHeap (tables σ) (delete this (handlers σ))
  end.

(** The first half of [install]: the handler installed on the view table,
    if any, is deleted. *)
Definition delete_existing_handler (destTable : nat) (σ : Heap) : Heap :=
  match tables σ !! destTable ≫= m_mvHandler with
  | Some old => delete_handler old σ
  | None => σ
  end.

(** The second half: the new handler is installed on the view table and
    on each source table. *)
Definition register_handler (this : nat) (destTable : nat)
    (sourceTables : list (nat * Z)) (σ : Heap) : Heap :=
  let σ := update_table destTable (fun t =>
             mkTable (isCatalogTableReplicated t) (m_viewHandlers t) (Some this)) σ in
  let viewHandlerPartitioned := negb (table_replicated σ destTable) in
  fold_left (fun σ ref =>
               addSourceTable this viewHandlerPartitioned ref.1 ref.2 σ)
            sourceTables σ.

(** [MaterializedViewHandler::install], on handler [this] whose view table
    is [destTable]; [sourceTables] are the table references of the
    catalog's handler info. *)
Definition install (this : nat) (destTable : nat)
    (sourceTables : list (nat * Z)) (σ : Heap) : Heap :=
  register_handler this destTable sourceTables
    (delete_existing_handler destTable σ).

(** The constructor, as far as installation goes: the object is created
    with no source tables, no wrapper and [m_dirty] not yet assigned,
    then installs itself.  (The constructor goes on to set the handler
    up and ends with [m_dirty = false].) *)
Definition new_MaterializedViewHandler (this : nat) (destTable : nat)
    (sourceTables : list (nat * Z)) (σ : Heap) : Heap :=
  install this destTable sourceTables
    (mkHeap (tables σ)
       (<[this := mkViewHandler destTable [] false None]> (handlers σ))).

(** The pointer a handler registers with a source table: the handler
    itself, or its wrapper when a partitioned handler meets a replicated
    table. *)
Definition pointer_for (viewHandlerPartitioned sourceReplicated : bool)
    (hid : nat) : ViewHandlerRef :=
  if bool_decide (viewHandlerPartitioned = sourceReplicated)
  then ReplicatedWrapperRef hid else HandlerRef hid.

Definition registered_as (σ : Heap) (hid : nat) (sourceTable : nat)
    : ViewHandlerRef :=
  match handlers σ !! hid with
  | Some H =>
      pointer_for (negb (table_replicated σ (m_destTable H)))
                  (table_replicated σ sourceTable) hid
  | None => HandlerRef hid
  end.

Definition notify_list (σ : Heap) (t : nat) : list ViewHandlerRef :=
  default [] (m_viewHandlers <$> tables σ !! t).

Definition installed_on (σ : Heap) (destTable : nat) : option nat :=
  tables σ !! destTable ≫= m_mvHandler.

(** Every pointer in a notify list belongs to a live handler that
    records the table among its sources, is the pointer that handler
    registers there, and that handler is the one installed on its view
    table. *)
Definition registered_consistently (σ : Heap) : Prop :=
  forall t r,
    r ∈ notify_list σ t ->
    exists H,
      handlers σ !! owner r = Some H /\
      t ∈ (m_sourceTables H).*1 /\
      r = registered_as σ (owner r) t /\
      installed_on σ (m_destTable H) = Some (owner r).

(** The handler installed on a table is a live handler of that table. *)
Definition installed_live (σ : Heap) : Prop :=
  forall d x,
    installed_on σ d = Some x ->
    exists H, handlers σ !! x = Some H /\ m_destTable H = d.

Definition well_formed (σ : Heap) : Prop :=
  registered_consistently σ /\ installed_live σ.

(** A heap to try installation on: table 1 is partitioned and table 2
    replicated, both are sources of handler 10, which is installed on the
    partitioned view table 3. *)
Definition example_heap : Heap :=
  mkHeap
    (<[1%nat := mkTable false [HandlerRef 10] None]>
       (<[2%nat := mkTable true [ReplicatedWrapperRef 10] None]>
          (<[3%nat := mkTable false [] (Some 10%nat)]> ∅)))
    (<[10%nat := mkViewHandler 3 [(1%nat, 0); (2%nat, 1)] true (Some false)]>
       ∅).

End ViewInstall.

(* ===================================================================== *)
(** * Values and collaborators to run the handler on                      *)
(* ===================================================================== *)

Module Concrete.
Import MaterializedViewHandler.

(** Integer values with SQL null. *)
Inductive BigInt : Type :=
| SqlNull
| Int (z : Z).

#[export] Instance BigInt_eq_dec : EqDecision BigInt.
Proof. solve_decision. Defined.

#[export] Instance BigInt_ops : NValueOps BigInt := {|
  nvalue_default := SqlNull;
  isNull v := match v with SqlNull => true | Int _ => false end;
  isZero v := match v with Int 0 => true | _ => false end;
  op_add a b :=
    match a, b with Int x, Int y => Int (x + y) | _, _ => SqlNull end;
  op_subtract a b :=
    match a, b with Int x, Int y => Int (x - y) | _, _ => SqlNull end;
  compare a b :=
    match a, b with
    | Int x, Int y => if x <? y then -1 else if x =? y then 0 else 1
    | SqlNull, SqlNull => 0
    | SqlNull, Int _ => -1
    | Int _, SqlNull => 1
    end;
  getBigIntValue z := Int z;
  getNullValue _ := SqlNull
|}.

(** Collaborators that answer from a script: plan [0] (the create query)
    yields [delta], every other plan yields [extremum]; the index probe
    finds the first row that agrees with the key on the group-by
    columns; no insert violates a constraint. *)
Definition scripted (ndebug : bool) (delta extremum : list (list BigInt))
    : Collaborators BigInt := {|
  NDEBUG := ndebug;
  executeExecutors ev _ := Some (if decide (ev = 0%nat) then delta else extremum);
  nextValueAtKey groupBy rows key :=
    fst <$> list_find (fun r => take groupBy r = take groupBy key) rows;
  violatesConstraint _ _ := false
|}.

(** The same collaborators for a view table with a unique index on its
    first column: the insert of a tuple violates it when a row of the
    table has the first column of the tuple. *)
Definition scripted_unique (ndebug : bool) (delta extremum : list (list BigInt))
    : Collaborators BigInt := {|
  NDEBUG := ndebug;
  executeExecutors ev _ := Some (if decide (ev = 0%nat) then delta else extremum);
  nextValueAtKey groupBy rows key :=
    fst <$> list_find (fun r => take groupBy r = take groupBy key) rows;
  violatesConstraint table tuple :=
    bool_decide (take 1 tuple ∈ (take 1 <$> table))
|}.

(** The view [SELECT g, COUNT( * ), SUM(v), MIN(v), MAX(v) FROM T GROUP BY g]
    and the view [SELECT COUNT( * ), MIN(v) FROM T]. *)
Definition grouped_view : Handler := {|
  m_groupByColumnCount := 1;
  m_aggColumnCount := 4;
  m_aggTypes := [EXPRESSION_TYPE_AGGREGATE_COUNT_STAR;
                 EXPRESSION_TYPE_AGGREGATE_SUM;
                 EXPRESSION_TYPE_AGGREGATE_MIN;
                 EXPRESSION_TYPE_AGGREGATE_MAX];
  m_countStarColumnIndex := 1;
  m_createQueryExecutorVector := 0;
  m_minMaxExecutorVectors := [1%nat; 2%nat];
  schema := [6; 6; 6; 6; 6]
|}.

Definition ungrouped_view : Handler := {|
  m_groupByColumnCount := 0;
  m_aggColumnCount := 2;
  m_aggTypes := [EXPRESSION_TYPE_AGGREGATE_COUNT_STAR;
                 EXPRESSION_TYPE_AGGREGATE_MIN];
  m_countStarColumnIndex := 0;
  m_createQueryExecutorVector := 0;
  m_minMaxExecutorVectors := [1%nat];
  schema := [6; 6]
|}.

(** A state with the given view rows, nothing in delta mode, an empty
    trace, and [updated] as the scratch tuple. *)
Definition state_of (rows : list (list BigInt)) (existing : option nat)
    (updated : list BigInt) (parameters : list BigInt) : State BigInt :=
  mkState rows existing updated parameters ∅ [].

End Concrete.

(* ===================================================================== *)
(** * Setting a view up and catching up ([MaterializedViewHandler.cpp])   *)
(* ===================================================================== *)

Module ViewSetup.
Import MaterializedViewHandler.

(** ** [setUpAggregateInfo] *)

(** A column of the view table as the catalog describes it: its index
    and the aggregate type recorded for it. *)
Record Column : Type := mkColumn {
  index : Z;
  aggregatetype : ExpressionType
}.

(** How the set-up can end other than by returning: the exception it
    throws for an aggregate type that is not legal, [resize] called with
    a negative count, and [m_aggTypes[aggIndex]] outside the vector. *)
Inductive SetupExn : Type :=
| SerializableEEException (aggIndex : nat) (t : ExpressionType)
| LengthError
| VectorOutOfBounds.

(** What [resize] fills a vector of [ExpressionType] with: the
    enumerator of value zero, which is none of the five aggregates. *)
Definition EXPRESSION_TYPE_INVALID : ExpressionType := EXPRESSION_TYPE_OTHER 0.

(** [std::vector::resize] *)
Definition resize (n : nat) (v : list ExpressionType) : list ExpressionType :=
  take n v ++ replicate (n - length v) EXPRESSION_TYPE_INVALID.

Definition set_aggregates (count : nat) (types : list ExpressionType)
    (h : Handler) : Handler :=
  mkHandler (m_groupByColumnCount h) count types (m_countStarColumnIndex h)
    (m_createQueryExecutorVector h) (m_minMaxExecutorVectors h) (schema h).

Definition set_countStarColumnIndex (idx : nat) (h : Handler) : Handler :=
  mkHandler (m_groupByColumnCount h) (m_aggColumnCount h) (m_aggTypes h) idx
    (m_createQueryExecutorVector h) (m_minMaxExecutorVectors h) (schema h).

(** The loop over the columns, in the order the catalog map yields
    them. *)
Fixpoint setUpAggregateInfo_columns (columns : list Column) (h : Handler)
    : SetupExn + Handler :=
  match columns with
  | [] => inr h
  | destCol :: rest =>
      if decide (index destCol < Z.of_nat (m_groupByColumnCount h))
      then setUpAggregateInfo_columns rest h        (* continue *)
      else
        (* The index into the per-agg metadata starts as a view column
           index but is shifted down by the group-by columns. *)
        let aggIndex :=
          Z.to_nat (index destCol - Z.of_nat (m_groupByColumnCount h)) in
        if decide (aggIndex < length (m_aggTypes h))%nat then
          let h := set_aggregates (m_aggColumnCount h)
                     (<[aggIndex := aggregatetype destCol]> (m_aggTypes h)) h in
          match aggregatetype destCol with
          | EXPRESSION_TYPE_AGGREGATE_COUNT_STAR =>
              setUpAggregateInfo_columns rest
                (set_countStarColumnIndex (Z.to_nat (index destCol)) h)
          | EXPRESSION_TYPE_AGGREGATE_SUM
          | EXPRESSION_TYPE_AGGREGATE_COUNT
          | EXPRESSION_TYPE_AGGREGATE_MIN
          | EXPRESSION_TYPE_AGGREGATE_MAX =>
              setUpAggregateInfo_columns rest h     (* legal value *)
          | EXPRESSION_TYPE_OTHER _ =>
              inl (SerializableEEException aggIndex (aggregatetype destCol))
          end
        else inl VectorOutOfBounds
  end.

Definition setUpAggregateInfo (columns : list Column) (h : Handler)
    : SetupExn + Handler :=
  let count := Z.of_nat (length columns) - Z.of_nat (m_groupByColumnCount h) in
  if decide (count < 0) then inl LengthError
  else
    let h := set_aggregates (Z.to_nat count)
               (resize (Z.to_nat count) (m_aggTypes h)) h in
    setUpAggregateInfo_columns columns h.

(** The columns at or after the group-by columns: the aggregates. *)
Definition is_aggregate_column (h : Handler) (c : Column) : Prop :=
  Z.of_nat (m_groupByColumnCount h) <= index c.

(** The aggregate columns whose type is COUNT_STAR. *)
Definition is_count_star_column (h : Handler) (c : Column) : bool :=
  bool_decide (Z.of_nat (m_groupByColumnCount h) <= index c)
  && match aggregatetype c with
     | EXPRESSION_TYPE_AGGREGATE_COUNT_STAR => true
     | _ => false
     end.

(** The last of them in the order of the catalog map, if there is one. *)
Fixpoint last_count_star_column (h : Handler) (columns : list Column)
    : option Column :=
  match columns with
  | [] => None
  | c :: rest =>
      match last_count_star_column h rest with
      | Some c' => Some c'
      | None => if is_count_star_column h c then Some c else None
      end
  end.

(** The position of a column among the aggregates. *)
Definition aggIndex_of (h : Handler) (c : Column) : nat :=
  Z.to_nat (index c - Z.of_nat (m_groupByColumnCount h)).

(** The fields of a handler that the set-up of the aggregates leaves
    alone, and the width of [m_aggTypes]. *)
Definition same_plans (h h' : Handler) : Prop :=
  m_groupByColumnCount h' = m_groupByColumnCount h /\
  m_createQueryExecutorVector h' = m_createQueryExecutorVector h /\
  m_minMaxExecutorVectors h' = m_minMaxExecutorVectors h /\
  schema h' = schema h.

(** The columns of a view of [n] columns as a catalog has them: every
    index from 0 to [n - 1] once. *)
Definition indexes_cover (columns : list Column) : Prop :=
  index <$> columns ≡ₚ seqZ 0 (Z.of_nat (length columns)).

(** The columns of the view
    [SELECT g, COUNT( * ), SUM(v), MIN(v), MAX(v) FROM T GROUP BY g] in
    the order of their names (c, g, mx, mn, s), and the handler before
    its aggregates are set up. *)
Definition grouped_view_columns : list Column :=
  [ mkColumn 1 EXPRESSION_TYPE_AGGREGATE_COUNT_STAR;
    mkColumn 0 EXPRESSION_TYPE_INVALID;
    mkColumn 4 EXPRESSION_TYPE_AGGREGATE_MAX;
    mkColumn 3 EXPRESSION_TYPE_AGGREGATE_MIN;
    mkColumn 2 EXPRESSION_TYPE_AGGREGATE_SUM ].

Definition grouped_view_before_setUp : Handler :=
  mkHandler 1 0 [] 0 0 [1%nat; 2%nat] [6; 6; 6; 6; 6].

(** ** [catchUpWithExistingData] *)

Section CatchUp.
Context {NValue : Type} {ops : NValueOps NValue} {env : Collaborators NValue}.
Variable h : Handler.

(** The plan of the create query is run (no table is put into delta
    mode for it) and every row it yields is inserted into the view. *)
Definition catchUpWithExistingData (fallible : bool) : M NValue unit :=
  viewContent ← run_executors EvCreateQuery (m_createQueryExecutorVector h);
  for_each viewContent (fun tuple => insertPersistentTuple tuple fallible).

(** The rows of a result that a table takes when they are inserted one
    after the other: the rows before the first one that violates a
    constraint of the table as the rows before it have left it. *)
Fixpoint accepted_rows (table rows : list (Row NValue)) : list (Row NValue) :=
  match rows with
  | [] => []
  | tuple :: rest =>
      if violatesConstraint table tuple then []
      else tuple :: accepted_rows (table ++ [tuple]) rest
  end.
End CatchUp.

(** The state after the create query has run outside delta mode, and the
    state after its rows have been inserted. *)
Definition queried_state {NValue : Type} (s : State NValue) : State NValue :=
  mkState (m_destTable s) (m_existingTuple s) (m_updatedTuple s) (params s)
    (deltaTableActive s) (trace s ++ [EvCreateQuery (deltaTableActive s)]).

Definition caught_up_state {NValue : Type} (viewContent : list (Row NValue))
    (s : State NValue) : State NValue :=
  mkState (m_destTable s ++ viewContent) (m_existingTuple s) (m_updatedTuple s)
    (params s) (deltaTableActive s)
    (trace s ++ EvCreateQuery (deltaTableActive s)
             :: (EvInsertTuple <$> viewContent)).

End ViewSetup.

(* ===================================================================== *)
(** * What the view paths leave in the trace                              *)
(* ===================================================================== *)

Module ViewTrace.
Import MaterializedViewHandler Concrete.

Definition is_update {NValue : Type} (ev : Event NValue) : Prop :=
  match ev with EvUpdateTuple _ _ => True | _ => False end.

(** The tuples inserted and the number of rows deleted by the events of
    a trace. *)
Definition inserted_tuples {NValue : Type} (evs : list (Event NValue))
    : list (Row NValue) :=
  omap (fun ev => match ev with EvInsertTuple t => Some t | _ => None end) evs.

Definition deleted_rows {NValue : Type} (evs : list (Event NValue)) : nat :=
  length (omap (fun ev => match ev with
                          | EvDeleteTuple t => Some t
                          | _ => None
                          end) evs).

(** The event one delta row leaves on the insert path: the row is
    inserted as it is, or some view row is updated. *)
Definition insert_turn {NValue : Type} (deltaTuple : Row NValue)
    (ev : Event NValue) : Prop :=
  ev = EvInsertTuple deltaTuple \/ is_update ev.

(** What a turn of the delete loop can leave in the trace. *)
Definition delete_turn_event {NValue : Type} (ev : Event NValue) : Prop :=
  is_fallback ev \/ is_update ev \/ is_delete ev.

(** The state in which a path runs its create query: the source table
    has entered delta mode and the query is in the trace. *)
Definition create_query_state {NValue : Type} (sourceTable : nat)
    (s : State NValue) : State NValue :=
  mkState (m_destTable s) (m_existingTuple s) (m_updatedTuple s) (params s)
    ({[sourceTable]} ∪ deltaTableActive s)
    (trace s ++ [EvCreateQuery ({[sourceTable]} ∪ deltaTableActive s)]).

(** The state in which the delete path starts on the delta rows: the
    create query is in the trace and the source table has left delta
    mode again. *)
Definition rows_loop_state {NValue : Type} (sourceTable : nat)
    (s : State NValue) : State NValue :=
  mkState (m_destTable s) (m_existingTuple s) (m_updatedTuple s) (params s)
    (({[sourceTable]} ∪ deltaTableActive s) ∖ {[sourceTable]})
    (trace s ++ [EvCreateQuery ({[sourceTable]} ∪ deltaTableActive s)]).

(** The state in which [fallbackMinMaxColumn] runs its query: the first
    slots of the parameter array hold the group-by key of the existing
    row and the next one holds the value of the column, and the query is
    in the trace. *)
Definition fallback_params {NValue : Type} (h : Handler)
    (row : Row NValue) (v : NValue) (ps : list NValue) : list NValue :=
  take (m_groupByColumnCount h) row ++ v :: drop (S (m_groupByColumnCount h)) ps.

Definition fallback_query_state {NValue : Type} (h : Handler)
    (columnIndex k : nat) (row : Row NValue) (v : NValue) (s : State NValue)
    : State NValue :=
  mkState (m_destTable s) (m_existingTuple s) (m_updatedTuple s)
    (fallback_params h row v (params s)) (deltaTableActive s)
    (trace s ++ [EvFallbackQuery columnIndex k (deltaTableActive s)]).

(** The state [fallbackMinMaxColumn] returns in: the parameters are
    back, the query stays in the trace. *)
Definition fallback_return_state {NValue : Type}
    (columnIndex k : nat) (s : State NValue) : State NValue :=
  mkState (m_destTable s) (m_existingTuple s) (m_updatedTuple s)
    (params s) (deltaTableActive s)
    (trace s ++ [EvFallbackQuery columnIndex k (deltaTableActive s)]).

(** What merge-for-delete leaves in a SUM, COUNT or COUNT_STAR column
    when the new count is not zero: the existing value less the delta
    value, or the existing value when the delta value is null. *)
Definition subtracted {NValue : Type} {ops : NValueOps NValue}
    (e d : NValue) : NValue :=
  if isNull d then e else op_subtract e d.

(** More laws of [NValue]: on values that are not null, subtraction
    undoes addition, and a sum is not null. *)
Class NValueArith (NValue : Type) {ops : NValueOps NValue} : Prop := {
  add_subtract : forall a b : NValue,
    isNull a = false -> isNull b = false -> op_subtract (op_add a b) b = a;
  add_not_null : forall a b : NValue,
    isNull a = false -> isNull b = false -> isNull (op_add a b) = false
}.

(** Collaborators whose plans throw: the create query yields [delta]
    when [create] is set and throws otherwise, and every other plan
    throws. *)
Definition throwing (create : bool) (delta : list (list BigInt))
    : Collaborators BigInt := {|
  NDEBUG := false;
  executeExecutors ev _ :=
    if create && bool_decide (ev = 0%nat) then Some delta else None;
  nextValueAtKey groupBy rows key :=
    fst <$> list_find (fun r => take groupBy r = take groupBy key) rows;
  violatesConstraint _ _ := false
|}.

End ViewTrace.

(* ===================================================================== *)
(** * Dropping one source table ([MaterializedViewHandler.cpp])           *)
(* ===================================================================== *)

Module ViewUnregister.
Import ViewInstall.

(** [MaterializedViewHandler::dropSourceTable] with a table for argument: the
    entry of the table is looked up in [m_sourceTables] and dropped.
    There is no result ([None]) when the handler is not live or the table
    is not one of its sources: the assertion on the iterator fails, and
    without the assertion the end iterator would be dereferenced. *)
Definition dropSourceTable_of (this sourceTable : nat) (σ : Heap)
    : option Heap :=
  match handlers σ !! this with
  | None => None
  | Some H =>
      match list_find (fun e => e.1 = sourceTable) (m_sourceTables H) with
      | Some (_, it) =>
          Some (dropSourceTable this
                  (negb (table_replicated σ (m_destTable H))) it σ)
      | None => None
      end
  end.


(** The example heap with one more table: table 4 is partitioned and no
    handler is registered with it. *)
Definition heap_with_spare_table : Heap :=
  mkHeap (<[4%nat := mkTable false [] None]> (tables example_heap))
         (handlers example_heap).

End ViewUnregister.

(* ===================================================================== *)
(** * Strings of the engine ([VoltDBEngine.h])                            *)
(* ===================================================================== *)

Module EngineStrings.

(** A [std::string] is the list of its characters. *)
Definition string : Type := list Ascii.ascii.

(** [char_traits<char>::compare(a, b, n)]: the first [n] characters of
    the two sequences, compared as unsigned bytes; only the sign of the
    result is specified. *)
Fixpoint traits_compare (a b : string) (n : nat) : comparison :=
  match n, a, b with
  | S n', x :: a', y :: b' =>
      match (Ascii.N_of_ascii x ?= Ascii.N_of_ascii y)%N with
      | Eq => traits_compare a' b' n'
      | c => c
      end
  | _, _, _ => Eq
  end.

(** [s1.compare(pos, len, s2)]: the substring of [s1] that starts at
    [pos] and has at most [len] characters is compared with [s2], first
    over their common length, then by length.  [pos] is never past the
    end of [s1] in this file ([std::out_of_range] otherwise). *)
Definition compare (s1 : string) (pos len : nat) (s2 : string) : comparison :=
  let sub := take len (drop pos s1) in
  let rlen := (length sub `min` length s2)%nat in
  match traits_compare sub s2 rlen with
  | Eq => (length sub ?= length s2)%nat
  | c => c
  end.

(** [startsWith(s1, s2)] *)
Definition startsWith (s1 s2 : string) : bool :=
  bool_decide (length s2 <= length s1)%nat
  && match compare s1 0 (length s2) s2 with Eq => true | _ => false end.

End EngineStrings.

(* ===================================================================== *)
(** * Snapshot data and the message loop ([voltdbipc.cpp])                *)
(* ===================================================================== *)

Module IPCServer.
Import VoltDBIPC.

Definition MAX_MSG_SZ : Z := 1024 * 1024 * 10.

(** Bytes copied into a buffer at an offset. *)
Definition store (off : nat) (bs buffer : list byte) : list byte :=
  take off buffer ++ bs ++ drop (off + length bs) buffer.

(** The pending input of a descriptor, counted so that every [read] that
    delivers something makes it smaller. *)
Definition segment_size (s : segment) : nat :=
  match s with Chunk bs => S (length bs) | ReadError => 1 end.

Definition input_size (fd : Fd) : nat :=
  foldr (fun s n => (segment_size s + n)%nat) 0%nat (fd_in fd).

(** The bytes that a run of partial writes has taken together. *)
Definition total (counts : list Z) : Z := foldr Z.add 0 counts.

(** ** [VoltDBIPC::cowSerializeMore] *)

(** How a handler that writes its own reply ends: it returns, the
    process exits ([exit(-1)]), an assertion fails, or the engine pointer
    is NULL where it is dereferenced. *)
Inductive Sent (S : Type) : Type :=
| Replied (s : S)
| Exited
| AssertionFailed
| NullEngine.
Arguments Replied {S} s.
Arguments Exited {S}.
Arguments AssertionFailed {S}.
Arguments NullEngine {S}.

(** The loop that sends the reply:
<<
    while (bytesWritten < toWrite) {
        ssize_t thisTime = write(m_fd, m_reusedResultBuffer + bytesWritten,
                                 toWrite - bytesWritten);
        if (thisTime == -1) { ...; exit(-1); }
        bytesWritten += thisTime;
    }
>>
    [None] is "out of fuel", [Some None] the exit. *)
Fixpoint write_loop (fuel : nat) (toWrite bytesWritten : Z)
    (m_reusedResultBuffer : list byte) (fd : Fd) : option (option Fd) :=
  if decide (bytesWritten < toWrite) then
    match fuel with
    | O => None
    | S fuel' =>
        let '(thisTime, fd') :=
          write (take (Z.to_nat (toWrite - bytesWritten))
                   (drop (Z.to_nat bytesWritten) m_reusedResultBuffer)) fd in
        if decide (thisTime = -1) then Some None
        else write_loop fuel' toWrite (bytesWritten + thisTime)
               m_reusedResultBuffer fd'
    end
  else Some (Some fd).

Section CowSerializeMore.
Context {Engine : Type}.

(** [m_engine->cowSerializeMore(&out, tableId)], which is not embedded
    here: given the table and the capacity of [out], the count it
    returns, the bytes it has put in [out], and the engine afterwards. *)
Variable engine_cowSerializeMore : Z -> Z -> Engine -> Z * list byte * Engine.

(** Whether [assert] is compiled out. *)
Variable NDEBUG : bool.

(** The state is the object and its [m_reusedResultBuffer]. *)
Definition cowSerializeMore (cmd : ipc_command)
    (m_reusedResultBuffer : list byte) (ipc : IPC Engine)
    : option (Sent (list byte * IPC Engine)) :=
  let tableId := to_int32 (ntohl (take 4 (data cmd))) in
  let bufferLength := to_int32 (ntohl (take 4 (drop 4 (data cmd)))) in
  if negb NDEBUG && negb (bool_decide (bufferLength < MAX_MSG_SZ - 5))
  then Some AssertionFailed else
  let checked :=
    if decide (bufferLength >= MAX_MSG_SZ - 5) then
      let '(bytes, fd') := write [kErrorCode_Error; 0; 0] (m_fd ipc) in
      if decide (bytes ≠ 1) then None else Some fd'
    else Some (m_fd ipc) in
  match checked with
  | None => Some Exited
  | Some fd1 =>
      match m_engine ipc with
      | None => Some NullEngine
      | Some e =>
          let '(serialized, out, e') :=
            engine_cowSerializeMore tableId bufferLength e in
          let buffer := store 5 out m_reusedResultBuffer in
          let buffer := store 0 [kErrorCode_Success] buffer in
          let buffer := store 1 (htonl serialized) buffer in
          let bytesWritten := 0 in
          (* the -1 is already in the message *)
          let serialized := if decide (serialized = -1) then 0 else serialized in
          let toWrite := serialized + 5 in
          match write_loop (S (length (fd_wr fd1))) toWrite bytesWritten
                  buffer fd1 with
          | None => None
          | Some None => Some Exited
          | Some (Some fd2) =>
              Some (Replied (buffer, mkIPC fd2 (Some e') (m_terminate ipc)))
          end
      end
  end.
End CowSerializeMore.

(** ** The message loop of [main] *)

(** How one of the two reading loops ends: the bytes are there, the
    client is gone (end of file or a failed read, [goto done]), or a
    [read] has stored bytes past the end of [data]. *)
Inductive Filled : Type :=
| Full (bytesread : Z) (data : list byte) (fd : Fd)
| ClientGone (fd : Fd)
| Overrun.

(** Both loops have this shape, with [limit] 4 for the header and
    [msg_size] for the body:
<<
    while (bytesread < limit) {
        std::size_t b = read(fd, data + bytesread, limit - bytesread);
        if (b == 0) { printf("client eof\n"); goto done; }
        else if (b == -1) { printf("client error\n"); goto done; }
        bytesread += b;
    }
>> *)
Fixpoint fill (fuel : nat) (limit bytesread : Z) (data : list byte) (fd : Fd)
    : option Filled :=
  if decide (bytesread < limit) then
    match fuel with
    | O => None
    | S fuel' =>
        let '(b, got, fd') := read (Z.to_nat (limit - bytesread)) fd in
        if decide (b = 0) then Some (ClientGone fd')
        else if decide (b = -1) then Some (ClientGone fd')
        else if decide (bytesread + b <= Z.of_nat (length data))
        then fill fuel' limit (bytesread + b)
               (store (Z.to_nat bytesread) got data) fd'
        else Some Overrun
    end
  else Some (Full bytesread data fd).

(** How a turn of the [while (more)] loop ends: with the next turn, at
    the label [done] (with the object as it is there, before it is
    deleted), with the exit of the process in [execute], with a failed
    assertion, or with bytes stored past the end of [data]. *)
Inductive Turn (S : Type) : Type :=
| NextMessage (max_ipc_message_size : Z) (data : list byte) (ipc : S)
| Done (voltipc : S)
| ProcessExited
| AssertFailed
| DataOverrun.
Arguments NextMessage {S} max_ipc_message_size data ipc.
Arguments Done {S} voltipc.
Arguments ProcessExited {S}.
Arguments AssertFailed {S}.
Arguments DataOverrun {S}.

(** The buffer [data] seen as a [struct ipc_command]: the two header
    fields and, behind them, the rest of the buffer. *)
Definition ipc_command_at (data : list byte) : ipc_command :=
  mk_ipc_command (take 4 data) (take 4 (drop 4 data)) (drop 8 data).

Section Main.
Context {Engine : Type} `{EngineOps Engine}.
Variable simple_handler : SimpleCommand -> ipc_command -> IPC Engine -> Z * IPC Engine.
Variable direct_handler : DirectCommand -> ipc_command -> IPC Engine -> IPC Engine.
Variable NDEBUG : bool.

(** One turn of the loop.  [bytesread] is a [size_t] and [msg_size] an
    [int]: the comparison of the second loop converts [msg_size] to
    [size_t]. *)
Definition main_turn (max_ipc_message_size : Z) (data : list byte)
    (voltipc : IPC Engine) : option (Turn (IPC Engine)) :=
  let fd := m_fd voltipc in
  let bytesread := 0 in
  (* read the header *)
  match fill (S (input_size fd)) 4 bytesread data fd with
  | None => None
  | Some Overrun => Some DataOverrun
  | Some (ClientGone fd1) =>
      Some (Done (mkIPC fd1 (m_engine voltipc) (m_terminate voltipc)))
  | Some (Full bytesread data fd1) =>
      (* read the message body in to the same data buffer *)
      let msg_size := to_int32 (ntohl (take 4 data)) in
      let '(max_ipc_message_size, data) :=
        if decide (msg_size > max_ipc_message_size)
        then (msg_size,
              store 0 (take 4 data) (replicate (Z.to_nat msg_size) 0))
        else (max_ipc_message_size, data) in
      match fill (S (input_size fd1)) (msg_size mod 2^64) bytesread data fd1 with
      | None => None
      | Some Overrun => Some DataOverrun
      | Some (ClientGone fd2) =>
          Some (Done (mkIPC fd2 (m_engine voltipc) (m_terminate voltipc)))
      | Some (Full bytesread data fd2) =>
          (* dispatch the request *)
          let cmd := ipc_command_at data in
          (* size at least length + command *)
          if negb NDEBUG && bool_decide (ntohl (msgsize cmd) < 8)
          then Some AssertFailed else
          match execute simple_handler direct_handler cmd
                  (mkIPC fd2 (m_engine voltipc) (m_terminate voltipc)) with
          | Exit => Some ProcessExited
          | Continue terminate voltipc' =>
              if terminate then Some (Done voltipc')
              else Some (NextMessage max_ipc_message_size data voltipc')
          end
      end
  end.

(** The [while (more)] loop; [fuel] bounds the number of messages. *)
Fixpoint main_loop (fuel : nat) (max_ipc_message_size : Z) (data : list byte)
    (voltipc : IPC Engine) : option (Turn (IPC Engine)) :=
  match fuel with
  | O => None
  | S fuel' =>
      match main_turn max_ipc_message_size data voltipc with
      | Some (NextMessage max_ipc_message_size data voltipc) =>
          main_loop fuel' max_ipc_message_size data voltipc
      | r => r
      end
  end.

(** [main] once the client is connected on [fd]: the buffer is allocated
    and zeroed, the object is built ([new VoltDBIPC(fd)], with no engine
    yet and [m_terminate] false), then the loop runs. *)
Definition main (fuel : nat) (fd : Fd) : option (Turn (IPC Engine)) :=
  let max_ipc_message_size := 1024 * 1024 * 2 in
  let data := replicate (Z.to_nat max_ipc_message_size) 0 in
  let voltipc := mkIPC fd None false in
  main_loop fuel max_ipc_message_size data voltipc.

End Main.

End IPCServer.

(* ===================================================================== *)
(** * Properties of the command surface                                   *)
(* ===================================================================== *)

Module VoltDBIPC_Props.
Import VoltDBIPC.

(** ** Command 19 *)

(** The wire form of a command with the given code byte and payload. *)
Definition command_of (code : byte) (payload : list byte) : ipc_command :=
  mk_ipc_command [0; 0; 0; 0] [0; 0; 0; code] payload.

Section Dispatch.
Context {Engine : Type} `{EngineOps Engine}.
Variable simple_handler : SimpleCommand -> ipc_command -> IPC Engine -> Z * IPC Engine.
Variable direct_handler : DirectCommand -> ipc_command -> IPC Engine -> IPC Engine.

Lemma dispatch_19 cmd ipc :
  ntohl (command cmd) = 19 ->
  dispatch simple_handler direct_handler cmd ipc = loadCatalog cmd ipc.
Proof. intros Hc. unfold dispatch. rewrite Hc. reflexivity. Qed.

Lemma dispatch_19_engine cmd ipc e :
  ntohl (command cmd) = 19 -> m_engine ipc = Some e ->
  m_engine (dispatch simple_handler direct_handler cmd ipc).2
  = Some (engine_loadCatalog (c_string (data cmd)) e).2.
Proof.
  intros Hc He. rewrite dispatch_19 by done.
  unfold loadCatalog. rewrite He.
  destruct (engine_loadCatalog _ e) as [ok e']. reflexivity.
Qed.
End Dispatch.

(** C1 (as the code has it).  A request with command code 19 and any
    payload, sent to an initialised engine that records its catalog
    calls, ends with the engine's wholesale catalog load recorded, and no
    catalog update: [execute] routes code 19 to [loadCatalog]. *)
Theorem UpdateCatalog_command_runs_loadCatalog :
  forall simple_handler direct_handler payload fd_input written calls,
    execute simple_handler direct_handler (command_of 19 payload)
      (mkIPC (mkFd fd_input written []) (Some calls) false)
    = Continue false
        (mkIPC (mkFd fd_input (written ++ [kErrorCode_Success]) [])
               (Some (calls ++ [CallLoadCatalog (c_string payload)])) false).
Proof.
  intros. unfold execute.
  rewrite dispatch_19 by reflexivity.
  reflexivity.
Qed.

(** ** The dependency sub-protocol *)

Lemma read_chunk_whole n bs rest out wr :
  (length bs <= n)%nat ->
  read n (mkFd (Chunk bs :: rest) out wr)
  = (Z.of_nat (length bs), bs, mkFd rest out wr).
Proof. intros Hn. unfold read; simpl. by rewrite decide_True. Qed.

Lemma read_chunk_part n bs rest out wr :
  (n < length bs)%nat ->
  read n (mkFd (Chunk bs :: rest) out wr)
  = (Z.of_nat n, take n bs, mkFd (Chunk (drop n bs) :: rest) out wr).
Proof. intros Hn. unfold read; simpl. rewrite decide_False by lia. done. Qed.

(** The loop takes whole chunks as long as they fit. *)
Lemma read_loop_chunks chunks : forall fuel len bytes acc tail out wr,
  Forall (fun c => c ≠ []) chunks ->
  0 <= bytes ->
  bytes + Z.of_nat (length (concat chunks)) <= len ->
  read_loop (fuel + length chunks) len bytes acc
    (mkFd ((Chunk <$> chunks) ++ tail) out wr)
  = read_loop fuel len (bytes + Z.of_nat (length (concat chunks)))
      (acc ++ concat chunks) (mkFd tail out wr).
Proof.
  induction chunks as [|c chunks IH]; intros fuel len bytes acc tail out wr Hne Hb Hlen.
  - simpl. rewrite Nat.add_0_r, Z.add_0_r, app_nil_r. reflexivity.
  - apply Forall_cons in Hne as [Hc Hne].
    simpl in Hlen. rewrite length_app in Hlen.
    assert (0 < length c)%nat by (destruct c; simpl; [done | lia]).
    replace (fuel + length (c :: chunks))%nat
      with (S (fuel + length chunks)) by (simpl; lia).
    cbn [read_loop].
    rewrite decide_False by lia.
    change ((Chunk <$> c :: chunks) ++ tail)
      with (Chunk c :: ((Chunk <$> chunks) ++ tail)).
    rewrite read_chunk_whole by lia.
    rewrite decide_False by lia.
    rewrite decide_False by lia.
    rewrite IH by (try done; lia).
    simpl. rewrite length_app, app_assoc.
    f_equal. lia.
Qed.

Lemma read_loop_done fuel len acc fd :
  read_loop fuel len len acc fd = Some (len, acc, fd).
Proof. destruct fuel; simpl; by rewrite decide_True. Qed.

(** When the chunks end exactly where the dependency ends. *)
Lemma read_loop_aligned chunks len tail out wr :
  Forall (fun c => c ≠ []) chunks ->
  Z.of_nat (length (concat chunks)) = len ->
  read_loop (S (Z.to_nat len)) len 0 [] (mkFd ((Chunk <$> chunks) ++ tail) out wr)
  = Some (len, concat chunks, mkFd tail out wr).
Proof.
  intros Hne Hlen.
  assert (length chunks <= length (concat chunks))%nat as Hcount.
  { clear Hlen. induction Hne as [|c cs Hc _ IH]; simpl; [lia|].
    rewrite length_app. destruct c; [done | simpl; lia]. }
  replace (S (Z.to_nat len))
    with ((S (Z.to_nat len) - length chunks) + length chunks)%nat by lia.
  rewrite read_loop_chunks by (try done; lia).
  rewrite Z.add_0_l, Hlen. apply read_loop_done.
Qed.

(** When the dependency ends inside a chunk: the chunk is split and its
    remainder stays on the socket. *)
Lemma read_loop_split chunks p extra len rest out wr :
  Forall (fun c => c ≠ []) chunks ->
  p ≠ [] -> extra ≠ [] ->
  Z.of_nat (length (concat chunks ++ p)) = len ->
  read_loop (S (Z.to_nat len)) len 0 []
    (mkFd ((Chunk <$> chunks) ++ Chunk (p ++ extra) :: rest) out wr)
  = Some (len, concat chunks ++ p, mkFd (Chunk extra :: rest) out wr).
Proof.
  intros Hne Hp Hextra Hlen. rewrite length_app in Hlen.
  assert (0 < length p)%nat by (destruct p; simpl; [done | lia]).
  assert (0 < length extra)%nat by (destruct extra; simpl; [done | lia]).
  assert (length chunks <= length (concat chunks))%nat as Hcount.
  { clear Hlen. induction Hne as [|c cs Hc _ IH]; simpl; [lia|].
    rewrite length_app. destruct c; [done | simpl; lia]. }
  replace (S (Z.to_nat len))
    with ((S (Z.to_nat len) - length chunks) + length chunks)%nat by lia.
  rewrite read_loop_chunks by (try done; lia).
  rewrite Z.add_0_l.
  replace (S (Z.to_nat len) - length chunks)%nat
    with (S (Z.to_nat len - length chunks)) by lia.
  cbn [read_loop]. rewrite decide_False by lia.
  replace (Z.to_nat (len - Z.of_nat (length (concat chunks)))) with (length p) by lia.
  rewrite read_chunk_part by (rewrite length_app; lia).
  rewrite take_app_length, drop_app_length.
  rewrite decide_False by lia. rewrite decide_False by lia.
  replace (Z.of_nat (length (concat chunks)) + Z.of_nat (length p)) with len by lia.
  rewrite read_loop_done. reflexivity.
Qed.

(** The loop always ends within the fuel [retrieveDependency] gives it. *)
Lemma read_loop_total : forall fuel len bytes acc fd,
  0 <= bytes <= len -> (Z.to_nat (len - bytes) < fuel)%nat ->
  is_Some (read_loop fuel len bytes acc fd).
Proof.
  induction fuel as [|fuel IH]; intros len bytes acc fd Hb Hfuel; [lia|].
  cbn [read_loop]. destruct (decide (bytes = len)); [done|].
  destruct (read (Z.to_nat (len - bytes)) fd) as [[r got] fd'] eqn:Hr.
  destruct (decide (bytes = bytes + r)); [done|].
  destruct (decide (bytes > bytes + r)); [done|].
  assert (0 < r <= len - bytes) as Hrange.
  { unfold read in Hr. destruct (fd_in fd) as [|[bs|] segs].
    - inversion Hr; lia.
    - destruct (decide (length bs <= Z.to_nat (len - bytes))%nat);
        inversion Hr; subst; lia.
    - inversion Hr; lia. }
  apply IH; lia.
Qed.

Lemma retrieveDependency_total dependencyId fd :
  is_Some (retrieveDependency dependencyId fd).
Proof.
  unfold retrieveDependency.
  destruct (write _ fd) as [bytes fd1].
  destruct (decide (bytes ≠ 1 + 4)); [done|].
  destruct (read 1 fd1) as [[bytes1 got] fd2].
  destruct (decide (bytes1 ≠ 1)); [done|].
  destruct (decide (kErrorCode_DependencyNotFound = _)); [done|].
  destruct (decide (kErrorCode_DependencyFound ≠ _)); [done|].
  destruct (read 4 fd2) as [[bytes4 got4] fd3].
  destruct (decide (bytes4 ≠ 4)); [done|].
  destruct (decide (to_int32 (ntohl got4) < 0)); [done|].
  destruct (read_loop_total (S (Z.to_nat (to_int32 (ntohl got4))))
              (to_int32 (ntohl got4)) 0 [] fd3) as [[[b d] fd4] ->]; [lia | lia |].
  destruct (decide (b ≠ _)); done.
Qed.

(** C9.  Once the request is written and the host's status byte is read:
    on [DependencyNotFound] the call returns NULL and leaves the socket as
    it is after that one byte; on [DependencyFound] it reads the [i32]
    length, then exactly that many bytes, however the host cuts them into
    chunks, and returns them, so that whatever follows stays on the
    socket; on any other status byte the process exits. *)
Theorem retrieveDependency_by_status dependencyId fd fd1 status fd2 :
  write (kErrorCode_RetrieveDependency :: htonl dependencyId) fd = (5, fd1) ->
  read 1 fd1 = (1, [status], fd2) ->
  (to_int8 status = kErrorCode_DependencyNotFound ->
   retrieveDependency dependencyId fd = Some (RetNull, fd2))
  /\
  (to_int8 status = kErrorCode_DependencyFound ->
   forall lenbytes fd3 len,
     read 4 fd2 = (4, lenbytes, fd3) ->
     to_int32 (ntohl lenbytes) = len -> 0 <= len ->
     (forall chunks tail,
        fd_in fd3 = (Chunk <$> chunks) ++ tail ->
        Forall (fun c => c ≠ []) chunks ->
        Z.of_nat (length (concat chunks)) = len ->
        retrieveDependency dependencyId fd
        = Some (RetBuffer (concat chunks) len,
                mkFd tail (fd_out fd3) (fd_wr fd3)))
     /\
     (forall chunks p extra rest,
        fd_in fd3 = (Chunk <$> chunks) ++ Chunk (p ++ extra) :: rest ->
        Forall (fun c => c ≠ []) chunks -> p ≠ [] -> extra ≠ [] ->
        Z.of_nat (length (concat chunks ++ p)) = len ->
        retrieveDependency dependencyId fd
        = Some (RetBuffer (concat chunks ++ p) len,
                mkFd (Chunk extra :: rest) (fd_out fd3) (fd_wr fd3))))
  /\
  (to_int8 status ≠ kErrorCode_DependencyNotFound ->
   to_int8 status ≠ kErrorCode_DependencyFound ->
   retrieveDependency dependencyId fd = Some (ProcessExit, fd2)).
Proof.
  intros Hw Hr. unfold retrieveDependency. rewrite Hw.
  rewrite decide_False by (intros Hne; by apply Hne).
  rewrite Hr. rewrite decide_False by (intros Hne; by apply Hne).
  change (default 0 (head [status])) with status.
  split; [|split].
  - intros Hs.
    destruct (decide (kErrorCode_DependencyNotFound = to_int8 status));
      [reflexivity | congruence].
  - intros Hs lenbytes fd3 len Hr4 Hlen Hpos.
    destruct (decide (kErrorCode_DependencyNotFound = to_int8 status)) as [E|_];
      [rewrite Hs in E; done|].
    destruct (decide (kErrorCode_DependencyFound ≠ to_int8 status)) as [E|_];
      [by rewrite Hs in E|].
    rewrite Hr4. rewrite decide_False by (intros Hne; by apply Hne).
    rewrite Hlen. rewrite decide_False by lia.
    destruct fd3 as [input out wr]; cbn [fd_in fd_out fd_wr].
    split.
    + intros chunks tail -> Hne Hsz.
      rewrite read_loop_aligned by done.
      rewrite decide_False by (intros Hne'; by apply Hne'). reflexivity.
    + intros chunks p extra rest -> Hne Hp Hextra Hsz.
      rewrite read_loop_split by done.
      rewrite decide_False by (intros Hne'; by apply Hne'). reflexivity.
  - intros Hnf Hf.
    destruct (decide (kErrorCode_DependencyNotFound = to_int8 status));
      [congruence|].
    destruct (decide (kErrorCode_DependencyFound ≠ to_int8 status));
      [reflexivity | exfalso; apply Hf; symmetry; by apply dec_stable].
Qed.

(** The three cases on a socket: the host answers request 7 with
    "not found"; with "found", length 3 and the bytes [7 8 9] cut after
    the second, followed by a byte of the next message; with status 9. *)
Lemma retrieveDependency_by_status_witness :
  retrieveDependency 7 (mkFd [Chunk [3]; Chunk [1]] [] [])
  = Some (RetNull, mkFd [Chunk [1]] [5; 0; 0; 0; 7] [])
  /\
  retrieveDependency 7
    (mkFd [Chunk [4]; Chunk [0; 0; 0; 3]; Chunk [7; 8]; Chunk [9; 1]] [] [])
  = Some (RetBuffer [7; 8; 9] 3, mkFd [Chunk [1]] [5; 0; 0; 0; 7] [])
  /\
  retrieveDependency 7 (mkFd [Chunk [9]; Chunk [1]] [] [])
  = Some (ProcessExit, mkFd [Chunk [1]] [5; 0; 0; 0; 7] []).
Proof.
  split; [|split].
  - refine (proj1 (retrieveDependency_by_status 7
              (mkFd [Chunk [3]; Chunk [1]] [] []) _ 3 _ eq_refl eq_refl) eq_refl).
  - refine (proj2 (proj1 (proj2 (retrieveDependency_by_status 7
              (mkFd [Chunk [4]; Chunk [0; 0; 0; 3]; Chunk [7; 8]; Chunk [9; 1]] [] [])
              _ 4 _ eq_refl eq_refl)) eq_refl [0; 0; 0; 3] _ 3 eq_refl eq_refl _)
              [[7; 8]] [9] [1] [] eq_refl _ _ _ eq_refl).
    + lia.
    + repeat constructor; done.
    + done.
    + done.
  - refine (proj2 (proj2 (retrieveDependency_by_status 7
              (mkFd [Chunk [9]; Chunk [1]] [] []) _ 9 _ eq_refl eq_refl)) _ _).
    + vm_compute; discriminate.
    + vm_compute; discriminate.
Defined.

End VoltDBIPC_Props.

(* ===================================================================== *)
(** * Properties of the undo token                                        *)
(* ===================================================================== *)

Module VoltDBEngine_Props.
Import VoltDBEngine.

Section SetUndoToken.
Variable NDEBUG : bool.

Lemma setUndoToken_INT64_MAX e :
  setUndoToken NDEBUG INT64_MAX e = Returns e.
Proof. unfold setUndoToken. by rewrite decide_True. Qed.

Lemma setUndoToken_current e cur :
  m_currentUndoQuantum e = Some cur ->
  setUndoToken NDEBUG (getUndoToken cur) e = Returns e.
Proof.
  intros Hcur. unfold setUndoToken. rewrite Hcur.
  destruct (decide (getUndoToken cur = INT64_MAX)); [done|].
  by rewrite decide_True.
Qed.

Lemma setUndoToken_opens t e :
  t ≠ INT64_MAX ->
  (forall cur, m_currentUndoQuantum e = Some cur -> getUndoToken cur ≠ t) ->
  asserted t e ->
  setUndoToken NDEBUG t e
  = Returns (mkEngine (m_undoLog e ++ [mkUndoQuantum t]) (Some (mkUndoQuantum t))).
Proof.
  intros Hmax Hne Hgt. unfold setUndoToken, asserted in *.
  rewrite decide_False by done.
  destruct (m_currentUndoQuantum e) as [cur|]; [|reflexivity].
  rewrite decide_False by (by apply Hne).
  rewrite (bool_decide_eq_true_2 _ (Hgt cur eq_refl)), orb_true_r.
  reflexivity.
Qed.

(** What one call does under the asserted condition: nothing, or a new
    quantum whose token is above the current one's. *)
Lemma setUndoToken_step t e :
  t = INT64_MAX \/
  (exists cur, m_currentUndoQuantum e = Some cur /\ getUndoToken cur = t) \/
  asserted t e ->
  setUndoToken NDEBUG t e = Returns e \/
  (asserted t e /\
   setUndoToken NDEBUG t e
   = Returns (mkEngine (m_undoLog e ++ [mkUndoQuantum t]) (Some (mkUndoQuantum t)))).
Proof.
  intros [-> | [(cur & Hcur & <-) | Hgt]].
  - left. apply setUndoToken_INT64_MAX.
  - left. by apply setUndoToken_current.
  - destruct (decide (t = INT64_MAX)) as [-> | Hmax];
      [left; apply setUndoToken_INT64_MAX|].
    right. split; [done|]. apply setUndoToken_opens; [done | | done].
    intros cur Hcur Heq. specialize (Hgt cur Hcur). lia.
Qed.

Lemma setUndoTokens_increasing tokens : forall e,
  all_asserted NDEBUG tokens e ->
  exists opened,
    setUndoTokens NDEBUG tokens e
    = Returns (mkEngine (m_undoLog e ++ opened)
                        (last (option_list (m_currentUndoQuantum e) ++ opened)))
    /\ StronglySorted Z.lt
         (getUndoToken <$> (option_list (m_currentUndoQuantum e) ++ opened)).
Proof.
  induction tokens as [|t tokens IH]; intros e Hall.
  - exists []. simpl. rewrite !app_nil_r. split.
    + destruct e as [log [cur|]]; reflexivity.
    + destruct (m_currentUndoQuantum e); simpl; repeat constructor.
  - destruct Hall as [Hpre Hrest].
    destruct (setUndoToken_step t e Hpre) as [Hsame | [Hgt Hopen]].
    + cbn [setUndoTokens]. rewrite Hsame. apply IH, Hrest, Hsame.
    + cbn [setUndoTokens]. rewrite Hopen.
      destruct (IH _ (Hrest _ Hopen)) as (opened & Hrun & Hsorted).
      cbn [m_undoLog m_currentUndoQuantum option_list] in Hrun, Hsorted.
      exists (mkUndoQuantum t :: opened). split.
      * rewrite Hrun. rewrite <- app_assoc. f_equal. f_equal.
        destruct (m_currentUndoQuantum e); simpl; [|done].
        by destruct opened.
      * unfold asserted in Hgt.
        destruct (m_currentUndoQuantum e) as [cur|]; [|exact Hsorted].
        cbn [option_list app fmap list_fmap]. simpl in Hsorted.
        constructor; [exact Hsorted|].
        specialize (Hgt cur eq_refl).
        apply StronglySorted_inv in Hsorted as [_ Hall].
        constructor; [simpl; lia|].
        eapply Forall_impl; [exact Hall|]. simpl. intros; lia.
Qed.

(** C2.  [setUndoToken(t)] leaves the engine as it is when [t] is
    [INT64_MAX] or the token of the current quantum; otherwise, when [t]
    is above the token of the current quantum (the asserted condition),
    it opens a quantum with token [t] and makes it current; and along any
    session that meets the asserted condition, the quanta opened have
    strictly increasing tokens, all above the one the session started
    in. *)
Theorem setUndoToken_spec t e :
  (t = INT64_MAX \/
   (exists cur, m_currentUndoQuantum e = Some cur /\ getUndoToken cur = t) ->
   setUndoToken NDEBUG t e = Returns e)
  /\
  (t ≠ INT64_MAX ->
   (forall cur, m_currentUndoQuantum e = Some cur -> getUndoToken cur ≠ t) ->
   asserted t e ->
   setUndoToken NDEBUG t e
   = Returns (mkEngine (m_undoLog e ++ [mkUndoQuantum t])
                       (Some (mkUndoQuantum t))))
  /\
  (forall tokens,
     all_asserted NDEBUG tokens e ->
     exists opened,
       setUndoTokens NDEBUG tokens e
       = Returns (mkEngine (m_undoLog e ++ opened)
                    (last (option_list (m_currentUndoQuantum e) ++ opened)))
       /\ StronglySorted Z.lt
            (getUndoToken <$> (option_list (m_currentUndoQuantum e) ++ opened))).
Proof.
  split; [|split].
  - intros [-> | (cur & Hcur & <-)].
    + apply setUndoToken_INT64_MAX.
    + by apply setUndoToken_current.
  - apply setUndoToken_opens.
  - intros tokens. apply setUndoTokens_increasing.
Qed.
End SetUndoToken.

(** A session on an engine whose current quantum has token 100: the
    calls with [INT64_MAX] and with 100 change nothing, the call with 101
    opens a quantum, and the session 100, 101, 101, 105 opens the quanta
    101 and 105. *)
Lemma setUndoToken_spec_witness :
  let e := mkEngine [mkUndoQuantum 100] (Some (mkUndoQuantum 100)) in
  setUndoToken false INT64_MAX e = Returns e /\
  setUndoToken false 100 e = Returns e /\
  setUndoToken false 101 e
  = Returns (mkEngine [mkUndoQuantum 100; mkUndoQuantum 101]
                      (Some (mkUndoQuantum 101))) /\
  exists opened,
    setUndoTokens false [100; 101; 101; 105] e
    = Returns (mkEngine (m_undoLog e ++ opened)
                 (last (option_list (m_currentUndoQuantum e) ++ opened)))
    /\ StronglySorted Z.lt
         (getUndoToken <$> (option_list (m_currentUndoQuantum e) ++ opened)).
Proof.
  intros e.
  split; [|split; [|split]].
  - apply (proj1 (setUndoToken_spec false INT64_MAX e)). by left.
  - apply (proj1 (setUndoToken_spec false 100 e)). right.
    exists (mkUndoQuantum 100). by split.
  - apply (proj1 (proj2 (setUndoToken_spec false 101 e))).
    + vm_compute; discriminate.
    + intros cur [= <-]. vm_compute; discriminate.
    + intros cur [= <-]. simpl. lia.
  - apply (proj2 (proj2 (setUndoToken_spec false 100 e))).
    repeat (split;
      [ first [ by (right; left; eexists; split; [reflexivity|reflexivity])
              | by (right; right; intros cur [= <-]; simpl; lia) ]
      | intros e' [= <-] ]).
    exact I.
Defined.

End VoltDBEngine_Props.

(* ===================================================================== *)
(** * Properties of view maintenance                                      *)
(* ===================================================================== *)

Module MaterializedViewHandler_Props.
Import MaterializedViewHandler.

Section Logic.
Context {NValue : Type} {ops : NValueOps NValue} {env : Collaborators NValue}.

Local Abbreviation M := (M NValue).
Local Abbreviation State := (State NValue).

(** ** Weakest preconditions for handler code *)

Definition wp {A} (m : M A) (Q : Exn + A -> State -> Prop) (s : State) : Prop :=
  Q (m s).1 (m s).2.

Lemma wp_ret {A} (a : A) Q s : Q (inr a) s -> wp (mret a) Q s.
Proof. done. Qed.

Lemma wp_throw {A} e (Q : Exn + A -> State -> Prop) s :
  Q (inl e) s -> wp (throw e) Q s.
Proof. done. Qed.

Lemma wp_get Q s : Q (inr s) s -> wp get Q s.
Proof. done. Qed.

Lemma wp_modify f Q s : Q (inr tt) (f s) -> wp (modify f) Q s.
Proof. done. Qed.

Lemma wp_bind {A B} (m : M A) (f : A -> M B) Q s :
  wp m (fun r s' => match r with
                    | inr a => wp (f a) Q s'
                    | inl e => Q (inl e) s'
                    end) s ->
  wp (m ≫= f) Q s.
Proof.
  unfold wp, mbind, M_bind. destruct (m s) as [[e|a] s']; simpl; auto.
Qed.

Lemma wp_bind_inv {A B} (m : M A) (f : A -> M B) Q s :
  wp (m ≫= f) Q s ->
  wp m (fun r s' => match r with
                    | inr a => wp (f a) Q s'
                    | inl e => Q (inl e) s'
                    end) s.
Proof.
  unfold wp, mbind, M_bind. destruct (m s) as [[e|a] s']; simpl; auto.
Qed.

Lemma wp_mono {A} (m : M A) (Q Q' : Exn + A -> State -> Prop) s :
  wp m Q s -> (forall r s', Q r s' -> Q' r s') -> wp m Q' s.
Proof. unfold wp. auto. Qed.

Lemma wp_run {A} (m : M A) Q s r s' : wp m Q s -> m s = (r, s') -> Q r s'.
Proof. unfold wp. intros HQ Hrun. by rewrite Hrun in HQ. Qed.

Lemma wp_assert c Q s :
  (NDEBUG || c = true -> Q (inr tt) s) ->
  (NDEBUG || c = false -> Q (inl AssertionFailure) s) ->
  wp (assert c) Q s.
Proof.
  unfold assert. destruct (NDEBUG || c); intros Hok Hfail;
    [apply wp_ret, Hok | apply wp_throw, Hfail]; reflexivity.
Qed.

(** A loop is handled by an invariant over the index, the accumulator and
    the state. *)
Lemma wp_for_range {B} (I : nat -> B -> State -> Prop) Q
    (body : nat -> B -> M B) n : forall lo acc s,
  I lo acc s ->
  (forall i acc s, (lo <= i < lo + n)%nat -> I i acc s ->
     wp (body i acc) (fun r s' => match r with
                                  | inr acc' => I (S i) acc' s'
                                  | inl e => Q (inl e) s'
                                  end) s) ->
  (forall acc s, I (lo + n)%nat acc s -> Q (inr acc) s) ->
  wp (for_range lo n body acc) Q s.
Proof.
  induction n as [|n IH]; intros lo acc s HI Hbody Hend.
  - apply wp_ret, Hend. by rewrite Nat.add_0_r.
  - cbn [for_range]. apply wp_bind.
    eapply wp_mono; [apply Hbody; [lia | done]|].
    intros [e|acc'] s' Hr; [done|].
    apply IH; [done | |].
    + intros i acc0 s0 Hi. apply Hbody. lia.
    + intros acc0 s0. replace (S lo + n)%nat with (lo + S n)%nat by lia. apply Hend.
Qed.

Lemma wp_for_each (I : State -> Prop) Q (body : list NValue -> M unit) rows :
  forall s,
  I s ->
  (forall r s, r ∈ rows -> I s ->
     wp (body r) (fun o s' => match o with
                              | inr _ => I s'
                              | inl e => Q (inl e) s'
                              end) s) ->
  (forall s, I s -> Q (inr tt) s) ->
  wp (for_each rows body) Q s.
Proof.
  induction rows as [|r rows IH]; intros s HI Hbody Hend.
  - apply wp_ret, Hend, HI.
  - cbn [for_each]. apply wp_bind.
    eapply wp_mono; [apply Hbody; [left | done]|].
    intros [e|[]] s' Hr; [done|].
    apply IH; [done | | done].
    intros r' s0 Hin. apply Hbody. by right.
Qed.

(** ** The primitives *)

Lemma wp_getNValue (tuple : list NValue) idx Q s :
  match tuple !! idx with
  | Some v => Q (inr v) s
  | None => Q (inl OutOfBounds) s
  end ->
  wp (getNValue tuple idx) Q s.
Proof. unfold getNValue. by destruct (tuple !! idx). Qed.

Lemma wp_existingTuple_getNValue idx Q s :
  match existingTuple_row s with
  | Some row => wp (getNValue row idx) Q s
  | None => Q (inl OutOfBounds) s
  end ->
  wp (existingTuple_getNValue idx) Q s.
Proof.
  unfold existingTuple_row, existingTuple_getNValue, wp, mbind, M_bind, get.
  simpl.
  destruct (m_existingTuple s) as [t|]; simpl; [|done].
  by destruct (m_destTable s !! t) as [r|].
Qed.

Lemma wp_updatedTuple_setNValue idx v Q s :
  ((idx < length (m_updatedTuple s))%nat ->
   Q (inr tt) (mkState (m_destTable s) (m_existingTuple s)
                 (<[idx := v]> (m_updatedTuple s)) (params s)
                 (deltaTableActive s) (trace s))) ->
  (¬ (idx < length (m_updatedTuple s))%nat -> Q (inl OutOfBounds) s) ->
  wp (updatedTuple_setNValue idx v) Q s.
Proof.
  unfold updatedTuple_setNValue, wp, mbind, M_bind, get. simpl.
  destruct (decide (idx < length (m_updatedTuple s))%nat); simpl; auto.
Qed.

Lemma wp_params_get i Q s :
  match params s !! i with
  | Some v => Q (inr v) s
  | None => Q (inl OutOfBounds) s
  end ->
  wp (params_get i) Q s.
Proof.
  unfold params_get, wp, mbind, M_bind, get. simpl.
  by destruct (params s !! i).
Qed.

Lemma wp_params_set i v Q s :
  ((i < length (params s))%nat ->
   Q (inr tt) (mkState (m_destTable s) (m_existingTuple s) (m_updatedTuple s)
                 (<[i := v]> (params s)) (deltaTableActive s) (trace s))) ->
  (¬ (i < length (params s))%nat -> Q (inl OutOfBounds) s) ->
  wp (params_set i v) Q s.
Proof.
  unfold params_set, wp, mbind, M_bind, get. simpl.
  destruct (decide (i < length (params s))%nat); simpl; auto.
Qed.

Lemma wp_run_executors site ev Q s :
  (let s1 := mkState (m_destTable s) (m_existingTuple s) (m_updatedTuple s)
               (params s) (deltaTableActive s)
               (trace s ++ [site (deltaTableActive s)]) in
   match executeExecutors ev s1 with
   | Some rows => Q (inr rows) s1
   | None => Q (inl ExecutorException) s1
   end) ->
  wp (run_executors site ev) Q s.
Proof.
  unfold run_executors, wp, mbind, M_bind, get, emit, modify. simpl.
  by destruct (executeExecutors ev _).
Qed.

(** The same, with the outcome of the lookup as a hypothesis. *)
Lemma wp_getNValue_cases (tuple : list NValue) idx Q s :
  (forall v, tuple !! idx = Some v -> Q (inr v) s) ->
  (tuple !! idx = None -> Q (inl OutOfBounds) s) ->
  wp (getNValue tuple idx) Q s.
Proof. intros Hok Hbad. apply wp_getNValue. destruct (tuple !! idx); auto. Qed.

Lemma wp_existingTuple_getNValue_cases idx Q s :
  (forall row v, existingTuple_row s = Some row -> row !! idx = Some v ->
     Q (inr v) s) ->
  ((forall row, existingTuple_row s = Some row -> row !! idx = None) ->
   Q (inl OutOfBounds) s) ->
  wp (existingTuple_getNValue idx) Q s.
Proof.
  intros Hok Hbad. apply wp_existingTuple_getNValue.
  destruct (existingTuple_row s) as [row|]; [|apply Hbad; intros; discriminate].
  apply wp_getNValue_cases.
  - intros v Hv. by apply (Hok row v).
  - intros Hnone. apply Hbad. intros ? [= <-]. done.
Qed.

Lemma wp_aggTypes_at_cases (h : Handler) aggIndex Q s :
  (forall t, m_aggTypes h !! aggIndex = Some t -> Q (inr t) s) ->
  (m_aggTypes h !! aggIndex = None -> Q (inl OutOfBounds) s) ->
  wp (aggTypes_at h aggIndex) Q s.
Proof.
  intros Hok Hbad. unfold aggTypes_at.
  destruct (m_aggTypes h !! aggIndex); [apply wp_ret | apply wp_throw]; auto.
Qed.

Lemma wp_columnType_cases (h : Handler) idx Q s :
  (forall t, schema h !! idx = Some t -> Q (inr t) s) ->
  (schema h !! idx = None -> Q (inl OutOfBounds) s) ->
  wp (columnType h idx) Q s.
Proof.
  intros Hok Hbad. unfold columnType.
  destruct (schema h !! idx); [apply wp_ret | apply wp_throw]; auto.
Qed.

(** Running a call step by step. *)
Lemma bind_run {A B} (m : M A) (f : A -> M B) s :
  (m ≫= f) s = match m s with
               | (inl e, s') => (inl e, s')
               | (inr a, s') => f a s'
               end.
Proof. reflexivity. Qed.

Lemma getNValue_run (tuple : list NValue) idx v (s : State) :
  tuple !! idx = Some v -> getNValue tuple idx s = (inr v, s).
Proof. intros Hv. unfold getNValue. by rewrite Hv. Qed.

Lemma existingTuple_getNValue_run idx (row : list NValue) v (s : State) :
  existingTuple_row s = Some row -> row !! idx = Some v ->
  existingTuple_getNValue idx s = (inr v, s).
Proof.
  unfold existingTuple_row, existingTuple_getNValue. intros Hrow Hv.
  rewrite bind_run. cbn [get].
  destruct (m_existingTuple s) as [t|]; [|done].
  rewrite Hrow. by apply getNValue_run.
Qed.

Lemma wp_updateTupleWithSpecificIndexes fallible Q (s : State) :
  match m_existingTuple s with
  | Some target =>
      if decide (target < length (m_destTable s))%nat
      then Q (inr tt)
             (mkState (<[target := m_updatedTuple s]> (m_destTable s))
                (m_existingTuple s) (m_updatedTuple s) (params s)
                (deltaTableActive s)
                (trace s ++ [EvUpdateTuple target (m_updatedTuple s)]))
      else Q (inl OutOfBounds) s
  | None => Q (inl OutOfBounds) s
  end ->
  wp (updateTupleWithSpecificIndexes fallible) Q s.
Proof.
  unfold updateTupleWithSpecificIndexes, wp. rewrite bind_run. cbn [get].
  destruct (m_existingTuple s) as [target|] eqn:Hex; [|done].
  destruct (decide (target < length (m_destTable s))%nat); [|done].
  unfold set_destTable, emit, modify, mbind, M_bind. cbn. by rewrite Hex.
Qed.

Lemma wp_deleteTuple fallible Q (s : State) :
  match m_existingTuple s with
  | Some target =>
      if decide (target < length (m_destTable s))%nat
      then Q (inr tt)
             (mkState (delete target (m_destTable s))
                (m_existingTuple s) (m_updatedTuple s) (params s)
                (deltaTableActive s) (trace s ++ [EvDeleteTuple target]))
      else Q (inl OutOfBounds) s
  | None => Q (inl OutOfBounds) s
  end ->
  wp (deleteTuple fallible) Q s.
Proof.
  unfold deleteTuple, wp. rewrite bind_run. cbn [get].
  destruct (m_existingTuple s) as [target|] eqn:Hex; [|done].
  destruct (decide (target < length (m_destTable s))%nat); [|done].
  unfold set_destTable, emit, modify, mbind, M_bind. cbn. by rewrite Hex.
Qed.

Lemma wp_insertPersistentTuple (tuple : list NValue) (fallible : bool)
    (Q : Exn + unit -> State -> Prop) (s : State) :
  (if violatesConstraint (m_destTable s) tuple
   then Q (inl (if fallible then ConstraintViolation else FatalException)) s
   else Q (inr tt)
          (mkState (m_destTable s ++ [tuple]) (m_existingTuple s)
             (m_updatedTuple s) (params s) (deltaTableActive s)
             (trace s ++ [EvInsertTuple tuple]))) ->
  wp (insertPersistentTuple tuple fallible) Q s.
Proof.
  unfold insertPersistentTuple, wp. rewrite bind_run. cbn [get].
  destruct (violatesConstraint (m_destTable s) tuple); [by destruct fallible|done].
Qed.

Lemma wp_findExistingTuple (h : Handler) (deltaTuple : list NValue) Q
    (s : State) :
  (forall found t,
     (m_groupByColumnCount h = 0%nat ->
      found = true /\
      t = match m_destTable s with [] => m_existingTuple s | _ :: _ => Some 0%nat end /\
      (NDEBUG = false -> t ≠ None)) ->
     ((0 < m_groupByColumnCount h)%nat ->
      t = nextValueAtKey (m_groupByColumnCount h) (m_destTable s) deltaTuple /\
      found = negb (isNullTuple t)) ->
     Q (inr found)
       (mkState (m_destTable s) t (m_updatedTuple s) (params s)
          (deltaTableActive s) (trace s))) ->
  (forall t, m_groupByColumnCount h = 0%nat -> m_destTable s = [] ->
     Q (inl AssertionFailure)
       (mkState (m_destTable s) t (m_updatedTuple s) (params s)
          (deltaTableActive s) (trace s))) ->
  wp (findExistingTuple h deltaTuple) Q s.
Proof.
  intros Hok Hbad. destruct s as [rows ex up ps D tr].
  unfold findExistingTuple, wp, assert, set_existingTuple, modify, get, throw,
    mbind, M_bind, mret, M_ret.
  cbn in *.
  destruct (decide (m_groupByColumnCount h = 0%nat)) as [Hgb | Hgb]; cycle 1.
  { cbn. apply Hok; [lia|]. by intros _. }
  destruct rows as [|row rows]; cbn.
  - destruct ex as [t|]; cbn.
    + rewrite orb_true_r. cbn. apply (Hok true (Some t)); [|lia].
      intros _. by repeat split.
    + rewrite orb_false_r. destruct NDEBUG eqn:Hnd; cbn.
      * apply (Hok true None); [|lia]. intros _. by repeat split.
      * by apply Hbad.
  - rewrite orb_true_r. cbn.
    apply (Hok true (Some 0%nat)); [|lia].
    intros _. by repeat split.
Qed.

Lemma updateTupleWithSpecificIndexes_run fallible (s : State) target :
  m_existingTuple s = Some target ->
  (target < length (m_destTable s))%nat ->
  updateTupleWithSpecificIndexes fallible s
  = (inr tt,
     mkState (<[target := m_updatedTuple s]> (m_destTable s))
       (m_existingTuple s) (m_updatedTuple s) (params s) (deltaTableActive s)
       (trace s ++ [EvUpdateTuple target (m_updatedTuple s)])).
Proof.
  intros Hex Hlt. unfold updateTupleWithSpecificIndexes.
  rewrite bind_run. cbn [get]. rewrite Hex, decide_True by done.
  unfold set_destTable, emit, modify, mbind, M_bind. cbn. by rewrite Hex.
Qed.

Lemma deleteTuple_run fallible (s : State) target :
  m_existingTuple s = Some target ->
  (target < length (m_destTable s))%nat ->
  deleteTuple fallible s
  = (inr tt,
     mkState (delete target (m_destTable s))
       (m_existingTuple s) (m_updatedTuple s) (params s) (deltaTableActive s)
       (trace s ++ [EvDeleteTuple target])).
Proof.
  intros Hex Hlt. unfold deleteTuple.
  rewrite bind_run. cbn [get]. rewrite Hex, decide_True by done.
  unfold set_destTable, emit, modify, mbind, M_bind. cbn. by rewrite Hex.
Qed.

End Logic.

(** ** [fallbackMinMaxColumn] *)

Section Fallback.
Context {NValue : Type} {ops : NValueOps NValue} {env : Collaborators NValue}.
Variable h : Handler.

Local Abbreviation State := (State NValue).

Lemma same_view_refl (s : State) : same_view s s.
Proof. by repeat split. Qed.

Lemma same_view_trans (s0 s1 s2 : State) :
  same_view s0 s1 -> same_view s1 s2 -> same_view s0 s2.
Proof. unfold same_view. intros (?&?&?&?) (?&?&?&?). repeat split; congruence. Qed.

Lemma same_view_row (s0 s : State) : same_view s0 s -> existingTuple_row s = existingTuple_row s0.
Proof. unfold existingTuple_row. by intros (-> & -> & _). Qed.

(** The call runs one fallback query and nothing else; when it returns,
    the parameters are back. *)
Lemma wp_fallbackMinMaxColumn columnIndex k s0 :
  wp (fallbackMinMaxColumn h columnIndex k)
     (fun r s =>
        same_view s0 s /\
        match r with
        | inr _ =>
            params s = params s0 /\
            trace s = trace s0
                      ++ [EvFallbackQuery columnIndex k (deltaTableActive s0)]
        | inl _ =>
            trace s = trace s0 \/
            trace s = trace s0
                      ++ [EvFallbackQuery columnIndex k (deltaTableActive s0)]
        end) s0.
Proof.
  set (gb := m_groupByColumnCount h).
  set (ev := EvFallbackQuery columnIndex k (deltaTableActive s0)).
  unfold fallbackMinMaxColumn. fold gb.
  apply wp_bind. unfold columnType.
  destruct (schema h !! columnIndex) as [ty|];
    [apply wp_ret | apply wp_throw; split; [apply same_view_refl | by left]].
  (* the loop that saves the group-by slots *)
  apply wp_bind.
  apply (wp_for_range (fun i backups s =>
           same_view s0 s /\ trace s = trace s0 /\
           length backups = (gb + 1)%nat /\
           length (params s) = length (params s0) /\
           (forall j, (j < i)%nat -> backups !! j = params s0 !! j) /\
           (forall j, (i <= j)%nat -> params s !! j = params s0 !! j))).
  { repeat split; try done.
    - by rewrite length_replicate.
    - intros j Hj. lia. }
  { intros i backups s Hi (Hview & Htr & Hlen & Hplen & Hsaved & Hrest).
    apply wp_bind, wp_params_get.
    destruct (params s !! i) as [p|] eqn:Hp; [|split; [done | by left]].
    apply wp_bind, wp_existingTuple_getNValue.
    destruct (existingTuple_row s) as [row|]; [|split; [done | by left]].
    apply wp_getNValue.
    destruct (row !! i) as [v|]; [|split; [done | by left]].
    apply wp_bind, wp_params_set; [|intros _; split; [done | by left]].
    intros Hlt. apply wp_ret. cbn.
    repeat split; try apply Hview; try done.
    - by rewrite length_insert.
    - by rewrite length_insert.
    - intros j Hj. destruct (decide (j = i)) as [-> | Hne].
      + rewrite list_lookup_insert_eq by lia. rewrite <- Hp. apply Hrest. lia.
      + rewrite list_lookup_insert_ne by done. apply Hsaved. lia.
    - intros j Hj. rewrite list_lookup_insert_ne by lia. apply Hrest. lia. }
  intros backups s (Hview & Htr & Hlen & Hplen & Hsaved & Hrest). simpl in *.
  (* the extremum slot *)
  apply wp_bind, wp_params_get.
  destruct (params s !! gb) as [p|] eqn:Hp; [|split; [done | by left]].
  apply wp_bind, wp_existingTuple_getNValue.
  destruct (existingTuple_row s) as [row|]; [|split; [done | by left]].
  apply wp_getNValue.
  destruct (row !! columnIndex) as [v|]; [|split; [done | by left]].
  apply wp_bind, wp_params_set; [|intros _; split; [done | by left]].
  intros Hlt.
  (* the plan *)
  apply wp_bind. unfold minMaxExecutorVectors_at.
  destruct (m_minMaxExecutorVectors h !! k) as [plan|];
    [apply wp_ret | apply wp_throw; split; [apply Hview | by left]].
  apply wp_bind, wp_run_executors. cbn.
  assert (deltaTableActive s = deltaTableActive s0) as -> by apply Hview.
  rewrite Htr. fold ev.
  match goal with |- context [executeExecutors plan ?st] => set (s1 := st) end.
  assert (same_view s0 s1) as Hview1
    by (destruct Hview as (?&?&?&?); by repeat split).
  destruct (executeExecutors plan s1) as [resultTable|];
    [|split; [done | by right]].
  apply wp_bind.
  match goal with |- wp ?m _ _ =>
    assert (forall Q, (forall x, Q (inr x) s1) -> Q (inl OutOfBounds) s1 -> wp m Q s1)
      as Hnew
  end.
  { intros Q Hok Hbad. destruct resultTable as [|resultTuple ?];
      [apply wp_ret, Hok|].
    apply wp_getNValue. by destruct (resultTuple !! 0%nat). }
  apply Hnew; [|split; [done | by right]]. intros newValue.
  (* the loop that restores the parameters *)
  apply wp_bind.
  apply (wp_for_range (fun i (_ : unit) s' =>
           same_view s0 s' /\ trace s' = trace s0 ++ [ev] /\
           length (params s') = length (params s0) /\
           (forall j, (j < i)%nat -> params s' !! j = params s0 !! j) /\
           (forall j, (gb < j)%nat -> params s' !! j = params s0 !! j))).
  { repeat split; try apply Hview; try done.
    - subst s1; cbn. by rewrite length_insert.
    - intros j Hj. lia.
    - intros j Hj. subst s1; cbn.
      rewrite list_lookup_insert_ne by lia. apply Hrest. lia. }
  { intros i [] s' Hi (Hview' & Htr' & Hplen' & Hdone & Hrest').
    assert (<[gb := p]> backups !! i = params s0 !! i) as Hb.
    { destruct (decide (i = gb)) as [-> | Hne].
      - rewrite list_lookup_insert_eq by lia. rewrite <- Hp. apply Hrest. lia.
      - rewrite list_lookup_insert_ne by done. apply Hsaved. lia. }
    destruct (<[gb := p]> backups !! i) as [b|] eqn:Hbi;
      [|apply wp_throw; split; [done | by right]].
    apply wp_params_set; [|intros _; split; [done | by right]].
    intros Hlt'. cbn. repeat split; try apply Hview'; try done.
    - by rewrite length_insert.
    - intros j Hj. destruct (decide (j = i)) as [-> | Hne].
      + rewrite list_lookup_insert_eq by lia. done.
      + rewrite list_lookup_insert_ne by done. apply Hdone. lia.
    - intros j Hj. rewrite list_lookup_insert_ne by lia. by apply Hrest'. }
  intros [] s' (Hview' & Htr' & Hplen' & Hdone & Hrest').
  apply wp_ret. repeat split; try apply Hview'; try done.
  apply list_eq. intros j.
  destruct (decide (j < gb + 1)%nat); [apply Hdone | apply Hrest']; lia.
Qed.

(** C7.  Whenever [fallbackMinMaxColumn] returns, the parameter array of
    the executor context is, entry by entry, what it was when the call
    was made. *)
Theorem fallbackMinMaxColumn_restores_params columnIndex k s newValue s' :
  fallbackMinMaxColumn h columnIndex k s = (inr newValue, s') ->
  params s' = params s /\
  forall i, params s' !! i = params s !! i.
Proof.
  intros Hrun.
  pose proof (wp_run _ _ _ _ _ (wp_fallbackMinMaxColumn columnIndex k s) Hrun)
    as (_ & Hparams & _).
  split; [done|]. intros i. by rewrite Hparams.
Qed.
End Fallback.

(** ** [mergeTupleForInsert] *)

Section MergeInsert.
Context {NValue : Type} {ops : NValueOps NValue} {env : Collaborators NValue}.
Context {laws : NValueLaws NValue}.
Variable h : Handler.

Local Abbreviation State := (State NValue).

Lemma scratch_only_refl (s : State) : scratch_only s s.
Proof. by repeat split. Qed.

Lemma scratch_only_row (s0 s : State) :
  scratch_only s0 s -> existingTuple_row s = existingTuple_row s0.
Proof. unfold existingTuple_row. by intros (-> & -> & _). Qed.

Lemma scratch_only_set (s0 s : State) idx v :
  scratch_only s0 s ->
  scratch_only s0 (mkState (m_destTable s) (m_existingTuple s)
                     (<[idx := v]> (m_updatedTuple s)) (params s)
                     (deltaTableActive s) (trace s)).
Proof.
  intros (?&?&?&?&?&?). repeat split; try done. cbn. by rewrite length_insert.
Qed.

(** The group-by columns are copied without touching anything but the
    scratch tuple, and the copy cannot fail on tuples of the view's
    width. *)
Lemma wp_copy_groupBy_columns (s0 : State) :
  wp (copy_groupBy_columns h)
     (fun r s =>
        scratch_only s0 s /\
        forall row,
          existingTuple_row s0 = Some row ->
          (m_groupByColumnCount h <= length row)%nat ->
          (m_groupByColumnCount h <= length (m_updatedTuple s0))%nat ->
          r = inr tt) s0.
Proof.
  unfold copy_groupBy_columns.
  apply (wp_for_range (fun _ (_ : unit) s => scratch_only s0 s)).
  - apply scratch_only_refl.
  - intros i [] s Hi Hs.
    apply wp_bind, wp_existingTuple_getNValue.
    rewrite (scratch_only_row _ _ Hs).
    destruct (existingTuple_row s0) as [row|] eqn:Hrow; [|by split].
    apply wp_getNValue.
    destruct (row !! i) as [v|] eqn:Hv.
    + apply wp_updatedTuple_setNValue.
      * intros _. by apply scratch_only_set.
      * intros Hge. split; [done|]. intros ? [= <-] _ Hlen.
        destruct Hs as (_&_&_&_&_&Hw). lia.
    + split; [done|]. intros ? [= <-] Hlen _.
      apply lookup_ge_None in Hv. lia.
  - intros [] s Hs. split; [done|]. by intros.
Qed.

(** What the source computes for one aggregate column agrees with the
    words of the specification. *)
Lemma merge_insert_MIN (e d : NValue) :
  (if negb (isNull e) && bool_decide (compare d e >= 0) then e else d)
  = (if isNull e then d
     else if bool_decide (compare e d <= 0) then e else d).
Proof.
  destruct (isNull e); simpl; [done|].
  by rewrite (bool_decide_ext _ _ (compare_swap d e)).
Qed.

Lemma merge_insert_MAX (e d : NValue) :
  (if negb (isNull e) && bool_decide (compare d e <= 0) then e else d)
  = (if isNull e then d
     else if bool_decide (compare e d >= 0) then e else d).
Proof.
  destruct (isNull e); simpl; [done|].
  by rewrite (bool_decide_ext _ _ (compare_swap e d)).
Qed.

(** Whatever happens, the merge writes the scratch tuple only. *)
Lemma wp_mergeTupleForInsert_frame (deltaTuple : list NValue) (s0 : State) :
  wp (mergeTupleForInsert h deltaTuple) (fun _ s => scratch_only s0 s) s0.
Proof.
  unfold mergeTupleForInsert.
  apply wp_bind.
  eapply wp_mono; [apply wp_copy_groupBy_columns|].
  intros r s1 [Hs1 _]. destruct r as [exn|[]]; [done|].
  apply (wp_for_range (fun _ (_ : unit) s => scratch_only s0 s)); [done| |done].
  intros i [] s _ Hs.
  apply wp_bind, wp_existingTuple_getNValue.
  destruct (existingTuple_row s) as [row|]; [|done].
  apply wp_getNValue. destruct (row !! _) as [e|]; [|done].
  apply wp_bind, wp_getNValue. destruct (deltaTuple !! _) as [d|]; [|done].
  assert (forall v, wp (updatedTuple_setNValue (m_groupByColumnCount h + i) v)
                      (fun r s' => match r with
                                   | inr _ => scratch_only s0 s'
                                   | inl _ => scratch_only s0 s'
                                   end) s) as Hstore.
  { intros v. apply wp_updatedTuple_setNValue; [|done].
    intros _. by apply scratch_only_set. }
  apply wp_bind.
  destruct (isNull d); [apply wp_ret, Hstore|].
  apply wp_bind. unfold aggTypes_at.
  destruct (m_aggTypes h !! i) as [t|]; [apply wp_ret | by apply wp_throw].
  destruct t; simpl;
    repeat match goal with
           | |- wp (if ?c then _ else _) _ _ => destruct c
           | |- wp (mret _) _ _ => apply wp_ret, Hstore
           end.
  apply wp_bind, wp_assert; intros _; [apply wp_ret, Hstore | done].
Qed.

Lemma wp_mergeTupleForInsert (deltaTuple : list NValue) (s0 : State) row :
  existingTuple_row s0 = Some row ->
  length row = (m_groupByColumnCount h + m_aggColumnCount h)%nat ->
  length deltaTuple = (m_groupByColumnCount h + m_aggColumnCount h)%nat ->
  length (m_updatedTuple s0) = (m_groupByColumnCount h + m_aggColumnCount h)%nat ->
  length (m_aggTypes h) = m_aggColumnCount h ->
  Forall supported (m_aggTypes h) ->
  wp (mergeTupleForInsert h deltaTuple)
     (fun r s =>
        r = inr tt /\
        forall aggIndex t e d,
          m_aggTypes h !! aggIndex = Some t ->
          row !! (m_groupByColumnCount h + aggIndex)%nat = Some e ->
          deltaTuple !! (m_groupByColumnCount h + aggIndex)%nat = Some d ->
          m_updatedTuple s !! (m_groupByColumnCount h + aggIndex)%nat
          = Some (spec_merge_for_insert t e d)) s0.
Proof.
  set (gb := m_groupByColumnCount h). set (n := m_aggColumnCount h).
  intros Hrow Hw Hdw Hu Ha Hsup.
  unfold mergeTupleForInsert. fold gb n.
  apply wp_bind.
  eapply wp_mono; [apply wp_copy_groupBy_columns|]. fold gb.
  intros r s1 [Hs1 Hcopy].
  rewrite (Hcopy row Hrow) by lia. clear Hcopy.
  apply (wp_for_range (fun i (_ : unit) s =>
           scratch_only s0 s /\
           forall aggIndex t e d,
             (aggIndex < i)%nat ->
             m_aggTypes h !! aggIndex = Some t ->
             row !! (gb + aggIndex)%nat = Some e ->
             deltaTuple !! (gb + aggIndex)%nat = Some d ->
             m_updatedTuple s !! (gb + aggIndex)%nat
             = Some (spec_merge_for_insert t e d))).
  - split; [done|]. intros; lia.
  - intros i [] s Hi [Hs Hdone]. simpl in Hi.
    destruct (lookup_lt_is_Some_2 row (gb + i)%nat) as [e He]; [lia|].
    destruct (lookup_lt_is_Some_2 deltaTuple (gb + i)%nat) as [d Hd]; [lia|].
    destruct (lookup_lt_is_Some_2 (m_aggTypes h) i) as [t Ht]; [lia|].
    assert (supported t) as Ht_sup.
    { rewrite Forall_forall in Hsup. eapply Hsup, list_elem_of_lookup_2, Ht. }
    apply wp_bind, wp_existingTuple_getNValue.
    rewrite (scratch_only_row _ _ Hs), Hrow.
    apply wp_getNValue. rewrite He.
    apply wp_bind, wp_getNValue. rewrite Hd.
    (* whatever the case, the value stored is the specified one *)
    assert (wp (updatedTuple_setNValue (gb + i) (spec_merge_for_insert t e d))
              (fun r s' =>
                 match r with
                 | inr _ =>
                     scratch_only s0 s' /\
                     forall aggIndex t e d,
                       (aggIndex < S i)%nat ->
                       m_aggTypes h !! aggIndex = Some t ->
                       row !! (gb + aggIndex)%nat = Some e ->
                       deltaTuple !! (gb + aggIndex)%nat = Some d ->
                       m_updatedTuple s' !! (gb + aggIndex)%nat
                       = Some (spec_merge_for_insert t e d)
                 | inl exn =>
                     @inl Exn unit exn = inr tt /\
                     forall aggIndex t e d,
                       m_aggTypes h !! aggIndex = Some t ->
                       row !! (gb + aggIndex)%nat = Some e ->
                       deltaTuple !! (gb + aggIndex)%nat = Some d ->
                       m_updatedTuple s' !! (gb + aggIndex)%nat
                       = Some (spec_merge_for_insert t e d)
                 end) s) as Hstore.
    { apply wp_updatedTuple_setNValue.
      - intros Hlt. split; [by apply scratch_only_set|]. cbn.
        intros aggIndex t' e' d' Hlt' Ht' He' Hd'.
        destruct (decide (aggIndex = i)) as [-> | Hne].
        + rewrite list_lookup_insert_eq by done. congruence.
        + rewrite list_lookup_insert_ne by lia.
          apply Hdone; [lia | done..].
      - intros Hge. destruct Hs as (_&_&_&_&_&Hlen). lia. }
    apply wp_bind.
    destruct (isNull d) eqn:Hnull.
    { apply wp_ret. revert Hstore. unfold spec_merge_for_insert.
      by rewrite Hnull. }
    apply wp_bind. unfold aggTypes_at. rewrite Ht. apply wp_ret.
    revert Hstore. unfold spec_merge_for_insert. rewrite Hnull.
    destruct t; simpl; try done.
    + destruct (isNull e); simpl; intros Hstore; apply wp_ret, Hstore.
    + destruct (isNull e); simpl; intros Hstore; apply wp_ret, Hstore.
    + destruct (isNull e); simpl; intros Hstore; apply wp_ret, Hstore.
    + rewrite <- merge_insert_MIN.
      destruct (negb (isNull e) && bool_decide (compare d e >= 0));
        intros Hstore; apply wp_ret, Hstore.
    + rewrite <- merge_insert_MAX.
      destruct (negb (isNull e) && bool_decide (compare d e <= 0));
        intros Hstore; apply wp_ret, Hstore.
  - intros [] s [Hs Hdone]. split; [done|].
    intros aggIndex t e d Ht He Hd.
    apply Hdone; try done. apply lookup_lt_Some in Ht. lia.
Qed.

(** C3.  On tuples of the view's width, [mergeTupleForInsert] returns,
    and in every aggregate column [c] it leaves the merged value of the
    specification: [existing[c]] when [d[c]] is null, [d[c]] when
    [existing[c]] is null, otherwise the sum for SUM, COUNT and
    COUNT_STAR, the smaller of the two for MIN and the larger for MAX,
    [existing[c]] being kept on ties. *)
Theorem mergeTupleForInsert_merges (deltaTuple : list NValue) (s : State) row :
  existingTuple_row s = Some row ->
  length row = (m_groupByColumnCount h + m_aggColumnCount h)%nat ->
  length deltaTuple = (m_groupByColumnCount h + m_aggColumnCount h)%nat ->
  length (m_updatedTuple s) = (m_groupByColumnCount h + m_aggColumnCount h)%nat ->
  length (m_aggTypes h) = m_aggColumnCount h ->
  Forall supported (m_aggTypes h) ->
  exists s',
    mergeTupleForInsert h deltaTuple s = (inr tt, s') /\
    forall aggIndex t e d,
      m_aggTypes h !! aggIndex = Some t ->
      row !! (m_groupByColumnCount h + aggIndex)%nat = Some e ->
      deltaTuple !! (m_groupByColumnCount h + aggIndex)%nat = Some d ->
      m_updatedTuple s' !! (m_groupByColumnCount h + aggIndex)%nat
      = Some (spec_merge_for_insert t e d).
Proof.
  intros Hrow Hw Hd Hu Ha Hsup.
  pose proof (wp_mergeTupleForInsert deltaTuple s row Hrow Hw Hd Hu Ha Hsup)
    as Hwp.
  unfold wp in Hwp.
  destruct (mergeTupleForInsert h deltaTuple s) as [r s']. simpl in Hwp.
  destruct Hwp as [-> Hvals].
  exists s'. by split.
Qed.
End MergeInsert.

(** ** [mergeTupleForDelete] *)

Section MergeDelete.
Context {NValue : Type} {ops : NValueOps NValue} {env : Collaborators NValue}.
Variable h : Handler.

Local Abbreviation State := (State NValue).

Lemma kept_refl (s : State) : kept s s.
Proof. by repeat split. Qed.

Lemma kept_trans (s0 s1 s2 : State) : kept s0 s1 -> kept s1 s2 -> kept s0 s2.
Proof. unfold kept. intros (?&?&?&?) (?&?&?&?). repeat split; congruence. Qed.

Lemma kept_row (s0 s : State) :
  kept s0 s -> existingTuple_row s = existingTuple_row s0.
Proof. unfold existingTuple_row. by intros (-> & -> & _). Qed.

Lemma scratch_only_kept (s0 s : State) : scratch_only s0 s -> kept s0 s.
Proof. intros (?&?&?&?&?&?). by repeat split. Qed.

Lemma same_view_kept (s0 s : State) : same_view s0 s -> kept s0 s.
Proof. intros (?&?&Hu&?). repeat split; try done. by rewrite Hu. Qed.

Lemma kept_set (s0 s : State) idx v :
  kept s0 s ->
  kept s0 (mkState (m_destTable s) (m_existingTuple s)
             (<[idx := v]> (m_updatedTuple s)) (params s)
             (deltaTableActive s) (trace s)).
Proof. intros (?&?&?&?). repeat split; try done. cbn. by rewrite length_insert. Qed.

Lemma minMaxColumnIndex_of_S aggIndex t :
  m_aggTypes h !! aggIndex = Some t ->
  minMaxColumnIndex_of h (S aggIndex)
  = if is_min_max t then S (minMaxColumnIndex_of h aggIndex)
    else minMaxColumnIndex_of h aggIndex.
Proof.
  intros Ht. unfold minMaxColumnIndex_of.
  rewrite (take_S_r _ _ _ Ht), filter_app, length_app.
  destruct (is_min_max t) eqn:Hmm.
  - rewrite filter_cons_True by done. simpl. lia.
  - rewrite filter_cons_False by (by rewrite Hmm). simpl. lia.
Qed.

(** What a call of [mergeTupleForDelete] leaves behind.  Whatever the
    outcome, it touches neither the view table nor the delta-mode flags,
    and what it adds to the trace are fallback queries, run with the
    delta-mode flags of the calling state.  When it returns, the
    parameters are back, and
    - if the new count is zero, no query was run, every COUNT and
      COUNT_STAR column of the scratch tuple is zero and every other
      aggregate column is null;
    - otherwise a MIN or MAX column had its fallback query run (with the
      plan at its position among the MIN and MAX columns) exactly when
      its extremum was removed, and it keeps the existing value when no
      query was run. *)
Lemma wp_mergeTupleForDelete (deltaTuple : list NValue) (s0 : State) :
  wp (mergeTupleForDelete h deltaTuple)
     (fun r s =>
        (kept s0 s /\
         exists evs, trace s = trace s0 ++ evs /\
           Forall (fun ev => is_fallback ev /\
                             fallback_in (deltaTableActive s0) ev) evs) /\
        (match r with
         | inl _ => True
         | inr _ =>
         forall evs row ec dc,
           trace s = trace s0 ++ evs ->
           existingTuple_row s0 = Some row ->
           row !! m_countStarColumnIndex h = Some ec ->
           deltaTuple !! m_countStarColumnIndex h = Some dc ->
           params s = params s0 /\
           if isZero (op_subtract ec dc) then
             evs = [] /\
             forall aggIndex t,
               (aggIndex < m_aggColumnCount h)%nat ->
               m_aggTypes h !! aggIndex = Some t ->
               if is_count t
               then m_updatedTuple s !! (m_groupByColumnCount h + aggIndex)%nat
                    = Some (getBigIntValue 0)
               else exists ty,
                   schema h !! (m_groupByColumnCount h + aggIndex)%nat = Some ty /\
                   m_updatedTuple s !! (m_groupByColumnCount h + aggIndex)%nat
                   = Some (getNullValue ty)
           else
             (forall ev, ev ∈ evs ->
                exists a, (a < m_aggColumnCount h)%nat /\
                  ev = EvFallbackQuery (m_groupByColumnCount h + a)
                         (minMaxColumnIndex_of h a) (deltaTableActive s0) /\
                  extremum_removed h row deltaTuple a) /\
             (forall a, (a < m_aggColumnCount h)%nat ->
                extremum_removed h row deltaTuple a ->
                EvFallbackQuery (m_groupByColumnCount h + a)
                  (minMaxColumnIndex_of h a) (deltaTableActive s0) ∈ evs) /\
             (forall a t e, (a < m_aggColumnCount h)%nat ->
                m_aggTypes h !! a = Some t -> is_min_max t = true ->
                ¬ extremum_removed h row deltaTuple a ->
                row !! (m_groupByColumnCount h + a)%nat = Some e ->
                m_updatedTuple s !! (m_groupByColumnCount h + a)%nat = Some e)
         end)) s0.
Proof.
  set (gb := m_groupByColumnCount h). set (n := m_aggColumnCount h).
  set (D0 := deltaTableActive s0).
  set (P1 := fun s : State =>
         kept s0 s /\
         exists evs, trace s = trace s0 ++ evs /\
           Forall (fun ev => is_fallback ev /\ fallback_in D0 ev) evs).
  assert (forall s : State, kept s0 s -> trace s = trace s0 -> P1 s) as HP1.
  { intros s Hk Htr. split; [done|]. exists []. by rewrite app_nil_r. }
  unfold mergeTupleForDelete. fold gb n.
  apply wp_bind.
  eapply wp_mono; [apply wp_copy_groupBy_columns|].
  intros r s1 [Hs1 _].
  assert (kept s0 s1) as Hk1 by by apply scratch_only_kept.
  assert (trace s1 = trace s0) as Htr1 by apply Hs1.
  assert (params s1 = params s0) as Hp1 by apply Hs1.
  destruct r as [exn|[]]; [split; [by apply HP1 | done]|].
  apply wp_bind, wp_existingTuple_getNValue_cases;
    [|intros _; split; [by apply HP1 | done]].
  intros row ec Hrow Hec. rewrite (kept_row _ _ Hk1) in Hrow.
  apply wp_bind, wp_getNValue_cases;
    [|intros _; split; [by apply HP1 | done]].
  intros dc Hdc.
  destruct (isZero (op_subtract ec dc)) eqn:Hzero.
  - (* no rows are left: counts are zeroed, the rest is nulled *)
    apply (wp_for_range (fun i (_ : unit) s =>
             kept s0 s /\ trace s = trace s0 /\ params s = params s0 /\
             forall aggIndex t,
               (aggIndex < i)%nat ->
               m_aggTypes h !! aggIndex = Some t ->
               if is_count t
               then m_updatedTuple s !! (gb + aggIndex)%nat
                    = Some (getBigIntValue 0)
               else exists ty,
                   schema h !! (gb + aggIndex)%nat = Some ty /\
                   m_updatedTuple s !! (gb + aggIndex)%nat
                   = Some (getNullValue ty))).
    + do 3 (split; [done|]). intros; lia.
    + intros i [] s Hi (Hk & Htr & Hp & Hdone).
      apply wp_bind, wp_aggTypes_at_cases;
        [|intros _; split; [by apply HP1 | done]].
      intros t Ht.
      assert (forall newValue,
                (if is_count t then newValue = getBigIntValue 0
                 else exists ty, schema h !! (gb + i)%nat = Some ty /\
                                 newValue = getNullValue ty) ->
                wp (updatedTuple_setNValue (gb + i) newValue)
                   (fun r s' =>
                      match r with
                      | inr _ =>
                          kept s0 s' /\ trace s' = trace s0 /\
                          params s' = params s0 /\
                          forall aggIndex t,
                            (aggIndex < S i)%nat ->
                            m_aggTypes h !! aggIndex = Some t ->
                            if is_count t
                            then m_updatedTuple s' !! (gb + aggIndex)%nat
                                 = Some (getBigIntValue 0)
                            else exists ty,
                                schema h !! (gb + aggIndex)%nat = Some ty /\
                                m_updatedTuple s' !! (gb + aggIndex)%nat
                                = Some (getNullValue ty)
                      | inl exn => P1 s' /\ True
                      end) s) as Hstore.
      { intros newValue Hval.
        apply wp_updatedTuple_setNValue;
          [|intros _; split; [by apply HP1 | done]].
        intros Hlt. split; [by apply kept_set|].
        repeat split; try done. cbn.
        intros aggIndex t' Hlt' Ht'.
        destruct (decide (aggIndex = i)) as [-> | Hne].
        - rewrite list_lookup_insert_eq by done.
          assert (t' = t) as -> by congruence.
          destruct (is_count t); [by rewrite Hval|].
          destruct Hval as (ty & Hty & ->). by exists ty.
        - rewrite list_lookup_insert_ne by lia.
          apply Hdone; [lia | done]. }
      apply wp_bind.
      destruct t; simpl in Hstore |- *;
        try (apply wp_ret, Hstore; reflexivity);
        (apply wp_bind, wp_columnType_cases;
           [|intros _; split; [by apply HP1 | done]];
         intros ty Hty; apply wp_ret, Hstore; by exists ty).
    + intros [] s (Hk & Htr & Hp & Hdone).
      split; [by apply HP1|]. intros evs row' ec' dc' Hevs Hrow' Hec' Hdc'.
      assert (row' = row) as -> by congruence.
      assert (ec' = ec) as -> by congruence.
      assert (dc' = dc) as -> by congruence.
      rewrite Hzero. split; [done|]. split.
      * rewrite Htr in Hevs. rewrite <- (app_nil_r (trace s0)) in Hevs at 1.
        by apply app_inv_head in Hevs.
      * intros aggIndex t Hlt Ht. by apply Hdone.
  - (* Aggregations *)
    apply wp_bind.
    apply (wp_for_range (fun i k s =>
             kept s0 s /\ params s = params s0 /\
             k = minMaxColumnIndex_of h i /\
             exists evs, trace s = trace s0 ++ evs /\
               (forall ev, ev ∈ evs ->
                  exists a, (a < i)%nat /\
                    ev = EvFallbackQuery (gb + a) (minMaxColumnIndex_of h a) D0 /\
                    extremum_removed h row deltaTuple a) /\
               (forall a, (a < i)%nat ->
                  extremum_removed h row deltaTuple a ->
                  EvFallbackQuery (gb + a) (minMaxColumnIndex_of h a) D0 ∈ evs) /\
               (forall a t e, (a < i)%nat ->
                  m_aggTypes h !! a = Some t -> is_min_max t = true ->
                  ¬ extremum_removed h row deltaTuple a ->
                  row !! (gb + a)%nat = Some e ->
                  m_updatedTuple s !! (gb + a)%nat = Some e))).
    + do 3 (split; [done|]). exists []. rewrite app_nil_r.
      split; [done|]. split; [|split].
      * intros ev Hev. by apply elem_of_nil in Hev.
      * intros; lia.
      * intros; lia.
    + intros i k s Hi (Hk & Hp & -> & evs & Htr & Hevs & Hran & Hvals).
      assert (Forall (fun ev => is_fallback ev /\ fallback_in D0 ev) evs) as Hall.
      { apply Forall_forall. intros ev Hev.
        destruct (Hevs ev Hev) as (a & _ & -> & _). by split. }
      assert (P1 s) as HP1s.
      { split; [done|]. by exists evs. }
      apply wp_bind, wp_existingTuple_getNValue_cases; [|by intros _; split].
      intros row' e Hrow' He. rewrite (kept_row _ _ Hk) in Hrow'.
      assert (row' = row) as -> by congruence. clear Hrow'.
      apply wp_bind, wp_getNValue_cases; [|by intros _; split].
      intros d Hd.
      apply wp_bind, wp_aggTypes_at_cases; [|by intros _; split].
      intros t Ht.
      assert (extremum_removed h row deltaTuple i ->
              is_min_max t = true /\ isNull d = false /\ compare e d = 0)
        as Hrm_inv.
      { intros (t' & e' & d' & Ht' & Hmm' & He' & Hd' & Hnn & Hc).
        fold gb in He', Hd'.
        assert (t' = t) as -> by congruence.
        assert (e' = e) as -> by congruence.
        assert (d' = d) as -> by congruence.
        done. }
      (* a turn that runs no query *)
      assert (forall newValue,
                ¬ extremum_removed h row deltaTuple i ->
                (is_min_max t = true -> newValue = e) ->
                wp (updatedTuple_setNValue (gb + i) newValue
                    ≫= (fun _ => mret (match t with
                                       | EXPRESSION_TYPE_AGGREGATE_MIN
                                       | EXPRESSION_TYPE_AGGREGATE_MAX =>
                                           S (minMaxColumnIndex_of h i)
                                       | _ => minMaxColumnIndex_of h i
                                       end)))
                   (fun r s' =>
                      match r with
                      | inr k' =>
                          kept s0 s' /\ params s' = params s0 /\
                          k' = minMaxColumnIndex_of h (S i) /\
                          exists evs, trace s' = trace s0 ++ evs /\
                            (forall ev, ev ∈ evs ->
                               exists a, (a < S i)%nat /\
                                 ev = EvFallbackQuery (gb + a)
                                        (minMaxColumnIndex_of h a) D0 /\
                                 extremum_removed h row deltaTuple a) /\
                            (forall a, (a < S i)%nat ->
                               extremum_removed h row deltaTuple a ->
                               EvFallbackQuery (gb + a)
                                 (minMaxColumnIndex_of h a) D0 ∈ evs) /\
                            (forall a t e, (a < S i)%nat ->
                               m_aggTypes h !! a = Some t ->
                               is_min_max t = true ->
                               ¬ extremum_removed h row deltaTuple a ->
                               row !! (gb + a)%nat = Some e ->
                               m_updatedTuple s' !! (gb + a)%nat = Some e)
                      | inl exn => P1 s' /\ True
                      end) s) as Hquiet.
      { intros newValue Hnot Hval.
        apply wp_bind, wp_updatedTuple_setNValue; [|by intros _; split].
        intros Hlt. apply wp_ret.
        split; [by apply kept_set|]. split; [done|]. split.
        { rewrite (minMaxColumnIndex_of_S _ _ Ht). by destruct t. }
        exists evs. cbn. split; [done|]. split; [|split].
        - intros ev Hev. destruct (Hevs ev Hev) as (a & Ha & Heq & Hrm).
          exists a. split; [lia | done].
        - intros a Ha Hrm. destruct (decide (a = i)) as [-> | Hne]; [done|].
          apply Hran; [lia | done].
        - intros a t' e' Ha Ht' Hmm Hnrm He'.
          destruct (decide (a = i)) as [-> | Hne].
          + rewrite list_lookup_insert_eq by done.
            assert (t' = t) as -> by congruence.
            assert (e' = e) as -> by congruence.
            by rewrite Hval.
          + rewrite list_lookup_insert_ne by lia.
            eapply Hvals; eauto. lia. }
      apply wp_bind.
      destruct (isNull d) eqn:Hnull; simpl.
      { apply wp_ret, Hquiet; [|done].
        intros Hrm. apply Hrm_inv in Hrm as (_ & Hnn & _). congruence. }
      assert (is_min_max t = false -> ¬ extremum_removed h row deltaTuple i)
        as Hplain.
      { intros Hmm Hrm. apply Hrm_inv in Hrm as (Hmm' & _). congruence. }
      (* a MIN or MAX column *)
      assert (is_min_max t = true ->
              wp ((if decide (compare e d = 0)
                   then fallbackMinMaxColumn h (gb + i) (minMaxColumnIndex_of h i)
                   else mret e)
                  ≫= (fun newValue =>
                        updatedTuple_setNValue (gb + i) newValue
                        ≫= (fun _ => mret (S (minMaxColumnIndex_of h i)))))
                 (fun r s' =>
                    match r with
                    | inr k' =>
                        kept s0 s' /\ params s' = params s0 /\
                        k' = minMaxColumnIndex_of h (S i) /\
                        exists evs, trace s' = trace s0 ++ evs /\
                          (forall ev, ev ∈ evs ->
                             exists a, (a < S i)%nat /\
                               ev = EvFallbackQuery (gb + a)
                                      (minMaxColumnIndex_of h a) D0 /\
                               extremum_removed h row deltaTuple a) /\
                          (forall a, (a < S i)%nat ->
                             extremum_removed h row deltaTuple a ->
                             EvFallbackQuery (gb + a)
                               (minMaxColumnIndex_of h a) D0 ∈ evs) /\
                          (forall a t e, (a < S i)%nat ->
                             m_aggTypes h !! a = Some t ->
                             is_min_max t = true ->
                             ¬ extremum_removed h row deltaTuple a ->
                             row !! (gb + a)%nat = Some e ->
                             m_updatedTuple s' !! (gb + a)%nat = Some e)
                    | inl exn => P1 s' /\ True
                    end) s) as Hminmax.
      { intros Hmm.
        destruct (decide (compare e d = 0)) as [Heq | Hneq]; cycle 1.
        { apply wp_bind, wp_ret.
          assert (¬ extremum_removed h row deltaTuple i) as Hnot.
          { intros Hrm. by apply Hrm_inv in Hrm as (_ & _ & Hc). }
          pose proof (Hquiet e Hnot (fun _ => eq_refl)) as Hq.
          revert Hq. by destruct t. }
        assert (extremum_removed h row deltaTuple i) as Hrm
          by (by exists t, e, d).
        apply wp_bind.
        eapply wp_mono; [apply wp_fallbackMinMaxColumn|].
        intros r s' [Hview Hr].
        assert (kept s0 s') as Hk'
          by (eapply kept_trans; [exact Hk | by apply same_view_kept]).
        assert (deltaTableActive s = D0) as HD by apply Hk.
        rewrite HD in Hr.
        destruct r as [exn|newValue].
        { split; [|done]. split; [done|].
          destruct Hr as [Hr | Hr]; rewrite Hr, Htr.
          - by exists evs.
          - exists (evs ++ [EvFallbackQuery (gb + i) (minMaxColumnIndex_of h i) D0]).
            split; [by rewrite app_assoc|].
            apply Forall_app. split; [done | by repeat constructor]. }
        destruct Hr as [Hp' Htr'].
        assert (P1 s') as HP1s'.
        { split; [done|].
          exists (evs ++ [EvFallbackQuery (gb + i) (minMaxColumnIndex_of h i) D0]).
          split; [by rewrite Htr', Htr, app_assoc|].
          apply Forall_app. split; [done | by repeat constructor]. }
        apply wp_bind, wp_updatedTuple_setNValue; [|by intros _; split].
        intros Hlt. apply wp_ret.
        split; [by apply kept_set|]. split; [cbn; congruence|]. split.
        { rewrite (minMaxColumnIndex_of_S _ _ Ht). by rewrite Hmm. }
        exists (evs ++ [EvFallbackQuery (gb + i) (minMaxColumnIndex_of h i) D0]).
        cbn. split; [by rewrite Htr', Htr, app_assoc|]. split; [|split].
        - intros ev Hev. apply elem_of_app in Hev as [Hev | Hev].
          + destruct (Hevs ev Hev) as (a & Ha & Hev' & Hrm').
            exists a. split; [lia | done].
          + apply list_elem_of_singleton in Hev as ->.
            exists i. split; [lia | done].
        - intros a Ha Hrm'. apply elem_of_app.
          destruct (decide (a = i)) as [-> | Hne].
          + right. by apply list_elem_of_singleton.
          + left. apply Hran; [lia | done].
        - intros a t' e' Ha Ht' Hmm' Hnrm He'.
          destruct (decide (a = i)) as [-> | Hne]; [done|].
          rewrite list_lookup_insert_ne by lia.
          assert (m_updatedTuple s' = m_updatedTuple s) as -> by apply Hview.
          eapply Hvals; eauto. lia. }
      destruct t; simpl;
        try (apply wp_ret, Hquiet; [by apply Hplain | done]).
      * exact (wp_bind_inv _ _ _ _ (Hminmax eq_refl)).
      * exact (wp_bind_inv _ _ _ _ (Hminmax eq_refl)).
      * apply wp_bind, wp_assert; intros _; [|by split].
        apply wp_ret, Hquiet; [by apply Hplain | done].
    + intros k s (Hk & Hp & -> & evs & Htr & Hevs & Hran & Hvals).
      apply wp_ret. split.
      { split; [done|]. exists evs. split; [done|].
        apply Forall_forall. intros ev Hev.
        destruct (Hevs ev Hev) as (a & _ & -> & _). by split. }
      intros evs' row' ec' dc' Hevs' Hrow' Hec' Hdc'.
      assert (row' = row) as -> by congruence.
      assert (ec' = ec) as -> by congruence.
      assert (dc' = dc) as -> by congruence.
      rewrite Htr in Hevs'. apply app_inv_head in Hevs'. subst evs'.
      rewrite Hzero. by repeat split.
Qed.
End MergeDelete.

(** ** The delete path, one delta row at a time *)

Section DeleteRow.
Context {NValue : Type} {ops : NValueOps NValue} {env : Collaborators NValue}.
Context {laws : NValueLaws NValue}.
Variable h : Handler.

Local Abbreviation State := (State NValue).

(** With no rows left, resetting the aggregates cannot fail on tuples of
    the view's width. *)
Lemma mergeTupleForDelete_zero_returns (deltaTuple : list NValue) (s0 : State)
    row ec dc :
  existingTuple_row s0 = Some row ->
  row !! m_countStarColumnIndex h = Some ec ->
  deltaTuple !! m_countStarColumnIndex h = Some dc ->
  isZero (op_subtract ec dc) = true ->
  (m_groupByColumnCount h <= length row)%nat ->
  (m_groupByColumnCount h + m_aggColumnCount h
   <= length (m_updatedTuple s0))%nat ->
  (m_aggColumnCount h <= length (m_aggTypes h))%nat ->
  (m_groupByColumnCount h + m_aggColumnCount h <= length (schema h))%nat ->
  wp (mergeTupleForDelete h deltaTuple) (fun r _ => r = inr tt) s0.
Proof.
  set (gb := m_groupByColumnCount h). set (n := m_aggColumnCount h).
  intros Hrow Hec Hdc Hzero Hw Hu Ha Hsch.
  unfold mergeTupleForDelete. fold gb n.
  apply wp_bind.
  eapply wp_mono; [apply wp_copy_groupBy_columns|]. fold gb.
  intros r s1 [Hs1 Hcopy].
  rewrite (Hcopy row Hrow) by lia. clear Hcopy.
  apply wp_bind, wp_existingTuple_getNValue.
  rewrite (scratch_only_row _ _ Hs1), Hrow.
  apply wp_getNValue. rewrite Hec.
  apply wp_bind, wp_getNValue. rewrite Hdc. rewrite Hzero.
  apply (wp_for_range (fun _ (_ : unit) s =>
           length (m_updatedTuple s) = length (m_updatedTuple s0))).
  - apply Hs1.
  - intros i [] s Hi Hlen. simpl in Hi.
    destruct (lookup_lt_is_Some_2 (m_aggTypes h) i) as [t Ht]; [lia|].
    destruct (lookup_lt_is_Some_2 (schema h) (gb + i)%nat) as [ty Hty]; [lia|].
    apply wp_bind. unfold aggTypes_at. rewrite Ht. apply wp_ret.
    apply wp_bind.
    assert (forall v,
              wp (updatedTuple_setNValue (gb + i) v)
                 (fun r s' =>
                    match r with
                    | inr _ => length (m_updatedTuple s')
                               = length (m_updatedTuple s0)
                    | inl exn => @inl Exn unit exn = inr tt
                    end) s) as Hstore.
    { intros v. apply wp_updatedTuple_setNValue.
      - intros _. cbn. by rewrite length_insert.
      - intros Hge. lia. }
    destruct t; simpl; try (apply wp_ret, Hstore);
      (apply wp_bind; unfold columnType; rewrite Hty;
       apply wp_ret, wp_ret, Hstore).
  - by intros [] ? _.
Qed.

(** One turn of the loop, for a delta row whose view row is found, with
    non-null counts: the view row is deleted exactly when the new count
    is zero and the view has group-by columns; in every other case the
    turn is merge-for-delete followed by the in-place update of that row,
    which then holds the merged tuple (and no row is deleted); and when
    the new count is zero and there are no group-by columns, the turn
    returns and leaves zero in every COUNT and COUNT_STAR column of the
    row and null in every other aggregate column. *)
Lemma handleTupleDelete_row_turn
    (fallible : bool) (deltaTuple : list NValue) (s s1 : State)
    target row ec dc :
  findExistingTuple h deltaTuple s = (inr true, s1) ->
  m_existingTuple s1 = Some target ->
  m_destTable s1 !! target = Some row ->
  row !! m_countStarColumnIndex h = Some ec ->
  deltaTuple !! m_countStarColumnIndex h = Some dc ->
  isNull ec = false -> isNull dc = false ->
  let new_count := op_subtract ec dc in
  (isZero new_count = true /\ (0 < m_groupByColumnCount h)%nat ->
   handleTupleDelete_row h fallible deltaTuple s
   = (inr tt,
      mkState (delete target (m_destTable s1)) (m_existingTuple s1)
        (m_updatedTuple s1) (params s1) (deltaTableActive s1)
        (trace s1 ++ [EvDeleteTuple target])))
  /\
  (¬ (isZero new_count = true /\ (0 < m_groupByColumnCount h)%nat) ->
   handleTupleDelete_row h fallible deltaTuple s
   = (mergeTupleForDelete h deltaTuple
      ≫= fun _ => updateTupleWithSpecificIndexes fallible) s1
   /\
   forall s',
     handleTupleDelete_row h fallible deltaTuple s = (inr tt, s') ->
     m_destTable s' = <[target := m_updatedTuple s']> (m_destTable s1) /\
     m_destTable s' !! target = Some (m_updatedTuple s') /\
     exists evs,
       trace s' = trace s1 ++ evs ++ [EvUpdateTuple target (m_updatedTuple s')] /\
       Forall is_fallback evs)
  /\
  (isZero new_count = true -> m_groupByColumnCount h = 0%nat ->
   length (m_updatedTuple s1) = m_aggColumnCount h ->
   length (m_aggTypes h) = m_aggColumnCount h ->
   length (schema h) = m_aggColumnCount h ->
   exists s' merged,
     handleTupleDelete_row h fallible deltaTuple s = (inr tt, s') /\
     m_destTable s' !! target = Some merged /\
     length (m_destTable s') = length (m_destTable s1) /\
     forall aggIndex t,
       m_aggTypes h !! aggIndex = Some t ->
       if is_count t
       then merged !! aggIndex = Some (getBigIntValue 0)
       else exists ty, schema h !! aggIndex = Some ty /\
                       merged !! aggIndex = Some (getNullValue ty)).
Proof.
  intros Hfind Hex Hrow Hec Hdc Hnec Hndc new_count.
  assert (existingTuple_row s1 = Some row) as Hrow1
    by (unfold existingTuple_row; by rewrite Hex).
  assert (target < length (m_destTable s1))%nat as Hlt
    by (by eapply lookup_lt_Some).
  (* the turn up to the test *)
  assert (handleTupleDelete_row h fallible deltaTuple s
          = (if bool_decide (compare ec dc = 0)
                && bool_decide (0 < m_groupByColumnCount h)%nat
             then deleteTuple fallible
             else mergeTupleForDelete h deltaTuple
                  ≫= fun _ => updateTupleWithSpecificIndexes fallible) s1)
    as Hturn.
  { unfold handleTupleDelete_row. rewrite bind_run, Hfind. cbn [negb].
    rewrite bind_run. cbn [mret M_ret].
    rewrite bind_run, (existingTuple_getNValue_run _ _ _ _ Hrow1 Hec).
    rewrite bind_run, (getNValue_run _ _ _ _ Hdc). reflexivity. }
  pose proof (subtract_isZero ec dc Hnec Hndc) as Hlaw. fold new_count in Hlaw.
  (* what merge-for-delete followed by the update leaves, when it returns *)
  assert (forall s',
            (mergeTupleForDelete h deltaTuple
             ≫= fun _ => updateTupleWithSpecificIndexes fallible) s1
            = (inr tt, s') ->
            m_destTable s' = <[target := m_updatedTuple s']> (m_destTable s1) /\
            m_destTable s' !! target = Some (m_updatedTuple s') /\
            (exists evs,
               trace s' = trace s1 ++ evs
                            ++ [EvUpdateTuple target (m_updatedTuple s')] /\
               Forall is_fallback evs) /\
            exists s2, mergeTupleForDelete h deltaTuple s1 = (inr tt, s2) /\
                       m_updatedTuple s' = m_updatedTuple s2 /\
                       trace s' = trace s2
                                  ++ [EvUpdateTuple target (m_updatedTuple s2)])
    as Hmerge.
  { intros s' Hrun. rewrite bind_run in Hrun.
    pose proof (wp_mergeTupleForDelete h deltaTuple s1) as Hwp. unfold wp in Hwp.
    destruct (mergeTupleForDelete h deltaTuple s1) as [[exn|[]] s2];
      [discriminate|].
    cbn [fst snd] in Hwp.
    destruct Hwp as [[(Hd & He & _ & _) (evs & Htr & Hall)] _].
    rewrite (updateTupleWithSpecificIndexes_run _ _ target) in Hrun
      by (by rewrite ?He, ?Hd).
    injection Hrun as <-. cbn. rewrite Hd.
    split; [done|]. split; [by rewrite list_lookup_insert_eq|]. split.
    - exists evs. split; [by rewrite Htr, app_assoc|].
      eapply Forall_impl; [exact Hall|]. by intros ev [? _].
    - exists s2. by repeat split. }
  split; [|split].
  - intros [Hz Hgb]. rewrite Hturn.
    rewrite (bool_decide_eq_true_2 _ (proj1 Hlaw Hz)).
    rewrite (bool_decide_eq_true_2 _ Hgb). cbn [andb].
    by rewrite (deleteTuple_run _ _ target).
  - intros Hnot.
    assert (bool_decide (compare ec dc = 0)
            && bool_decide (0 < m_groupByColumnCount h)%nat = false) as Hcond.
    { apply andb_false_iff.
      destruct (decide (compare ec dc = 0)) as [Hc | Hc].
      - right. apply bool_decide_eq_false_2. intros Hgb.
        apply Hnot. split; [by apply Hlaw | done].
      - left. by apply bool_decide_eq_false_2. }
    rewrite Hturn, Hcond. split; [done|].
    intros s' Hrun. destruct (Hmerge s' Hrun) as (? & ? & ? & _). by repeat split.
  - intros Hz Hgb Hu Ha Hsch.
    assert (bool_decide (0 < m_groupByColumnCount h)%nat = false) as Hcond
      by (apply bool_decide_eq_false_2; lia).
    rewrite Hturn, Hcond, andb_false_r.
    pose proof (mergeTupleForDelete_zero_returns deltaTuple s1 row ec dc
                  Hrow1 Hec Hdc Hz) as Hret.
    unfold wp in Hret.
    pose proof (wp_mergeTupleForDelete h deltaTuple s1) as Hwp. unfold wp in Hwp.
    destruct (mergeTupleForDelete h deltaTuple s1) as [r s2] eqn:Hm.
    cbn [fst snd] in Hret, Hwp.
    rewrite Hret in Hwp, Hm by lia. clear Hret.
    destruct Hwp as [[(Hd & He & _ & Hlen) (evs & Htr & _)] Hvals].
    destruct (Hvals evs row ec dc Htr Hrow1 Hec Hdc) as [_ Hzero].
    fold new_count in Hzero. rewrite Hz in Hzero. destruct Hzero as [_ Hzero].
    set (s' := mkState (<[target := m_updatedTuple s2]> (m_destTable s2))
                 (m_existingTuple s2) (m_updatedTuple s2) (params s2)
                 (deltaTableActive s2)
                 (trace s2 ++ [EvUpdateTuple target (m_updatedTuple s2)])).
    assert ((mergeTupleForDelete h deltaTuple
             ≫= fun _ => updateTupleWithSpecificIndexes fallible) s1
            = (inr tt, s')) as Hrun.
    { rewrite bind_run, Hm.
      by rewrite (updateTupleWithSpecificIndexes_run _ _ target)
        by (by rewrite ?He, ?Hd). }
    exists s', (m_updatedTuple s2). split; [done|]. split; [|split].
    + subst s'. cbn. rewrite Hd. by rewrite list_lookup_insert_eq.
    + subst s'. cbn. by rewrite length_insert, Hd.
    + intros aggIndex t Ht.
      assert (aggIndex < m_aggColumnCount h)%nat as Hlt'
        by (apply lookup_lt_Some in Ht; lia).
      specialize (Hzero aggIndex t Hlt' Ht).
      by rewrite Hgb in Hzero.
Qed.
End DeleteRow.

(** ** Which columns are recalculated *)

Section Recalculate.
Context {NValue : Type} {ops : NValueOps NValue} {env : Collaborators NValue}.
Variable h : Handler.

Local Abbreviation State := (State NValue).

Lemma new_events_app (s s' : State) evs :
  trace s' = trace s ++ evs -> new_events s s' = evs.
Proof. intros Htr. unfold new_events. by rewrite Htr, drop_app_length. Qed.

Lemma wp_any {A} (m : M NValue A) (Q : Exn + A -> State -> Prop) (s : State) :
  (forall r s', Q r s') -> wp m Q s.
Proof. intros HQ. apply HQ. Qed.

(** What [mergeTupleForDelete] stores in a MIN or MAX column whose
    extremum was removed, when the new count is not zero: the value
    [fallbackMinMaxColumn] returned for that column, called in a state
    that has the view table, the existing tuple, the delta-mode flags and
    the parameters of the calling state. *)
Lemma wp_mergeTupleForDelete_stored (deltaTuple : list NValue) (s0 : State) :
  wp (mergeTupleForDelete h deltaTuple)
     (fun r s =>
        match r with
        | inl _ => True
        | inr _ =>
            forall row ec dc,
              existingTuple_row s0 = Some row ->
              row !! m_countStarColumnIndex h = Some ec ->
              deltaTuple !! m_countStarColumnIndex h = Some dc ->
              isZero (op_subtract ec dc) = false ->
              forall a, (a < m_aggColumnCount h)%nat ->
                extremum_removed h row deltaTuple a ->
                exists sa sa' v,
                  kept s0 sa /\ params sa = params s0 /\
                  fallbackMinMaxColumn h (m_groupByColumnCount h + a)
                    (minMaxColumnIndex_of h a) sa = (inr v, sa') /\
                  m_updatedTuple s !! (m_groupByColumnCount h + a)%nat = Some v
        end) s0.
Proof.
  set (gb := m_groupByColumnCount h). set (n := m_aggColumnCount h).
  unfold mergeTupleForDelete. fold gb n.
  apply wp_bind.
  eapply wp_mono; [apply wp_copy_groupBy_columns|].
  intros r s1 [Hs1 _].
  assert (kept s0 s1) as Hk1 by by apply scratch_only_kept.
  assert (params s1 = params s0) as Hp1 by apply Hs1.
  destruct r as [exn|[]]; [done|].
  apply wp_bind, wp_existingTuple_getNValue_cases; [|by intros].
  intros row ec Hrow Hec. rewrite (kept_row _ _ Hk1) in Hrow.
  apply wp_bind, wp_getNValue_cases; [|by intros].
  intros dc Hdc.
  destruct (isZero (op_subtract ec dc)) eqn:Hzero.
  - (* no rows are left: no column is recalculated *)
    apply (wp_for_range (fun _ _ _ => True)); [done| |].
    + intros i [] s _ _. apply wp_any. by intros [?|?] ?.
    + intros [] s _ row' ec' dc' Hrow' Hec' Hdc' Hnz.
      assert (row' = row) as -> by congruence.
      assert (ec' = ec) as -> by congruence.
      assert (dc' = dc) as -> by congruence.
      congruence.
  - (* Aggregations *)
    apply wp_bind.
    apply (wp_for_range (fun i k s =>
             kept s0 s /\ params s = params s0 /\
             k = minMaxColumnIndex_of h i /\
             forall a, (a < i)%nat ->
               extremum_removed h row deltaTuple a ->
               exists sa sa' v,
                 kept s0 sa /\ params sa = params s0 /\
                 fallbackMinMaxColumn h (gb + a) (minMaxColumnIndex_of h a) sa
                 = (inr v, sa') /\
                 m_updatedTuple s !! (gb + a)%nat = Some v)).
    + do 3 (split; [done|]). intros; lia.
    + intros i k s Hi (Hk & Hp & -> & Hvals).
      apply wp_bind, wp_existingTuple_getNValue_cases; [|by intros].
      intros row' e Hrow' He. rewrite (kept_row _ _ Hk) in Hrow'.
      assert (row' = row) as -> by congruence. clear Hrow'.
      apply wp_bind, wp_getNValue_cases; [|by intros].
      intros d Hd.
      apply wp_bind, wp_aggTypes_at_cases; [|by intros].
      intros t Ht.
      assert (extremum_removed h row deltaTuple i ->
              is_min_max t = true /\ isNull d = false /\ compare e d = 0)
        as Hrm_inv.
      { intros (t' & e' & d' & Ht' & Hmm' & He' & Hd' & Hnn & Hc).
        fold gb in He', Hd'.
        assert (t' = t) as -> by congruence.
        assert (e' = e) as -> by congruence.
        assert (d' = d) as -> by congruence.
        done. }
      (* a turn that runs no query *)
      assert (forall newValue,
                ¬ extremum_removed h row deltaTuple i ->
                wp (updatedTuple_setNValue (gb + i) newValue
                    ≫= (fun _ => mret (match t with
                                       | EXPRESSION_TYPE_AGGREGATE_MIN
                                       | EXPRESSION_TYPE_AGGREGATE_MAX =>
                                           S (minMaxColumnIndex_of h i)
                                       | _ => minMaxColumnIndex_of h i
                                       end)))
                   (fun r s' =>
                      match r with
                      | inr k' =>
                          kept s0 s' /\ params s' = params s0 /\
                          k' = minMaxColumnIndex_of h (S i) /\
                          forall a, (a < S i)%nat ->
                            extremum_removed h row deltaTuple a ->
                            exists sa sa' v,
                              kept s0 sa /\ params sa = params s0 /\
                              fallbackMinMaxColumn h (gb + a)
                                (minMaxColumnIndex_of h a) sa = (inr v, sa') /\
                              m_updatedTuple s' !! (gb + a)%nat = Some v
                      | inl exn => True
                      end) s) as Hquiet.
      { intros newValue Hnot.
        apply wp_bind, wp_updatedTuple_setNValue; [|by intros].
        intros Hlt. apply wp_ret.
        split; [by apply kept_set|]. split; [done|]. split.
        { rewrite (minMaxColumnIndex_of_S _ _ _ Ht). by destruct t. }
        intros a Ha Hrm. destruct (decide (a = i)) as [-> | Hne]; [done|].
        destruct (Hvals a ltac:(lia) Hrm) as (sa & sa' & v & ? & ? & ? & Hv).
        exists sa, sa', v. do 3 (split; [done|]).
        cbn. by rewrite list_lookup_insert_ne by lia. }
      apply wp_bind.
      destruct (isNull d) eqn:Hnull; simpl.
      { apply wp_ret, Hquiet.
        intros Hrm. apply Hrm_inv in Hrm as (_ & Hnn & _). congruence. }
      assert (is_min_max t = false -> ¬ extremum_removed h row deltaTuple i)
        as Hplain.
      { intros Hmm Hrm. apply Hrm_inv in Hrm as (Hmm' & _). congruence. }
      (* a MIN or MAX column *)
      assert (is_min_max t = true ->
              wp ((if decide (compare e d = 0)
                   then fallbackMinMaxColumn h (gb + i) (minMaxColumnIndex_of h i)
                   else mret e)
                  ≫= (fun newValue =>
                        updatedTuple_setNValue (gb + i) newValue
                        ≫= (fun _ => mret (S (minMaxColumnIndex_of h i)))))
                 (fun r s' =>
                    match r with
                    | inr k' =>
                        kept s0 s' /\ params s' = params s0 /\
                        k' = minMaxColumnIndex_of h (S i) /\
                        forall a, (a < S i)%nat ->
                          extremum_removed h row deltaTuple a ->
                          exists sa sa' v,
                            kept s0 sa /\ params sa = params s0 /\
                            fallbackMinMaxColumn h (gb + a)
                              (minMaxColumnIndex_of h a) sa = (inr v, sa') /\
                            m_updatedTuple s' !! (gb + a)%nat = Some v
                    | inl exn => True
                    end) s) as Hminmax.
      { intros Hmm.
        destruct (decide (compare e d = 0)) as [Heq | Hneq]; cycle 1.
        { apply wp_bind, wp_ret.
          assert (¬ extremum_removed h row deltaTuple i) as Hnot.
          { intros Hrm. by apply Hrm_inv in Hrm as (_ & _ & Hc). }
          pose proof (Hquiet e Hnot) as Hq.
          revert Hq. by destruct t. }
        apply wp_bind.
        pose proof (wp_fallbackMinMaxColumn h (gb + i)
                      (minMaxColumnIndex_of h i) s) as Hfb.
        unfold wp in Hfb. unfold wp at 1.
        revert Hfb.
        destruct (fallbackMinMaxColumn h (gb + i) (minMaxColumnIndex_of h i) s)
          as [r s'] eqn:Hf.
        cbn [fst snd]. intros [Hview Hr].
        destruct r as [exn|newValue]; [done|].
        destruct Hr as [Hp' _].
        assert (kept s0 s') as Hk'
          by (eapply kept_trans; [exact Hk | by apply same_view_kept]).
        apply wp_bind, wp_updatedTuple_setNValue; [|by intros].
        intros Hlt. apply wp_ret.
        split; [by apply kept_set|]. split; [cbn; congruence|]. split.
        { rewrite (minMaxColumnIndex_of_S _ _ _ Ht). by rewrite Hmm. }
        intros a Ha Hrm'. destruct (decide (a = i)) as [-> | Hne].
        - exists s, s', newValue. do 3 (split; [done|]).
          cbn. by rewrite list_lookup_insert_eq.
        - destruct (Hvals a ltac:(lia) Hrm') as (sa & sa' & v & ? & ? & ? & Hv).
          exists sa, sa', v. do 3 (split; [done|]).
          cbn. rewrite list_lookup_insert_ne by lia.
          assert (m_updatedTuple s' = m_updatedTuple s) as -> by apply Hview.
          done. }
      destruct t; simpl;
        try (apply wp_ret, Hquiet; by apply Hplain).
      * exact (wp_bind_inv _ _ _ _ (Hminmax eq_refl)).
      * exact (wp_bind_inv _ _ _ _ (Hminmax eq_refl)).
      * apply wp_bind, wp_assert; intros _; [|done].
        apply wp_ret, Hquiet; by apply Hplain.
    + intros k s (Hk & Hp & -> & Hvals).
      apply wp_ret.
      intros row' ec' dc' Hrow' Hec' Hdc' Hnz a Ha Hrm.
      assert (row' = row) as -> by congruence.
      by apply Hvals.
Qed.

(** C5 (amended).  When [mergeTupleForDelete] returns, then for every MIN
    or MAX column [c]:
    - if the new count is not zero, the fallback query of that column
      was run exactly when [d[c]] is not null and [existing[c]] compares
      equal to it; it was then run with the plan at the column's position
      among the MIN and MAX columns, and the merged value is the value
      [fallbackMinMaxColumn] returned for the column, called with the
      view table, the existing tuple, the delta-mode flags and the
      parameters of the calling state; when it was not run the merged
      value is [existing[c]];
    - if the new count is zero, the call has run no query at all, and
      the merged value is the null of the column's type. *)
Theorem mergeTupleForDelete_recalculates
    (deltaTuple : list NValue) (s s' : State) row ec dc :
  mergeTupleForDelete h deltaTuple s = (inr tt, s') ->
  existingTuple_row s = Some row ->
  row !! m_countStarColumnIndex h = Some ec ->
  deltaTuple !! m_countStarColumnIndex h = Some dc ->
  forall aggIndex t e d,
    (aggIndex < m_aggColumnCount h)%nat ->
    m_aggTypes h !! aggIndex = Some t -> is_min_max t = true ->
    row !! (m_groupByColumnCount h + aggIndex)%nat = Some e ->
    deltaTuple !! (m_groupByColumnCount h + aggIndex)%nat = Some d ->
    (isZero (op_subtract ec dc) = false ->
     (fallback_ran_for (m_groupByColumnCount h + aggIndex) (new_events s s')
      <-> isNull d = false /\ compare e d = 0) /\
     (isNull d = false /\ compare e d = 0 ->
      EvFallbackQuery (m_groupByColumnCount h + aggIndex)
        (minMaxColumnIndex_of h aggIndex) (deltaTableActive s)
      ∈ new_events s s' /\
      exists sa sa' v,
        kept s sa /\ params sa = params s /\
        fallbackMinMaxColumn h (m_groupByColumnCount h + aggIndex)
          (minMaxColumnIndex_of h aggIndex) sa = (inr v, sa') /\
        m_updatedTuple s' !! (m_groupByColumnCount h + aggIndex)%nat = Some v) /\
     (¬ (isNull d = false /\ compare e d = 0) ->
      m_updatedTuple s' !! (m_groupByColumnCount h + aggIndex)%nat = Some e))
    /\
    (isZero (op_subtract ec dc) = true ->
     new_events s s' = [] /\
     exists ty,
       schema h !! (m_groupByColumnCount h + aggIndex)%nat = Some ty /\
       m_updatedTuple s' !! (m_groupByColumnCount h + aggIndex)%nat
       = Some (getNullValue ty)).
Proof.
  intros Hrun Hrow Hec Hdc aggIndex t e d Hlt Ht Hmm He Hd.
  pose proof (wp_run _ _ _ _ _ (wp_mergeTupleForDelete h deltaTuple s) Hrun)
    as [[_ (evs & Htr & _)] Hvals].
  destruct (Hvals evs row ec dc Htr Hrow Hec Hdc) as [_ Hcases].
  pose proof (wp_run _ _ _ _ _ (wp_mergeTupleForDelete_stored deltaTuple s) Hrun)
    as Hstored. cbn in Hstored.
  rewrite (new_events_app _ _ _ Htr).
  assert (extremum_removed h row deltaTuple aggIndex
          <-> isNull d = false /\ compare e d = 0) as Hrm.
  { split.
    - intros (t' & e' & d' & Ht' & _ & He' & Hd' & Hnn & Hc).
      assert (e' = e) as -> by congruence.
      assert (d' = d) as -> by congruence. done.
    - intros [Hnn Hc]. by exists t, e, d. }
  split.
  - intros Hnz. rewrite Hnz in Hcases. destruct Hcases as (Hevs & Hran & Hkeep).
    split; [|split].
    + split.
      * intros (k & D & Hin).
        destruct (Hevs _ Hin) as (a & _ & Heq & Ha).
        injection Heq as Hcol _ _.
        assert (a = aggIndex) as -> by lia. by apply Hrm.
      * intros Hc. exists (minMaxColumnIndex_of h aggIndex), (deltaTableActive s).
        apply Hran; [done | by apply Hrm].
    + intros Hc. split; [apply Hran; [done | by apply Hrm]|].
      apply (Hstored row ec dc Hrow Hec Hdc Hnz aggIndex Hlt). by apply Hrm.
    + intros Hnot. eapply Hkeep; eauto. by rewrite Hrm.
  - intros Hz. rewrite Hz in Hcases. destruct Hcases as [-> Hzero].
    split; [done|].
    specialize (Hzero aggIndex t Hlt Ht).
    destruct t; try discriminate Hmm; exact Hzero.
Qed.
End Recalculate.

(** ** Which exceptions the merges can throw *)

(** One step through handler code for a postcondition that holds of
    every failed lookup, failed assertion and executor exception. *)
Ltac wp_step :=
  match goal with
  | |- wp (_ ≫= _) _ _ => apply wp_bind
  | |- wp (mret _) _ _ => apply wp_ret
  | |- wp (throw _) _ _ => apply wp_throw
  | |- wp (getNValue _ _) _ _ => apply wp_getNValue_cases; intros
  | |- wp (existingTuple_getNValue _) _ _ =>
      apply wp_existingTuple_getNValue_cases; intros
  | |- wp (aggTypes_at _ _) _ _ => apply wp_aggTypes_at_cases; intros
  | |- wp (columnType _ _) _ _ => apply wp_columnType_cases; intros
  | |- wp (updatedTuple_setNValue _ _) _ _ =>
      apply wp_updatedTuple_setNValue; intros
  | |- wp (params_get _) _ _ =>
      apply wp_params_get; destruct (params _ !! _)
  | |- wp (params_set _ _) _ _ => apply wp_params_set; intros
  | |- wp (assert _) _ _ => apply wp_assert; intros
  | |- wp (run_executors _ _) _ _ =>
      apply wp_run_executors; cbn zeta; destruct (executeExecutors _ _)
  | |- wp (minMaxExecutorVectors_at _ _) _ _ =>
      unfold minMaxExecutorVectors_at;
      destruct (m_minMaxExecutorVectors _ !! _)
  | |- wp (if ?c then _ else _) _ _ => destruct c
  | |- wp (match ?x with Some _ => _ | None => _ end) _ _ => destruct x
  | |- wp (match ?x with [] => _ | _ :: _ => _ end) _ _ => destruct x
  | |- wp (match ?t with
           | EXPRESSION_TYPE_AGGREGATE_COUNT => _
           | EXPRESSION_TYPE_AGGREGATE_COUNT_STAR => _
           | EXPRESSION_TYPE_AGGREGATE_SUM => _
           | EXPRESSION_TYPE_AGGREGATE_MIN => _
           | EXPRESSION_TYPE_AGGREGATE_MAX => _
           | EXPRESSION_TYPE_OTHER _ => _
           end) _ _ => destruct t
  | |- wp (for_range _ _ _ _) _ _ =>
      apply (wp_for_range (fun _ _ _ => True)); [exact I | intros | intros]
  end.

Section NotFatal.
Context {NValue : Type} {ops : NValueOps NValue} {env : Collaborators NValue}.
Variable h : Handler.

Local Abbreviation State := (State NValue).

Lemma wp_fallbackMinMaxColumn_not_fatal columnIndex k (s : State) :
  wp (fallbackMinMaxColumn h columnIndex k)
     (fun r _ => r ≠ inl FatalException) s.
Proof. unfold fallbackMinMaxColumn. repeat wp_step; done. Qed.

Lemma wp_mergeTupleForDelete_not_fatal (deltaTuple : list NValue) (s : State) :
  wp (mergeTupleForDelete h deltaTuple) (fun r _ => r ≠ inl FatalException) s.
Proof.
  unfold mergeTupleForDelete, copy_groupBy_columns.
  repeat wp_step; try done;
    (eapply wp_mono; [apply wp_fallbackMinMaxColumn_not_fatal|];
     intros [?|?] ? Hnf; [intros [= ->]; by apply Hnf | repeat wp_step; done]).
Qed.
End NotFatal.

(** ** The insert and delete paths *)

Section Paths.
Context {NValue : Type} {ops : NValueOps NValue} {env : Collaborators NValue}.
Variable h : Handler.

Local Abbreviation State := (State NValue).

Lemma wp_and {A} (m : M NValue A) Q1 Q2 (s : State) :
  wp m Q1 s -> wp m Q2 s -> wp m (fun r s' => Q1 r s' /\ Q2 r s') s.
Proof. unfold wp. auto. Qed.

(** One turn of the delete loop leaves the delta-mode flags alone; the
    fallback queries it runs see them as they were when the turn began;
    and on a view without group-by columns that holds one row, the turn
    neither throws the fatal exception nor deletes or inserts a row. *)
Lemma wp_handleTupleDelete_row fallible (deltaTuple : list NValue) (s0 : State) :
  wp (handleTupleDelete_row h fallible deltaTuple)
     (fun r s =>
        deltaTableActive s = deltaTableActive s0 /\
        exists evs,
          trace s = trace s0 ++ evs /\
          Forall (fallback_in (deltaTableActive s0)) evs /\
          (m_groupByColumnCount h = 0%nat ->
           length (m_destTable s0) = 1%nat ->
           r ≠ inl FatalException /\
           length (m_destTable s) = 1%nat /\
           Forall (fun ev => ¬ is_delete ev /\ ¬ is_insert ev) evs)) s0.
Proof.
  set (D0 := deltaTableActive s0).
  (* a turn that stops before it changes the view *)
  assert (forall exn : Exn,
            (m_groupByColumnCount h = 0%nat ->
             length (m_destTable s0) = 1%nat -> exn ≠ FatalException) ->
            D0 = D0 /\
            exists evs,
              trace s0 = trace s0 ++ evs /\
              Forall (fallback_in D0) evs /\
              (m_groupByColumnCount h = 0%nat ->
               length (m_destTable s0) = 1%nat ->
               @inl Exn unit exn ≠ inl FatalException /\
               length (m_destTable s0) = 1%nat /\
               Forall (fun ev => ¬ is_delete ev /\ ¬ is_insert ev) evs)) as Hstop.
  { intros exn Hexn. split; [done|]. exists []. rewrite app_nil_r.
    split; [done|]. split; [done|]. intros Hgb Hlen.
    split; [|by split]. intros [= ->]. by apply (Hexn Hgb Hlen). }
  unfold handleTupleDelete_row.
  apply wp_bind, wp_findExistingTuple; cycle 1.
  { intros t Hgb Hrows. apply Hstop. intros _ Hlen. by rewrite Hrows in Hlen. }

  intros found t Hungrouped Hgrouped.
  apply wp_bind.
  destruct found; cycle 1.
  { apply wp_throw. cbn. apply Hstop. intros Hgb _.
    by destruct (Hungrouped Hgb) as [? _]. }
  apply wp_ret.
  apply wp_bind, wp_existingTuple_getNValue_cases;
    [|intros _; cbn; by apply Hstop].
  intros row ec Hrow Hec.
  apply wp_bind, wp_getNValue_cases; [|intros _; cbn; by apply Hstop].
  intros dc Hdc.
  destruct (bool_decide (compare ec dc = 0)
            && bool_decide (0 < m_groupByColumnCount h)%nat) eqn:Hcond.
  - (* the row is deleted: the view has group-by columns *)
    apply andb_true_iff in Hcond as [_ Hgb%bool_decide_eq_true_1].
    apply wp_deleteTuple. cbn.
    destruct t as [target|]; [|by apply Hstop].
    destruct (decide (target < length (m_destTable s0))%nat); [|by apply Hstop].
    split; [done|]. exists [EvDeleteTuple target]. cbn.
    split; [done|]. split; [by repeat constructor|]. intros Hgb0. lia.
  - (* the row is merged and updated in place *)
    apply wp_bind.
    eapply wp_mono;
      [apply wp_and;
         [apply wp_mergeTupleForDelete | apply wp_mergeTupleForDelete_not_fatal]|].
    cbn. intros r s2 [[[(Hd & He & HD & Hu) (evs & Htr & Hall)] _] Hnf].
    assert (Forall (fallback_in D0) evs) as Hall'
      by (eapply Forall_impl; [exact Hall|]; by intros ev [_ ?]).
    assert (Forall (fun ev : Event NValue => ¬ is_delete ev /\ ¬ is_insert ev) evs)
      as Hquiet.
    { eapply Forall_impl; [exact Hall|].
      intros [] [Hf _]; cbn in *; try done; split; by intros []. }
    cbn in Hd, He, HD, Htr.
    assert (forall exn, exn ≠ FatalException ->
              deltaTableActive s2 = D0 /\
              exists evs',
                trace s2 = trace s0 ++ evs' /\
                Forall (fallback_in D0) evs' /\
                (m_groupByColumnCount h = 0%nat ->
                 length (m_destTable s0) = 1%nat ->
                 @inl Exn unit exn ≠ inl FatalException /\
                 length (m_destTable s0) = 1%nat /\
                 Forall (fun ev => ¬ is_delete ev /\ ¬ is_insert ev) evs'))
      as Hstop2.
    { intros exn Hexn. split; [done|]. exists evs.
      split; [done|]. split; [done|]. intros Hgb Hlen.
      split; [congruence|]. by split. }
    destruct r as [exn|[]].
    { rewrite Hd. apply Hstop2. intros ->. by apply Hnf. }
    apply wp_updateTupleWithSpecificIndexes.
    rewrite He, Hd.
    destruct t as [target|]; [|by apply Hstop2].
    destruct (decide (target < length (m_destTable s0))%nat); [|by apply Hstop2].
    cbn. split; [done|].
    exists (evs ++ [EvUpdateTuple target (m_updatedTuple s2)]).
    split; [by rewrite Htr, app_assoc|].
    split; [apply Forall_app; split; [done | by repeat constructor]|].
    intros Hgb Hlen. split; [done|].
    split; [by rewrite length_insert|].
    apply Forall_app. split; [done|]. repeat constructor; by intros [].
Qed.
(** One turn of the insert loop on a view without group-by columns that
    holds one row: the row is merged and updated in place, never
    inserted. *)
Lemma wp_handleTupleInsert_row_ungrouped fallible (deltaTuple : list NValue)
    (s0 : State) :
  m_groupByColumnCount h = 0%nat ->
  length (m_destTable s0) = 1%nat ->
  wp (handleTupleInsert_row h fallible deltaTuple)
     (fun r s =>
        length (m_destTable s) = 1%nat /\
        exists evs,
          trace s = trace s0 ++ evs /\
          Forall (fun ev => ¬ is_insert ev) evs) s0.
Proof.
  intros Hgb Hlen. unfold handleTupleInsert_row.
  apply wp_bind, wp_findExistingTuple; cycle 1.
  { intros t _ Hrows. by rewrite Hrows in Hlen. }
  intros found t Hungrouped _.
  destruct (Hungrouped Hgb) as (-> & Ht & _).
  destruct (m_destTable s0) as [|r0 rows] eqn:Hrows; [done|]. subst t.
  apply wp_bind.
  eapply wp_mono; [apply wp_mergeTupleForInsert_frame|].
  cbn. intros r s1 (Hd & He & _ & _ & Htr & _). cbn in Hd, He, Htr.
  assert (length (m_destTable s1) = 1%nat /\
          exists evs, trace s1 = trace s0 ++ evs /\
                      Forall (fun ev : Event NValue => ¬ is_insert ev) evs)
    as Hstop.
  { split; [by rewrite Hd|]. exists []. by rewrite app_nil_r. }
  destruct r as [exn|[]]; [done|].
  apply wp_updateTupleWithSpecificIndexes.
  rewrite He, Hd. cbn.
  split; [done|].
  exists [EvUpdateTuple 0%nat (m_updatedTuple s1)].
  split; [by rewrite Htr|]. repeat constructor. by intros [].
Qed.

Lemma wp_ScopedDeltaTableContext_new sourceTable Q (s : State) :
  Q (inr tt)
    (mkState (m_destTable s) (m_existingTuple s) (m_updatedTuple s) (params s)
       ({[sourceTable]} ∪ deltaTableActive s) (trace s)) ->
  wp (ScopedDeltaTableContext_new sourceTable) Q s.
Proof. done. Qed.

Lemma wp_ScopedDeltaTableContext_delete sourceTable Q (s : State) :
  Q (inr tt)
    (mkState (m_destTable s) (m_existingTuple s) (m_updatedTuple s) (params s)
       (deltaTableActive s ∖ {[sourceTable]}) (trace s)) ->
  wp (ScopedDeltaTableContext_delete sourceTable) Q s.
Proof. done. Qed.

(** The whole insert path on such a view. *)
Lemma handleTupleInsert_ungrouped sourceTable fallible (s : State) :
  m_groupByColumnCount h = 0%nat ->
  length (m_destTable s) = 1%nat ->
  length (m_destTable (handleTupleInsert h sourceTable fallible s).2) = 1%nat /\
  Forall (fun ev => ¬ is_insert ev)
         (new_events s (handleTupleInsert h sourceTable fallible s).2).
Proof.
  intros Hgb Hlen. unfold handleTupleInsert.
  match goal with |- context [let '(_, _) := ?body s in _] =>
    assert (wp body
              (fun _ s' =>
                 length (m_destTable s') = 1%nat /\
                 exists evs,
                   trace s' = trace s ++ evs /\
                   Forall (fun ev : Event NValue => ¬ is_insert ev) evs) s)
      as Hbody;
    [|unfold wp in Hbody; destruct (body s) as [r s']]
  end.
  { apply wp_bind, wp_ScopedDeltaTableContext_new.
    apply wp_bind, wp_run_executors. cbn.
    match goal with |- context [executeExecutors _ ?st] => set (s1 := st) end.
    assert (length (m_destTable s1) = 1%nat /\
            exists evs, trace s1 = trace s ++ evs /\
                        Forall (fun ev : Event NValue => ¬ is_insert ev) evs)
      as Hs1.
    { split; [done|]. eexists. split; [reflexivity|].
      repeat constructor. by intros []. }
    destruct (executeExecutors _ s1) as [delta|]; [|done].
    apply (wp_for_each (fun s' =>
             length (m_destTable s') = 1%nat /\
             exists evs, trace s' = trace s ++ evs /\
                         Forall (fun ev : Event NValue => ¬ is_insert ev) evs));
      [done| |done].
    intros deltaTuple s2 _ [Hlen2 (evs & Htr & Hall)].
    eapply wp_mono; [by apply wp_handleTupleInsert_row_ungrouped|].
    cbn. intros r s3 [Hlen3 (evs' & Htr' & Hall')].
    assert (length (m_destTable s3) = 1%nat /\
            exists evs, trace s3 = trace s ++ evs /\
                        Forall (fun ev : Event NValue => ¬ is_insert ev) evs).
    { split; [done|]. exists (evs ++ evs').
      split; [by rewrite Htr', Htr, app_assoc|]. by apply Forall_app. }
    by destruct r. }
  cbn in Hbody |- *. destruct Hbody as [Hlen' (evs & Htr & Hall)].
  split; [done|].
  rewrite (new_events_app s _ evs); done.
Qed.

(** The whole delete path: the create query runs with the source table
    in delta mode, every later query with the source table out of it. *)
Lemma wp_handleTupleDelete sourceTable fallible (s : State) :
  wp (handleTupleDelete h sourceTable fallible)
     (fun r s' =>
        exists evs,
          trace s' = trace s
                     ++ EvCreateQuery ({[sourceTable]} ∪ deltaTableActive s) :: evs /\
          Forall (fallback_in
                    (({[sourceTable]} ∪ deltaTableActive s) ∖ {[sourceTable]})) evs /\
          (m_groupByColumnCount h = 0%nat ->
           length (m_destTable s) = 1%nat ->
           r ≠ inl FatalException /\
           length (m_destTable s') = 1%nat /\
           Forall (fun ev => ¬ is_delete ev /\ ¬ is_insert ev) evs)) s.
Proof.
  set (D1 := ({[sourceTable]} ∪ deltaTableActive s) ∖ {[sourceTable]}).
  unfold handleTupleDelete.
  apply wp_bind, wp_ScopedDeltaTableContext_new.
  apply wp_bind, wp_run_executors. cbn.
  match goal with |- context [executeExecutors _ ?st] => set (s1 := st) end.
  destruct (executeExecutors _ s1) as [delta|]; cycle 1.
  { exists []. split; [done|]. split; [done|]. intros _ Hlen. by repeat split. }
  apply wp_bind, wp_ScopedDeltaTableContext_delete. cbn. fold D1.
  apply (wp_for_each (fun s' =>
           deltaTableActive s' = D1 /\
           exists evs,
             trace s' = trace s
                        ++ EvCreateQuery ({[sourceTable]} ∪ deltaTableActive s)
                           :: evs /\
             Forall (fallback_in D1) evs /\
             (m_groupByColumnCount h = 0%nat ->
              length (m_destTable s) = 1%nat ->
              length (m_destTable s') = 1%nat /\
              Forall (fun ev => ¬ is_delete ev /\ ¬ is_insert ev) evs))).
  - split; [done|]. exists []. cbn. split; [done|]. split; [done|]. by intros.
  - intros deltaTuple s2 _ (HD & evs & Htr & Hall & Hinv).
    eapply wp_mono; [apply wp_handleTupleDelete_row|].
    cbn. intros r s3 (HD' & evs' & Htr' & Hall' & Hinv').
    rewrite HD in HD', Hall'.
    assert (exists evs0,
              trace s3 = trace s
                         ++ EvCreateQuery ({[sourceTable]} ∪ deltaTableActive s)
                            :: evs0 /\
              Forall (fallback_in D1) evs0 /\
              (m_groupByColumnCount h = 0%nat ->
               length (m_destTable s) = 1%nat ->
               r ≠ inl FatalException /\
               length (m_destTable s3) = 1%nat /\
               Forall (fun ev => ¬ is_delete ev /\ ¬ is_insert ev) evs0))
      as (evs0 & Htr0 & Hall0 & Hinv0).
    { exists (evs ++ evs').
      split; [rewrite Htr', Htr; by rewrite <- app_assoc|].
      split; [by apply Forall_app|].
      intros Hgb Hlen. destruct (Hinv Hgb Hlen) as [Hlen2 Hq].
      destruct (Hinv' Hgb Hlen2) as (Hnf & Hlen3 & Hq').
      split; [done|]. split; [done|]. by apply Forall_app. }
    destruct r as [exn|[]].
    + exists evs0. split; [done|]. split; [done|]. exact Hinv0.
    + split; [done|]. exists evs0. split; [done|]. split; [done|].
      intros Hgb Hlen. by destruct (Hinv0 Hgb Hlen) as (_ & ? & ?).
  - intros s' (HD & evs & Htr & Hall & Hinv). exists evs.
    split; [done|]. split; [done|].
    intros Hgb Hlen. destruct (Hinv Hgb Hlen). by repeat split.
Qed.

(** C6.  Whatever [handleTupleDelete] does and however it ends: the
    first thing it adds to the trace is the create query, run with the
    source table in delta mode, and every fallback query it runs after
    that is run with the source table out of delta mode. *)
Theorem handleTupleDelete_fallback_outside_delta_mode
    sourceTable fallible (s : State) :
  exists D evs,
    new_events s (handleTupleDelete h sourceTable fallible s).2
    = EvCreateQuery D :: evs /\
    sourceTable ∈ D /\
    forall columnIndex k D',
      EvFallbackQuery columnIndex k D' ∈ evs -> sourceTable ∉ D'.
Proof.
  pose proof (wp_handleTupleDelete sourceTable fallible s) as Hwp.
  unfold wp in Hwp. destruct Hwp as (evs & Htr & Hall & _).
  exists ({[sourceTable]} ∪ deltaTableActive s), evs.
  split; [by apply new_events_app|].
  split; [apply elem_of_union_l; by apply elem_of_singleton|].
  intros columnIndex k D' Hin.
  rewrite Forall_forall in Hall. specialize (Hall _ Hin). cbn in Hall.
  subst D'. intros [_ Hnot]%elem_of_difference.
  apply Hnot. by apply elem_of_singleton.
Qed.

(** C8.  On a view without group-by columns whose table holds exactly
    one row: [findExistingTuple] returns true for every delta tuple and
    leaves the existing tuple on that row; so the insert path never
    inserts a row (and the view keeps its one row), and the delete path
    never throws the fatal exception of a missing row (and neither
    deletes nor inserts a row). *)
Theorem ungrouped_view_row_is_always_found (s : State) row :
  m_groupByColumnCount h = 0%nat ->
  m_destTable s = [row] ->
  (forall deltaTuple : list NValue,
     exists s',
       findExistingTuple h deltaTuple s = (inr true, s') /\
       existingTuple_row s' = Some row /\
       m_destTable s' = [row])
  /\
  (forall sourceTable fallible,
     length (m_destTable (handleTupleInsert h sourceTable fallible s).2) = 1%nat /\
     Forall (fun ev => ¬ is_insert ev)
            (new_events s (handleTupleInsert h sourceTable fallible s).2))
  /\
  (forall sourceTable fallible,
     (handleTupleDelete h sourceTable fallible s).1 ≠ inl FatalException /\
     length (m_destTable (handleTupleDelete h sourceTable fallible s).2) = 1%nat /\
     Forall (fun ev => ¬ is_delete ev /\ ¬ is_insert ev)
            (new_events s (handleTupleDelete h sourceTable fallible s).2)).
Proof.
  intros Hgb Hrows.
  assert (length (m_destTable s) = 1%nat) as Hlen by by rewrite Hrows.
  split; [|split].
  - intros deltaTuple.
    pose proof (wp_findExistingTuple h deltaTuple
                  (fun r s' => r = inr true /\ existingTuple_row s' = Some row /\
                               m_destTable s' = [row]) s) as Hwp.
    unfold wp in Hwp.
    destruct (findExistingTuple h deltaTuple s) as [r s'].
    cbn in Hwp. destruct Hwp as (-> & Hrow & Hd).
    + intros found t Hungrouped _.
      destruct (Hungrouped Hgb) as (-> & -> & _).
      rewrite Hrows. by unfold existingTuple_row.
    + intros t _ Hnil. by rewrite Hnil in Hrows.
    + by exists s'.
  - intros sourceTable fallible. by apply handleTupleInsert_ungrouped.
  - intros sourceTable fallible.
    pose proof (wp_handleTupleDelete sourceTable fallible s) as Hwp.
    unfold wp in Hwp. destruct Hwp as (evs & Htr & _ & Hinv).
    destruct (Hinv Hgb Hlen) as (Hnf & Hlen' & Hq).
    split; [done|]. split; [done|].
    rewrite (new_events_app s _ _ Htr).
    constructor; [split; by intros []|done].
Qed.
End Paths.

(** ** The delete path, every delta row *)

Import ViewTrace.

Section DeleteRows.
Context {NValue : Type} {ops : NValueOps NValue} {env : Collaborators NValue}.
Context {laws : NValueLaws NValue}.
Variable h : Handler.

Local Abbreviation State := (State NValue).

Lemma for_each_app (rows1 rows2 : list (list NValue))
    (body : list NValue -> M NValue unit) (s : State) :
  for_each (rows1 ++ rows2) body s
  = (for_each rows1 body ≫= fun _ => for_each rows2 body) s.
Proof.
  revert s. induction rows1 as [|r rows1 IH]; intros s; [done|].
  cbn [app for_each]. rewrite !bind_run.
  destruct (body r s) as [[exn|[]] s1]; [done|].
  rewrite IH. by rewrite bind_run.
Qed.

(** The delete path is its create query, run with the source table in
    delta mode, and then the turns of the loop on the rows the query
    yields, in their order, with the source table out of delta mode. *)
Lemma handleTupleDelete_rows sourceTable fallible (s : State) delta :
  executeExecutors (m_createQueryExecutorVector h)
    (create_query_state sourceTable s) = Some delta ->
  handleTupleDelete h sourceTable fallible s
  = for_each delta (handleTupleDelete_row h fallible)
      (rows_loop_state sourceTable s).
Proof.
  intros Hdelta.
  assert (wp (handleTupleDelete h sourceTable fallible)
            (fun r s' =>
               (r, s') = for_each delta (handleTupleDelete_row h fallible)
                           (rows_loop_state sourceTable s)) s) as Hwp.
  { unfold handleTupleDelete.
    apply wp_bind, wp_ScopedDeltaTableContext_new.
    apply wp_bind, wp_run_executors. cbn.
    change (mkState (m_destTable s) (m_existingTuple s) (m_updatedTuple s)
              (params s) ({[sourceTable]} ∪ deltaTableActive s)
              (trace s ++ [EvCreateQuery ({[sourceTable]} ∪ deltaTableActive s)]))
      with (create_query_state sourceTable s).
    rewrite Hdelta.
    apply wp_bind, wp_ScopedDeltaTableContext_delete. cbn.
    change (mkState (m_destTable s) (m_existingTuple s) (m_updatedTuple s)
              (params s)
              (({[sourceTable]} ∪ deltaTableActive s) ∖ {[sourceTable]})
              (trace s ++ [EvCreateQuery ({[sourceTable]} ∪ deltaTableActive s)]))
      with (rows_loop_state sourceTable s).
    unfold wp. by destruct (for_each delta _ _). }
  unfold wp in Hwp. by destruct (handleTupleDelete h sourceTable fallible s).
Qed.

(** C4.  The delete path takes the turn of every delta row: when the
    create query yields [delta] and the turns of the rows before a row
    have returned, in state [si], the path is the turn of that row in
    [si] followed by the turns of the rows after it, so that a path that
    returns has taken the turn of every row.  In the turn of a delta row
    whose view row is found, with non-null counts: the view row is
    deleted exactly when the new count is zero and the view has group-by
    columns; in every other case the turn is merge-for-delete followed
    by the in-place update of that row, which then holds the merged
    tuple (and no row is deleted); and when the new count is zero and
    there are no group-by columns, the turn returns and leaves zero in
    every COUNT and COUNT_STAR column of the row and null in every other
    aggregate column. *)
Theorem handleTupleDelete_deletes_or_merges_every_row
    (sourceTable : nat) (fallible : bool) (s si s1 : State)
    (delta before rest : list (list NValue)) (deltaTuple : list NValue)
    target row ec dc :
  executeExecutors (m_createQueryExecutorVector h)
    (create_query_state sourceTable s) = Some delta ->
  delta = before ++ deltaTuple :: rest ->
  for_each before (handleTupleDelete_row h fallible)
    (rows_loop_state sourceTable s) = (inr tt, si) ->
  findExistingTuple h deltaTuple si = (inr true, s1) ->
  m_existingTuple s1 = Some target ->
  m_destTable s1 !! target = Some row ->
  row !! m_countStarColumnIndex h = Some ec ->
  deltaTuple !! m_countStarColumnIndex h = Some dc ->
  isNull ec = false -> isNull dc = false ->
  let new_count := op_subtract ec dc in
  (handleTupleDelete h sourceTable fallible s
   = (handleTupleDelete_row h fallible deltaTuple
      ≫= fun _ => for_each rest (handleTupleDelete_row h fallible)) si)
  /\
  (forall s',
     handleTupleDelete h sourceTable fallible s = (inr tt, s') ->
     exists si',
       handleTupleDelete_row h fallible deltaTuple si = (inr tt, si') /\
       for_each rest (handleTupleDelete_row h fallible) si' = (inr tt, s'))
  /\
  (isZero new_count = true /\ (0 < m_groupByColumnCount h)%nat ->
   handleTupleDelete_row h fallible deltaTuple si
   = (inr tt,
      mkState (delete target (m_destTable s1)) (m_existingTuple s1)
        (m_updatedTuple s1) (params s1) (deltaTableActive s1)
        (trace s1 ++ [EvDeleteTuple target])))
  /\
  (¬ (isZero new_count = true /\ (0 < m_groupByColumnCount h)%nat) ->
   handleTupleDelete_row h fallible deltaTuple si
   = (mergeTupleForDelete h deltaTuple
      ≫= fun _ => updateTupleWithSpecificIndexes fallible) s1
   /\
   forall s',
     handleTupleDelete_row h fallible deltaTuple si = (inr tt, s') ->
     m_destTable s' = <[target := m_updatedTuple s']> (m_destTable s1) /\
     m_destTable s' !! target = Some (m_updatedTuple s') /\
     exists evs,
       trace s' = trace s1 ++ evs ++ [EvUpdateTuple target (m_updatedTuple s')] /\
       Forall is_fallback evs)
  /\
  (isZero new_count = true -> m_groupByColumnCount h = 0%nat ->
   length (m_updatedTuple s1) = m_aggColumnCount h ->
   length (m_aggTypes h) = m_aggColumnCount h ->
   length (schema h) = m_aggColumnCount h ->
   exists s' merged,
     handleTupleDelete_row h fallible deltaTuple si = (inr tt, s') /\
     m_destTable s' !! target = Some merged /\
     length (m_destTable s') = length (m_destTable s1) /\
     forall aggIndex t,
       m_aggTypes h !! aggIndex = Some t ->
       if is_count t
       then merged !! aggIndex = Some (getBigIntValue 0)
       else exists ty, schema h !! aggIndex = Some ty /\
                       merged !! aggIndex = Some (getNullValue ty)).
Proof.
  intros Hdelta -> Hbefore Hfind Hex Hrow Hec Hdc Hnec Hndc new_count.
  assert (handleTupleDelete h sourceTable fallible s
          = (handleTupleDelete_row h fallible deltaTuple
             ≫= fun _ => for_each rest (handleTupleDelete_row h fallible)) si)
    as Hpath.
  { rewrite (handleTupleDelete_rows _ _ _ _ Hdelta).
    rewrite for_each_app, bind_run, Hbefore. reflexivity. }
  split; [exact Hpath|]. split.
  - intros s' Hrun. rewrite Hpath, bind_run in Hrun.
    destruct (handleTupleDelete_row h fallible deltaTuple si)
      as [[exn|[]] si']; [discriminate|].
    by exists si'.
  - exact (handleTupleDelete_row_turn h fallible deltaTuple si s1 target row
             ec dc Hfind Hex Hrow Hec Hdc Hnec Hndc).
Qed.
End DeleteRows.

(** ** The properties at work on concrete views *)

Import Concrete.

Lemma BigInt_laws : NValueLaws BigInt.
Proof.
  split.
  - intros [|x] [|y]; cbn; try lia.
    destruct (Z.ltb_spec x y), (Z.ltb_spec y x),
      (Z.eqb_spec x y), (Z.eqb_spec y x); lia.
  - intros [|x] [|y]; cbn; try done. intros _ _.
    destruct (Z.ltb_spec x y), (Z.eqb_spec x y); split; intros Hz;
      try lia; try (destruct (x - y) eqn:?; (done || lia)).
Qed.

(** The grouped view holds the row of group 1 with two source rows
    (sum 12, min 5, max 7); the row (1, 9) is inserted. *)
Lemma mergeTupleForInsert_merges_witness :
  exists s',
    mergeTupleForInsert (env := scripted false [] []) grouped_view
      [Int 1; Int 1; Int 9; Int 9; Int 9]
      (state_of [[Int 1; Int 2; Int 12; Int 5; Int 7]] (Some 0%nat)
         [SqlNull; SqlNull; SqlNull; SqlNull; SqlNull] [])
    = (inr tt, s') /\
    forall aggIndex t e d,
      m_aggTypes grouped_view !! aggIndex = Some t ->
      [Int 1; Int 2; Int 12; Int 5; Int 7]
        !! (m_groupByColumnCount grouped_view + aggIndex)%nat = Some e ->
      [Int 1; Int 1; Int 9; Int 9; Int 9]
        !! (m_groupByColumnCount grouped_view + aggIndex)%nat = Some d ->
      m_updatedTuple s' !! (m_groupByColumnCount grouped_view + aggIndex)%nat
      = Some (spec_merge_for_insert t e d).
Proof.
  apply (mergeTupleForInsert_merges (laws := BigInt_laws) grouped_view);
    [reflexivity | reflexivity | reflexivity | reflexivity | reflexivity |].
  repeat constructor.
Defined.

(** Two rows are deleted from the source of the grouped view that
    holds (2, 2, 6, 3, 3) and (1, 1, 5, 5, 5).  The turn of the first
    delta row, (1, 1, 5, 5, 5), deletes the second view row; the turn
    of the second, (2, 1, 3, 3, 3), comes after it and updates the row
    that is left, with the MIN and MAX columns recalculated. *)
Lemma handleTupleDelete_deletes_or_merges_every_row_witness :
  handleTupleDelete
    (env := scripted false [[Int 1; Int 1; Int 5; Int 5; Int 5];
                            [Int 2; Int 1; Int 3; Int 3; Int 3]] [[Int 3]])
    grouped_view 7 false
    (state_of [[Int 2; Int 2; Int 6; Int 3; Int 3];
               [Int 1; Int 1; Int 5; Int 5; Int 5]] None
       [SqlNull; SqlNull; SqlNull; SqlNull; SqlNull] [Int 100; Int 200])
  = (inr tt,
     mkState [[Int 2; Int 1; Int 3; Int 3; Int 3]] (Some 0%nat)
       [Int 2; Int 1; Int 3; Int 3; Int 3] [Int 100; Int 200] ∅
       [EvCreateQuery {[7%nat]}; EvDeleteTuple 1%nat;
        EvFallbackQuery 3 0 ∅; EvFallbackQuery 4 1 ∅;
        EvUpdateTuple 0%nat [Int 2; Int 1; Int 3; Int 3; Int 3]]).
Proof.
  etransitivity.
  - refine (proj1 (handleTupleDelete_deletes_or_merges_every_row
                     (env := scripted false
                               [[Int 1; Int 1; Int 5; Int 5; Int 5];
                                [Int 2; Int 1; Int 3; Int 3; Int 3]] [[Int 3]])
                     (laws := BigInt_laws)
                     grouped_view 7 false _
                     (mkState [[Int 2; Int 2; Int 6; Int 3; Int 3]] (Some 1%nat)
                        [SqlNull; SqlNull; SqlNull; SqlNull; SqlNull]
                        [Int 100; Int 200] ∅
                        [EvCreateQuery {[7%nat]}; EvDeleteTuple 1%nat])
                     (mkState [[Int 2; Int 2; Int 6; Int 3; Int 3]] (Some 0%nat)
                        [SqlNull; SqlNull; SqlNull; SqlNull; SqlNull]
                        [Int 100; Int 200] ∅
                        [EvCreateQuery {[7%nat]}; EvDeleteTuple 1%nat])
                     _ [[Int 1; Int 1; Int 5; Int 5; Int 5]] []
                     [Int 2; Int 1; Int 3; Int 3; Int 3]
                     0%nat [Int 2; Int 2; Int 6; Int 3; Int 3] (Int 2) (Int 1)
                     eq_refl eq_refl _ _ eq_refl eq_refl eq_refl eq_refl
                     eq_refl eq_refl)).
    + vm_compute. reflexivity.
    + vm_compute. reflexivity.
  - vm_compute. reflexivity.
Defined.

(** The row (1, 5) is deleted from the grouped view that holds
    (1, 2, 12, 5, 7): the MIN column, whose value 5 is the removed one,
    is recalculated with the first fallback plan, and holds what the
    fallback returned. *)
Lemma mergeTupleForDelete_recalculates_witness :
  let s := state_of [[Int 1; Int 2; Int 12; Int 5; Int 7]] (Some 0%nat)
             [SqlNull; SqlNull; SqlNull; SqlNull; SqlNull] [Int 100; Int 200] in
  let s' := (mergeTupleForDelete (env := scripted false [] [[Int 7]])
               grouped_view [Int 1; Int 1; Int 5; Int 5; Int 5] s).2 in
  (fallback_ran_for 3 (new_events s s')
   <-> isNull (Int 5) = false /\ compare (Int 5) (Int 5) = 0) /\
  (isNull (Int 5) = false /\ compare (Int 5) (Int 5) = 0 ->
   EvFallbackQuery 3 0 ∅ ∈ new_events s s' /\
   exists sa sa' v,
     kept s sa /\ params sa = params s /\
     fallbackMinMaxColumn (env := scripted false [] [[Int 7]])
       grouped_view 3 0 sa = (inr v, sa') /\
     m_updatedTuple s' !! 3%nat = Some v) /\
  (¬ (isNull (Int 5) = false /\ compare (Int 5) (Int 5) = 0) ->
   m_updatedTuple s' !! 3%nat = Some (Int 5)).
Proof.
  intros s s'.
  refine (proj1 (mergeTupleForDelete_recalculates
                   (env := scripted false [] [[Int 7]])
                   grouped_view [Int 1; Int 1; Int 5; Int 5; Int 5] s s'
                   [Int 1; Int 2; Int 12; Int 5; Int 7] (Int 2) (Int 1)
                   _ _ _ _ 2%nat EXPRESSION_TYPE_AGGREGATE_MIN (Int 5) (Int 5)
                   _ _ _ _ _) _).
  - vm_compute. reflexivity.
  - reflexivity.
  - reflexivity.
  - reflexivity.
  - simpl. lia.
  - reflexivity.
  - reflexivity.
  - reflexivity.
  - reflexivity.
  - reflexivity.
Defined.

(** C5, as the specification states it, fails when the last source row
    of a view without group-by columns is deleted: the existing MIN value
    5 equals the delta value 5, yet no fallback query is run (the column
    is set to null with the rest). *)
Lemma recalculates_exactly_when_equal_fails :
  ¬ recalculates_exactly_when_equal (env := scripted false [] [[Int 9]])
      ungrouped_view [Int 1; Int 5]
      (state_of [[Int 1; Int 5]] (Some 0%nat) [SqlNull; SqlNull] []).
Proof.
  intros Hclaim.
  assert (mergeTupleForDelete (env := scripted false [] [[Int 9]])
            ungrouped_view [Int 1; Int 5]
            (state_of [[Int 1; Int 5]] (Some 0%nat) [SqlNull; SqlNull] [])
          = (inr tt,
             mkState [[Int 1; Int 5]] (Some 0%nat) [Int 0; SqlNull] [] ∅ []))
    as Hrun by (vm_compute; reflexivity).
  assert (1 < m_aggColumnCount ungrouped_view)%nat as Hlt by (simpl; lia).
  destruct (Hclaim _ [Int 1; Int 5] Hrun eq_refl
              1%nat EXPRESSION_TYPE_AGGREGATE_MIN (Int 5) (Int 5)
              Hlt eq_refl eq_refl eq_refl eq_refl)
    as [Hiff _].
  destruct (proj2 Hiff eq_refl) as (k & D & Hin).
  vm_compute in Hin. by apply elem_of_nil in Hin.
Qed.

(** The fallback query of the MIN column of the grouped view, called
    with parameters 100, 200, 300 in place. *)
Lemma fallbackMinMaxColumn_restores_params_witness :
  let s := state_of [[Int 1; Int 2; Int 12; Int 5; Int 7]] (Some 0%nat)
             [SqlNull; SqlNull; SqlNull; SqlNull; SqlNull]
             [Int 100; Int 200; Int 300] in
  let s' := (fallbackMinMaxColumn (env := scripted false [] [[Int 7]])
               grouped_view 3 0 s).2 in
  params s' = [Int 100; Int 200; Int 300] /\
  forall i, params s' !! i = [Int 100; Int 200; Int 300] !! i.
Proof.
  intros s s'.
  refine (fallbackMinMaxColumn_restores_params
            (env := scripted false [] [[Int 7]]) grouped_view 3 0 s (Int 7) s' _).
  vm_compute. reflexivity.
Defined.

(** The view [SELECT COUNT( * ), MIN(v) FROM T] with its one row, and the
    delta tuple (1, 7). *)
Lemma ungrouped_view_row_is_always_found_witness :
  exists s',
    findExistingTuple (env := scripted false [] []) ungrouped_view
      [Int 1; Int 7]
      (state_of [[Int 1; Int 5]] None [SqlNull; SqlNull] [])
    = (inr true, s') /\
    existingTuple_row s' = Some [Int 1; Int 5] /\
    m_destTable s' = [[Int 1; Int 5]].
Proof.
  refine (proj1 (ungrouped_view_row_is_always_found
                   (env := scripted false [] []) ungrouped_view
                   (state_of [[Int 1; Int 5]] None [SqlNull; SqlNull] [])
                   [Int 1; Int 5] _ _) [Int 1; Int 7]).
  - reflexivity.
  - reflexivity.
Defined.

End MaterializedViewHandler_Props.

(* ===================================================================== *)
(** * Properties of installation                                          *)
(* ===================================================================== *)

Module ViewInstall_Props.
Import ViewInstall.

(** ** What the heap operations read back *)

Lemma notify_list_update_table t f σ t' :
  notify_list (update_table t f σ) t'
  = if decide (t = t')
    then default [] (m_viewHandlers ∘ f <$> tables σ !! t)
    else notify_list σ t'.
Proof.
  unfold notify_list, update_table. cbn. rewrite lookup_alter.
  destruct (decide (t = t')) as [<- | Hne]; [|done].
  by destruct (tables σ !! t).
Qed.

Lemma table_replicated_update_table t f σ t' :
  (forall T, isCatalogTableReplicated (f T) = isCatalogTableReplicated T) ->
  table_replicated (update_table t f σ) t' = table_replicated σ t'.
Proof.
  intros Hf. unfold table_replicated, update_table. cbn. rewrite lookup_alter.
  destruct (decide (t = t')) as [<- | Hne]; [|done].
  destruct (tables σ !! t); cbn; [by rewrite Hf | done].
Qed.

Lemma installed_on_update_table t f σ t' :
  (forall T, m_mvHandler (f T) = m_mvHandler T) ->
  installed_on (update_table t f σ) t' = installed_on σ t'.
Proof.
  intros Hf. unfold installed_on, update_table. cbn. rewrite lookup_alter.
  destruct (decide (t = t')) as [<- | Hne]; [|done].
  destruct (tables σ !! t); cbn; [by rewrite Hf | done].
Qed.

Lemma elem_of_notify_list_add r0 t σ t' r :
  r ∈ notify_list (update_table t (addViewHandler r0) σ) t'
  <-> r ∈ notify_list σ t' \/ (t' = t /\ is_Some (tables σ !! t) /\ r = r0).
Proof.
  rewrite notify_list_update_table. unfold notify_list.
  destruct (decide (t = t')) as [<- | Hne]; [|intuition congruence].
  destruct (tables σ !! t) as [T|]; cbn.
  - rewrite elem_of_app, list_elem_of_singleton. intuition eauto.
  - split; [by intros ?%elem_of_nil|].
    intros [?%elem_of_nil | (_ & [? [=]] & _)]; done.
Qed.

Lemma elem_of_notify_list_drop r0 t σ t' r :
  r ∈ notify_list (update_table t (dropViewHandler r0) σ) t'
  <-> r ∈ notify_list σ t' /\ ¬ (t' = t /\ r = r0).
Proof.
  rewrite notify_list_update_table. unfold notify_list.
  destruct (decide (t = t')) as [<- | Hne]; [|intuition congruence].
  destruct (tables σ !! t) as [T|]; cbn.
  - rewrite list_elem_of_filter. intuition congruence.
  - split; [by intros ?%elem_of_nil | by intros [?%elem_of_nil _]].
Qed.

Lemma notify_list_update_handler x f σ t :
  notify_list (update_handler x f σ) t = notify_list σ t.
Proof. done. Qed.

Lemma table_replicated_update_handler x f σ t :
  table_replicated (update_handler x f σ) t = table_replicated σ t.
Proof. done. Qed.

Lemma installed_on_update_handler x f σ t :
  installed_on (update_handler x f σ) t = installed_on σ t.
Proof. done. Qed.

Lemma handlers_update_handler x f σ y :
  handlers (update_handler x f σ) !! y
  = if decide (x = y) then f <$> handlers σ !! x else handlers σ !! y.
Proof. unfold update_handler. cbn. apply lookup_alter. Qed.

Lemma handlers_update_table t f σ : handlers (update_table t f σ) = handlers σ.
Proof. done. Qed.

Lemma tables_is_Some_update_table t f σ t' :
  is_Some (tables (update_table t f σ) !! t') <-> is_Some (tables σ !! t').
Proof. unfold update_table. cbn. apply lookup_alter_is_Some. Qed.

Lemma elem_of_emplace k v m k' :
  k' ∈ (emplace k v m).*1 <-> k' = k \/ k' ∈ m.*1.
Proof.
  induction m as [|[k0 v0] m IH]; cbn.
  - rewrite list_elem_of_singleton. split; [auto | intros [? | ?%elem_of_nil]; done].
  - destruct (decide (k < k0)%nat); [cbn; by rewrite !elem_of_cons|].
    destruct (decide (k = k0)) as [-> | Hne]; cbn.
    + rewrite !elem_of_cons. intuition.
    + rewrite !elem_of_cons, IH. intuition.
Qed.

(** ** [dropSourceTable] and the destructor *)

Lemma dropSourceTable_spec x p it σ :
  (forall t, table_replicated (dropSourceTable x p it σ) t = table_replicated σ t) /\
  (forall t, installed_on (dropSourceTable x p it σ) t = installed_on σ t) /\
  (forall y, y ≠ x ->
     handlers (dropSourceTable x p it σ) !! y = handlers σ !! y) /\
  handlers (dropSourceTable x p it σ) !! x
  = (fun H => mkViewHandler (m_destTable H)
                (filter (fun e => e.1 ≠ it.1) (m_sourceTables H))
                (m_replicatedWrapper H) (Some true)) <$> handlers σ !! x /\
  (forall t r,
     r ∈ notify_list (dropSourceTable x p it σ) t
     <-> r ∈ notify_list σ t /\
         ¬ (t = it.1 /\ r = pointer_for p (table_replicated σ it.1) x)).
Proof.
  unfold dropSourceTable, pointer_for.
  destruct (bool_decide (p = table_replicated σ it.1));
    (split; [|split; [|split; [|split]]];
     [ intros t; rewrite table_replicated_update_handler;
       by apply table_replicated_update_table
     | intros t; rewrite installed_on_update_handler;
       by apply installed_on_update_table
     | intros y Hne; rewrite handlers_update_handler, handlers_update_table;
       by rewrite decide_False
     | rewrite handlers_update_handler, handlers_update_table;
       by rewrite decide_True
     | intros t r; rewrite notify_list_update_handler;
       apply elem_of_notify_list_drop ]).
Qed.

Lemma sourceTables_of_dropSourceTable x p it σ :
  sourceTables_of (dropSourceTable x p it σ) x
  = filter (fun e => e.1 ≠ it.1) (sourceTables_of σ x).
Proof.
  unfold sourceTables_of.
  destruct (dropSourceTable_spec x p it σ) as (_ & _ & _ & -> & _).
  by destruct (handlers σ !! x).
Qed.

Lemma elem_of_keys_filter (t k : nat) (m : list (nat * Z)) :
  t ∈ (filter (fun e => e.1 ≠ k) m).*1 <-> t ≠ k /\ t ∈ m.*1.
Proof.
  rewrite !list_elem_of_fmap. split.
  - intros (e & -> & [Hne Hin]%list_elem_of_filter). split; [done|]. by exists e.
  - intros (Hne & e & -> & Hin). exists e. split; [done|].
    by apply list_elem_of_filter.
Qed.

(** The loop of the destructor empties the handler's map and takes the
    handler's pointer out of the notify list of each of its source
    tables, and of those only. *)
Lemma drop_all_sourceTables_spec x p : forall fuel σ,
  (length (sourceTables_of σ x) <= fuel)%nat ->
  (forall t, table_replicated (drop_all_sourceTables fuel x p σ) t
             = table_replicated σ t) /\
  (forall t, installed_on (drop_all_sourceTables fuel x p σ) t
             = installed_on σ t) /\
  (forall y, y ≠ x ->
     handlers (drop_all_sourceTables fuel x p σ) !! y = handlers σ !! y) /\
  sourceTables_of (drop_all_sourceTables fuel x p σ) x = [] /\
  (forall t r,
     r ∈ notify_list (drop_all_sourceTables fuel x p σ) t
     <-> r ∈ notify_list σ t /\
         ¬ (t ∈ (sourceTables_of σ x).*1 /\
            r = pointer_for p (table_replicated σ t) x)).
Proof.
  induction fuel as [|fuel IH]; intros σ Hlen.
  - cbn. destruct (sourceTables_of σ x) eqn:Hsrc; [|cbn in Hlen; lia].
    do 4 (split; [done|]). intros t r. split; [|tauto].
    intros Hin. split; [done|]. by intros [?%elem_of_nil _].
  - cbn. destruct (sourceTables_of σ x) as [|it rest] eqn:Hsrc.
    { do 3 (split; [done|]). split; [done|]. intros t r. split; [|tauto].
      intros Hin. split; [done|]. by intros [?%elem_of_nil _]. }
    destruct (dropSourceTable_spec x p it σ) as (Hrep & Hinst & Hoth & _ & Hnot).
    pose proof (sourceTables_of_dropSourceTable x p it σ) as Hsrc1.
    rewrite Hsrc in Hsrc1.
    destruct (IH (dropSourceTable x p it σ)) as (Hrep' & Hinst' & Hoth' & Hemp & Hnot').
    { rewrite Hsrc1. rewrite filter_cons_False by (cbn; tauto).
      etrans; [apply length_filter|]. cbn in Hlen. lia. }
    split; [intros t; by rewrite Hrep', Hrep|].
    split; [intros t; by rewrite Hinst', Hinst|].
    split; [intros y Hne; by rewrite Hoth', Hoth|].
    split; [done|].
    intros t r. rewrite Hnot', Hnot, Hsrc1, Hrep.
    rewrite filter_cons_False by (cbn; tauto).
    rewrite elem_of_keys_filter. cbn [fmap list_fmap fst]. rewrite elem_of_cons.
    destruct (decide (t = it.1)) as [-> | Hne]; tauto.
Qed.

Lemma delete_handler_spec x H σ :
  handlers σ !! x = Some H ->
  (forall t, table_replicated (delete_handler x σ) t = table_replicated σ t) /\
  (forall t, installed_on (delete_handler x σ) t = installed_on σ t) /\
  (forall y, y ≠ x -> handlers (delete_handler x σ) !! y = handlers σ !! y) /\
  handlers (delete_handler x σ) !! x = None /\
  (forall t r,
     r ∈ notify_list (delete_handler x σ) t
     <-> r ∈ notify_list σ t /\
         ¬ (t ∈ (m_sourceTables H).*1 /\ r = registered_as σ x t)).
Proof.
  intros HH. unfold delete_handler. rewrite HH.
  assert (sourceTables_of σ x = m_sourceTables H) as Hsrc
    by (unfold sourceTables_of; by rewrite HH).
  assert (forall t, registered_as σ x t
                    = pointer_for (negb (table_replicated σ (m_destTable H)))
                        (table_replicated σ t) x) as Hreg
    by (intros t; unfold registered_as; by rewrite HH).
  destruct (bool_decide (m_sourceTables H = [])) eqn:Hempty.
  - apply bool_decide_eq_true_1 in Hempty.
    do 2 (split; [done|]).
    split; [intros y Hne; cbn; by rewrite lookup_delete_ne|].
    split; [cbn; by rewrite lookup_delete_eq|].
    intros t r. rewrite Hempty. split; [|tauto].
    intros Hin. split; [done|]. by intros [?%elem_of_nil _].
  - destruct (drop_all_sourceTables_spec x
                (negb (table_replicated σ (m_destTable H)))
                (length (m_sourceTables H)) σ)
      as (Hrep & Hinst & Hoth & _ & Hnot); [by rewrite Hsrc|].
    split; [done|]. split; [done|].
    split; [intros y Hne; cbn; rewrite lookup_delete_ne by done; by apply Hoth|].
    split; [cbn; by rewrite lookup_delete_eq|].
    intros t r. unfold notify_list at 1. cbn.
    fold (notify_list (drop_all_sourceTables (length (m_sourceTables H)) x
                         (negb (table_replicated σ (m_destTable H))) σ) t).
    by rewrite Hnot, Hsrc, Hreg.
Qed.

(** ** [addSourceTable] and registration *)

Lemma owner_pointer_for p b x : owner (pointer_for p b x) = x.
Proof. unfold pointer_for. by destruct (bool_decide _). Qed.

Lemma addSourceTable_spec this p t i σ :
  (forall t', table_replicated (addSourceTable this p t i σ) t'
              = table_replicated σ t') /\
  (forall t', installed_on (addSourceTable this p t i σ) t' = installed_on σ t') /\
  (forall t', is_Some (tables (addSourceTable this p t i σ) !! t')
              <-> is_Some (tables σ !! t')) /\
  (forall y, y ≠ this ->
     handlers (addSourceTable this p t i σ) !! y = handlers σ !! y) /\
  (forall H, handlers σ !! this = Some H ->
     exists H',
       handlers (addSourceTable this p t i σ) !! this = Some H' /\
       m_destTable H' = m_destTable H /\
       m_sourceTables H' = emplace t i (m_sourceTables H)) /\
  (forall t' r,
     r ∈ notify_list (addSourceTable this p t i σ) t'
     <-> r ∈ notify_list σ t' \/
         (t' = t /\ is_Some (tables σ !! t) /\
          r = pointer_for p (table_replicated σ t) this)).
Proof.
  unfold addSourceTable, pointer_for.
  destruct (bool_decide (p = table_replicated σ t));
    (split; [|split; [|split; [|split; [|split]]]];
     [ intros t'; rewrite ?table_replicated_update_handler;
       rewrite table_replicated_update_table by done;
       by rewrite ?table_replicated_update_handler
     | intros t'; rewrite ?installed_on_update_handler;
       rewrite installed_on_update_table by done;
       by rewrite ?installed_on_update_handler
     | intros t'; unfold update_handler at 1; cbn [tables];
       by rewrite tables_is_Some_update_table
     | intros y Hne; rewrite handlers_update_handler, handlers_update_table,
         ?handlers_update_handler; by rewrite !decide_False
     | intros H HH; rewrite handlers_update_handler, handlers_update_table,
         ?handlers_update_handler, ?decide_True, HH by done;
       eexists; split; [reflexivity|]; by split
     | intros t' r; rewrite notify_list_update_handler,
         elem_of_notify_list_add; by rewrite ?notify_list_update_handler ]).
Qed.

Lemma register_sourceTables_spec this p : forall sourceTables σ H,
  handlers σ !! this = Some H ->
  let σ' := fold_left (fun σ ref => addSourceTable this p ref.1 ref.2 σ)
              sourceTables σ in
  (forall t, table_replicated σ' t = table_replicated σ t) /\
  (forall t, installed_on σ' t = installed_on σ t) /\
  (forall y, y ≠ this -> handlers σ' !! y = handlers σ !! y) /\
  (exists H',
     handlers σ' !! this = Some H' /\ m_destTable H' = m_destTable H /\
     forall k, k ∈ (m_sourceTables H').*1
               <-> k ∈ sourceTables.*1 \/ k ∈ (m_sourceTables H).*1) /\
  (forall t r,
     r ∈ notify_list σ' t
     <-> r ∈ notify_list σ t \/
         (t ∈ sourceTables.*1 /\ is_Some (tables σ !! t) /\
          r = pointer_for p (table_replicated σ t) this)).
Proof.
  induction sourceTables as [|[t i] rest IH]; intros σ H HH; cbn.
  - do 3 (split; [done|]). split.
    + exists H. do 2 (split; [done|]). intros k. split; [auto|].
      by intros [?%elem_of_nil | ?].
    + intros t r. split; [auto|]. by intros [? | [?%elem_of_nil _]].
  - destruct (addSourceTable_spec this p t i σ)
      as (Hrep & Hinst & Hdom & Hoth & Hthis & Hnot).
    destruct (Hthis H HH) as (H1 & HH1 & Hdest1 & Hsrc1).
    destruct (IH (addSourceTable this p t i σ) H1 HH1)
      as (Hrep' & Hinst' & Hoth' & (H' & HH' & Hdest' & Hsrc') & Hnot').
    split; [intros t'; by rewrite Hrep', Hrep|].
    split; [intros t'; by rewrite Hinst', Hinst|].
    split; [intros y Hne; by rewrite Hoth', Hoth|].
    split.
    + exists H'. split; [done|]. split; [congruence|].
      intros k. rewrite Hsrc', Hsrc1, elem_of_emplace, elem_of_cons. tauto.
    + intros t' r. rewrite Hnot', Hnot, Hdom, Hrep, elem_of_cons. cbn [fst].
      split.
      * intros [[? | (-> & ? & ?)] | (? & ? & ?)]; [by left | right.. ];
          (split; [tauto | by split]).
      * intros [? | ([-> | ?] & ? & ?)];
          [by left; left | by left; right | by right].
Qed.

Lemma register_handler_spec this destTable sourceTables σ H :
  handlers σ !! this = Some H ->
  is_Some (tables σ !! destTable) ->
  let σ' := register_handler this destTable sourceTables σ in
  (forall t, table_replicated σ' t = table_replicated σ t) /\
  installed_on σ' destTable = Some this /\
  (forall t, t ≠ destTable -> installed_on σ' t = installed_on σ t) /\
  (forall y, y ≠ this -> handlers σ' !! y = handlers σ !! y) /\
  (exists H',
     handlers σ' !! this = Some H' /\ m_destTable H' = m_destTable H /\
     forall k, k ∈ (m_sourceTables H').*1
               <-> k ∈ sourceTables.*1 \/ k ∈ (m_sourceTables H).*1) /\
  (forall t r,
     r ∈ notify_list σ' t
     <-> r ∈ notify_list σ t \/
         (t ∈ sourceTables.*1 /\ is_Some (tables σ !! t) /\
          r = pointer_for (negb (table_replicated σ destTable))
                (table_replicated σ t) this)).
Proof.
  intros HH [T HT] σ'. subst σ'. unfold register_handler.
  set (σ0 := update_table destTable _ σ).
  assert (forall t, table_replicated σ0 t = table_replicated σ t) as Hrep0
    by (intros t; by apply table_replicated_update_table).
  assert (forall t, notify_list σ0 t = notify_list σ t) as Hnot0.
  { intros t. unfold σ0. rewrite notify_list_update_table.
    unfold notify_list. destruct (decide (destTable = t)) as [<- | ?]; [|done].
    by rewrite HT. }
  assert (installed_on σ0 destTable = Some this) as Hinst0.
  { unfold installed_on, σ0, update_table. cbn.
    by rewrite lookup_alter_eq, HT. }
  assert (forall t, t ≠ destTable -> installed_on σ0 t = installed_on σ t)
    as Hinst0'.
  { intros t Hne. unfold installed_on, σ0, update_table. cbn.
    by rewrite lookup_alter_ne. }
  assert (forall t, is_Some (tables σ0 !! t) <-> is_Some (tables σ !! t)) as Hdom0
    by (intros t; apply tables_is_Some_update_table).
  destruct (register_sourceTables_spec this
              (negb (table_replicated σ0 destTable)) sourceTables σ0 H HH)
    as (Hrep & Hinst & Hoth & Hthis & Hnot).
  split; [intros t; by rewrite Hrep, Hrep0|].
  split; [by rewrite Hinst|].
  split; [intros t Hne; by rewrite Hinst, Hinst0'|].
  split; [done|]. split; [done|].
  intros t r. rewrite Hnot, Hnot0, Hdom0, !Hrep0. tauto.
Qed.

Lemma tables_is_Some_dropSourceTable x p it σ t :
  is_Some (tables (dropSourceTable x p it σ) !! t) <-> is_Some (tables σ !! t).
Proof.
  unfold dropSourceTable.
  destruct (bool_decide _); unfold update_handler; cbn [tables];
    apply tables_is_Some_update_table.
Qed.

Lemma tables_is_Some_drop_all_sourceTables x p t : forall fuel σ,
  is_Some (tables (drop_all_sourceTables fuel x p σ) !! t)
  <-> is_Some (tables σ !! t).
Proof.
  induction fuel as [|fuel IH]; intros σ; cbn; [done|].
  destruct (sourceTables_of σ x) as [|it rest]; [done|].
  by rewrite IH, tables_is_Some_dropSourceTable.
Qed.

Lemma tables_is_Some_delete_handler x σ t :
  is_Some (tables (delete_handler x σ) !! t) <-> is_Some (tables σ !! t).
Proof.
  unfold delete_handler. destruct (handlers σ !! x) as [H|]; [|done].
  cbn. destruct (bool_decide _); [done|].
  apply tables_is_Some_drop_all_sourceTables.
Qed.

(** ** Installing a handler *)

(** Creating the object changes nothing for the handlers that are
    there. *)
Lemma well_formed_allocate this destTable σ :
  well_formed σ -> handlers σ !! this = None ->
  well_formed
    (mkHeap (tables σ)
       (<[this := mkViewHandler destTable [] false None]> (handlers σ))).
Proof.
  intros [Hreg Hlive] Hfresh. split.
  - intros t r Hin. destruct (Hreg t r Hin) as (H & HH & Ht & Hr & Hi).
    assert (owner r ≠ this) as Hne by congruence.
    exists H. cbn. rewrite lookup_insert_ne by done.
    split; [done|]. split; [done|]. split; [|done].
    rewrite Hr at 1. unfold registered_as. cbn.
    by rewrite lookup_insert_ne.
  - intros d x Hin. destruct (Hlive d x Hin) as (H & HH & Hd).
    exists H. cbn. rewrite lookup_insert_ne by congruence. done.
Qed.

(** C10.  Let a new handler [this] be constructed for the view table
    [destTable] in a well-formed heap.  Then the handler that was
    installed on [destTable], if there was one, is destroyed first: by
    the time the new handler registers, the old one is gone from the heap
    and no notify list holds it or its wrapper, nor the new handler.
    After the construction, [this] is the handler installed on
    [destTable], the heap is well formed again, and so any two registered
    pointers whose handlers have the same view table belong to the same
    handler. *)
Theorem install_replaces_handler this destTable sourceTables σ :
  well_formed σ ->
  handlers σ !! this = None ->
  is_Some (tables σ !! destTable) ->
  let σ0 := mkHeap (tables σ)
              (<[this := mkViewHandler destTable [] false None]> (handlers σ)) in
  let σ1 := delete_existing_handler destTable σ0 in
  let σ' := new_MaterializedViewHandler this destTable sourceTables σ in
  σ' = register_handler this destTable sourceTables σ1 /\
  (forall old,
     installed_on σ destTable = Some old ->
     handlers σ1 !! old = None /\
     forall t r, r ∈ notify_list σ1 t -> owner r ≠ old) /\
  (forall t r, r ∈ notify_list σ1 t -> owner r ≠ this) /\
  installed_on σ' destTable = Some this /\
  well_formed σ' /\
  (forall t1 r1 H1 t2 r2 H2,
     r1 ∈ notify_list σ' t1 -> r2 ∈ notify_list σ' t2 ->
     handlers σ' !! owner r1 = Some H1 -> handlers σ' !! owner r2 = Some H2 ->
     m_destTable H1 = m_destTable H2 ->
     owner r1 = owner r2).
Proof.
  intros Hwf Hfresh Hdest σ0 σ1 σ'.
  pose proof (well_formed_allocate this destTable σ Hwf Hfresh) as [Hreg0 Hlive0].
  fold σ0 in Hreg0, Hlive0.
  assert (handlers σ0 !! this = Some (mkViewHandler destTable [] false None)) as Hthis0
    by (cbn; by rewrite lookup_insert_eq).
  assert (forall t r, r ∈ notify_list σ0 t -> owner r ≠ this) as Hnew0.
  { intros t r Hin Heq. destruct Hwf as [Hreg _].
    destruct (Hreg t r Hin) as (H & HH & _). congruence. }
  (* the heap once the old handler is deleted *)
  assert ((forall t, table_replicated σ1 t = table_replicated σ0 t) /\
          (forall t, installed_on σ1 t = installed_on σ0 t) /\
          handlers σ1 !! this = Some (mkViewHandler destTable [] false None) /\
          (forall y, installed_on σ0 destTable ≠ Some y ->
                     handlers σ1 !! y = handlers σ0 !! y) /\
          (forall old, installed_on σ0 destTable = Some old ->
                       handlers σ1 !! old = None) /\
          (forall t r, r ∈ notify_list σ1 t ->
                       r ∈ notify_list σ0 t /\
                       installed_on σ0 destTable ≠ Some (owner r)) /\
          (forall t r, r ∈ notify_list σ0 t ->
                       installed_on σ0 destTable ≠ Some (owner r) ->
                       r ∈ notify_list σ1 t))
    as (Hrep1 & Hinst1 & Hthis1 & Hoth1 & Hold1 & Hnot1 & Hnot1').
  { unfold σ1, delete_existing_handler.
    fold (installed_on σ0 destTable).
    destruct (installed_on σ0 destTable) as [old|] eqn:Hold; cycle 1.
    { repeat split; try done. }
    destruct (Hlive0 _ _ Hold) as (Ho & HHo & Hdo).
    assert (old ≠ this) as Hne.
    { intros ->. cbn in HHo. rewrite lookup_insert_eq in HHo.
      destruct Hwf as [_ Hlive]. destruct (Hlive _ _ Hold) as (H & HH & _).
      congruence. }
    destruct (delete_handler_spec old Ho σ0 HHo)
      as (Hrep & Hinst & Hoth & Hgone & Hnot).
    split; [done|]. split; [done|].
    split; [by rewrite Hoth|].
    split; [intros y Hy; apply Hoth; congruence|].
    split; [by intros ? [= <-]|].
    split.
    - intros t r [Hin Hno]%Hnot. split; [done|]. intros [= Heq].
      destruct (Hreg0 t r Hin) as (H & HH & Ht & Hr & _).
      rewrite <- Heq in HH, Hr. assert (H = Ho) as -> by congruence.
      apply Hno. by split.
    - intros t r Hin Hno. apply Hnot. split; [done|].
      intros [_ Hr]. apply Hno. f_equal. rewrite Hr.
      unfold registered_as. rewrite HHo. by rewrite owner_pointer_for. }
  assert (is_Some (tables σ1 !! destTable)) as Hdest1.
  { unfold σ1, delete_existing_handler.
    destruct (tables σ0 !! destTable ≫= m_mvHandler) as [old|]; [|done].
    by apply tables_is_Some_delete_handler. }
  destruct (register_handler_spec this destTable sourceTables σ1 _ Hthis1 Hdest1)
    as (Hrep' & Hinst' & Hinst_oth' & Hoth' & (H' & HH' & Hdest' & Hsrc') & Hnot').
  change (register_handler this destTable sourceTables σ1) with σ' in *.
  assert (well_formed σ') as Hwf'.
  { split.
    - intros t r [Hin | (Ht & Hsome & ->)]%Hnot'.
      + destruct (Hnot1 t r Hin) as [Hin0 Hnold].
        destruct (Hreg0 t r Hin0) as (H & HH & Hts & Hr & Hi).
        pose proof (Hnew0 t r Hin0) as Hne.
        assert (handlers σ' !! owner r = Some H) as HH1
          by (rewrite Hoth' by done; by rewrite Hoth1).
        assert (m_destTable H ≠ destTable) as Hd by congruence.
        exists H. split; [done|]. split; [done|]. split.
        * rewrite Hr at 1. unfold registered_as. rewrite HH, HH1.
          by rewrite !Hrep', !Hrep1.
        * rewrite Hinst_oth' by done. by rewrite Hinst1.
      + rewrite owner_pointer_for. exists H'. split; [done|].
        split; [apply Hsrc'; by left|]. split; [|by rewrite Hdest'].
        unfold registered_as. rewrite HH', Hdest'. cbn.
        by rewrite !Hrep'.
    - intros d x Hin. destruct (decide (d = destTable)) as [-> | Hne].
      + rewrite Hinst' in Hin. injection Hin as <-. by exists H'.
      + rewrite Hinst_oth', Hinst1 in Hin by done.
        destruct (Hlive0 d x Hin) as (H & HH & Hd).
        exists H. split; [|done].
        assert (x ≠ this).
        { intros ->. rewrite Hthis0 in HH. injection HH as <-. done. }
        rewrite Hoth' by done. rewrite Hoth1; [done|].
        intros Hx. destruct (Hlive0 _ _ Hx) as (Hx' & HHx & Hdx). congruence. }
  split; [done|]. split.
  { intros old Hold. split; [by apply Hold1|].
    intros t r [_ Hno]%Hnot1 Heq. apply Hno. by rewrite Heq. }
  split.
  { intros t r [Hin _]%Hnot1. by eapply Hnew0. }
  split; [done|]. split; [done|].
  intros t1 r1 H1 t2 r2 H2 Hin1 Hin2 HH1 HH2 Hd.
  destruct Hwf' as [Hreg' _].
  destruct (Hreg' _ _ Hin1) as (H1' & HH1' & _ & _ & Hi1).
  destruct (Hreg' _ _ Hin2) as (H2' & HH2' & _ & _ & Hi2).
  assert (H1' = H1) as -> by congruence.
  assert (H2' = H2) as -> by congruence.
  rewrite Hd in Hi1. congruence.
Qed.

(** ** A heap to install on *)

Lemma example_heap_well_formed : well_formed example_heap.
Proof.
  assert (forall t, notify_list example_heap t
                    = if decide (t = 1%nat) then [HandlerRef 10]
                      else if decide (t = 2%nat) then [ReplicatedWrapperRef 10]
                      else []) as Hnot.
  { intros t. unfold notify_list, example_heap. cbn.
    rewrite lookup_insert. destruct (decide (1%nat = t)) as [<- | ?]; [done|].
    rewrite decide_False by done.
    rewrite lookup_insert. destruct (decide (2%nat = t)) as [<- | ?]; [done|].
    rewrite decide_False by done.
    rewrite lookup_insert. destruct (decide (3%nat = t)) as [<- | ?]; done. }
  assert (forall d, installed_on example_heap d
                    = if decide (d = 3%nat) then Some 10%nat else None) as Hinst.
  { intros d. unfold installed_on, example_heap. cbn.
    rewrite lookup_insert. destruct (decide (1%nat = d)) as [<- | ?]; [done|].
    rewrite lookup_insert. destruct (decide (2%nat = d)) as [<- | ?]; [done|].
    rewrite lookup_insert. destruct (decide (3%nat = d)) as [<- | ?]; [done|].
    by rewrite decide_False. }
  split.
  - intros t r. rewrite Hnot.
    destruct (decide (t = 1%nat)) as [-> | ?];
      [|destruct (decide (t = 2%nat)) as [-> | ?]].
    + intros ->%list_elem_of_singleton.
      exists (mkViewHandler 3 [(1%nat, 0); (2%nat, 1)] true (Some false)).
      split; [done|]. split; [by left|]. by split.
    + intros ->%list_elem_of_singleton.
      exists (mkViewHandler 3 [(1%nat, 0); (2%nat, 1)] true (Some false)).
      split; [done|]. split; [right; by left|]. by split.
    + by intros ?%elem_of_nil.
  - intros d x. rewrite Hinst.
    destruct (decide (d = 3%nat)) as [-> | ?]; [|done].
    intros [= <-]. by exists (mkViewHandler 3 [(1%nat, 0); (2%nat, 1)] true (Some false)).
Qed.

(** Handler 11 is constructed for view table 3, with table 1 as its only
    source, while handler 10 is installed there. *)
Lemma install_replaces_handler_witness :
  installed_on (new_MaterializedViewHandler 11 3 [(1%nat, 0)] example_heap) 3
  = Some 11%nat /\
  well_formed (new_MaterializedViewHandler 11 3 [(1%nat, 0)] example_heap) /\
  notify_list (new_MaterializedViewHandler 11 3 [(1%nat, 0)] example_heap) 1
  = [HandlerRef 11] /\
  notify_list (new_MaterializedViewHandler 11 3 [(1%nat, 0)] example_heap) 2
  = [].
Proof.
  destruct (install_replaces_handler 11 3 [(1%nat, 0)] example_heap
              example_heap_well_formed eq_refl
              (ex_intro _ (mkTable false [] (Some 10%nat)) eq_refl))
    as (_ & _ & _ & Hinst & Hwf & _).
  split; [exact Hinst|]. split; [exact Hwf|]. split; vm_compute; reflexivity.
Defined.

End ViewInstall_Props.

(* ===================================================================== *)
(** * More properties of view maintenance                                 *)
(* ===================================================================== *)

Module ViewMaintenance_Props.
Import MaterializedViewHandler MaterializedViewHandler_Props ViewTrace.

Section InsertPath.
Context {NValue : Type} {ops : NValueOps NValue} {env : Collaborators NValue}.
Variable h : Handler.

Local Abbreviation State := (State NValue).

(** One turn of the insert loop: the delta row is appended as it is, or
    a view row is replaced by the merged tuple; a turn that throws has
    changed neither the view nor the trace. *)
Lemma wp_handleTupleInsert_row fallible (deltaTuple : list NValue) (s0 : State) :
  wp (handleTupleInsert_row h fallible deltaTuple)
     (fun r s =>
        deltaTableActive s = deltaTableActive s0 /\
        params s = params s0 /\
        match r with
        | inr _ =>
            (trace s = trace s0 ++ [EvInsertTuple deltaTuple] /\
             m_destTable s = m_destTable s0 ++ [deltaTuple])
            \/
            (exists target,
               (target < length (m_destTable s0))%nat /\
               trace s = trace s0 ++ [EvUpdateTuple target (m_updatedTuple s)] /\
               m_destTable s = <[target := m_updatedTuple s]> (m_destTable s0))
        | inl _ => trace s = trace s0 /\ m_destTable s = m_destTable s0
        end) s0.
Proof.
  unfold handleTupleInsert_row.
  apply wp_bind, wp_findExistingTuple; [|by intros].
  intros found t _ _. destruct found.
  - apply wp_bind.
    eapply wp_mono; [apply wp_mergeTupleForInsert_frame|].
    cbn. intros r s1 (Hd & He & Hp & HD & Htr & _). cbn in Hd, He, Hp, HD, Htr.
    destruct r as [exn|[]]; [done|].
    apply wp_updateTupleWithSpecificIndexes.
    rewrite He. destruct t as [target|]; [|done].
    destruct (decide (target < length (m_destTable s1))%nat) as [Hlt|]; [|done].
    cbn. split; [done|]. split; [done|]. right. exists target.
    rewrite Hd in Hlt |- *. by rewrite Htr.
  - apply wp_insertPersistentTuple.
    destruct (violatesConstraint _ deltaTuple); cbn.
    + by repeat split.
    + split; [done|]. split; [done|]. by left.
Qed.

Lemma inserted_tuples_cons_insert (t : list NValue) evs :
  inserted_tuples (EvInsertTuple t :: evs) = t :: inserted_tuples evs.
Proof. reflexivity. Qed.

Lemma inserted_tuples_cons_update target (u : list NValue) evs :
  inserted_tuples (EvUpdateTuple target u :: evs) = inserted_tuples evs.
Proof. reflexivity. Qed.

(** The loop over the delta rows: one event for each row it gets
    through; the view grows by the rows inserted, and a row that no
    update names is as it was. *)
Lemma wp_insert_turns fallible (rows : list (list NValue)) : forall s0 : State,
  wp (for_each rows (handleTupleInsert_row h fallible))
     (fun r s =>
        deltaTableActive s = deltaTableActive s0 /\
        params s = params s0 /\
        exists evs,
          trace s = trace s0 ++ evs /\
          Forall2 insert_turn (take (length evs) rows) evs /\
          (r = inr tt -> length evs = length rows) /\
          length (m_destTable s)
          = (length (m_destTable s0) + length (inserted_tuples evs))%nat /\
          (forall i row,
             m_destTable s0 !! i = Some row ->
             (forall u, EvUpdateTuple i u ∉ evs) ->
             m_destTable s !! i = Some row)) s0.
Proof.
  induction rows as [|d rows IH]; intros s0.
  - apply wp_ret. split; [done|]. split; [done|]. exists [].
    rewrite app_nil_r. cbn. repeat split; try done; try lia; try constructor.
  - cbn [for_each]. apply wp_bind.
    eapply wp_mono; [apply wp_handleTupleInsert_row|].
    cbn. intros r s1 (HD & Hp & Hr).
    destruct r as [exn|[]].
    { destruct Hr as [Htr Hd]. split; [done|]. split; [done|]. exists [].
      rewrite app_nil_r. cbn. rewrite Hd.
      repeat split; try done; try lia; try constructor. }
    eapply wp_mono; [apply IH|].
    cbn. intros r s2 (HD2 & Hp2 & evs & Htr2 & Hturns & Hlen & Hgrow & Hkeep).
    split; [congruence|]. split; [congruence|].
    destruct Hr as [[Htr Hd] | (target & Hlt & Htr & Hd)].
    + exists (EvInsertTuple d :: evs).
      split; [rewrite Htr2, Htr; by rewrite <- app_assoc|].
      split; [cbn; constructor; [by left | done]|].
      split; [intros Hr; cbn; by rewrite Hlen|].
      split.
      * rewrite Hgrow, Hd, length_app, inserted_tuples_cons_insert. cbn. lia.
      * intros i row Hi Hno. apply Hkeep.
        -- rewrite Hd. by apply lookup_app_l_Some.
        -- intros u Hin. apply (Hno u). by right.
    + exists (EvUpdateTuple target (m_updatedTuple s1) :: evs).
      split; [rewrite Htr2, Htr; by rewrite <- app_assoc|].
      split; [cbn; constructor; [by right | done]|].
      split; [intros Hr; cbn; by rewrite Hlen|].
      split.
      * rewrite Hgrow, Hd, length_insert, inserted_tuples_cons_update. done.
      * intros i row Hi Hno. apply Hkeep.
        -- rewrite Hd. rewrite list_lookup_insert_ne; [done|].
           intros ->. apply (Hno (m_updatedTuple s1)). by left.
        -- intros u Hin. apply (Hno u). by right.
Qed.

(** The whole insert path. *)
Lemma handleTupleInsert_run sourceTable fallible (s : State) :
  let out := handleTupleInsert h sourceTable fallible s in
  deltaTableActive out.2 = ({[sourceTable]} ∪ deltaTableActive s) ∖ {[sourceTable]} /\
  params out.2 = params s /\
  exists evs,
    new_events s out.2
    = EvCreateQuery ({[sourceTable]} ∪ deltaTableActive s) :: evs /\
    match executeExecutors (m_createQueryExecutorVector h)
            (create_query_state sourceTable s) with
    | Some delta =>
        Forall2 insert_turn (take (length evs) delta) evs /\
        (out.1 = inr tt -> length evs = length delta)
    | None => out.1 = inl ExecutorException /\ evs = []
    end /\
    length (m_destTable out.2)
    = (length (m_destTable s) + length (inserted_tuples evs))%nat /\
    (forall i row,
       m_destTable s !! i = Some row ->
       (forall u, EvUpdateTuple i u ∉ evs) ->
       m_destTable out.2 !! i = Some row).
Proof.
  cbn zeta. unfold handleTupleInsert.
  set (D1 := {[sourceTable]} ∪ deltaTableActive s).
  match goal with |- context [let '(_, _) := ?body s in _] =>
    assert (wp body
              (fun r s' =>
                 deltaTableActive s' = D1 /\
                 params s' = params s /\
                 exists evs,
                   trace s' = trace s ++ EvCreateQuery D1 :: evs /\
                   match executeExecutors (m_createQueryExecutorVector h)
                           (create_query_state sourceTable s) with
                   | Some delta =>
                       Forall2 insert_turn (take (length evs) delta) evs /\
                       (r = inr tt -> length evs = length delta)
                   | None => r = inl ExecutorException /\ evs = []
                   end /\
                   length (m_destTable s')
                   = (length (m_destTable s) + length (inserted_tuples evs))%nat /\
                   (forall i row,
                      m_destTable s !! i = Some row ->
                      (forall u, EvUpdateTuple i u ∉ evs) ->
                      m_destTable s' !! i = Some row)) s)
      as Hbody;
    [|unfold wp in Hbody; destruct (body s) as [r s']]
  end.
  { apply wp_bind, wp_ScopedDeltaTableContext_new.
    apply wp_bind, wp_run_executors. cbn. fold D1.
    change (mkState (m_destTable s) (m_existingTuple s) (m_updatedTuple s)
              (params s) D1 (trace s ++ [EvCreateQuery D1]))
      with (create_query_state sourceTable s).
    destruct (executeExecutors _ (create_query_state sourceTable s))
      as [delta|]; cycle 1.
    { split; [done|]. split; [done|]. exists []. cbn.
      repeat split; try done; lia. }
    eapply wp_mono; [apply wp_insert_turns|].
    cbn. intros r s' (HD & Hp & evs & Htr & Hturns & Hlen & Hgrow & Hkeep).
    split; [done|]. split; [done|]. exists evs.
    split; [rewrite Htr; by rewrite <- app_assoc|]. done. }
  cbn in Hbody.
  unfold ScopedDeltaTableContext_delete, set_deltaTableActive, modify, get,
    mbind, M_bind. cbn.
  destruct Hbody as (HD & Hp & evs & Htr & Hq & Hgrow & Hkeep).
  split; [by rewrite HD|]. split; [done|]. exists evs.
  split; [by apply new_events_app|]. done.
Qed.

(** X1.  The insert path gets through the delta rows one by one: after the
    create query, each row it reaches leaves one event, the insertion of
    that row or the update of a view row.  It never deletes a row: the
    view grows by the rows inserted, and a row that no update names is
    where and as it was.  The parameters of the executor context are as
    before. *)
Theorem handleTupleInsert_one_turn_per_row sourceTable fallible (s : State) :
  let out := handleTupleInsert h sourceTable fallible s in
  params out.2 = params s /\
  exists evs,
    new_events s out.2
    = EvCreateQuery ({[sourceTable]} ∪ deltaTableActive s) :: evs /\
    match executeExecutors (m_createQueryExecutorVector h)
            (create_query_state sourceTable s) with
    | Some delta =>
        Forall2 insert_turn (take (length evs) delta) evs /\
        (out.1 = inr tt -> length evs = length delta)
    | None => out.1 = inl ExecutorException /\ evs = []
    end /\
    length (m_destTable out.2)
    = (length (m_destTable s) + length (inserted_tuples evs))%nat /\
    (forall i row,
       m_destTable s !! i = Some row ->
       (forall u, EvUpdateTuple i u ∉ evs) ->
       m_destTable out.2 !! i = Some row).
Proof. intros out. by destruct (handleTupleInsert_run sourceTable fallible s) as (_ & ? & ?). Qed.

(** X2.  However the insert path ends, by returning or by an exception of
    the create query or of a turn, the source table is out of delta mode
    afterwards, and the delta mode of every other table is as before. *)
Theorem handleTupleInsert_exits_delta_mode sourceTable fallible (s : State) :
  let out := handleTupleInsert h sourceTable fallible s in
  (sourceTable ∉ deltaTableActive out.2) /\
  forall t, t ≠ sourceTable ->
    (t ∈ deltaTableActive out.2 <-> t ∈ deltaTableActive s).
Proof.
  intros out.
  destruct (handleTupleInsert_run sourceTable fallible s) as (HD & _).
  fold out in HD. rewrite HD. split.
  - intros [_ Hn]%elem_of_difference. apply Hn. by apply elem_of_singleton.
  - intros t Hne. rewrite elem_of_difference, elem_of_union, !elem_of_singleton.
    intuition congruence.
Qed.
End InsertPath.

Section DeletePath.
Context {NValue : Type} {ops : NValueOps NValue} {env : Collaborators NValue}.
Variable h : Handler.

Local Abbreviation State := (State NValue).

Lemma deleted_rows_app (evs evs' : list (Event NValue)) :
  deleted_rows (evs ++ evs') = (deleted_rows evs + deleted_rows evs')%nat.
Proof. unfold deleted_rows. by rewrite omap_app, length_app. Qed.

Lemma deleted_rows_fallback (evs : list (Event NValue)) :
  Forall is_fallback evs -> deleted_rows evs = 0%nat.
Proof.
  unfold deleted_rows. induction 1 as [|ev evs Hev _ IH]; [done|].
  destruct ev; cbn in *; done.
Qed.

(** One turn of the delete loop: the view row is deleted, or it is
    replaced by the merged tuple after the fallback queries of the merge;
    a turn that throws leaves the view as it is, and it throws the fatal
    exception only on a view with group-by columns whose index has no row
    for the delta row. *)
Lemma wp_handleTupleDelete_row_events fallible (deltaTuple : list NValue)
    (s0 : State) :
  wp (handleTupleDelete_row h fallible deltaTuple)
     (fun r s =>
        deltaTableActive s = deltaTableActive s0 /\
        exists evs,
          trace s = trace s0 ++ evs /\
          Forall delete_turn_event evs /\
          match r with
          | inr _ =>
              (length (m_destTable s) + deleted_rows evs)%nat
              = length (m_destTable s0) /\
              params s = params s0
          | inl exn =>
              m_destTable s = m_destTable s0 /\
              deleted_rows evs = 0%nat /\
              (exn = FatalException ->
               (0 < m_groupByColumnCount h)%nat /\
               nextValueAtKey (m_groupByColumnCount h) (m_destTable s)
                 deltaTuple = None)
          end) s0.
Proof.
  assert (forall (exn : Exn) (t : option nat),
            exn ≠ FatalException ->
            deltaTableActive s0 = deltaTableActive s0 /\
            exists evs,
              trace s0 = trace s0 ++ evs /\
              Forall delete_turn_event evs /\
              m_destTable s0 = m_destTable s0 /\
              deleted_rows evs = 0%nat /\
              (exn = FatalException ->
               (0 < m_groupByColumnCount h)%nat /\
               nextValueAtKey (m_groupByColumnCount h) (m_destTable s0)
                 deltaTuple = None)) as Hstop.
  { intros exn _ Hexn. split; [done|]. exists []. rewrite app_nil_r.
    by repeat split. }
  unfold handleTupleDelete_row.
  apply wp_bind, wp_findExistingTuple; cycle 1.
  { intros t _ _. cbn. by apply (Hstop _ t). }
  intros found t Hungrouped Hgrouped.
  apply wp_bind.
  destruct found; cycle 1.
  { apply wp_throw. cbn. split; [done|]. exists []. rewrite app_nil_r.
    split; [done|]. split; [done|]. split; [done|]. split; [done|].
    intros _.
    destruct (decide (m_groupByColumnCount h = 0%nat)) as [Hgb | Hgb].
    { by destruct (Hungrouped Hgb) as [? _]. }
    destruct Hgrouped as [Ht Hfound]; [lia|].
    split; [lia|]. rewrite <- Ht. by destruct t. }
  apply wp_ret.
  apply wp_bind, wp_existingTuple_getNValue_cases;
    [|intros _; cbn; by apply (Hstop _ t)].
  intros row ec Hrow Hec.
  apply wp_bind, wp_getNValue_cases; [|intros _; cbn; by apply (Hstop _ t)].
  intros dc Hdc.
  destruct (bool_decide (compare ec dc = 0)
            && bool_decide (0 < m_groupByColumnCount h)%nat) eqn:Hcond.
  - (* the row is deleted *)
    apply wp_deleteTuple. cbn.
    destruct t as [target|]; [|by apply (Hstop _ None)].
    destruct (decide (target < length (m_destTable s0))%nat) as [Hlt|];
      [|by apply (Hstop _ (Some target))].
    split; [done|]. exists [EvDeleteTuple target]. cbn.
    split; [done|].
    split; [repeat constructor; right; by right|].
    split; [|done].
    rewrite length_delete by (by apply lookup_lt_is_Some_2). lia.
  - (* the row is merged and updated in place *)
    apply wp_bind.
    eapply wp_mono;
      [apply wp_and;
         [apply wp_mergeTupleForDelete | apply wp_mergeTupleForDelete_not_fatal]|].
    cbn. intros r s2 [[[(Hd & He & HD & Hu) (evs & Htr & Hall)] Hret] Hnf].
    assert (Forall is_fallback evs) as Hfb
      by (eapply Forall_impl; [exact Hall|]; by intros ev [? _]).
    assert (Forall delete_turn_event evs) as Hturn
      by (eapply Forall_impl; [exact Hfb|]; intros ev ?; by left).
    cbn in Hd, He, HD, Htr.
    assert (forall exn, exn ≠ FatalException ->
              deltaTableActive s2 = deltaTableActive s0 /\
              exists evs',
                trace s2 = trace s0 ++ evs' /\
                Forall delete_turn_event evs' /\
                m_destTable s2 = m_destTable s0 /\
                deleted_rows evs' = 0%nat /\
                (exn = FatalException ->
                 (0 < m_groupByColumnCount h)%nat /\
                 nextValueAtKey (m_groupByColumnCount h) (m_destTable s2)
                   deltaTuple = None)) as Hstop2.
    { intros exn Hexn. split; [done|]. exists evs.
      split; [done|]. split; [done|]. split; [done|].
      split; [by apply deleted_rows_fallback|]. done. }
    destruct r as [exn|[]].
    { apply Hstop2. intros ->. by apply Hnf. }
    assert (params s2 = params s0) as Hparams.
    { cbn in Hrow. by destruct (Hret evs row ec dc Htr Hrow Hec Hdc) as [? _]. }
    apply wp_updateTupleWithSpecificIndexes.
    rewrite He.
    destruct t as [target|]; [|by apply Hstop2].
    destruct (decide (target < length (m_destTable s2))%nat);
      [|by apply Hstop2].
    cbn. split; [done|].
    exists (evs ++ [EvUpdateTuple target (m_updatedTuple s2)]).
    split; [by rewrite Htr, app_assoc|].
    split; [apply Forall_app; split; [done|]; repeat constructor; right; by left|].
    split; [|done].
    rewrite length_insert, Hd, deleted_rows_app, (deleted_rows_fallback evs)
      by done.
    cbn. lia.
Qed.

(** The loop over the delta rows. *)
Lemma wp_delete_turns fallible (rows : list (list NValue)) : forall s0 : State,
  wp (for_each rows (handleTupleDelete_row h fallible))
     (fun r s =>
        deltaTableActive s = deltaTableActive s0 /\
        exists evs,
          trace s = trace s0 ++ evs /\
          Forall delete_turn_event evs /\
          (length (m_destTable s) + deleted_rows evs)%nat
          = length (m_destTable s0) /\
          (r = inr tt -> params s = params s0) /\
          (r = inl FatalException ->
           (0 < m_groupByColumnCount h)%nat /\
           exists deltaTuple,
             deltaTuple ∈ rows /\
             nextValueAtKey (m_groupByColumnCount h) (m_destTable s)
               deltaTuple = None)) s0.
Proof.
  induction rows as [|d rows IH]; intros s0.
  - apply wp_ret. split; [done|]. exists []. rewrite app_nil_r. cbn.
    repeat split; try done; lia.
  - cbn [for_each]. apply wp_bind.
    eapply wp_mono; [apply wp_handleTupleDelete_row_events|].
    cbn. intros r s1 (HD & evs & Htr & Hall & Hr).
    destruct r as [exn|[]].
    { destruct Hr as (Hd & Hdel & Hfatal). split; [done|]. exists evs.
      split; [done|]. split; [done|].
      split; [rewrite Hd, Hdel; lia|]. split; [done|].
      intros [= ->]. destruct Hfatal as [Hgb Hprobe]; [done|].
      split; [done|]. exists d. split; [by left | done]. }
    destruct Hr as [Hlen Hp].
    eapply wp_mono; [apply IH|].
    cbn. intros r s2 (HD2 & evs2 & Htr2 & Hall2 & Hlen2 & Hp2 & Hfatal).
    split; [congruence|]. exists (evs ++ evs2).
    split; [rewrite Htr2, Htr; by rewrite <- app_assoc|].
    split; [by apply Forall_app|].
    split; [rewrite deleted_rows_app; lia|].
    split; [intros Hr; rewrite Hp2 by done; done|].
    intros Hr. destruct (Hfatal Hr) as (Hgb & d' & Hin & Hprobe).
    split; [done|]. exists d'. split; [by right | done].
Qed.

(** The whole delete path. *)
Lemma handleTupleDelete_run sourceTable fallible (s : State) :
  let out := handleTupleDelete h sourceTable fallible s in
  match executeExecutors (m_createQueryExecutorVector h)
          (create_query_state sourceTable s) with
  | None => out = (inl ExecutorException, create_query_state sourceTable s)
  | Some delta =>
      deltaTableActive out.2
      = ({[sourceTable]} ∪ deltaTableActive s) ∖ {[sourceTable]} /\
      exists evs,
        trace out.2
        = trace s ++ EvCreateQuery ({[sourceTable]} ∪ deltaTableActive s) :: evs /\
        Forall delete_turn_event evs /\
        (length (m_destTable out.2) + deleted_rows evs)%nat
        = length (m_destTable s) /\
        (out.1 = inr tt -> params out.2 = params s) /\
        (out.1 = inl FatalException ->
         (0 < m_groupByColumnCount h)%nat /\
         exists deltaTuple,
           deltaTuple ∈ delta /\
           nextValueAtKey (m_groupByColumnCount h) (m_destTable out.2)
             deltaTuple = None)
  end.
Proof.
  cbn zeta.
  set (D1 := {[sourceTable]} ∪ deltaTableActive s).
  assert (wp (handleTupleDelete h sourceTable fallible)
            (fun r s' =>
               match executeExecutors (m_createQueryExecutorVector h)
                       (create_query_state sourceTable s) with
               | None => r = inl ExecutorException /\
                         s' = create_query_state sourceTable s
               | Some delta =>
                   deltaTableActive s' = D1 ∖ {[sourceTable]} /\
                   exists evs,
                     trace s' = trace s ++ EvCreateQuery D1 :: evs /\
                     Forall delete_turn_event evs /\
                     (length (m_destTable s') + deleted_rows evs)%nat
                     = length (m_destTable s) /\
                     (r = inr tt -> params s' = params s) /\
                     (r = inl FatalException ->
                      (0 < m_groupByColumnCount h)%nat /\
                      exists deltaTuple,
                        deltaTuple ∈ delta /\
                        nextValueAtKey (m_groupByColumnCount h) (m_destTable s')
                          deltaTuple = None)
               end) s) as Hwp.
  { unfold handleTupleDelete.
    apply wp_bind, wp_ScopedDeltaTableContext_new.
    apply wp_bind, wp_run_executors. cbn. fold D1.
    change (mkState (m_destTable s) (m_existingTuple s) (m_updatedTuple s)
              (params s) D1 (trace s ++ [EvCreateQuery D1]))
      with (create_query_state sourceTable s).
    destruct (executeExecutors _ (create_query_state sourceTable s))
      as [delta|]; [|done].
    apply wp_bind, wp_ScopedDeltaTableContext_delete. cbn.
    eapply wp_mono; [apply wp_delete_turns|].
    cbn. intros r s' (HD & evs & Htr & Hrest).
    split; [done|]. exists evs.
    split; [rewrite Htr; by rewrite <- app_assoc|]. done. }
  unfold wp in Hwp.
  destruct (executeExecutors _ (create_query_state sourceTable s)); [done|].
  destruct (handleTupleDelete h sourceTable fallible s) as [r s'].
  cbn in Hwp. destruct Hwp as [-> ->]. done.
Qed.

(** X3.  When the create query of the delete path throws, the call ends with
    that exception and the source table is left in delta mode: the scoped
    context, allocated with [new], is deleted only after the query.  In
    every other run the source table is out of delta mode afterwards.
    The delta mode of every other table is as before. *)
Theorem handleTupleDelete_delta_mode_after sourceTable fallible (s : State) :
  let out := handleTupleDelete h sourceTable fallible s in
  match executeExecutors (m_createQueryExecutorVector h)
          (create_query_state sourceTable s) with
  | None => out.1 = inl ExecutorException /\ sourceTable ∈ deltaTableActive out.2
  | Some _ => sourceTable ∉ deltaTableActive out.2
  end /\
  forall t, t ≠ sourceTable ->
    (t ∈ deltaTableActive out.2 <-> t ∈ deltaTableActive s).
Proof.
  intros out. pose proof (handleTupleDelete_run sourceTable fallible s) as Hrun.
  cbn zeta in Hrun. fold out in Hrun.
  destruct (executeExecutors _ (create_query_state sourceTable s)) as [delta|].
  - destruct Hrun as [HD _]. rewrite HD. split.
    + intros [_ Hn]%elem_of_difference. apply Hn. by apply elem_of_singleton.
    + intros t Hne.
      rewrite elem_of_difference, elem_of_union, !elem_of_singleton.
      intuition congruence.
  - rewrite Hrun. cbn. split.
    + split; [done|]. apply elem_of_union_l. by apply elem_of_singleton.
    + intros t Hne. rewrite elem_of_union, elem_of_singleton.
      intuition congruence.
Qed.

(** X4.  The delete path never inserts a row: after the create query, what
    it adds to the trace are fallback queries, updates and deletions, and
    the view shrinks by exactly the rows deleted.  When it returns, the
    parameters of the executor context are as before.  It throws the
    fatal exception only on a view with group-by columns, for a delta row
    that the index probe does not find in the view as the rows before it
    have left it. *)
Theorem handleTupleDelete_never_inserts sourceTable fallible (s : State) :
  let out := handleTupleDelete h sourceTable fallible s in
  exists evs,
    new_events s out.2
    = EvCreateQuery ({[sourceTable]} ∪ deltaTableActive s) :: evs /\
    Forall delete_turn_event evs /\
    (length (m_destTable out.2) + deleted_rows evs)%nat
    = length (m_destTable s) /\
    (out.1 = inr tt -> params out.2 = params s) /\
    (out.1 = inl FatalException ->
     (0 < m_groupByColumnCount h)%nat /\
     exists delta deltaTuple,
       executeExecutors (m_createQueryExecutorVector h)
         (create_query_state sourceTable s) = Some delta /\
       deltaTuple ∈ delta /\
       nextValueAtKey (m_groupByColumnCount h) (m_destTable out.2)
         deltaTuple = None).
Proof.
  intros out. pose proof (handleTupleDelete_run sourceTable fallible s) as Hrun.
  cbn zeta in Hrun. fold out in Hrun.
  destruct (executeExecutors _ (create_query_state sourceTable s)) as [delta|].
  - destruct Hrun as (_ & evs & Htr & Hall & Hlen & Hp & Hfatal).
    exists evs. split; [by apply new_events_app|].
    split; [done|]. split; [done|]. split; [done|].
    intros Hr. destruct (Hfatal Hr) as (Hgb & d & Hin & Hprobe).
    split; [done|]. by exists delta, d.
  - rewrite Hrun. cbn. exists [].
    split; [by apply new_events_app|].
    split; [done|]. split; [cbn; lia|]. split; done.
Qed.
End DeletePath.


Section FallbackQuery.
Context {NValue : Type} {ops : NValueOps NValue} {env : Collaborators NValue}.
Variable h : Handler.

Local Abbreviation State := (State NValue).

Lemma state_eta (s : State) :
  s = mkState (m_destTable s) (m_existingTuple s) (m_updatedTuple s)
        (params s) (deltaTableActive s) (trace s).
Proof. by destruct s. Qed.

(** The parameter array while the slots below [i] hold the key. *)
Lemma key_slot_insert (row ps : list NValue) i x p :
  row !! i = Some x -> ps !! i = Some p ->
  <[i := x]> (take i row ++ drop i ps) = take (S i) row ++ drop (S i) ps.
Proof.
  intros Hx Hp.
  assert (length (take i row) = i) as Hlen.
  { rewrite length_take. apply lookup_lt_Some in Hx. lia. }
  rewrite insert_app_r_alt by lia. rewrite Hlen, Nat.sub_diag.
  rewrite (drop_S _ _ _ Hp). cbn.
  rewrite (take_S_r _ _ _ Hx). by rewrite <- app_assoc.
Qed.

Lemma extremum_slot_insert (row ps : list NValue) gb v p :
  (gb <= length row)%nat -> ps !! gb = Some p ->
  <[gb := v]> (take gb row ++ drop gb ps) = take gb row ++ v :: drop (S gb) ps.
Proof.
  intros Hgb Hp.
  assert (length (take gb row) = gb) as Hlen by (rewrite length_take; lia).
  rewrite insert_app_r_alt by lia. rewrite Hlen, Nat.sub_diag.
  by rewrite (drop_S _ _ _ Hp).
Qed.

(** The parameter array while the slots below [i] are restored. *)
Lemma restore_slot_insert (ps0 ps : list NValue) i b :
  length ps = length ps0 -> ps0 !! i = Some b ->
  <[i := b]> (take i ps0 ++ drop i ps) = take (S i) ps0 ++ drop (S i) ps.
Proof.
  intros Hlen Hb.
  assert (length (take i ps0) = i) as Hi.
  { rewrite length_take. apply lookup_lt_Some in Hb. lia. }
  assert (is_Some (ps !! i)) as [p Hp].
  { apply lookup_lt_is_Some. apply lookup_lt_Some in Hb. lia. }
  rewrite insert_app_r_alt by lia. rewrite Hi, Nat.sub_diag.
  rewrite (drop_S _ _ _ Hp). cbn.
  rewrite (take_S_r _ _ _ Hb). by rewrite <- app_assoc.
Qed.

(** A call of [fallbackMinMaxColumn] on a view row, step by step: the
    key and the value of the column go into the parameters, the plan
    runs, and the parameters are put back only if the plan returns and
    its first row has a first column. *)
Lemma fallbackMinMaxColumn_run columnIndex k (s0 : State) row ty v plan :
  existingTuple_row s0 = Some row ->
  schema h !! columnIndex = Some ty ->
  row !! columnIndex = Some v ->
  (m_groupByColumnCount h <= length row)%nat ->
  (m_groupByColumnCount h < length (params s0))%nat ->
  m_minMaxExecutorVectors h !! k = Some plan ->
  fallbackMinMaxColumn h columnIndex k s0
  = match executeExecutors plan (fallback_query_state h columnIndex k row v s0) with
    | None => (inl ExecutorException, fallback_query_state h columnIndex k row v s0)
    | Some [] => (inr (getNullValue ty), fallback_return_state columnIndex k s0)
    | Some (resultTuple :: _) =>
        match resultTuple !! 0%nat with
        | Some newValue => (inr newValue, fallback_return_state columnIndex k s0)
        | None => (inl OutOfBounds, fallback_query_state h columnIndex k row v s0)
        end
    end.
Proof.
  intros Hrow Hty Hv Hgb Hps Hplan.
  set (gb := m_groupByColumnCount h) in *.
  set (ps0 := params s0).
  set (sq := fallback_query_state h columnIndex k row v s0).
  set (with_params := fun ps : list NValue =>
         mkState (m_destTable s0) (m_existingTuple s0) (m_updatedTuple s0)
           ps (deltaTableActive s0) (trace s0)).
  set (queried := fun ps : list NValue =>
         mkState (m_destTable s0) (m_existingTuple s0) (m_updatedTuple s0)
           ps (deltaTableActive s0)
           (trace s0 ++ [EvFallbackQuery columnIndex k (deltaTableActive s0)])).
  assert (forall ps, existingTuple_row (with_params ps) = Some row) as Hrow'
    by (intros ps; exact Hrow).
  match goal with |- ?lhs = ?rhs =>
    cut (wp (fallbackMinMaxColumn h columnIndex k)
           (fun r s => (r, s) = rhs) s0)
  end.
  { unfold wp. by destruct (fallbackMinMaxColumn h columnIndex k s0). }
  unfold fallbackMinMaxColumn. fold gb.
  apply wp_bind. unfold columnType. rewrite Hty. apply wp_ret.
  (* the loop that saves the group-by slots *)
  apply wp_bind.
  apply (wp_for_range (fun i backups s =>
           (i <= gb)%nat /\
           s = with_params (take i row ++ drop i ps0) /\
           backups = take i ps0
                     ++ replicate (gb + 1 - i) nvalue_default)).
  { split; [lia|]. split; [apply state_eta|].
    by rewrite Nat.sub_0_r. }
  { intros i backups s Hi (_ & -> & ->).
    assert (is_Some (ps0 !! i)) as [p Hp]
      by (apply lookup_lt_is_Some; unfold ps0; lia).
    assert (is_Some (row !! i)) as [x Hx] by (apply lookup_lt_is_Some; lia).
    assert (length (take i row) = i) as Hlen by (rewrite length_take; lia).
    apply wp_bind, wp_params_get. cbn.
    rewrite lookup_app_r by lia. rewrite Hlen, Nat.sub_diag.
    rewrite lookup_drop, Nat.add_0_r, Hp.
    apply wp_bind, wp_existingTuple_getNValue. rewrite Hrow'.
    apply wp_getNValue. rewrite Hx.
    apply wp_bind, wp_params_set; cycle 1.
    { intros Hn. exfalso. apply Hn. cbn. rewrite length_app, length_drop.
      unfold ps0. lia. }
    intros _. apply wp_ret. cbn.
    split; [lia|].
    split; [unfold with_params; f_equal; by apply (key_slot_insert _ _ _ _ p)|].
    assert (length (take i ps0) = i) as Hlen0
      by (rewrite length_take; unfold ps0; lia).
    rewrite insert_app_r_alt by lia. rewrite Hlen0, Nat.sub_diag.
    rewrite (take_S_r _ _ _ Hp), <- app_assoc.
    replace (gb + 1 - i)%nat with (S (gb + 1 - S i)) by lia. done. }
  { intros backups s (_ & -> & ->). replace (0 + gb)%nat with gb by lia.
       (* the extremum slot *)
       assert (is_Some (ps0 !! gb)) as [p Hp]
         by (apply lookup_lt_is_Some; unfold ps0; lia).
       assert (length (take gb row) = gb) as Hlen by (rewrite length_take; lia).
       assert (length (take gb ps0) = gb) as Hlen0
         by (rewrite length_take; unfold ps0; lia).
       apply wp_bind, wp_params_get. cbn.
       rewrite lookup_app_r by lia. rewrite Hlen, Nat.sub_diag.
       rewrite lookup_drop, Nat.add_0_r, Hp.
       apply wp_bind, wp_existingTuple_getNValue. rewrite Hrow'.
       apply wp_getNValue. rewrite Hv.
       apply wp_bind, wp_params_set; cycle 1.
       { intros Hn. exfalso. apply Hn. cbn. rewrite length_app, length_drop.
         unfold ps0. lia. }
       intros _. cbn.
       rewrite (extremum_slot_insert row ps0 gb v p) by done.
       (* the plan *)
       apply wp_bind. unfold minMaxExecutorVectors_at. rewrite Hplan.
       apply wp_ret.
       apply wp_bind, wp_run_executors. cbn.
       change (mkState (m_destTable s0) (m_existingTuple s0) (m_updatedTuple s0)
                 (take gb row ++ v :: drop (S gb) ps0) (deltaTableActive s0)
                 (trace s0 ++ [EvFallbackQuery columnIndex k (deltaTableActive s0)]))
         with sq.
       destruct (executeExecutors plan sq) as [resultTable|]; [|done].
       set (psq := take gb row ++ v :: drop (S gb) ps0).
       assert (length psq = length ps0) as Hlenq.
       { unfold psq. rewrite length_app. cbn. rewrite length_drop.
         unfold ps0. lia. }
       replace (gb + 1 - gb)%nat with 1%nat by lia. cbn [replicate].
       assert (<[gb := p]> (take gb ps0 ++ [nvalue_default]) = take (S gb) ps0)
         as Hbackups.
       { rewrite insert_app_r_alt by lia. rewrite Hlen0, Nat.sub_diag. cbn.
         by rewrite (take_S_r _ _ _ Hp). }
       rewrite Hbackups.
       (* the loop that restores the parameters *)
       assert (forall newValue,
                 wp (A := NValue)
                    ((for_range 0 (gb + 1)
                        (fun i (_ : unit) =>
                           match take (S gb) ps0 !! i with
                           | Some b => params_set i b
                           | None => throw OutOfBounds
                           end) tt : M NValue unit) ≫= fun _ => mret newValue)
                    (fun r s => (r, s) = (inr newValue,
                                          fallback_return_state columnIndex k s0))
                    sq) as Hrestore.
       { intros newValue. apply wp_bind.
         apply (wp_for_range (fun i (_ : unit) s =>
                  (i <= gb + 1)%nat /\
                  s = queried (take i ps0 ++ drop i psq))).
         - split; [lia|]. done.
         - intros i [] s Hi (_ & ->).
           assert (is_Some (ps0 !! i)) as [b Hb]
             by (apply lookup_lt_is_Some; unfold ps0; lia).
           rewrite lookup_take_lt by lia. rewrite Hb.
           apply wp_params_set; cycle 1.
           { intros Hn. exfalso. apply Hn. cbn.
             rewrite length_app, length_take, length_drop. unfold ps0 in *. lia. }
           intros _. cbn. split; [lia|].
           unfold queried. f_equal. by apply restore_slot_insert.
         - intros [] s (_ & ->). apply wp_ret.
           unfold queried, fallback_return_state. do 2 f_equal.
           replace (0 + (gb + 1))%nat with (S gb) by lia.
           unfold psq. rewrite (cons_middle v), app_assoc.
           rewrite drop_app_length' by (rewrite length_app; cbn; lia).
           apply take_drop. }
       apply wp_bind.
       destruct resultTable as [|resultTuple rest].
       - apply wp_ret. apply Hrestore.
       - apply wp_getNValue.
         destruct (resultTuple !! 0%nat) as [newValue|]; [apply Hrestore | done]. }
Qed.

(** X5.  When the plan of a fallback query throws, the exception leaves
    [fallbackMinMaxColumn] before the parameters are put back: the first
    slots of the parameter array keep the group-by key of the view row
    and the next slot keeps the value of the column; the slots after
    them are as before. *)
Theorem fallbackMinMaxColumn_exception_leaves_params
    columnIndex k (s : State) row ty v plan :
  existingTuple_row s = Some row ->
  schema h !! columnIndex = Some ty ->
  row !! columnIndex = Some v ->
  (m_groupByColumnCount h <= length row)%nat ->
  (m_groupByColumnCount h < length (params s))%nat ->
  m_minMaxExecutorVectors h !! k = Some plan ->
  executeExecutors plan (fallback_query_state h columnIndex k row v s) = None ->
  let out := fallbackMinMaxColumn h columnIndex k s in
  out.1 = inl ExecutorException /\
  (forall i, (i < m_groupByColumnCount h)%nat -> params out.2 !! i = row !! i) /\
  params out.2 !! m_groupByColumnCount h = Some v /\
  (forall i, (m_groupByColumnCount h < i)%nat -> params out.2 !! i = params s !! i).
Proof.
  intros Hrow Hty Hv Hgb Hps Hplan Hthrow out. subst out.
  rewrite (fallbackMinMaxColumn_run columnIndex k s row ty v plan) by done.
  rewrite Hthrow. cbn. unfold fallback_params.
  assert (length (take (m_groupByColumnCount h) row) = m_groupByColumnCount h)
    as Hlen by (rewrite length_take; lia).
  split; [done|]. split; [|split].
  - intros i Hi. rewrite lookup_app_l by lia. by rewrite lookup_take_lt.
  - rewrite lookup_app_r by lia. by rewrite Hlen, Nat.sub_diag.
  - intros i Hi. rewrite lookup_app_r by lia. rewrite Hlen.
    rewrite lookup_cons_ne_0 by lia. rewrite lookup_drop. f_equal. lia.
Qed.

(** X6.  What a fallback query sees and what the call returns.  The plan at
    [minMaxColumnIndex] is run with the group-by key of the view row in
    the first parameters and the value of the column in the next one.
    When the plan yields no row the call returns the null of the
    column's type, otherwise the first value of the first row; in both
    cases only the trace has changed. *)
Theorem fallbackMinMaxColumn_returns_first_value
    columnIndex k (s : State) row ty v plan resultTable :
  existingTuple_row s = Some row ->
  schema h !! columnIndex = Some ty ->
  row !! columnIndex = Some v ->
  (m_groupByColumnCount h <= length row)%nat ->
  (m_groupByColumnCount h < length (params s))%nat ->
  m_minMaxExecutorVectors h !! k = Some plan ->
  executeExecutors plan (fallback_query_state h columnIndex k row v s)
  = Some resultTable ->
  take (S (m_groupByColumnCount h))
       (params (fallback_query_state h columnIndex k row v s))
  = take (m_groupByColumnCount h) row ++ [v] /\
  match resultTable with
  | [] =>
      fallbackMinMaxColumn h columnIndex k s
      = (inr (getNullValue ty), fallback_return_state columnIndex k s)
  | resultTuple :: _ =>
      forall newValue,
        resultTuple !! 0%nat = Some newValue ->
        fallbackMinMaxColumn h columnIndex k s
        = (inr newValue, fallback_return_state columnIndex k s)
  end.
Proof.
  intros Hrow Hty Hv Hgb Hps Hplan Hq.
  rewrite (fallbackMinMaxColumn_run columnIndex k s row ty v plan) by done.
  rewrite Hq. split.
  - cbn. unfold fallback_params.
    rewrite (cons_middle v), app_assoc.
    rewrite take_app_length' by (rewrite length_app, length_take; cbn; lia).
    done.
  - destruct resultTable as [|resultTuple rest]; [done|].
    by intros newValue ->.
Qed.
End FallbackQuery.

Section MergeColumns.
Context {NValue : Type} {ops : NValueOps NValue} {env : Collaborators NValue}.
Variable h : Handler.

Local Abbreviation State := (State NValue).

Lemma take_S_insert (u : list NValue) i v :
  (i < length u)%nat -> take (S i) (<[i := v]> u) = take i u ++ [v].
Proof.
  intros Hi.
  rewrite (take_S_r _ _ v) by (by apply list_lookup_insert_eq).
  by rewrite take_insert_ge.
Qed.

(** The first loop of both merges leaves the group-by key of the
    existing row in the scratch tuple. *)
Lemma wp_copy_groupBy_columns_key (s0 : State) :
  wp (copy_groupBy_columns h)
     (fun r s =>
        scratch_only s0 s /\
        (r = inr tt ->
         forall row, existingTuple_row s0 = Some row ->
           take (m_groupByColumnCount h) (m_updatedTuple s)
           = take (m_groupByColumnCount h) row)) s0.
Proof.
  unfold copy_groupBy_columns.
  apply (wp_for_range (fun i (_ : unit) s =>
           scratch_only s0 s /\
           forall row, existingTuple_row s0 = Some row ->
             take i (m_updatedTuple s) = take i row)).
  - split; [apply scratch_only_refl | done].
  - intros i [] s Hi [Hs Hkey].
    apply wp_bind, wp_existingTuple_getNValue_cases; [|by intros].
    intros row v Hrow Hv. rewrite (scratch_only_row _ _ Hs) in Hrow.
    apply wp_updatedTuple_setNValue; [|by intros].
    intros Hlt. cbn. split; [by apply scratch_only_set|].
    intros row' Hrow'. assert (row' = row) as -> by congruence.
    rewrite take_S_insert by done.
    rewrite (take_S_r _ _ _ Hv). by rewrite (Hkey row).
  - intros [] s [Hs Hkey]. split; [done|]. intros _. apply Hkey.
Qed.

(** Merge-for-insert keeps the key. *)
Lemma wp_mergeTupleForInsert_key (deltaTuple : list NValue) (s0 : State) :
  wp (mergeTupleForInsert h deltaTuple)
     (fun r s =>
        r = inr tt ->
        forall row, existingTuple_row s0 = Some row ->
          take (m_groupByColumnCount h) (m_updatedTuple s)
          = take (m_groupByColumnCount h) row) s0.
Proof.
  unfold mergeTupleForInsert.
  apply wp_bind.
  eapply wp_mono; [apply wp_copy_groupBy_columns_key|].
  intros r s1 [Hs1 Hkey]. destruct r as [exn|[]]; [done|].
  specialize (Hkey eq_refl).
  apply (wp_for_range (fun _ (_ : unit) s =>
           take (m_groupByColumnCount h) (m_updatedTuple s)
           = take (m_groupByColumnCount h) (m_updatedTuple s1))); [done| |].
  - intros i [] s _ Hs.
    repeat wp_step; try done;
      cbn; (rewrite take_insert_ge by lia); exact Hs.
  - intros [] s Hs _ row Hrow. rewrite Hs. by apply Hkey.
Qed.

(** Merge-for-delete keeps the key, and when the new count is not zero
    it subtracts the delta from every column that is neither MIN nor
    MAX. *)
Lemma wp_mergeTupleForDelete_columns (deltaTuple : list NValue) (s0 : State) :
  wp (mergeTupleForDelete h deltaTuple)
     (fun r s =>
        r = inr tt ->
        forall row,
          existingTuple_row s0 = Some row ->
        exists ec dc,
          row !! m_countStarColumnIndex h = Some ec /\
          deltaTuple !! m_countStarColumnIndex h = Some dc /\
          take (m_groupByColumnCount h) (m_updatedTuple s)
          = take (m_groupByColumnCount h) row /\
          (isZero (op_subtract ec dc) = false ->
           forall aggIndex t e d,
             (aggIndex < m_aggColumnCount h)%nat ->
             m_aggTypes h !! aggIndex = Some t ->
             is_min_max t = false ->
             row !! (m_groupByColumnCount h + aggIndex)%nat = Some e ->
             deltaTuple !! (m_groupByColumnCount h + aggIndex)%nat = Some d ->
             (supported t \/ isNull d = true \/ NDEBUG = true) /\
             (supported t \/ isNull d = true ->
              m_updatedTuple s !! (m_groupByColumnCount h + aggIndex)%nat
              = Some (subtracted e d)))) s0.
Proof.
  set (gb := m_groupByColumnCount h). set (n := m_aggColumnCount h).
  unfold mergeTupleForDelete. fold gb n.
  apply wp_bind.
  eapply wp_mono; [apply wp_copy_groupBy_columns_key|].
  intros r s1 [Hs1 Hkey]. destruct r as [exn|[]]; [done|].
  specialize (Hkey eq_refl). fold gb in Hkey.
  pose proof (scratch_only_row _ _ Hs1) as Hrow1.
  apply wp_bind, wp_existingTuple_getNValue_cases; [|by intros].
  intros row ec Hrow Hec. rewrite Hrow1 in Hrow.
  apply wp_bind, wp_getNValue_cases; [|by intros].
  intros dc Hdc.
  destruct (isZero (op_subtract ec dc)) eqn:Hzero.
  - (* the view row counts no source row any more *)
    apply (wp_for_range (fun _ (_ : unit) s =>
             take gb (m_updatedTuple s) = take gb (m_updatedTuple s1)));
      [done| |].
    + intros i [] s _ Hs.
      repeat wp_step; try done;
        cbn; (rewrite take_insert_ge by lia); exact Hs.
    + intros [] s Hs _ row' Hrow'.
      assert (row' = row) as -> by congruence.
      exists ec, dc. split; [done|]. split; [done|].
      split; [rewrite Hs; by apply Hkey | congruence].
  - (* the aggregates are merged one by one *)
    apply wp_bind.
    apply (wp_for_range (fun i (_ : nat) s =>
             existingTuple_row s = Some row /\
             take gb (m_updatedTuple s) = take gb (m_updatedTuple s1) /\
             forall a t e d,
               (a < i)%nat ->
               m_aggTypes h !! a = Some t -> is_min_max t = false ->
               row !! (gb + a)%nat = Some e ->
               deltaTuple !! (gb + a)%nat = Some d ->
               (supported t \/ isNull d = true \/ NDEBUG = true) /\
               (supported t \/ isNull d = true ->
                m_updatedTuple s !! (gb + a)%nat = Some (subtracted e d)))).
    + split; [by rewrite Hrow1|]. split; [done|]. intros; lia.
    + intros i k s Hi (Hrow_s & Htake & Hdone).
      apply wp_bind, wp_existingTuple_getNValue_cases; [|by intros].
      intros row' e Hrow' He. assert (row' = row) as -> by congruence.
      apply wp_bind, wp_getNValue_cases; [|by intros]. intros d Hd.
      apply wp_bind, wp_aggTypes_at_cases; [|by intros]. intros t Ht.
      (* storing the new value keeps what the earlier columns hold *)
      assert (forall (Q : Exn + nat -> State -> Prop) (s' : State) newValue k',
                (forall exn s'', Q (inl exn) s'') ->
                (forall s'' : State,
                   (existingTuple_row s'' = Some row /\
                    take gb (m_updatedTuple s'') = take gb (m_updatedTuple s1) /\
                    forall a t e d,
                      (a < S i)%nat ->
                      m_aggTypes h !! a = Some t -> is_min_max t = false ->
                      row !! (gb + a)%nat = Some e ->
                      deltaTuple !! (gb + a)%nat = Some d ->
                      (supported t \/ isNull d = true \/ NDEBUG = true) /\
                      (supported t \/ isNull d = true ->
                       m_updatedTuple s'' !! (gb + a)%nat
                       = Some (subtracted e d))) ->
                   Q (inr k') s'') ->
                existingTuple_row s' = Some row ->
                m_updatedTuple s' = m_updatedTuple s ->
                (is_min_max t = false ->
                 (supported t \/ isNull d = true \/ NDEBUG = true) /\
                 (supported t \/ isNull d = true -> newValue = subtracted e d)) ->
                wp (A := nat)
                   ((updatedTuple_setNValue (gb + i) newValue : M NValue unit)
                      ≫= fun _ => mret k') Q s') as Hstore.
      { intros Q s' newValue k' Hexn Hret Hrow_s' Hu Hval.
        apply wp_bind, wp_updatedTuple_setNValue; [|intros; apply Hexn].
        intros Hlt. apply wp_ret. apply Hret. cbn.
        split; [exact Hrow_s'|]. rewrite Hu.
        split; [by rewrite take_insert_ge by lia|].
        intros a t' e' d' Ha Ht' Hmm He' Hd'.
        destruct (decide (a = i)) as [-> | Hne].
        - assert (t' = t) as -> by congruence.
          assert (e' = e) as -> by congruence.
          assert (d' = d) as -> by congruence.
          destruct (Hval Hmm) as [Hsup Hv]. split; [done|].
          intros Hok. rewrite list_lookup_insert_eq by (by rewrite <- Hu).
          by rewrite (Hv Hok).
        - destruct (Hdone a t' e' d') as [Hsup Hv]; try done; [lia|].
          split; [done|]. intros Hok.
          rewrite list_lookup_insert_ne by lia. by apply Hv. }
      unfold subtracted in Hstore at 2.
      apply wp_bind.
      destruct (isNull d) eqn:Hnull; cbn [negb].
      { apply wp_ret. apply Hstore; [by intros | by intros | done | done|].
        intros _. split; [right; by left | done]. }
      destruct t; cbv beta iota.
      * apply wp_ret. apply Hstore; [by intros | by intros | done | done|].
        intros _. split; [by left | done].
      * apply wp_ret. apply Hstore; [by intros | by intros | done | done|].
        intros _. split; [by left | done].
      * apply wp_ret. apply Hstore; [by intros | by intros | done | done|].
        intros _. split; [by left | done].
      * destruct (decide (compare e d = 0)).
        -- eapply wp_mono; [apply wp_fallbackMinMaxColumn|].
           intros [exn|newValue] s' [Hview _]; [done|].
           apply Hstore; [by intros | by intros | | apply Hview | done].
           by rewrite (same_view_row _ _ Hview).
        -- apply wp_ret. apply Hstore; by intros.
      * destruct (decide (compare e d = 0)).
        -- eapply wp_mono; [apply wp_fallbackMinMaxColumn|].
           intros [exn|newValue] s' [Hview _]; [done|].
           apply Hstore; [by intros | by intros | | apply Hview | done].
           by rewrite (same_view_row _ _ Hview).
        -- apply wp_ret. apply Hstore; by intros.
      * apply wp_bind, wp_assert; [|done].
        intros Hnd. apply wp_ret.
        apply Hstore; [by intros | by intros | done | done|].
        intros _. split.
        -- right; right. by rewrite orb_false_r in Hnd.
        -- intros [[] | ?]; congruence.
    + intros k s (Hrow_s & Htake & Hdone). apply wp_ret.
      intros _ row' Hrow'.
      assert (row' = row) as -> by congruence.
      exists ec, dc. split; [done|]. split; [done|].
      split; [rewrite Htake; by apply Hkey|].
      intros _ a t e d Ha. apply Hdone. lia.
Qed.

(** X7.  Both merges leave the group-by key of the existing view row in the
    first columns of the merged tuple: an update never changes the key of
    the row it replaces. *)
Theorem merges_keep_group_by_key (deltaTuple : list NValue) (s : State) row :
  existingTuple_row s = Some row ->
  (forall s',
     mergeTupleForInsert h deltaTuple s = (inr tt, s') ->
     take (m_groupByColumnCount h) (m_updatedTuple s')
     = take (m_groupByColumnCount h) row) /\
  (forall s',
     mergeTupleForDelete h deltaTuple s = (inr tt, s') ->
     take (m_groupByColumnCount h) (m_updatedTuple s')
     = take (m_groupByColumnCount h) row).
Proof.
  intros Hrow. split; intros s' Hrun.
  - by apply (wp_run _ _ _ _ _ (wp_mergeTupleForInsert_key deltaTuple s) Hrun).
  - by destruct (wp_run _ _ _ _ _ (wp_mergeTupleForDelete_columns deltaTuple s)
                   Hrun eq_refl row Hrow) as (ec & dc & _ & _ & ? & _).
Qed.

(** X8.  In merge-for-delete with a new count that is not zero, every SUM,
    COUNT and COUNT_STAR column of the merged tuple is the existing value
    less the delta value, and the existing value when the delta value is
    null. *)
Theorem mergeTupleForDelete_subtracts
    (deltaTuple : list NValue) (s s' : State) row ec dc :
  mergeTupleForDelete h deltaTuple s = (inr tt, s') ->
  existingTuple_row s = Some row ->
  row !! m_countStarColumnIndex h = Some ec ->
  deltaTuple !! m_countStarColumnIndex h = Some dc ->
  isZero (op_subtract ec dc) = false ->
  forall aggIndex t e d,
    (aggIndex < m_aggColumnCount h)%nat ->
    m_aggTypes h !! aggIndex = Some t ->
    supported t -> is_min_max t = false ->
    row !! (m_groupByColumnCount h + aggIndex)%nat = Some e ->
    deltaTuple !! (m_groupByColumnCount h + aggIndex)%nat = Some d ->
    m_updatedTuple s' !! (m_groupByColumnCount h + aggIndex)%nat
    = Some (subtracted e d).
Proof.
  intros Hrun Hrow Hec Hdc Hnz aggIndex t e d Hlt Ht Hsup Hmm He Hd.
  destruct (wp_run _ _ _ _ _ (wp_mergeTupleForDelete_columns deltaTuple s) Hrun
              eq_refl row Hrow) as (ec' & dc' & Hec' & Hdc' & _ & Hcols).
  assert (ec' = ec) as -> by congruence.
  assert (dc' = dc) as -> by congruence.
  destruct (Hcols Hnz aggIndex t e d Hlt Ht Hmm He Hd) as [_ Hv].
  apply Hv. by left.
Qed.
End MergeColumns.

Section RoundTrip.
Context {NValue : Type} {ops : NValueOps NValue} {env : Collaborators NValue}.
Context {laws : NValueLaws NValue} {arith : NValueArith NValue}.
Variable h : Handler.

Local Abbreviation State := (State NValue).

(** X9.  A delta row is merged into its view row and the row is updated, as
    the insert path does; then the same delta row is merged for delete
    against the updated row.  If the view row counted at least one source
    row before, the second merge gives back the key and, in every SUM,
    COUNT and COUNT_STAR column whose value was not null, the value the
    row had before. *)
Theorem merge_for_delete_undoes_merge_for_insert
    fallible (deltaTuple : list NValue) (s s2 : State) target row ec dc countStar :
  m_existingTuple s = Some target ->
  m_destTable s !! target = Some row ->
  length row = (m_groupByColumnCount h + m_aggColumnCount h)%nat ->
  length deltaTuple = (m_groupByColumnCount h + m_aggColumnCount h)%nat ->
  length (m_updatedTuple s) = (m_groupByColumnCount h + m_aggColumnCount h)%nat ->
  length (m_aggTypes h) = m_aggColumnCount h ->
  Forall supported (m_aggTypes h) ->
  m_countStarColumnIndex h = (m_groupByColumnCount h + countStar)%nat ->
  m_aggTypes h !! countStar = Some EXPRESSION_TYPE_AGGREGATE_COUNT_STAR ->
  row !! m_countStarColumnIndex h = Some ec ->
  deltaTuple !! m_countStarColumnIndex h = Some dc ->
  isNull ec = false -> isNull dc = false -> isZero ec = false ->
  (mergeTupleForInsert h deltaTuple
   ≫= fun _ => updateTupleWithSpecificIndexes fallible
   ≫= fun _ => mergeTupleForDelete h deltaTuple) s = (inr tt, s2) ->
  take (m_groupByColumnCount h) (m_updatedTuple s2)
  = take (m_groupByColumnCount h) row /\
  forall aggIndex t e d,
    m_aggTypes h !! aggIndex = Some t ->
    is_min_max t = false ->
    row !! (m_groupByColumnCount h + aggIndex)%nat = Some e ->
    deltaTuple !! (m_groupByColumnCount h + aggIndex)%nat = Some d ->
    isNull e = false ->
    m_updatedTuple s2 !! (m_groupByColumnCount h + aggIndex)%nat = Some e.
Proof.
  intros Hex Htarget Hw Hdw Hu Ha Hsup Hcs Hcst Hec Hdc Hnec Hndc Hnz Hrun.
  assert (existingTuple_row s = Some row) as Hrow
    by (unfold existingTuple_row; by rewrite Hex).
  (* the merge for insert *)
  rewrite bind_run in Hrun.
  pose proof (wp_mergeTupleForInsert h deltaTuple s row Hrow Hw Hdw Hu Ha Hsup)
    as Hins.
  pose proof (wp_mergeTupleForInsert_frame h deltaTuple s) as Hframe.
  pose proof (wp_mergeTupleForInsert_key h deltaTuple s) as Hkey1.
  unfold wp in Hins, Hframe, Hkey1.
  destruct (mergeTupleForInsert h deltaTuple s) as [r1 s1].
  cbn in Hins, Hframe, Hkey1. destruct Hins as [-> Hvals].
  destruct Hframe as (Hd1 & He1 & _ & _ & _ & _).
  specialize (Hkey1 eq_refl row Hrow).
  (* the update of the view row *)
  rewrite bind_run in Hrun.
  assert (target < length (m_destTable s1))%nat as Hlt
    by (rewrite Hd1; by apply lookup_lt_Some in Htarget).
  rewrite (updateTupleWithSpecificIndexes_run fallible s1 target) in Hrun
    by (try done; by rewrite He1).
  match type of Hrun with mergeTupleForDelete _ _ ?st = _ => set (s1' := st) in * end.
  assert (existingTuple_row s1' = Some (m_updatedTuple s1)) as Hrow1.
  { unfold existingTuple_row, s1'. cbn. rewrite He1, Hex.
    by apply list_lookup_insert_eq. }
  (* the merge for delete *)
  destruct (wp_run _ _ _ _ _ (wp_mergeTupleForDelete_columns h deltaTuple s1')
              Hrun eq_refl _ Hrow1) as (ec1 & dc1 & Hec1 & Hdc1 & Hkey2 & Hcols).
  assert (dc1 = dc) as -> by congruence.
  assert (ec1 = op_add ec dc) as ->.
  { rewrite Hcs in Hec1, Hec, Hdc.
    pose proof (Hvals countStar _ ec dc Hcst Hec Hdc) as Hm.
    unfold spec_merge_for_insert in Hm. rewrite Hndc, Hnec in Hm.
    congruence. }
  rewrite add_subtract in Hcols by done. specialize (Hcols Hnz).
  split; [by rewrite Hkey2|].
  intros aggIndex t e d Ht Hmm He Hd Hne.
  assert (aggIndex < m_aggColumnCount h)%nat as Hlt'
    by (apply lookup_lt_Some in Ht; lia).
  assert (supported t) as Hst
    by (rewrite Forall_forall in Hsup; apply Hsup; by eapply list_elem_of_lookup_2).
  destruct (Hcols aggIndex t _ d Hlt' Ht Hmm (Hvals aggIndex t e d Ht He Hd) Hd)
    as [_ Hv].
  rewrite Hv by (by left). f_equal.
  unfold subtracted, spec_merge_for_insert.
  destruct (isNull d) eqn:Hnd; [done|]. rewrite Hne.
  destruct t; try done; by apply add_subtract.
Qed.
End RoundTrip.

(** ** On the view [SELECT g, COUNT( * ), SUM(v), MIN(v), MAX(v)] *)

Import Concrete.

Lemma BigInt_arith : NValueArith BigInt.
Proof. split; intros [|a] [|b]; try done; intros _ _; cbn; f_equal; lia. Qed.

(** The fallback query of the MIN column throws: the parameters
    100, 200, 300 are left as key 1, extremum 5, 300. *)
Lemma fallbackMinMaxColumn_exception_leaves_params_witness :
  let s := state_of [[Int 1; Int 2; Int 12; Int 5; Int 7]] (Some 0%nat)
             [SqlNull; SqlNull; SqlNull; SqlNull; SqlNull]
             [Int 100; Int 200; Int 300] in
  let out := fallbackMinMaxColumn (env := throwing true []) grouped_view 3 0 s in
  out.1 = inl ExecutorException /\
  (forall i, (i < 1)%nat ->
     params out.2 !! i = [Int 1; Int 2; Int 12; Int 5; Int 7] !! i) /\
  params out.2 !! 1%nat = Some (Int 5) /\
  (forall i, (1 < i)%nat -> params out.2 !! i = [Int 100; Int 200; Int 300] !! i).
Proof.
  intros s.
  refine (fallbackMinMaxColumn_exception_leaves_params
            (env := throwing true []) grouped_view 3 0 s
            [Int 1; Int 2; Int 12; Int 5; Int 7] 6 (Int 5) 1%nat _ _ _ _ _ _ _).
  - reflexivity.
  - reflexivity.
  - reflexivity.
  - simpl; lia.
  - simpl; lia.
  - reflexivity.
  - reflexivity.
Defined.

(** The fallback query of the MIN column yields one row, (7). *)
Lemma fallbackMinMaxColumn_returns_first_value_witness :
  let s := state_of [[Int 1; Int 2; Int 12; Int 5; Int 7]] (Some 0%nat)
             [SqlNull; SqlNull; SqlNull; SqlNull; SqlNull]
             [Int 100; Int 200; Int 300] in
  take 2 (params (fallback_query_state grouped_view 3 0
                    [Int 1; Int 2; Int 12; Int 5; Int 7] (Int 5) s))
  = [Int 1] ++ [Int 5] /\
  forall newValue,
    [Int 7] !! 0%nat = Some newValue ->
    fallbackMinMaxColumn (env := scripted false [] [[Int 7]]) grouped_view 3 0 s
    = (inr newValue, fallback_return_state 3 0 s).
Proof.
  intros s.
  refine (fallbackMinMaxColumn_returns_first_value
            (env := scripted false [] [[Int 7]]) grouped_view 3 0 s
            [Int 1; Int 2; Int 12; Int 5; Int 7] 6 (Int 5) 1%nat [[Int 7]]
            _ _ _ _ _ _ _).
  - reflexivity.
  - reflexivity.
  - reflexivity.
  - simpl; lia.
  - simpl; lia.
  - reflexivity.
  - reflexivity.
Defined.

(** The delta row (1, 1, 9, 9, 9) merged into the view row
    (1, 2, 12, 5, 7), for insert and for delete. *)
Lemma merges_keep_group_by_key_witness :
  let s := state_of [[Int 1; Int 2; Int 12; Int 5; Int 7]] (Some 0%nat)
             [SqlNull; SqlNull; SqlNull; SqlNull; SqlNull] [Int 100; Int 200] in
  take 1 (m_updatedTuple
            (mergeTupleForInsert (env := scripted false [] [[Int 7]])
               grouped_view [Int 1; Int 1; Int 9; Int 9; Int 9] s).2)
  = [Int 1] /\
  take 1 (m_updatedTuple
            (mergeTupleForDelete (env := scripted false [] [[Int 7]])
               grouped_view [Int 1; Int 1; Int 9; Int 9; Int 9] s).2)
  = [Int 1].
Proof.
  intros s.
  pose proof (merges_keep_group_by_key (env := scripted false [] [[Int 7]])
                grouped_view [Int 1; Int 1; Int 9; Int 9; Int 9] s
                [Int 1; Int 2; Int 12; Int 5; Int 7] eq_refl) as [Hins Hdel].
  split.
  - apply (Hins _). vm_compute. reflexivity.
  - apply (Hdel _). vm_compute. reflexivity.
Defined.

(** The delta row (1, 1, 5, 5, 5) leaves the view row (1, 2, 12, 5, 7):
    the SUM column goes from 12 to 7. *)
Lemma mergeTupleForDelete_subtracts_witness :
  let s := state_of [[Int 1; Int 2; Int 12; Int 5; Int 7]] (Some 0%nat)
             [SqlNull; SqlNull; SqlNull; SqlNull; SqlNull] [Int 100; Int 200] in
  m_updatedTuple
    (mergeTupleForDelete (env := scripted false [] [[Int 7]])
       grouped_view [Int 1; Int 1; Int 5; Int 5; Int 5] s).2 !! 2%nat
  = Some (subtracted (Int 12) (Int 5)).
Proof.
  intros s.
  refine (mergeTupleForDelete_subtracts (env := scripted false [] [[Int 7]])
            grouped_view [Int 1; Int 1; Int 5; Int 5; Int 5] s _
            [Int 1; Int 2; Int 12; Int 5; Int 7] (Int 2) (Int 1)
            _ _ _ _ _ 1%nat EXPRESSION_TYPE_AGGREGATE_SUM (Int 12) (Int 5)
            _ _ _ _ _ _).
  - vm_compute. reflexivity.
  - reflexivity.
  - reflexivity.
  - reflexivity.
  - reflexivity.
  - simpl; lia.
  - reflexivity.
  - exact I.
  - reflexivity.
  - reflexivity.
  - reflexivity.
Defined.

(** The delta row (1, 1, 9, 9, 9) is merged into the view row
    (1, 2, 12, 5, 7), the row is updated, and the same delta row is
    merged for delete: the key, the count and the sum are back. *)
Lemma merge_for_delete_undoes_merge_for_insert_witness :
  let s := state_of [[Int 1; Int 2; Int 12; Int 5; Int 7]] (Some 0%nat)
             [SqlNull; SqlNull; SqlNull; SqlNull; SqlNull] [Int 100; Int 200] in
  let s2 := (((mergeTupleForInsert (env := scripted false [] [[Int 7]])
                 grouped_view [Int 1; Int 1; Int 9; Int 9; Int 9]
               : M BigInt unit)
              ≫= fun _ => (updateTupleWithSpecificIndexes false : M BigInt unit)
              ≫= fun _ => mergeTupleForDelete (env := scripted false [] [[Int 7]])
                            grouped_view
                            [Int 1; Int 1; Int 9; Int 9; Int 9]) s).2 in
  take 1 (m_updatedTuple s2) = [Int 1] /\
  m_updatedTuple s2 !! 1%nat = Some (Int 2) /\
  m_updatedTuple s2 !! 2%nat = Some (Int 12).
Proof.
  intros s s2.
  pose proof (merge_for_delete_undoes_merge_for_insert
                (env := scripted false [] [[Int 7]])
                (laws := BigInt_laws) (arith := BigInt_arith)
                grouped_view false [Int 1; Int 1; Int 9; Int 9; Int 9] s s2
                0%nat [Int 1; Int 2; Int 12; Int 5; Int 7] (Int 2) (Int 1) 0%nat)
    as Hback.
  destruct Hback as [Hkey Hcols].
  - reflexivity.
  - reflexivity.
  - reflexivity.
  - reflexivity.
  - reflexivity.
  - reflexivity.
  - repeat constructor.
  - reflexivity.
  - reflexivity.
  - reflexivity.
  - reflexivity.
  - reflexivity.
  - reflexivity.
  - reflexivity.
  - vm_compute. reflexivity.
  - split; [exact Hkey|]. split.
    + by apply (Hcols 0%nat EXPRESSION_TYPE_AGGREGATE_COUNT_STAR (Int 2) (Int 1)).
    + by apply (Hcols 1%nat EXPRESSION_TYPE_AGGREGATE_SUM (Int 12) (Int 9)).
Defined.

End ViewMaintenance_Props.

(* ===================================================================== *)
(** * Properties of the set-up of a view                                  *)
(* ===================================================================== *)

Module ViewSetup_Props.
Import MaterializedViewHandler MaterializedViewHandler_Props ViewSetup ViewTrace.

(** ** [setUpAggregateInfo] *)

Lemma same_plans_refl h : same_plans h h.
Proof. by repeat split. Qed.

Lemma same_plans_trans h1 h2 h3 :
  same_plans h1 h2 -> same_plans h2 h3 -> same_plans h1 h3.
Proof.
  unfold same_plans. intros (?&?&?&?) (?&?&?&?).
  repeat split; congruence.
Qed.

(** One turn of the loop. *)
Lemma setUpAggregateInfo_columns_cons c rest h :
  setUpAggregateInfo_columns (c :: rest) h
  = if decide (index c < Z.of_nat (m_groupByColumnCount h))
    then setUpAggregateInfo_columns rest h
    else if decide (aggIndex_of h c < length (m_aggTypes h))%nat
    then
      let h1 := set_aggregates (m_aggColumnCount h)
                  (<[aggIndex_of h c := aggregatetype c]> (m_aggTypes h)) h in
      match aggregatetype c with
      | EXPRESSION_TYPE_AGGREGATE_COUNT_STAR =>
          setUpAggregateInfo_columns rest
            (set_countStarColumnIndex (Z.to_nat (index c)) h1)
      | EXPRESSION_TYPE_OTHER _ =>
          inl (SerializableEEException (aggIndex_of h c) (aggregatetype c))
      | _ => setUpAggregateInfo_columns rest h1
      end
    else inl VectorOutOfBounds.
Proof.
  cbn [setUpAggregateInfo_columns]. unfold aggIndex_of.
  destruct (decide (index c < _)); [done|].
  destruct (decide (_ < length _)%nat); [|done].
  by destruct (aggregatetype c).
Qed.

Lemma last_count_star_column_ext h h2 columns :
  m_groupByColumnCount h2 = m_groupByColumnCount h ->
  last_count_star_column h2 columns = last_count_star_column h columns.
Proof.
  intros Hgb. induction columns as [|c rest IH]; [done|].
  cbn. rewrite IH. unfold is_count_star_column. by rewrite Hgb.
Qed.

(** What the loop over the columns has done when it returns. *)
Lemma setUpAggregateInfo_columns_returns columns : forall h h',
  setUpAggregateInfo_columns columns h = inr h' ->
  same_plans h h' /\
  m_aggColumnCount h' = m_aggColumnCount h /\
  length (m_aggTypes h') = length (m_aggTypes h) /\
  (forall c, c ∈ columns -> is_aggregate_column h c ->
     supported (aggregatetype c) /\
     (aggIndex_of h c < length (m_aggTypes h))%nat) /\
  (forall i, (forall c, c ∈ columns -> is_aggregate_column h c ->
                aggIndex_of h c ≠ i) ->
     m_aggTypes h' !! i = m_aggTypes h !! i) /\
  (NoDup (index <$> columns) ->
   forall c, c ∈ columns -> is_aggregate_column h c ->
     m_aggTypes h' !! aggIndex_of h c = Some (aggregatetype c)) /\
  m_countStarColumnIndex h'
  = from_option (fun c => Z.to_nat (index c)) (m_countStarColumnIndex h)
      (last_count_star_column h columns).
Proof.
  induction columns as [|c rest IH]; intros h h' Hrun.
  { injection Hrun as <-. split; [apply same_plans_refl|].
    split; [done|]. split; [done|].
    split; [by intros c ?%elem_of_nil|]. split; [done|].
    split; [by intros _ c ?%elem_of_nil|]. done. }
  rewrite setUpAggregateInfo_columns_cons in Hrun.
  cbn [last_count_star_column].
  destruct (decide (index c < Z.of_nat (m_groupByColumnCount h))) as [Hgb | Hgb].
  { (* a group-by column: skipped *)
    destruct (IH h h' Hrun) as (Hsame & Hcount & Hlen & Hsup & Hrest & Hset & Hcs).
    assert (¬ is_aggregate_column h c) as Hnot by (unfold is_aggregate_column; lia).
    split; [done|]. split; [done|]. split; [done|].
    split; [intros c' [-> | Hin]%elem_of_cons Hagg; [by destruct Hnot | by apply Hsup]|].
    split; [intros i Hi; apply Hrest; intros c' Hin; apply Hi; by right|].
    split.
    { intros Hnd c' [-> | Hin]%elem_of_cons Hagg; [by destruct Hnot|].
      apply Hset; [|done..]. rewrite fmap_cons in Hnd.
      by apply NoDup_cons in Hnd as [_ ?]. }
    rewrite Hcs.
    destruct (last_count_star_column h rest); cbn; [done|].
    unfold is_count_star_column. by rewrite bool_decide_eq_false_2 by lia. }
  destruct (decide (aggIndex_of h c < length (m_aggTypes h))%nat) as [Hlt|];
    [|done].
  cbn zeta in Hrun.
  set (h1 := set_aggregates (m_aggColumnCount h)
               (<[aggIndex_of h c := aggregatetype c]> (m_aggTypes h)) h) in *.
  assert (is_aggregate_column h c) as Haggc by (unfold is_aggregate_column; lia).
  (* the state the rest of the loop starts in *)
  assert (exists h2,
            setUpAggregateInfo_columns rest h2 = inr h' /\
            supported (aggregatetype c) /\
            same_plans h h2 /\
            m_aggColumnCount h2 = m_aggColumnCount h /\
            m_aggTypes h2 = <[aggIndex_of h c := aggregatetype c]> (m_aggTypes h) /\
            m_countStarColumnIndex h2
            = if is_count_star_column h c then Z.to_nat (index c)
              else m_countStarColumnIndex h)
    as (h2 & Hrun2 & Hsupc & Hsame2 & Hcount2 & Htypes2 & Hcs2).
  { unfold is_count_star_column. rewrite bool_decide_eq_true_2 by lia.
    cbn [andb].
    destruct (aggregatetype c) eqn:Ht;
      try (exists h1; by repeat split); try done.
    exists (set_countStarColumnIndex (Z.to_nat (index c)) h1).
    by repeat split. }
  assert (forall c', is_aggregate_column h2 c' <-> is_aggregate_column h c')
    as Hagg2.
  { intros c'. unfold is_aggregate_column. by destruct Hsame2 as (-> & _). }
  assert (forall c', aggIndex_of h2 c' = aggIndex_of h c') as Hidx2.
  { intros c'. unfold aggIndex_of. by destruct Hsame2 as (-> & _). }
  assert (forall c', is_count_star_column h2 c' = is_count_star_column h c')
    as Hcsc2.
  { intros c'. unfold is_count_star_column. by destruct Hsame2 as (-> & _). }
  destruct (IH h2 h' Hrun2) as (Hsame & Hcount & Hlen & Hsup & Hrest & Hset & Hcs).
  split; [by eapply same_plans_trans|].
  split; [congruence|].
  split; [by rewrite Hlen, Htypes2, length_insert|].
  split.
  { intros c' [-> | Hin]%elem_of_cons Hagg; [done|].
    destruct (Hsup c' Hin) as [? Hlt']; [by apply Hagg2|].
    split; [done|]. by rewrite Hidx2, Htypes2, length_insert in Hlt'. }
  split.
  { intros i Hi. rewrite Hrest.
    - rewrite Htypes2. apply list_lookup_insert_ne. apply Hi; [by left | done].
    - intros c' Hin Hagg. rewrite Hidx2. apply Hi; [by right | by apply Hagg2]. }
  split.
  { intros Hnd. rewrite fmap_cons in Hnd. apply NoDup_cons in Hnd as [Hnotin Hnd].
    intros c' [-> | Hin]%elem_of_cons Hagg.
    - rewrite Hrest.
      + rewrite Htypes2. by apply list_lookup_insert_eq.
      + intros c' Hin Hagg'. rewrite Hidx2. apply Hagg2 in Hagg'.
        unfold aggIndex_of. unfold is_aggregate_column in Haggc, Hagg'.
        intros Heq. apply Hnotin. apply list_elem_of_fmap.
        exists c'. split; [lia | done].
    - rewrite <- Hidx2. apply Hset; [done | done | by apply Hagg2]. }
  rewrite Hcs, Hcs2.
  assert (last_count_star_column h2 rest = last_count_star_column h rest) as ->.
  { clear -Hcsc2. induction rest as [|c' rest IH]; [done|].
    cbn. by rewrite IH, Hcsc2. }
  destruct (last_count_star_column h rest); cbn; [done|].
  by destruct (is_count_star_column h c).
Qed.

(** The loop returns when every aggregate column has a legal type and a
    place in the vector. *)
Lemma setUpAggregateInfo_columns_total columns : forall h,
  (forall c, c ∈ columns -> is_aggregate_column h c ->
     supported (aggregatetype c) /\
     (aggIndex_of h c < length (m_aggTypes h))%nat) ->
  exists h', setUpAggregateInfo_columns columns h = inr h'.
Proof.
  induction columns as [|c rest IH]; intros h Hok; [by eexists|].
  rewrite setUpAggregateInfo_columns_cons.
  assert (forall h2,
            m_groupByColumnCount h2 = m_groupByColumnCount h ->
            length (m_aggTypes h2) = length (m_aggTypes h) ->
            exists h', setUpAggregateInfo_columns rest h2 = inr h') as Hrest.
  { intros h2 Hgb2 Hlen2. apply IH. intros c' Hin Hagg.
    unfold is_aggregate_column, aggIndex_of in *. rewrite Hgb2, Hlen2 in *.
    apply Hok; [by right | done]. }
  destruct (decide (index c < Z.of_nat (m_groupByColumnCount h))) as [Hgb | Hgb];
    [by apply Hrest|].
  destruct (Hok c) as [Hsup Hlt]; [by left | unfold is_aggregate_column; lia|].
  rewrite decide_True by done. cbn zeta.
  destruct (aggregatetype c); try done;
    apply Hrest; cbn; by rewrite ?length_insert.
Qed.

Lemma indexes_cover_NoDup columns :
  indexes_cover columns -> NoDup (index <$> columns).
Proof. intros Hp. unfold indexes_cover in Hp. rewrite Hp. apply NoDup_seqZ. Qed.

Lemma indexes_cover_range columns c :
  indexes_cover columns -> c ∈ columns ->
  0 <= index c < Z.of_nat (length columns).
Proof.
  intros Hp Hin.
  assert (index c ∈ index <$> columns) as Hi by (by apply list_elem_of_fmap_2).
  unfold indexes_cover in Hp. rewrite Hp in Hi.
  apply elem_of_seqZ in Hi. lia.
Qed.

Lemma indexes_cover_all columns i :
  indexes_cover columns -> 0 <= i < Z.of_nat (length columns) ->
  exists c, c ∈ columns /\ index c = i.
Proof.
  intros Hp Hi.
  assert (i ∈ index <$> columns) as Hin.
  { unfold indexes_cover in Hp. rewrite Hp. apply elem_of_seqZ. lia. }
  apply list_elem_of_fmap in Hin as (c & -> & Hin). by exists c.
Qed.

Lemma last_count_star_column_Some h columns c :
  last_count_star_column h columns = Some c ->
  c ∈ columns /\ is_aggregate_column h c /\
  aggregatetype c = EXPRESSION_TYPE_AGGREGATE_COUNT_STAR.
Proof.
  induction columns as [|c' rest IH]; [done|]. cbn.
  destruct (last_count_star_column h rest) as [c''|].
  - intros [= ->]. destruct IH as (? & ? & ?); [done|]. split; [by right | done].
  - destruct (is_count_star_column h c') eqn:Hc; [|done].
    intros [= ->]. split; [by left|].
    unfold is_count_star_column in Hc. apply andb_true_iff in Hc as [Hgb Ht].
    apply bool_decide_eq_true_1 in Hgb. split; [done|].
    by destruct (aggregatetype c).
Qed.

(** X10.  [setUpAggregateInfo] on the columns of a view, each index from 0 to
    [n - 1] once, of which the first [m_groupByColumnCount] are the
    group-by columns.  It returns exactly when every aggregate column has
    one of the five legal types, and throws otherwise.  When it returns,
    the number of aggregates is [n] less the group-by columns,
    [m_aggTypes] has that length and holds the type of each aggregate
    column at its position among the aggregates, so that every entry is a
    legal type, and [m_countStarColumnIndex] is the index of the last
    COUNT_STAR column the catalog map yields, a place where [m_aggTypes]
    says COUNT_STAR. *)
Theorem setUpAggregateInfo_checks_aggregates columns h :
  indexes_cover columns ->
  (m_groupByColumnCount h <= length columns)%nat ->
  ((exists h', setUpAggregateInfo columns h = inr h') <->
   (forall c, c ∈ columns -> is_aggregate_column h c ->
      supported (aggregatetype c))) /\
  forall h',
    setUpAggregateInfo columns h = inr h' ->
    same_plans h h' /\
    m_aggColumnCount h' = (length columns - m_groupByColumnCount h)%nat /\
    length (m_aggTypes h') = m_aggColumnCount h' /\
    Forall supported (m_aggTypes h') /\
    (forall c, c ∈ columns -> is_aggregate_column h c ->
       m_aggTypes h' !! aggIndex_of h c = Some (aggregatetype c)) /\
    (forall c, last_count_star_column h columns = Some c ->
       m_countStarColumnIndex h' = Z.to_nat (index c) /\
       m_aggTypes h' !! (m_countStarColumnIndex h' - m_groupByColumnCount h)%nat
       = Some EXPRESSION_TYPE_AGGREGATE_COUNT_STAR).
Proof.
  intros Hcover Hgb.
  set (n := (length columns - m_groupByColumnCount h)%nat).
  set (h0 := set_aggregates n (resize n (m_aggTypes h)) h).
  assert (setUpAggregateInfo columns h = setUpAggregateInfo_columns columns h0)
    as Hdef.
  { unfold setUpAggregateInfo. rewrite decide_False by lia.
    cbn zeta. unfold h0, n. do 3 f_equal; lia. }
  assert (length (m_aggTypes h0) = n) as Hlen0.
  { unfold h0, resize. cbn. rewrite length_app, length_take, length_replicate. lia. }
  assert (forall c, is_aggregate_column h0 c <-> is_aggregate_column h c) as Hagg0
    by done.
  assert (forall c, c ∈ columns -> is_aggregate_column h c ->
            (aggIndex_of h c < n)%nat) as Hrange.
  { intros c Hin Hagg. pose proof (indexes_cover_range _ _ Hcover Hin).
    unfold aggIndex_of, is_aggregate_column, n in *. lia. }
  rewrite Hdef. split.
  - split.
    + intros [h' Hrun] c Hin Hagg.
      destruct (setUpAggregateInfo_columns_returns _ _ _ Hrun)
        as (_ & _ & _ & Hsup & _).
      by destruct (Hsup c Hin Hagg).
    + intros Hsup. apply setUpAggregateInfo_columns_total.
      intros c Hin Hagg. split; [by apply Hsup|].
      rewrite Hlen0. by apply Hrange.
  - intros h' Hrun.
    destruct (setUpAggregateInfo_columns_returns _ _ _ Hrun)
      as (Hsame & Hcount & Hlen & Hsup & _ & Hset & Hcs).
    specialize (Hset (indexes_cover_NoDup _ Hcover)).
    split; [done|]. split; [done|].
    split; [by rewrite Hlen, Hlen0, Hcount|].
    split.
    { apply Forall_lookup. intros p t Hp.
      assert (p < n)%nat as Hpn
        by (apply lookup_lt_Some in Hp; rewrite Hlen, Hlen0 in Hp; done).
      destruct (indexes_cover_all columns
                  (Z.of_nat (m_groupByColumnCount h) + Z.of_nat p) Hcover)
        as (c & Hin & Hidx); [unfold n in Hpn; lia|].
      assert (is_aggregate_column h c) as Hagg
        by (unfold is_aggregate_column; lia).
      assert (aggIndex_of h c = p) as Hp' by (unfold aggIndex_of; lia).
      pose proof (Hset c Hin Hagg) as Hc.
      change (aggIndex_of h0 c) with (aggIndex_of h c) in Hc.
      rewrite Hp', Hp in Hc. injection Hc as ->.
      by destruct (Hsup c Hin Hagg). }
    split; [intros c Hin Hagg; by apply Hset|].
    intros c Hlast.
    rewrite (last_count_star_column_ext h h0) in Hcs by done.
    rewrite Hlast in Hcs. cbn in Hcs. split; [done|].
    destruct (last_count_star_column_Some _ _ _ Hlast) as (Hin & Hagg & Ht).
    rewrite Hcs, <- Ht.
    replace (Z.to_nat (index c) - m_groupByColumnCount h)%nat
      with (aggIndex_of h c)
      by (unfold aggIndex_of, is_aggregate_column in *; lia).
    by apply Hset.
Qed.

(** The set-up of the view
    [SELECT g, COUNT( * ), SUM(v), MIN(v), MAX(v) FROM T GROUP BY g]. *)
Lemma setUpAggregateInfo_checks_aggregates_witness :
  setUpAggregateInfo grouped_view_columns grouped_view_before_setUp
  = inr Concrete.grouped_view /\
  Forall supported (m_aggTypes Concrete.grouped_view) /\
  m_countStarColumnIndex Concrete.grouped_view = 1%nat.
Proof.
  assert (indexes_cover grouped_view_columns) as Hcover.
  { unfold indexes_cover. apply (bool_decide_unpack _). vm_compute. exact I. }
  destruct (setUpAggregateInfo_checks_aggregates
              grouped_view_columns grouped_view_before_setUp Hcover)
    as [_ Hret]; [simpl; lia|].
  destruct (Hret Concrete.grouped_view eq_refl)
    as (_ & _ & _ & Hsup & _ & Hcs).
  split; [reflexivity|]. split; [exact Hsup|].
  by destruct (Hcs (mkColumn 1 EXPRESSION_TYPE_AGGREGATE_COUNT_STAR) eq_refl).
Defined.

(** ** [catchUpWithExistingData] *)

Section CatchUp.
Context {NValue : Type} {ops : NValueOps NValue} {env : Collaborators NValue}.
Variable h : Handler.

Local Abbreviation State := (State NValue).

(** Rows are inserted one after the other, at the end of the view, up
    to the first one that violates a constraint. *)
Lemma wp_insert_rows (fallible : bool) (rows : list (list NValue)) :
  forall s : State,
  wp (for_each rows (fun tuple => insertPersistentTuple tuple fallible))
     (fun r s' =>
        let accepted := accepted_rows (m_destTable s) rows in
        (r, s')
        = (if decide (length accepted = length rows) then inr tt
           else inl (if fallible then ConstraintViolation else FatalException),
           mkState (m_destTable s ++ accepted) (m_existingTuple s)
             (m_updatedTuple s) (params s) (deltaTableActive s)
             (trace s ++ (EvInsertTuple <$> accepted)))) s.
Proof.
  induction rows as [|row rows IH]; intros s.
  - apply wp_ret. cbn. rewrite !app_nil_r. by destruct s.
  - cbn [for_each accepted_rows]. apply wp_bind, wp_insertPersistentTuple.
    destruct (violatesConstraint (m_destTable s) row).
    + cbn. rewrite !app_nil_r. by destruct s.
    + eapply wp_mono; [apply IH|].
      cbn. intros r s' [= -> ->]. rewrite <- !app_assoc. cbn.
      f_equal. repeat case_decide; try done; lia.
Qed.

(** X11.  Catching up with the existing data runs the create query with the
    delta mode of every table as it is, and inserts the rows the query
    yields at the end of the view, in their order, up to the first row
    that violates a constraint of the view table.  When there is no such
    row the call returns; otherwise it ends there, with the exception
    [ConstraintViolation] when it is fallible and with the fatal
    exception when it is not.  Nothing else changes, and when the query
    throws, the view is as before.  On a view without group-by columns
    that was empty, a create query that yields one row, which the table
    takes, leaves the view with that one row, the row
    [findExistingTuple] then finds for every delta tuple. *)
Theorem catchUpWithExistingData_fills_view (fallible : bool) (s : State) :
  match executeExecutors (m_createQueryExecutorVector h) (queried_state s) with
  | Some viewContent =>
      let accepted := accepted_rows (m_destTable s) viewContent in
      catchUpWithExistingData h fallible s
      = (if decide (length accepted = length viewContent) then inr tt
         else inl (if fallible then ConstraintViolation else FatalException),
         caught_up_state accepted s) /\
      (m_groupByColumnCount h = 0%nat -> m_destTable s = [] ->
       forall row, viewContent = [row] ->
       violatesConstraint [] row = false ->
       catchUpWithExistingData h fallible s
       = (inr tt, caught_up_state [row] s) /\
       forall deltaTuple : list NValue,
       exists s',
         findExistingTuple h deltaTuple (caught_up_state [row] s)
         = (inr true, s') /\
         existingTuple_row s' = Some row /\
         m_destTable s' = [row])
  | None =>
      catchUpWithExistingData h fallible s
      = (inl ExecutorException, queried_state s)
  end.
Proof.
  assert (wp (catchUpWithExistingData h fallible)
            (fun r s' =>
               (r, s')
               = match executeExecutors (m_createQueryExecutorVector h)
                         (queried_state s) with
                 | Some viewContent =>
                     let accepted := accepted_rows (m_destTable s) viewContent in
                     (if decide (length accepted = length viewContent)
                      then inr tt
                      else inl (if fallible then ConstraintViolation
                                else FatalException),
                      caught_up_state accepted s)
                 | None => (inl ExecutorException, queried_state s)
                 end) s) as Hwp.
  { unfold catchUpWithExistingData.
    apply wp_bind, wp_run_executors. cbn zeta.
    change (mkState (m_destTable s) (m_existingTuple s) (m_updatedTuple s)
              (params s) (deltaTableActive s)
              (trace s ++ [EvCreateQuery (deltaTableActive s)]))
      with (queried_state s).
    destruct (executeExecutors _ (queried_state s)) as [viewContent|]; [|done].
    eapply wp_mono; [apply wp_insert_rows|].
    cbn. intros r s' [= -> ->]. unfold caught_up_state.
    by rewrite <- app_assoc. }
  unfold wp in Hwp.
  destruct (catchUpWithExistingData h fallible s) as [r s']. cbn in Hwp.
  destruct (executeExecutors _ (queried_state s)) as [viewContent|]; [|done].
  split; [done|].
  intros Hgb Hempty row -> Hok. cbn zeta in Hwp. rewrite Hempty in Hwp.
  cbn [accepted_rows] in Hwp. rewrite Hok in Hwp. cbn in Hwp.
  split; [done|]. intros deltaTuple.
  pose proof (wp_findExistingTuple h deltaTuple
                (fun r s' => r = inr true /\ existingTuple_row s' = Some row /\
                             m_destTable s' = [row])
                (caught_up_state [row] s)) as Hfind.
  unfold wp in Hfind.
  destruct (findExistingTuple h deltaTuple (caught_up_state [row] s))
    as [r' s''].
  cbn in Hfind. rewrite Hempty in Hfind. cbn in Hfind.
  destruct Hfind as (-> & Hrow & Hd).
  - intros found t Hungrouped _. by destruct (Hungrouped Hgb) as (-> & -> & _).
  - done.
  - by exists s''.
Qed.
End CatchUp.

Import Concrete.

(** The create query yields four rows for a view table that is empty and
    has a unique index on its first column; the third row has the key
    of the first.  The first two rows are inserted and the call ends at
    the third: with [ConstraintViolation] when it is fallible, with the
    fatal exception when it is not. *)
Lemma catchUpWithExistingData_fills_view_witness :
  let viewContent := [[Int 1; Int 1; Int 5; Int 5; Int 5];
                      [Int 2; Int 2; Int 6; Int 3; Int 3];
                      [Int 1; Int 4; Int 9; Int 2; Int 3];
                      [Int 3; Int 1; Int 7; Int 7; Int 7]] in
  let s := state_of [] None [] [] in
  catchUpWithExistingData
    (env := scripted_unique false viewContent [])
    grouped_view true s
  = (inl ConstraintViolation, caught_up_state (take 2 viewContent) s) /\
  catchUpWithExistingData
    (env := scripted_unique false viewContent [])
    grouped_view false s
  = (inl FatalException, caught_up_state (take 2 viewContent) s).
Proof.
  intros viewContent s.
  split.
  - exact (proj1 (catchUpWithExistingData_fills_view
                    (env := scripted_unique false viewContent [])
                    grouped_view true s)).
  - exact (proj1 (catchUpWithExistingData_fills_view
                    (env := scripted_unique false viewContent [])
                    grouped_view false s)).
Defined.

End ViewSetup_Props.

(* ===================================================================== *)
(** * More properties of installation                                     *)
(* ===================================================================== *)

Module ViewUnregister_Props.
Import ViewInstall ViewInstall_Props ViewUnregister.

(** ** Adding a source table and dropping it again *)

Lemma filter_all {A} (P : A -> Prop) `{forall x, Decision (P x)} (l : list A) :
  Forall P l -> filter P l = l.
Proof.
  induction 1 as [|x l Hx _ IH]; [done|].
  by rewrite filter_cons_True, IH.
Qed.

Lemma filter_emplace_fresh k v (m : list (nat * Z)) :
  k ∉ m.*1 -> filter (fun e => e.1 ≠ k) (emplace k v m) = m.
Proof.
  intros Hk.
  assert (Forall (fun e : nat * Z => e.1 ≠ k) m) as Hall.
  { apply Forall_forall. intros e Hin Heq. apply Hk. rewrite <- Heq.
    by apply list_elem_of_fmap_2. }
  clear Hk. induction m as [|[k0 v0] m IH].
  - cbn [emplace]. by rewrite filter_cons_False by (cbn; auto).
  - apply Forall_cons in Hall as [Hne Hall]. cbn in Hne. cbn [emplace].
    destruct (decide (k < k0)%nat).
    + rewrite filter_cons_False by (cbn; auto).
      apply filter_all. by constructor.
    + rewrite decide_False by done.
      rewrite filter_cons_True by done. by rewrite IH.
Qed.

Lemma list_find_emplace k v (m : list (nat * Z)) :
  k ∉ m.*1 ->
  exists j, list_find (fun e => e.1 = k) (emplace k v m) = Some (j, (k, v)).
Proof.
  intros Hk. induction m as [|[k0 v0] m IH].
  - exists 0%nat. cbn. by rewrite decide_True.
  - assert (k0 ≠ k) as Hne by (intros ->; apply Hk; by left).
    assert (k ∉ m.*1) as Hk' by (intros ?; apply Hk; by right).
    cbn [emplace]. destruct (decide (k < k0)%nat).
    + exists 0%nat. cbn. by rewrite decide_True.
    + rewrite decide_False by done. destruct (IH Hk') as [j Hj].
      exists (S j). cbn. rewrite decide_False by done. by rewrite Hj.
Qed.

Lemma dropViewHandler_addViewHandler r T :
  r ∉ m_viewHandlers T -> dropViewHandler r (addViewHandler r T) = T.
Proof.
  intros Hr. destruct T as [rep l mv]. unfold dropViewHandler, addViewHandler.
  cbn in *. f_equal.
  rewrite filter_app, filter_cons_False, filter_nil, app_nil_r by auto.
  apply filter_all, Forall_forall. by intros r' Hin ->.
Qed.

(** X12.  A handler is added to a table that is not yet among its sources and
    whose notify list does not hold the pointer it registers, and the
    table is dropped again: the tables and every other handler are as
    before.  The handler has its view table and its source tables as
    before; the wrapper it may have created to register with a
    replicated table stays, and the handler is left dirty
    ([m_dirty = true]) whatever the flag was. *)
Theorem dropSourceTable_undoes_addSourceTable this H sourceTable
    relativeTableIndex σ :
  handlers σ !! this = Some H ->
  sourceTable ∉ (m_sourceTables H).*1 ->
  let viewHandlerPartitioned := negb (table_replicated σ (m_destTable H)) in
  pointer_for viewHandlerPartitioned (table_replicated σ sourceTable) this
    ∉ notify_list σ sourceTable ->
  exists σ',
    dropSourceTable_of this sourceTable
      (addSourceTable this viewHandlerPartitioned sourceTable
         relativeTableIndex σ) = Some σ' /\
    tables σ' = tables σ /\
    (forall x, x ≠ this -> handlers σ' !! x = handlers σ !! x) /\
    handlers σ' !! this
    = Some (mkViewHandler (m_destTable H) (m_sourceTables H)
              (m_replicatedWrapper H
               || bool_decide (viewHandlerPartitioned
                               = table_replicated σ sourceTable))
              (Some true)).
Proof.
  intros HH Hfresh p Hr.
  set (σ1 := addSourceTable this p sourceTable relativeTableIndex σ).
  destruct (addSourceTable_spec this p sourceTable relativeTableIndex σ)
    as (Hrep & _).
  (* the handler after the table is added *)
  assert (handlers σ1 !! this
          = Some (mkViewHandler (m_destTable H)
                    (emplace sourceTable relativeTableIndex (m_sourceTables H))
                    (m_replicatedWrapper H
                     || bool_decide (p = table_replicated σ sourceTable))
                    (Some true)))
    as HH1.
  { unfold σ1, addSourceTable.
    destruct (bool_decide (p = table_replicated σ sourceTable)); cbn;
      rewrite ?lookup_alter_eq, HH; cbn; [by rewrite orb_true_r|].
    by rewrite orb_false_r; destruct H. }
  (* the tables after the table is added *)
  assert (tables σ1
          = alter (addViewHandler
                     (pointer_for p (table_replicated σ sourceTable) this))
              sourceTable (tables σ)) as Ht1.
  { unfold σ1, addSourceTable, pointer_for.
    by destruct (bool_decide (p = table_replicated σ sourceTable)). }
  unfold dropSourceTable_of. fold σ1. rewrite HH1. cbn [m_sourceTables m_destTable].
  destruct (list_find_emplace sourceTable relativeTableIndex (m_sourceTables H) Hfresh)
    as [j ->].
  eexists. split; [reflexivity|].
  fold σ1 in Hrep. rewrite Hrep. fold p.
  unfold dropSourceTable. cbn [fst]. rewrite Hrep.
  assert (forall r : ViewHandlerRef,
            r = pointer_for p (table_replicated σ sourceTable) this ->
            tables (update_handler this
                      (fun H0 => mkViewHandler (m_destTable H0)
                         (filter (fun e => e.1 ≠ sourceTable) (m_sourceTables H0))
                         (m_replicatedWrapper H0) (Some true))
                      (update_table sourceTable (dropViewHandler r) σ1))
            = tables σ) as Htables.
  { intros r ->. unfold update_handler, update_table. cbn [tables].
    rewrite Ht1, alter_alter_eq.
    apply alter_id. intros T HT. cbn.
    apply dropViewHandler_addViewHandler.
    unfold notify_list in Hr. by rewrite HT in Hr. }
  assert (forall r x,
            handlers (update_handler this
                        (fun H0 => mkViewHandler (m_destTable H0)
                           (filter (fun e => e.1 ≠ sourceTable) (m_sourceTables H0))
                           (m_replicatedWrapper H0) (Some true))
                        (update_table sourceTable (dropViewHandler r) σ1)) !! x
            = if decide (x = this)
              then Some (mkViewHandler (m_destTable H) (m_sourceTables H)
                           (m_replicatedWrapper H
                            || bool_decide (p = table_replicated σ sourceTable))
                           (Some true))
              else handlers σ !! x) as Hhandlers.
  { intros r x. unfold update_handler, update_table. cbn [handlers].
    destruct (decide (x = this)) as [-> | Hne].
    - rewrite lookup_alter_eq, HH1. cbn. by rewrite filter_emplace_fresh.
    - rewrite lookup_alter_ne by done.
      destruct (addSourceTable_spec this p sourceTable relativeTableIndex σ)
        as (_ & _ & _ & Hother & _).
      by apply Hother. }
  unfold pointer_for in Htables.
  destruct (bool_decide (p = table_replicated σ sourceTable)) eqn:Hp.
  - split; [by apply Htables|].
    split; [intros x Hne; by rewrite Hhandlers, decide_False|].
    by rewrite Hhandlers, decide_True.
  - split; [by apply Htables|].
    split; [intros x Hne; by rewrite Hhandlers, decide_False|].
    by rewrite Hhandlers, decide_True.
Qed.

(** Table 4 is added to the handler of the example heap, whose flag is
    clear, and dropped again. *)
Lemma dropSourceTable_undoes_addSourceTable_witness :
  exists σ',
    dropSourceTable_of 10 4
      (addSourceTable 10 true 4 2 heap_with_spare_table) = Some σ' /\
    tables σ' = tables heap_with_spare_table /\
    (forall x, x ≠ 10%nat ->
       handlers σ' !! x = handlers heap_with_spare_table !! x) /\
    handlers σ' !! 10%nat
    = Some (mkViewHandler 3 [(1%nat, 0); (2%nat, 1)] true (Some true)).
Proof.
  refine (dropSourceTable_undoes_addSourceTable 10
            (mkViewHandler 3 [(1%nat, 0); (2%nat, 1)] true (Some false)) 4 2
            heap_with_spare_table eq_refl _ _).
  - cbn. rewrite !not_elem_of_cons. repeat split; try done.
    apply not_elem_of_nil.
  - vm_compute. apply not_elem_of_nil.
Defined.


(** ** What an installation leaves alone *)











End ViewUnregister_Props.

(* ===================================================================== *)
(** * More properties of the command surface                              *)
(* ===================================================================== *)

Module CommandSurface_Props.
Import VoltDBIPC VoltDBIPC_Props.

(** ** Replies of [execute] *)

Section Replies.
Context {Engine : Type} `{EngineOps Engine}.
Variable simple_handler : SimpleCommand -> ipc_command -> IPC Engine -> Z * IPC Engine.
Variable direct_handler : DirectCommand -> ipc_command -> IPC Engine -> IPC Engine.

(** The command codes that no case of the switch takes. *)
Lemma dispatch_default cmd ipc :
  (ntohl (command cmd) < 0 \/ ntohl (command cmd) = 1 \/
   ntohl (command cmd) = 8 \/ ntohl (command cmd) = 14 \/
   ntohl (command cmd) = 15 \/ 19 < ntohl (command cmd)) ->
  dispatch simple_handler direct_handler cmd ipc = stub cmd ipc.
Proof.
  intros Hcode. unfold dispatch.
  destruct (ntohl (command cmd)) as [|p|p]; [lia| |done].
  do 5 (try destruct p as [p|p|]); try reflexivity; lia.
Qed.

(** X14.  What [execute] does with the status byte a handler leaves, on a
    socket whose writes are complete: nothing is written for
    [kErrorCode_None], one byte for a status that is not
    [kErrorCode_Error], and the call goes on; for [kErrorCode_Error]
    three bytes are written, the count 3 is compared with 1, and the
    process exits.  So a command code that no case of the switch takes,
    and a catalog command that finds no engine, end the process. *)
Theorem execute_error_status_ends_process cmd ipc result ipc1 :
  dispatch simple_handler direct_handler cmd ipc = (result, ipc1) ->
  fd_wr (m_fd ipc1) = [] ->
  (result = kErrorCode_None ->
   execute simple_handler direct_handler cmd ipc
   = Continue (m_terminate ipc1) ipc1) /\
  (result ≠ kErrorCode_None -> result ≠ kErrorCode_Error ->
   execute simple_handler direct_handler cmd ipc
   = Continue (m_terminate ipc1)
       (mkIPC (mkFd (fd_in (m_fd ipc1)) (fd_out (m_fd ipc1) ++ [result]) [])
          (m_engine ipc1) (m_terminate ipc1))) /\
  (result = kErrorCode_Error ->
   execute simple_handler direct_handler cmd ipc = Exit) /\
  ((ntohl (command cmd) < 0 \/ ntohl (command cmd) = 1 \/
    ntohl (command cmd) = 8 \/ ntohl (command cmd) = 14 \/
    ntohl (command cmd) = 15 \/ 19 < ntohl (command cmd)) ->
   execute simple_handler direct_handler cmd ipc = Exit) /\
  ((ntohl (command cmd) = 2 \/ ntohl (command cmd) = 19) ->
   m_engine ipc = None ->
   execute simple_handler direct_handler cmd ipc = Exit).
Proof.
  intros Hd Hwr.
  assert (result = kErrorCode_Error ->
          execute simple_handler direct_handler cmd ipc = Exit) as Herr.
  { intros ->. unfold execute. rewrite Hd.
    rewrite decide_True by done. rewrite decide_True by done.
    unfold write. rewrite Hwr. cbn. by rewrite decide_True. }
  split; [|split; [|split; [|split]]].
  - intros ->. unfold execute. rewrite Hd. by rewrite decide_False by (by intros ?).
  - intros Hn He. unfold execute. rewrite Hd.
    rewrite decide_True by done. rewrite decide_False by done.
    unfold write. rewrite Hwr. cbn. by rewrite decide_False by (by intros ?).
  - exact Herr.
  - intros Hcode. apply Herr.
    rewrite dispatch_default in Hd by done. unfold stub in Hd. congruence.
  - intros Hcode Hnone. apply Herr.
    assert (dispatch simple_handler direct_handler cmd ipc = loadCatalog cmd ipc)
      as Hload.
    { destruct Hcode as [Hc | Hc]; unfold dispatch; by rewrite Hc. }
    rewrite Hload in Hd. unfold loadCatalog in Hd. rewrite Hnone in Hd.
    congruence.
Qed.
End Replies.

(** Command code 1 on a socket whose writes are complete, with handlers
    that do nothing. *)
Lemma execute_error_status_ends_process_witness :
  execute (Engine := list EngineCall)
    (fun _ _ ipc => (kErrorCode_Success, ipc)) (fun _ _ ipc => ipc)
    (command_of 1 [])
    (mkIPC (mkFd [] [] []) (Some []) false) = Exit.
Proof.
  refine (proj1 (proj2 (proj2 (proj2
            (execute_error_status_ends_process
               (fun _ _ ipc => (kErrorCode_Success, ipc)) (fun _ _ ipc => ipc)
               (command_of 1 []) (mkIPC (mkFd [] [] []) (Some []) false)
               kErrorCode_Error (mkIPC (mkFd [] [] []) (Some []) false)
               eq_refl eq_refl)))) _).
  right; left. reflexivity.
Defined.

(** ** The payload of the catalog commands *)

Lemma c_string_app_NUL (p q : list byte) :
  0 ∉ p -> c_string (p ++ 0 :: q) = p.
Proof.
  induction p as [|b p IH]; intros Hp; cbn.
  - by rewrite decide_True.
  - rewrite decide_False by (intros ->; apply Hp; by left).
    rewrite IH; [done|]. intros ?. apply Hp. by right.
Qed.

(** X15.  The catalog commands hand the engine the payload up to its first NUL
    byte: whatever follows that byte in the message never reaches the
    engine.  (Here the engine is the one that records its calls.) *)
Theorem catalog_payload_ends_at_first_NUL
    (p q msgsize code : list byte) fd (calls : list EngineCall) terminate :
  0 ∉ p ->
  loadCatalog (mk_ipc_command msgsize code (p ++ 0 :: q))
    (mkIPC fd (Some calls) terminate)
  = (kErrorCode_Success, mkIPC fd (Some (calls ++ [CallLoadCatalog p])) terminate)
  /\
  updateCatalog (mk_ipc_command msgsize code (p ++ 0 :: q))
    (mkIPC fd (Some calls) terminate)
  = (kErrorCode_Success, mkIPC fd (Some (calls ++ [CallUpdateCatalog p])) terminate).
Proof.
  intros Hp. unfold loadCatalog, updateCatalog. cbn.
  by rewrite c_string_app_NUL.
Qed.

Lemma catalog_payload_ends_at_first_NUL_witness :
  loadCatalog (mk_ipc_command [0; 0; 0; 13] [0; 0; 0; 2] ([97; 98] ++ 0 :: [99]))
    (mkIPC (mkFd [] [] []) (Some []) false)
  = (kErrorCode_Success,
     mkIPC (mkFd [] [] []) (Some ([] ++ [CallLoadCatalog [97; 98]])) false).
Proof.
  refine (proj1 (catalog_payload_ends_at_first_NUL [97; 98] [99]
                   [0; 0; 0; 13] [0; 0; 0; 2] (mkFd [] [] []) [] false _)).
  intros Hin. by repeat (apply elem_of_cons in Hin as [Hin | Hin]; [done|]);
    apply elem_of_nil in Hin.
Defined.

(** ** Incomplete answers to a dependency request *)

Lemma read_loop_EOF fuel len bytes acc out wr :
  bytes ≠ len ->
  read_loop (S fuel) len bytes acc (mkFd [] out wr)
  = Some (bytes, acc, mkFd [] out wr).
Proof.
  intros Hne. cbn [read_loop]. rewrite decide_False by done.
  cbn. rewrite Z.add_0_r. by rewrite decide_True.
Qed.

Lemma read_loop_ReadError fuel len bytes acc rest out wr :
  bytes ≠ len ->
  read_loop (S fuel) len bytes acc (mkFd (ReadError :: rest) out wr)
  = Some (bytes, acc, mkFd rest out wr).
Proof.
  intros Hne. cbn [read_loop]. rewrite decide_False by done.
  cbn. rewrite decide_False by lia. rewrite decide_True by lia.
  do 3 f_equal. lia.
Qed.

(** X16.  After the status [DependencyFound], the answer of the host is taken
    whole or the process exits.  The four bytes of the length are read
    with one [read]: when fewer arrive together the process exits, even
    if the rest is right behind.  The bytes of the dependency may arrive
    in any number of pieces, but when the host closes the socket, or a
    read fails, before the announced length is there, the process
    exits. *)
Theorem retrieveDependency_incomplete_answer_is_fatal
    dependencyId fd fd1 status fd2 :
  write (kErrorCode_RetrieveDependency :: htonl dependencyId) fd = (5, fd1) ->
  read 1 fd1 = (1, [status], fd2) ->
  to_int8 status = kErrorCode_DependencyFound ->
  (forall bs rest,
     fd_in fd2 = Chunk bs :: rest -> (length bs < 4)%nat ->
     retrieveDependency dependencyId fd
     = Some (ProcessExit, mkFd rest (fd_out fd2) (fd_wr fd2))) /\
  (forall lenbytes fd3 len chunks tail,
     read 4 fd2 = (4, lenbytes, fd3) ->
     to_int32 (ntohl lenbytes) = len ->
     fd_in fd3 = (Chunk <$> chunks) ++ tail ->
     Forall (fun c => c ≠ []) chunks ->
     Z.of_nat (length (concat chunks)) < len ->
     (tail = [] ->
      retrieveDependency dependencyId fd
      = Some (ProcessExit, mkFd [] (fd_out fd3) (fd_wr fd3))) /\
     (forall rest, tail = ReadError :: rest ->
      retrieveDependency dependencyId fd
      = Some (ProcessExit, mkFd rest (fd_out fd3) (fd_wr fd3)))).
Proof.
  intros Hw Hr Hs. unfold retrieveDependency. rewrite Hw.
  rewrite decide_False by (intros Hne; by apply Hne).
  rewrite Hr. rewrite decide_False by (intros Hne; by apply Hne).
  change (default 0 (head [status])) with status. rewrite Hs.
  rewrite decide_False by done.
  rewrite decide_False by (intros Hne; by apply Hne).
  split.
  - intros bs rest Hin Hlen. destruct fd2 as [input out wr]. cbn in Hin. subst input.
    rewrite read_chunk_whole by lia. cbn [fd_out fd_wr].
    by rewrite decide_True by lia.
  - intros lenbytes fd3 len chunks tail Hr4 Hlen Hin Hne Hshort.
    rewrite Hr4. rewrite decide_False by (intros Hne'; by apply Hne').
    rewrite Hlen. rewrite decide_False by lia.
    destruct fd3 as [input out wr]. cbn in Hin. subst input. cbn [fd_out fd_wr].
    assert (length chunks <= length (concat chunks))%nat as Hcount.
    { clear -Hne. induction Hne as [|c cs Hc _ IH]; simpl; [lia|].
      rewrite length_app. destruct c; [done | simpl; lia]. }
    replace (S (Z.to_nat len))
      with (S (Z.to_nat len - length chunks) + length chunks)%nat by lia.
    rewrite read_loop_chunks by (try done; lia).
    rewrite Z.add_0_l. split.
    + intros ->. rewrite read_loop_EOF by lia.
      by rewrite decide_True by lia.
    + intros rest ->. rewrite read_loop_ReadError by lia.
      by rewrite decide_True by lia.
Qed.

(** The host answers "found" and sends the length in two pieces; the
    host announces three bytes, sends two and closes. *)
Lemma retrieveDependency_incomplete_answer_is_fatal_witness :
  retrieveDependency 7
    (mkFd [Chunk [4]; Chunk [0; 0]; Chunk [0; 3]; Chunk [7; 8; 9]] [] [])
  = Some (ProcessExit,
          mkFd [Chunk [0; 3]; Chunk [7; 8; 9]] [5; 0; 0; 0; 7] [])
  /\
  retrieveDependency 7
    (mkFd [Chunk [4]; Chunk [0; 0; 0; 3]; Chunk [7; 8]] [] [])
  = Some (ProcessExit, mkFd [] [5; 0; 0; 0; 7] []).
Proof.
  split.
  - refine (proj1 (retrieveDependency_incomplete_answer_is_fatal 7
              (mkFd [Chunk [4]; Chunk [0; 0]; Chunk [0; 3]; Chunk [7; 8; 9]] [] [])
              _ 4 _ eq_refl eq_refl eq_refl) [0; 0] _ eq_refl _).
    simpl; lia.
  - refine (proj1 (proj2 (retrieveDependency_incomplete_answer_is_fatal 7
              (mkFd [Chunk [4]; Chunk [0; 0; 0; 3]; Chunk [7; 8]] [] [])
              _ 4 _ eq_refl eq_refl eq_refl)
              [0; 0; 0; 3] _ 3 [[7; 8]] [] eq_refl eq_refl eq_refl _ _) eq_refl).
    + repeat constructor; done.
    + simpl; lia.
Defined.

End CommandSurface_Props.

(* ===================================================================== *)
(** * Properties of the engine's strings                                  *)
(* ===================================================================== *)

Module EngineStrings_Props.
Import EngineStrings.

Lemma N_of_ascii_inj x y : Ascii.N_of_ascii x = Ascii.N_of_ascii y -> x = y.
Proof.
  intros Heq. rewrite <- (Ascii.ascii_N_embedding x), <- (Ascii.ascii_N_embedding y).
  by rewrite Heq.
Qed.

Lemma traits_compare_Eq n : forall a b,
  (n <= length a)%nat -> (n <= length b)%nat ->
  traits_compare a b n = Eq <-> take n a = take n b.
Proof.
  induction n as [|n IH]; intros a b Ha Hb; [by destruct a, b|].
  destruct a as [|x a]; [simpl in Ha; lia|].
  destruct b as [|y b]; [simpl in Hb; lia|].
  simpl in Ha, Hb. cbn [traits_compare take].
  destruct (Ascii.N_of_ascii x ?= Ascii.N_of_ascii y)%N eqn:Hc.
  - apply N.compare_eq in Hc. apply N_of_ascii_inj in Hc as ->.
    rewrite IH by lia. split; [by intros -> | by intros [= ->]].
  - split; [done|]. intros [= -> _]. by rewrite N.compare_refl in Hc.
  - split; [done|]. intros [= -> _]. by rewrite N.compare_refl in Hc.
Qed.

(** X17.  [startsWith s1 s2] holds exactly when [s1] is [s2] followed by
    something (possibly nothing): every string starts with the empty
    string and with itself, and no string starts with a longer one. *)
Theorem startsWith_iff_prefix (s1 s2 : string) :
  (startsWith s1 s2 = true <-> exists rest, s1 = s2 ++ rest) /\
  startsWith s1 [] = true /\
  startsWith s1 s1 = true /\
  ((length s1 < length s2)%nat -> startsWith s1 s2 = false).
Proof.
  assert (forall s1 s2, startsWith s1 s2 = true <-> exists rest, s1 = s2 ++ rest)
    as Hiff.
  { clear. intros s1 s2. unfold startsWith, compare. rewrite drop_0.
    rewrite andb_true_iff, bool_decide_eq_true. split.
    - intros [Hlen Hcmp].
      rewrite length_take in Hcmp. rewrite !Nat.min_l in Hcmp by lia.
      destruct (traits_compare _ _ _) eqn:Hc; try done.
      apply traits_compare_Eq in Hc; [|rewrite length_take; lia|lia].
      rewrite take_take, Nat.min_id, firstn_all in Hc.
      exists (drop (length s2) s1).
      transitivity (take (length s2) s1 ++ drop (length s2) s1);
        [by rewrite take_drop | by rewrite Hc].
    - intros [rest ->]. rewrite length_app. split; [lia|].
      rewrite take_app_length, Nat.min_id.
      assert (traits_compare s2 s2 (length s2) = Eq) as ->.
      { by apply traits_compare_Eq. }
      by rewrite Nat.compare_refl. }
  split; [apply Hiff|]. split; [|split].
  - apply Hiff. by exists s1.
  - apply Hiff. exists []. by rewrite app_nil_r.
  - intros Hlen. unfold startsWith.
    rewrite bool_decide_eq_false_2 by lia. done.
Qed.

End EngineStrings_Props.

(* ===================================================================== *)
(** * Properties of the snapshot reply and of the message loop            *)
(* ===================================================================== *)

Module IPCServer_Props.
Import VoltDBIPC VoltDBIPC_Props IPCServer.

(** ** Buffers *)

Lemma store_nil off buffer : store off [] buffer = buffer.
Proof. unfold store. cbn. by rewrite Nat.add_0_r, take_drop. Qed.

Lemma length_store off bs buffer :
  (off + length bs <= length buffer)%nat ->
  length (store off bs buffer) = length buffer.
Proof.
  intros Hin. unfold store.
  rewrite !length_app, length_take, length_drop. lia.
Qed.

Lemma store_app off a b buffer :
  (off + length a <= length buffer)%nat ->
  store (off + length a) b (store off a buffer) = store off (a ++ b) buffer.
Proof.
  intros Hin. unfold store.
  rewrite (app_assoc (take off buffer) a).
  rewrite take_app_length' by (rewrite length_app, length_take; lia).
  rewrite <- !app_assoc. do 3 f_equal.
  rewrite !app_assoc.
  rewrite drop_app_add' by (rewrite !length_app, length_take; lia).
  rewrite drop_drop, length_app. f_equal. lia.
Qed.

Lemma store_0 bs buffer : store 0 bs buffer = bs ++ drop (length bs) buffer.
Proof. done. Qed.

Lemma take_store_before n off bs buffer :
  (n <= off)%nat -> (off <= length buffer)%nat ->
  take n (store off bs buffer) = take n buffer.
Proof.
  intros Hn Hoff. unfold store.
  rewrite take_app_le by (rewrite length_take; lia).
  rewrite take_take. f_equal. lia.
Qed.

Lemma drop_store_after n off bs buffer :
  (off + length bs <= n)%nat -> (off + length bs <= length buffer)%nat ->
  drop n (store off bs buffer) = drop n buffer.
Proof.
  intros Hn Hin. unfold store.
  rewrite app_assoc.
  replace n with (length (take off buffer ++ bs) + (n - (off + length bs)))%nat
    at 1 by (rewrite length_app, length_take; lia).
  rewrite drop_app_add, drop_drop. f_equal. lia.
Qed.

(** ** The writing loop *)

Lemma write_scripted msg r rs input out :
  write msg (mkFd input out (r :: rs))
  = (r, mkFd input (out ++ take (Z.to_nat r) msg) rs).
Proof. done. Qed.

Lemma write_whole msg input out :
  write msg (mkFd input out [])
  = (Z.of_nat (length msg), mkFd input (out ++ msg) []).
Proof. done. Qed.

Lemma write_loop_S fuel toWrite bytesWritten buffer fd :
  write_loop (S fuel) toWrite bytesWritten buffer fd
  = if decide (bytesWritten < toWrite) then
      let '(thisTime, fd') :=
        write (take (Z.to_nat (toWrite - bytesWritten))
                 (drop (Z.to_nat bytesWritten) buffer)) fd in
      if decide (thisTime = -1) then Some None
      else write_loop fuel toWrite (bytesWritten + thisTime) buffer fd'
    else Some (Some fd).
Proof. done. Qed.

Lemma write_loop_end fuel toWrite bytesWritten buffer fd :
  toWrite <= bytesWritten ->
  write_loop fuel toWrite bytesWritten buffer fd = Some (Some fd).
Proof. intros Hle. destruct fuel; cbn; by rewrite decide_False by lia. Qed.

(** However the socket splits the writes, the loop sends the first
    [toWrite] bytes of the buffer. *)
Lemma write_loop_partial toWrite buffer : forall rs bytesWritten input out,
  Forall (fun r => 0 <= r) rs ->
  0 <= bytesWritten ->
  bytesWritten + total rs <= toWrite ->
  toWrite <= Z.of_nat (length buffer) ->
  exists rs',
    write_loop (S (length rs)) toWrite bytesWritten buffer (mkFd input out rs)
    = Some (Some (mkFd input
                    (out ++ take (Z.to_nat (toWrite - bytesWritten))
                              (drop (Z.to_nat bytesWritten) buffer)) rs')).
Proof.
  induction rs as [|r rs IH]; intros bytesWritten input out Hrs Hb Hsum Hlen.
  - rewrite write_loop_S. case_decide as Hlt.
    + rewrite write_whole. rewrite decide_False by lia.
      rewrite length_take, length_drop.
      rewrite write_loop_end by lia. by exists [].
    + exists []. replace (toWrite - bytesWritten) with 0 by (cbn in Hsum; lia).
      cbn. by rewrite app_nil_r.
  - apply Forall_cons in Hrs as [Hr Hrs]. cbn [total foldr] in Hsum.
    fold (total rs) in Hsum.
    assert (0 <= total rs) as Hnn.
    { clear -Hrs. induction Hrs; cbn; [lia|]. fold (total l). lia. }
    cbn [length]. rewrite write_loop_S. case_decide as Hlt.
    + rewrite write_scripted. rewrite decide_False by lia.
      destruct (IH (bytesWritten + r) input
                  (out ++ take (Z.to_nat r)
                            (take (Z.to_nat (toWrite - bytesWritten))
                               (drop (Z.to_nat bytesWritten) buffer)))
                  Hrs ltac:(lia) ltac:(lia) Hlen) as [rs' ->].
      exists rs'. do 3 f_equal. rewrite <- app_assoc. f_equal.
      rewrite take_take, Nat.min_l by lia.
      replace (Z.to_nat (bytesWritten + r))
        with (Z.to_nat bytesWritten + Z.to_nat r)%nat by lia.
      rewrite <- drop_drop, take_take_drop. f_equal. lia.
    + exists (r :: rs). replace (toWrite - bytesWritten) with 0 by lia.
      cbn. by rewrite app_nil_r.
Qed.

(** A write that fails before everything is sent ends the process. *)
Lemma write_loop_failed toWrite buffer : forall rs fuel bytesWritten input out rest,
  Forall (fun r => 0 <= r) rs ->
  0 <= bytesWritten ->
  bytesWritten + total rs < toWrite ->
  (length rs < fuel)%nat ->
  write_loop fuel toWrite bytesWritten buffer
    (mkFd input out (rs ++ -1 :: rest)) = Some None.
Proof.
  induction rs as [|r rs IH]; intros fuel bytesWritten input out rest Hrs Hb Hsum Hf.
  - destruct fuel as [|fuel]; [simpl in Hf; lia|].
    rewrite write_loop_S. cbn in Hsum. rewrite decide_True by lia.
    cbn [app]. rewrite write_scripted. by rewrite decide_True.
  - apply Forall_cons in Hrs as [Hr Hrs]. cbn [total foldr] in Hsum.
    fold (total rs) in Hsum.
    assert (0 <= total rs) as Hnn.
    { clear -Hrs. induction Hrs; cbn; [lia|]. fold (total l). lia. }
    destruct fuel as [|fuel]; [simpl in Hf; lia|]. simpl in Hf.
    rewrite write_loop_S. rewrite decide_True by lia.
    rewrite <- app_comm_cons, write_scripted. rewrite decide_False by lia.
    apply IH; try done; lia.
Qed.

(** ** The reading loops of [main] *)

Lemma fill_S fuel limit bytesread data fd :
  fill (S fuel) limit bytesread data fd
  = if decide (bytesread < limit) then
      let '(b, got, fd') := read (Z.to_nat (limit - bytesread)) fd in
      if decide (b = 0) then Some (ClientGone fd')
      else if decide (b = -1) then Some (ClientGone fd')
      else if decide (bytesread + b <= Z.of_nat (length data))
      then fill fuel limit (bytesread + b)
             (store (Z.to_nat bytesread) got data) fd'
      else Some Overrun
    else Some (Full bytesread data fd).
Proof. done. Qed.

Lemma fill_end fuel limit bytesread data fd :
  limit <= bytesread ->
  fill fuel limit bytesread data fd = Some (Full bytesread data fd).
Proof. intros Hle. destruct fuel; cbn; by rewrite decide_False by lia. Qed.

Lemma nonempty_length {A} (c : list A) : c ≠ [] -> (0 < length c)%nat.
Proof. destruct c; [done | simpl; lia]. Qed.

(** The loop takes the bytes it waits for out of the chunks, in whatever
    pieces they arrive, and leaves what follows them on the socket. *)
Lemma fill_chunks limit : forall chunks fuel bytesread data tail out wr m more,
  Forall (fun c => c ≠ []) chunks ->
  concat chunks = m ++ more ->
  0 <= bytesread ->
  bytesread + Z.of_nat (length m) = limit ->
  limit <= Z.of_nat (length data) ->
  (length m <= fuel)%nat ->
  exists chunks',
    fill fuel limit bytesread data (mkFd ((Chunk <$> chunks) ++ tail) out wr)
    = Some (Full limit (store (Z.to_nat bytesread) m data)
              (mkFd ((Chunk <$> chunks') ++ tail) out wr)) /\
    concat chunks' = more /\ Forall (fun c => c ≠ []) chunks'.
Proof.
  induction chunks as [|c cs IH];
    intros fuel bytesread data tail out wr m more Hne Hcat Hb Hlim Hdata Hfuel.
  - symmetry in Hcat. apply app_eq_nil in Hcat as [-> ->].
    exists []. rewrite fill_end by (simpl in Hlim; lia).
    rewrite store_nil. simpl in Hlim. replace limit with bytesread by lia. done.
  - destruct (decide (m = [])) as [-> | Hm].
    { exists (c :: cs). rewrite fill_end by (simpl in Hlim; lia).
      rewrite store_nil. simpl in Hlim. replace limit with bytesread by lia. done. }
    apply nonempty_length in Hm.
    apply Forall_cons in Hne as [Hc Hne]. apply nonempty_length in Hc.
    destruct fuel as [|fuel]; [lia|].
    rewrite fill_S, decide_True by lia.
    replace (limit - bytesread) with (Z.of_nat (length m)) by lia.
    rewrite Nat2Z.id. cbn [fmap list_fmap app]. fold (fmap (M := list) Chunk cs).
    simpl in Hcat.
    destruct (decide (length c <= length m)%nat) as [Hle | Hgt].
    + rewrite read_chunk_whole by done.
      rewrite !decide_False by lia. rewrite decide_True by lia.
      assert (c = take (length c) m) as Hc1.
      { rewrite <- (take_app_length c (concat cs)) at 1.
        rewrite Hcat. by rewrite take_app_le. }
      assert (concat cs = drop (length c) m ++ more) as Hc2.
      { rewrite <- (drop_app_length c (concat cs)).
        rewrite Hcat. by rewrite drop_app_le. }
      assert (length (drop (length c) m) = (length m - length c)%nat) as Hl
        by apply length_drop.
      destruct (IH fuel (bytesread + Z.of_nat (length c))
                  (store (Z.to_nat bytesread) c data) tail out wr
                  (drop (length c) m) more Hne Hc2) as (chunks' & -> & Hmore & Hne');
        try lia.
      { rewrite length_store; lia. }
      exists chunks'. split; [|done]. do 2 f_equal.
      replace (Z.to_nat (bytesread + Z.of_nat (length c)))
        with (Z.to_nat bytesread + length c)%nat by lia.
      rewrite store_app by lia. f_equal.
      rewrite Hc1 at 1. apply take_drop.
    + apply not_le in Hgt.
      rewrite read_chunk_part by lia.
      rewrite decide_False by lia. rewrite decide_False by lia.
      rewrite decide_True by lia.
      rewrite fill_end by lia.
      assert (take (length m) c = m) as Hm1.
      { transitivity (take (length m) (c ++ concat cs));
          [by rewrite take_app_le by lia | by rewrite Hcat, take_app_length]. }
      exists (drop (length m) c :: cs). split; [|split].
      * rewrite Hm1. do 2 f_equal. lia.
      * simpl. transitivity (drop (length m) (c ++ concat cs));
          [by rewrite drop_app_le by lia | by rewrite Hcat, drop_app_length].
      * apply Forall_cons. split; [|done].
        intros Hnil. apply (f_equal length) in Hnil.
        rewrite length_drop in Hnil. simpl in Hnil. lia.
Qed.

(** When the client closes the socket, or a read fails, before the bytes
    are there, the loop ends at [done]. *)
Lemma fill_gone limit : forall chunks fuel bytesread data tail out wr,
  Forall (fun c => c ≠ []) chunks ->
  0 <= bytesread ->
  bytesread + Z.of_nat (length (concat chunks)) < limit ->
  bytesread + Z.of_nat (length (concat chunks)) <= Z.of_nat (length data) ->
  (length chunks < fuel)%nat ->
  tail = [] \/ (exists rest, tail = ReadError :: rest) ->
  fill fuel limit bytesread data (mkFd ((Chunk <$> chunks) ++ tail) out wr)
  = Some (ClientGone (mkFd (drop 1 tail) out wr)).
Proof.
  induction chunks as [|c cs IH];
    intros fuel bytesread data tail out wr Hne Hb Hlim Hdata Hfuel Htail.
  - destruct fuel as [|fuel]; [simpl in Hfuel; lia|].
    simpl in Hlim. rewrite fill_S, decide_True by lia. cbn [fmap list_fmap app].
    destruct Htail as [-> | [rest ->]]; cbn; [by rewrite decide_True|].
    rewrite decide_False by done. by rewrite decide_True.
  - apply Forall_cons in Hne as [Hc Hne]. apply nonempty_length in Hc.
    simpl in Hlim, Hdata, Hfuel. rewrite length_app in Hlim, Hdata.
    destruct fuel as [|fuel]; [lia|].
    rewrite fill_S, decide_True by lia.
    cbn [fmap list_fmap app]. fold (fmap (M := list) Chunk cs).
    rewrite read_chunk_whole by lia.
    rewrite !decide_False by lia. rewrite decide_True by lia.
    apply IH; try done; try lia.
    rewrite length_store; lia.
Qed.

Lemma input_size_chunks chunks tail out wr :
  (length (concat chunks) + length chunks
   <= input_size (mkFd ((Chunk <$> chunks) ++ tail) out wr))%nat.
Proof.
  unfold input_size. cbn [fd_in].
  induction chunks as [|c cs IH]; simpl; [lia|].
  rewrite length_app. unfold fmap in IH. lia.
Qed.

(** ** Sizes on the wire *)

Lemma ntohl_nonneg bs : 0 <= ntohl bs.
Proof.
  unfold ntohl. assert (forall acc, 0 <= acc ->
    0 <= fold_left (fun acc b => Z.lor (Z.shiftl acc 8) (b mod 256)) bs acc)
    as Hfold; [|by apply Hfold].
  induction bs as [|b bs IH]; intros acc Hacc; [done|].
  cbn [fold_left]. apply IH. apply Z.lor_nonneg. split.
  - by apply Z.shiftl_nonneg.
  - apply Z.mod_pos_bound. lia.
Qed.

Lemma to_int32_bound u : - 2^31 <= to_int32 u < 2^31.
Proof.
  unfold to_int32. cbv zeta.
  pose proof (Z.mod_pos_bound u (2^32) ltac:(lia)).
  destruct (u mod 2^32 <? 2^31) eqn:Hlt.
  - apply Z.ltb_lt in Hlt. lia.
  - apply Z.ltb_ge in Hlt. lia.
Qed.

Lemma to_int32_le u : 0 <= u -> 0 <= to_int32 u -> to_int32 u <= u.
Proof.
  intros Hu. unfold to_int32. cbv zeta.
  pose proof (Z.mod_pos_bound u (2^32) ltac:(lia)).
  pose proof (Z.mod_le u (2^32) Hu ltac:(lia)).
  destruct (u mod 2^32 <? 2^31); lia.
Qed.

(** ** A turn of the message loop *)

Section Main.
Context {Engine : Type} `{EngineOps Engine}.
Variable simple_handler : SimpleCommand -> ipc_command -> IPC Engine -> Z * IPC Engine.
Variable direct_handler : DirectCommand -> ipc_command -> IPC Engine -> IPC Engine.
Variable NDEBUG : bool.

Lemma main_turn_message max data chunks tail out wr engine terminate m more :
  Z.of_nat (length data) = max ->
  4 <= max ->
  Forall (fun c => c ≠ []) chunks ->
  concat chunks = m ++ more ->
  to_int32 (ntohl (take 4 m)) = Z.of_nat (length m) ->
  (8 <= length m)%nat ->
  exists chunks',
    concat chunks' = more /\
    Forall (fun c => c ≠ []) chunks' /\
    main_turn simple_handler direct_handler NDEBUG max data
      (mkIPC (mkFd ((Chunk <$> chunks) ++ tail) out wr) engine terminate)
    = match execute simple_handler direct_handler
              (ipc_command_at (m ++ drop (length m) data))
              (mkIPC (mkFd ((Chunk <$> chunks') ++ tail) out wr)
                 engine terminate) with
      | Exit => Some ProcessExited
      | Continue terminate voltipc' =>
          if terminate then Some (Done voltipc')
          else Some (NextMessage (Z.max max (Z.of_nat (length m)))
                       (m ++ drop (length m) data) voltipc')
      end.
Proof.
  intros Hdata Hmax Hne Hcat Hsize Hlen.
  pose proof (to_int32_bound (ntohl (take 4 m))) as Hbound.
  assert (length (take 4 m) = 4%nat) as Hl4 by (rewrite length_take; lia).
  assert (length (drop 4 m) = (length m - 4)%nat) as Hld by apply length_drop.
  unfold main_turn. cbn [m_fd m_engine m_terminate].
  (* the header *)
  destruct (fill_chunks 4 chunks
              (S (input_size (mkFd ((Chunk <$> chunks) ++ tail) out wr)))
              0 data tail out wr (take 4 m) (drop 4 m ++ more) Hne)
    as (chunks1 & -> & Hcat1 & Hne1); try lia.
  { by rewrite app_assoc, take_drop. }
  { pose proof (input_size_chunks chunks tail out wr) as Hin.
    rewrite Hcat, length_app in Hin. lia. }
  change (Z.to_nat 0) with 0%nat. rewrite store_0.
  rewrite take_app_length' by done. rewrite Hsize, Hl4.
  (* the body *)
  set (data2 := if decide (Z.of_nat (length m) > max)
                then (Z.of_nat (length m),
                      store 0 (take 4 m)
                        (replicate (Z.to_nat (Z.of_nat (length m))) 0))
                else (max, take 4 m ++ drop 4 data)).
  pose (buf := (if decide (Z.of_nat (length m) > max)
                then replicate (length m) 0 else data) : list byte).
  assert (data2 = (Z.max max (Z.of_nat (length m)),
                   store 0 (take 4 m) buf)) as ->.
  { unfold data2, buf. case_decide.
    - rewrite Nat2Z.id. f_equal. lia.
    - rewrite store_0, Hl4. f_equal. lia. }
  assert (length m <= length buf)%nat as Hbuf.
  { unfold buf, byte in *. case_decide; [rewrite length_replicate|]; lia. }
  assert (drop (length m) buf = drop (length m) data) as Hrest.
  { unfold buf. case_decide; [|done].
    rewrite !drop_ge; [done | lia | rewrite length_replicate; lia]. }
  rewrite Z.mod_small by lia.
  destruct (fill_chunks (Z.of_nat (length m)) chunks1
              (S (input_size (mkFd ((Chunk <$> chunks1) ++ tail) out wr)))
              4 (store 0 (take 4 m) buf) tail out wr (drop 4 m) more Hne1 Hcat1)
    as (chunks2 & -> & Hcat2 & Hne2); try lia.
  { rewrite length_store; lia. }
  { pose proof (input_size_chunks chunks1 tail out wr) as Hin.
    rewrite Hcat1, length_app in Hin. lia. }
  replace (Z.to_nat 4) with (0 + length (take 4 m))%nat by (by rewrite Hl4).
  rewrite store_app by lia. rewrite take_drop, store_0, Hrest.
  (* the dispatch *)
  assert (bool_decide
            (ntohl (msgsize (ipc_command_at (m ++ drop (length m) data))) < 8)
          = false) as ->.
  { apply bool_decide_eq_false_2. cbn [ipc_command_at msgsize].
    rewrite take_app_le by lia.
    pose proof (ntohl_nonneg (take 4 m)).
    pose proof (to_int32_le (ntohl (take 4 m))). lia. }
  rewrite andb_false_r.
  exists chunks2. by repeat split.
Qed.

(** X18.  A turn of the loop takes one message off the socket, however the
    bytes are split into pieces, and no byte of what follows it: the
    command that [execute] runs starts with the bytes of the message, and
    behind them the buffer still holds what it held before.  The buffer
    grows to the size of the message when that is larger. *)
Theorem main_turn_reads_one_message
    max data chunks tail out wr engine terminate m more :
  Z.of_nat (length data) = max ->
  4 <= max ->
  Forall (fun c => c ≠ []) chunks ->
  concat chunks = m ++ more ->
  to_int32 (ntohl (take 4 m)) = Z.of_nat (length m) ->
  (8 <= length m)%nat ->
  exists chunks',
    concat chunks' = more /\
    main_turn simple_handler direct_handler NDEBUG max data
      (mkIPC (mkFd ((Chunk <$> chunks) ++ tail) out wr) engine terminate)
    = match execute simple_handler direct_handler
              (mk_ipc_command (take 4 m) (take 4 (drop 4 m))
                 (drop 8 m ++ drop (length m) data))
              (mkIPC (mkFd ((Chunk <$> chunks') ++ tail) out wr)
                 engine terminate) with
      | Exit => Some ProcessExited
      | Continue terminate voltipc' =>
          if terminate then Some (Done voltipc')
          else Some (NextMessage (Z.max max (Z.of_nat (length m)))
                       (m ++ drop (length m) data) voltipc')
      end.
Proof.
  intros Hdata Hmax Hne Hcat Hsize Hlen.
  destruct (main_turn_message max data chunks tail out wr engine terminate
              m more Hdata Hmax Hne Hcat Hsize Hlen)
    as (chunks' & Hmore & _ & ->).
  exists chunks'. split; [done|]. unfold ipc_command_at.
  rewrite take_app_le by lia.
  rewrite !drop_app_le by lia.
  rewrite take_app_le by (rewrite length_drop; lia).
  done.
Qed.

(** X19.  A message that stops short is not executed: when the client closes
    the socket, or a read fails, before four bytes of size have come, or
    before as many bytes have come as the size announces, the loop ends
    at [done] with the engine untouched and nothing written. *)
Theorem main_turn_incomplete_message_is_not_executed
    max data chunks tail out wr engine terminate :
  Z.of_nat (length data) = max ->
  4 <= max ->
  Forall (fun c => c ≠ []) chunks ->
  tail = [] \/ (exists rest, tail = ReadError :: rest) ->
  let got := concat chunks in
  (length got < 4)%nat \/
  Z.of_nat (length got) < to_int32 (ntohl (take 4 got)) ->
  main_turn simple_handler direct_handler NDEBUG max data
    (mkIPC (mkFd ((Chunk <$> chunks) ++ tail) out wr) engine terminate)
  = Some (Done (mkIPC (mkFd (drop 1 tail) out wr) engine terminate)).
Proof.
  intros Hdata Hmax Hne Htail got Hshort.
  unfold main_turn. cbn [m_fd m_engine m_terminate].
  destruct (decide (length got < 4)%nat) as [Hlt | Hge].
  - rewrite (fill_gone 4 chunks); try done; try (fold got; lia).
    pose proof (input_size_chunks chunks tail out wr). lia.
  - destruct Hshort as [? | Hshort]; [lia|].
    pose proof (to_int32_bound (ntohl (take 4 got))) as Hbound.
    assert (length (take 4 got) = 4%nat) as Hl4 by (rewrite length_take; lia).
    destruct (fill_chunks 4 chunks
                (S (input_size (mkFd ((Chunk <$> chunks) ++ tail) out wr)))
                0 data tail out wr (take 4 got) (drop 4 got) Hne)
      as (chunks1 & -> & Hcat1 & Hne1); try lia.
    { by rewrite take_drop. }
    { pose proof (input_size_chunks chunks tail out wr) as Hin.
      fold got in Hin. lia. }
    change (Z.to_nat 0) with 0%nat. rewrite store_0.
    rewrite take_app_length' by done. rewrite Hl4.
    set (n := to_int32 (ntohl (take 4 got))) in *.
    assert (length (concat chunks1) = (length got - 4)%nat) as Hl1
      by (rewrite Hcat1; apply length_drop).
    rewrite Z.mod_small by lia.
    pose proof (input_size_chunks chunks1 tail out wr) as Hin.
    case_decide.
    + rewrite (fill_gone n chunks1); try done; try lia.
      rewrite length_store by (rewrite length_replicate; lia).
      rewrite length_replicate. lia.
    + rewrite (fill_gone n chunks1); try done; try lia.
      rewrite length_app, length_drop. lia.
Qed.

(** X20.  A message whose size field says four bytes or fewer is its size
    field alone.  With assertions compiled in, the turn ends in a failed
    assertion; with assertions compiled out, [execute] runs on the size
    field followed by what the buffer held before: the command code and
    the payload of the message before it, which is so executed again. *)
Theorem main_turn_message_without_command
    max data chunks tail out wr engine terminate sz more :
  Z.of_nat (length data) = max ->
  4 <= max ->
  Forall (fun c => c ≠ []) chunks ->
  concat chunks = sz ++ more ->
  length sz = 4%nat ->
  ntohl sz <= 4 ->
  exists chunks',
    concat chunks' = more /\
    main_turn simple_handler direct_handler NDEBUG max data
      (mkIPC (mkFd ((Chunk <$> chunks) ++ tail) out wr) engine terminate)
    = if NDEBUG then
        match execute simple_handler direct_handler
                (mk_ipc_command sz (take 4 (drop 4 data)) (drop 8 data))
                (mkIPC (mkFd ((Chunk <$> chunks') ++ tail) out wr)
                   engine terminate) with
        | Exit => Some ProcessExited
        | Continue terminate voltipc' =>
            if terminate then Some (Done voltipc')
            else Some (NextMessage max (sz ++ drop 4 data) voltipc')
        end
      else Some AssertFailed.
Proof.
  intros Hdata Hmax Hne Hcat Hsz Hsmall.
  pose proof (ntohl_nonneg sz) as Hnn.
  assert (to_int32 (ntohl sz) = ntohl sz) as Hsize.
  { unfold to_int32. cbv zeta. rewrite Z.mod_small by lia.
    by rewrite (proj2 (Z.ltb_lt _ _)) by lia. }
  unfold main_turn. cbn [m_fd m_engine m_terminate].
  destruct (fill_chunks 4 chunks
              (S (input_size (mkFd ((Chunk <$> chunks) ++ tail) out wr)))
              0 data tail out wr sz more Hne Hcat)
    as (chunks1 & -> & Hcat1 & Hne1); try lia.
  { pose proof (input_size_chunks chunks tail out wr) as Hin.
    rewrite Hcat, length_app in Hin. lia. }
  change (Z.to_nat 0) with 0%nat. rewrite store_0, Hsz.
  rewrite take_app_length' by done. rewrite Hsize.
  rewrite decide_False by lia.
  rewrite Z.mod_small by lia. rewrite fill_end by lia.
  exists chunks1. split; [done|].
  assert (bool_decide (ntohl (msgsize (ipc_command_at (sz ++ drop 4 data))) < 8)
          = true) as ->.
  { apply bool_decide_eq_true_2. cbn [ipc_command_at msgsize].
    rewrite take_app_length' by done. lia. }
  rewrite andb_true_r.
  destruct NDEBUG; cbn [negb]; [|done].
  unfold ipc_command_at.
  rewrite take_app_length' by done.
  replace (drop 4 (sz ++ drop 4 data)) with (drop 4 data)
    by (by rewrite drop_app_length').
  replace (drop 8 (sz ++ drop 4 data)) with (drop 8 data).
  2:{ change 8%nat with (4 + 4)%nat. rewrite <- (drop_drop (sz ++ _)).
      rewrite drop_app_length' by done. by rewrite drop_drop. }
  done.
Qed.


End Main.

(** ** Two catalogs in a row *)


Lemma c_string_zeros n : c_string (replicate n 0) = [].
Proof. destruct n; [done|]. cbn. by rewrite decide_True. Qed.

Section Catalogs.
Variable simple_handler :
  SimpleCommand -> ipc_command -> IPC (list EngineCall) -> Z * IPC (list EngineCall).
Variable direct_handler :
  DirectCommand -> ipc_command -> IPC (list EngineCall) -> IPC (list EngineCall).
Variable NDEBUG : bool.



End Catalogs.


(** A message of nine bytes that comes in three pieces, the last of
    which holds the first byte of the next message. *)
Lemma main_turn_reads_one_message_witness :
  exists chunks',
    concat chunks' = [66] /\
    main_turn (Engine := list EngineCall)
      (fun _ _ ipc => (kErrorCode_Success, ipc)) (fun _ _ ipc => ipc) false
      16 (replicate 16 0)
      (mkIPC (mkFd ((Chunk <$> [[0; 0]; [0; 9; 0; 0]; [0; 2; 65; 66]]) ++ [])
                [] []) (Some []) false)
    = Some (NextMessage 16 ([0; 0; 0; 9; 0; 0; 0; 2; 65] ++ replicate 7 0)
              (mkIPC (mkFd ((Chunk <$> chunks') ++ []) [kErrorCode_Success] [])
                 (Some [CallLoadCatalog [65]]) false)).
Proof.
  destruct (main_turn_reads_one_message (Engine := list EngineCall)
              (fun _ _ ipc => (kErrorCode_Success, ipc)) (fun _ _ ipc => ipc)
              false 16 (replicate 16 0) [[0; 0]; [0; 9; 0; 0]; [0; 2; 65; 66]]
              [] [] [] (Some []) false [0; 0; 0; 9; 0; 0; 0; 2; 65] [66])
    as (chunks' & Hmore & Hturn).
  - reflexivity.
  - lia.
  - repeat constructor; done.
  - reflexivity.
  - reflexivity.
  - simpl. lia.
  - exists chunks'. split; [exact Hmore|]. rewrite Hturn. reflexivity.
Defined.

(** The buffer holds the catalog message [A] that was executed before;
    a size field of four comes, and the catalog [A] is loaded again. *)
Lemma main_turn_message_without_command_witness :
  exists chunks',
    concat chunks' = [] /\
    main_turn (Engine := list EngineCall)
      (fun _ _ ipc => (kErrorCode_Success, ipc)) (fun _ _ ipc => ipc) true
      16 ([0; 0; 0; 9; 0; 0; 0; 2; 65] ++ replicate 7 0)
      (mkIPC (mkFd ((Chunk <$> [[0; 0]; [0; 4]]) ++ []) [] [])
         (Some [CallLoadCatalog [65]]) false)
    = Some (NextMessage 16 ([0; 0; 0; 4; 0; 0; 0; 2; 65] ++ replicate 7 0)
              (mkIPC (mkFd ((Chunk <$> chunks') ++ []) [kErrorCode_Success] [])
                 (Some [CallLoadCatalog [65]; CallLoadCatalog [65]]) false)).
Proof.
  destruct (main_turn_message_without_command (Engine := list EngineCall)
              (fun _ _ ipc => (kErrorCode_Success, ipc)) (fun _ _ ipc => ipc)
              true 16 ([0; 0; 0; 9; 0; 0; 0; 2; 65] ++ replicate 7 0)
              [[0; 0]; [0; 4]] [] [] [] (Some [CallLoadCatalog [65]]) false
              [0; 0; 0; 4] [])
    as (chunks' & Hmore & Hturn).
  - reflexivity.
  - lia.
  - repeat constructor; done.
  - reflexivity.
  - reflexivity.
  - vm_compute. discriminate.
  - exists chunks'. split; [exact Hmore|]. rewrite Hturn. reflexivity.
Defined.

(** The size announces nine bytes; six come, and the socket is closed. *)
Lemma main_turn_incomplete_message_is_not_executed_witness :
  main_turn (Engine := list EngineCall)
    (fun _ _ ipc => (kErrorCode_Success, ipc)) (fun _ _ ipc => ipc) false
    16 (replicate 16 0)
    (mkIPC (mkFd ((Chunk <$> [[0; 0; 0; 9]; [0; 0]]) ++ []) [] [])
       (Some []) false)
  = Some (Done (mkIPC (mkFd (drop 1 []) [] []) (Some []) false)).
Proof.
  refine (main_turn_incomplete_message_is_not_executed (Engine := list EngineCall)
            _ _ false 16 (replicate 16 0) [[0; 0; 0; 9]; [0; 0]] [] [] []
            (Some []) false eq_refl _ _ (or_introl eq_refl) _).
  - lia.
  - repeat constructor; done.
  - right. vm_compute. reflexivity.
Defined.

(** ** [cowSerializeMore] *)

Lemma total_nonneg rs : Forall (fun r => 0 <= r) rs -> 0 <= total rs.
Proof. induction 1; cbn; [lia|]. fold (total l). lia. Qed.

Lemma reply_in_buffer serialized out buffer :
  (5 + length out <= length buffer)%nat ->
  let buffer' :=
    store 1 (htonl serialized)
      (store 0 [kErrorCode_Success] (store 5 out buffer)) in
  length buffer' = length buffer /\
  take (length out + 5) buffer' = kErrorCode_Success :: htonl serialized ++ out.
Proof.
  intros Hlen.
  destruct buffer as [|b0 [|b1 [|b2 [|b3 [|b4 rest]]]]]; try (simpl in Hlen; lia).
  simpl in Hlen. unfold store, htonl. cbn [take drop app length Nat.add].
  rewrite drop_0, take_0. cbn [app].
  split.
  - rewrite length_app, length_drop. lia.
  - replace (length out + 5)%nat with (5 + length out)%nat by lia.
    cbn [Nat.add take]. by rewrite take_app_length.
Qed.

Section CowSerializeMore.
Context {Engine : Type}.
Variable engine_cowSerializeMore : Z -> Z -> Engine -> Z * list byte * Engine.
Variable NDEBUG : bool.

(** X22.  The reply to a snapshot request is the status byte [Success], the
    count the engine returned and the bytes it serialised (none when the
    count is -1).  However the socket splits the writes, the whole reply
    is sent; a write that fails before the reply is out ends the
    process. *)
Theorem cowSerializeMore_sends_whole_reply
    cmd buffer input written rs e terminate serialized out e' :
  let tableId := to_int32 (ntohl (take 4 (data cmd))) in
  let bufferLength := to_int32 (ntohl (take 4 (drop 4 (data cmd)))) in
  bufferLength < MAX_MSG_SZ - 5 ->
  engine_cowSerializeMore tableId bufferLength e = (serialized, out, e') ->
  Z.of_nat (length out) = (if decide (serialized = -1) then 0 else serialized) ->
  (5 + length out <= length buffer)%nat ->
  let reply := kErrorCode_Success :: htonl serialized ++ out in
  let ipc := mkIPC (mkFd input written rs) (Some e) terminate in
  (Forall (fun r => 0 <= r) rs ->
   total rs <= Z.of_nat (length reply) ->
   exists buffer' rs',
     cowSerializeMore engine_cowSerializeMore NDEBUG cmd buffer ipc
     = Some (Replied (buffer',
                      mkIPC (mkFd input (written ++ reply) rs') (Some e')
                            terminate))) /\
  (forall rs1 rest,
     rs = rs1 ++ -1 :: rest ->
     Forall (fun r => 0 <= r) rs1 ->
     total rs1 < Z.of_nat (length reply) ->
     cowSerializeMore engine_cowSerializeMore NDEBUG cmd buffer ipc
     = Some Exited).
Proof.
  intros tableId bufferLength Hsmall Hengine Hcount Hfits reply ipc.
  destruct (reply_in_buffer serialized out buffer Hfits) as [Hlen Hreply].
  set (buffer' := store 1 (htonl serialized)
                    (store 0 [kErrorCode_Success] (store 5 out buffer)))
    in Hlen, Hreply.
  assert (Z.of_nat (length reply) = Z.of_nat (length out) + 5) as Hrl.
  { unfold reply, htonl, byte. cbn [length app]. lia. }
  assert (cowSerializeMore engine_cowSerializeMore NDEBUG cmd buffer ipc
            = match write_loop (S (length rs)) (Z.of_nat (length out) + 5) 0
                      buffer' (mkFd input written rs) with
              | None => None
              | Some None => Some Exited
              | Some (Some fd2) =>
                  Some (Replied (buffer', mkIPC fd2 (Some e') terminate))
              end) as Hrun.
  { unfold cowSerializeMore.
    fold tableId bufferLength.
    rewrite bool_decide_eq_true_2 by done. rewrite andb_false_r.
    rewrite decide_False by lia. cbn [m_engine ipc m_fd fd_wr m_terminate].
    rewrite Hengine. fold buffer'. rewrite <- Hcount. done. }
  split.
  - intros Hrs Hsum. rewrite Hrun.
    destruct (write_loop_partial (Z.of_nat (length out) + 5) buffer' rs 0
                input written Hrs ltac:(lia) ltac:(lia) ltac:(lia)) as [rs' ->].
    exists buffer', rs'. do 5 f_equal.
    rewrite drop_0, Z.sub_0_r.
    replace (Z.to_nat (Z.of_nat (length out) + 5)) with (length out + 5)%nat by lia.
    by rewrite Hreply.
  - intros rs1 rest -> Hrs1 Hsum. rewrite Hrun.
    rewrite write_loop_failed; try done; try lia.
    rewrite length_app. cbn. lia.
Qed.

End CowSerializeMore.

(** A request for table 7 with room for 16 bytes; the engine serialises
    three bytes, and the socket takes the reply in pieces of 2, 0 and 3
    bytes and then the rest. *)
Lemma cowSerializeMore_sends_whole_reply_witness :
  exists buffer' rs',
    cowSerializeMore (Engine := nat)
      (fun tableId bufferLength e => (3, [7; 8; 9], S e)) false
      (mk_ipc_command [0; 0; 0; 16] [0; 0; 0; 18] [0; 0; 0; 7; 0; 0; 0; 16])
      (replicate 32 0)
      (mkIPC (mkFd [] [] [2; 0; 3]) (Some 0%nat) false)
    = Some (Replied (buffer',
                     mkIPC (mkFd [] ([] ++ [2; 0; 0; 0; 3; 7; 8; 9]) rs')
                           (Some 1%nat) false)).
Proof.
  refine (proj1 (cowSerializeMore_sends_whole_reply
                   (fun tableId bufferLength e => (3, [7; 8; 9], S e)) false
                   (mk_ipc_command [0; 0; 0; 16] [0; 0; 0; 18]
                      [0; 0; 0; 7; 0; 0; 0; 16])
                   (replicate 32 0) [] [] [2; 0; 3] 0%nat false 3 [7; 8; 9]
                   1%nat _ eq_refl eq_refl _) _ _).
  - vm_compute. reflexivity.
  - vm_compute. lia.
  - repeat constructor; lia.
  - vm_compute. discriminate.
Defined.

End IPCServer_Props.
